(** * Originium Circuitry: shape library, solver and generator

    A shallow embedding of [shapes.js], of the solver ([runSolver],
    [runFitAllPiecesSolver], [runSolverWithShapeCounts]) and of the puzzle
    generator ([PuzzleGenerator]), with the properties of the specification
    stated and settled against it.

    Conventions of the embedding.
    - JavaScript numbers that hold row and column indices are integers; they
      are modelled by [Z].  A cell [[r, c]] is a pair; the string key
      [`${r},${c}`] of a cell is an injective encoding of the pair, so a
      [Set] of keys is a duplicate-free list of cells kept in insertion order
      (the order [Array.from] reads it back).
    - A JavaScript object used as a map is an association list in
      [Object.entries] order.
    - A function of the model returns [None] where the source does not
      return: a [TypeError] ([undefined] dereferenced), a [RangeError], or a
      loop that never ends.  Array writes outside the array (which the source
      turns into [NaN] entries) are outside the model and also give [None].
    - [Math.random] is an explicit stream of draws threaded through the
      generator. *)

From Stdlib Require Import ZArith List String Bool Lia Permutation Sorted Arith.
Import ListNotations.
Local Open Scope string_scope.
Local Open Scope list_scope.
Local Open Scope Z_scope.

(** ** Small prelude: the option monad and JavaScript array reads *)

Notation "x <- e ;; k" := (match e with Some x => k | None => None end)
  (at level 61, e at next level, right associativity, only parsing).

Definition Cell := (Z * Z)%type.

Definition cell_eqb (a b : Cell) : bool :=
  (fst a =? fst b) && (snd a =? snd b).

(** [set.has(key)] *)
Definition has (s : list Cell) (x : Cell) : bool := existsb (cell_eqb x) s.

(** [set.add(key)]: a new key goes to the end, a present one stays. *)
Definition set_add (s : list Cell) (x : Cell) : list Cell :=
  if has s x then s else s ++ [x].

(** [set.delete(key)] *)
Definition set_delete (s : list Cell) (x : Cell) : list Cell :=
  filter (fun y => negb (cell_eqb x y)) s.

(** [new Set(cells.map(([r, c]) => `${r},${c}`))] *)
Definition new_Set (cells : list Cell) : list Cell := fold_left set_add cells [].

(** [for (let i = 0; i < n; i++)]: the indices visited. *)
Definition range (n : Z) : list Z := map Z.of_nat (seq 0 (Z.to_nat n)).

(** [arr[i]] for an integer [i]; [None] is [undefined]. *)
Definition get {A : Type} (arr : list A) (i : Z) : option A :=
  if i <? 0 then None else nth_error arr (Z.to_nat i).

(** [Math.min(...xs)] and [Math.max(...xs)]; [None] is the infinity the
    source gets for an empty list. *)
Definition Math_min (xs : list Z) : option Z :=
  match xs with
  | [] => None
  | x :: xs' => Some (fold_left Z.min xs' x)
  end.

Definition Math_max (xs : list Z) : option Z :=
  match xs with
  | [] => None
  | x :: xs' => Some (fold_left Z.max xs' x)
  end.

(** ** shapes.js *)

Module Shapes.

Record ShapeDefinition := mkDef { def_name : string; def_cells : list Cell }.

Definition SHAPE_DEFINITIONS : list (string * ShapeDefinition) :=
  [ ("square-4", mkDef "2x2 Square" [(0,0); (0,1); (1,0); (1,1)]);
    ("double-square-7",
       mkDef "Double Square" [(0,0); (0,1); (1,0); (1,1); (1,2); (2,1); (2,2)]);
    ("line-3", mkDef "3-Block Line" [(0,0); (0,1); (0,2)]);
    ("line-4", mkDef "4-Block Line" [(0,0); (0,1); (0,2); (0,3)]);
    ("L-3", mkDef "3-Block L" [(0,0); (1,0); (1,1)]);
    ("L-3-mirror", mkDef "3-Block L (Mirror)" [(0,1); (1,0); (1,1)]);
    ("L-4", mkDef "4-Block L" [(0,0); (1,0); (2,0); (2,1)]);
    ("L-4-mirror", mkDef "4-Block L (Mirror)" [(0,1); (1,1); (2,0); (2,1)]);
    ("L-5", mkDef "5-Block Big L" [(0,0); (1,0); (2,0); (2,1); (2,2)]);
    ("L-5-mirror",
       mkDef "5-Block Big L (Mirror)" [(0,2); (1,2); (2,0); (2,1); (2,2)]);
    ("T-4", mkDef "4-Block T" [(0,0); (0,1); (0,2); (1,1)]);
    ("T-6", mkDef "6-Block T" [(0,0); (1,0); (1,1); (1,2); (2,1); (3,1)]);
    ("T-6-mirror",
       mkDef "6-Block T (Mirror)" [(0,2); (1,0); (1,1); (1,2); (2,1); (3,1)]);
    ("cross-5", mkDef "5-Block Cross" [(0,1); (1,0); (1,1); (1,2); (2,1)]);
    ("J-6", mkDef "6-Block J" [(0,2); (1,0); (1,2); (2,0); (2,1); (2,2)]);
    ("J-6-mirror",
       mkDef "6-Block J (Mirror)" [(0,0); (1,0); (1,2); (2,0); (2,1); (2,2)]);
    ("zigzag-6",
       mkDef "6-Block Zigzag" [(0,1); (1,0); (1,1); (2,1); (2,2); (3,1)]);
    ("zigzag-6-mirror",
       mkDef "6-Block Zigzag (Mirror)" [(0,1); (1,1); (1,2); (2,0); (2,1); (3,1)]);
    ("Z-4", mkDef "4-Block Z" [(0,0); (0,1); (1,1); (1,2)]);
    ("Z-4-mirror", mkDef "4-Block Z (Mirror)" [(0,1); (0,2); (1,0); (1,1)]) ].

(** [rotateShape90]: (row, col) -> (col, -row), then shift so that the least
    row and the least column are 0.  On the empty list the two minima are
    infinite and never used: the final [map] runs over no cell. *)
Definition rotateShape90 (cells : list Cell) : list Cell :=
  let rotated := map (fun '(r, c) => (c, - r)) cells in
  match Math_min (map fst rotated), Math_min (map snd rotated) with
  | Some minRow, Some minCol =>
      map (fun '(r, c) => (r - minRow, c - minCol)) rotated
  | _, _ => []
  end.

(** [shapesEqual]: same length, same number of distinct keys, and every key
    of the first among the keys of the second. *)
Definition shapesEqual (shape1 shape2 : list Cell) : bool :=
  if negb (List.length shape1 =? List.length shape2)%nat then false
  else
    let set1 := new_Set shape1 in
    let set2 := new_Set shape2 in
    if negb (List.length set1 =? List.length set2)%nat then false
    else forallb (has set2) set1.

(** One turn of the loop of [getAllRotations]. *)
Definition rotation_step (acc : list (list Cell) * list Cell)
  : list (list Cell) * list Cell :=
  let '(rotations, current) := acc in
  let current' := rotateShape90 current in
  let isUnique := negb (existsb (fun existing => shapesEqual existing current') rotations) in
  (if isUnique then rotations ++ [current'] else rotations, current').

Definition getAllRotations (cells : list Cell) : list (list Cell) :=
  fst (rotation_step (rotation_step (rotation_step ([cells], cells)))).

Record Bounds := mkBounds {
  minRow : Z; maxRow : Z; minCol : Z; maxCol : Z; height : Z; width : Z }.

(** [getShapeBounds]; [None] for the empty cell list, where the source
    computes infinite bounds (and the enumeration loops that use them do not
    end). *)
Definition getShapeBounds (cells : list Cell) : option Bounds :=
  let rows := map fst cells in
  let cols := map snd cells in
  match Math_min rows, Math_max rows, Math_min cols, Math_max cols with
  | Some r0, Some r1, Some c0, Some c1 =>
      Some (mkBounds r0 r1 c0 c1 (r1 - r0 + 1) (c1 - c0 + 1))
  | _, _, _, _ => None
  end.

Record ShapeEntry := mkEntry {
  name : string;
  baseShape : list Cell;
  rotations : list (list Cell);
  cellCount : Z;
  isCustom : bool }.

Definition ShapeLibrary := list (string * ShapeEntry).

(** [library[id]] *)
Fixpoint lookup {A : Type} (id : string) (o : list (string * A)) : option A :=
  match o with
  | [] => None
  | (k, v) :: o' => if String.eqb id k then Some v else lookup id o'
  end.

(** [library[id] = v]: an existing key keeps its place, a new one is added
    last. *)
Fixpoint assign {A : Type} (id : string) (v : A) (o : list (string * A))
  : list (string * A) :=
  match o with
  | [] => [(id, v)]
  | (k, w) :: o' => if String.eqb id k then (k, v) :: o' else (k, w) :: assign id v o'
  end.

Definition makeEntry (custom : bool) (d : ShapeDefinition) : ShapeEntry :=
  mkEntry (def_name d) (def_cells d) (getAllRotations (def_cells d))
          (Z.of_nat (List.length (def_cells d))) custom.

(** [loadCustomShapesIntoLibrary]: [customShapes] is the object parsed from
    the [customShapes] item of localStorage (the empty object when the item
    is absent). *)
Definition loadCustomShapesIntoLibrary
    (customShapes : list (string * ShapeDefinition)) (library : ShapeLibrary)
  : ShapeLibrary :=
  fold_left (fun lib '(id, d) => assign id (makeEntry true d) lib) customShapes library.

Definition buildShapeLibrary (customShapes : list (string * ShapeDefinition))
  : ShapeLibrary :=
  let library :=
    fold_left (fun lib '(id, d) => assign id (makeEntry false d) lib)
              SHAPE_DEFINITIONS [] in
  loadCustomShapesIntoLibrary customShapes library.

(** [delete library[key]] *)
Definition delete_key {A : Type} (key : string) (o : list (string * A))
  : list (string * A) :=
  filter (fun kv => negb (String.eqb key (fst kv))) o.

(** [refreshShapeLibrary]: the properties of the library are deleted one by
    one, going through the keys it had at the start; the built-in shapes are
    stored again, then the custom ones.  The source works on the global
    [SHAPE_LIBRARY]; the embedding takes the library and returns it. *)
Definition refreshShapeLibrary (customShapes : list (string * ShapeDefinition))
    (library : ShapeLibrary) : ShapeLibrary :=
  let cleared := fold_left (fun lib key => delete_key key lib) (map fst library) library in
  let builtin :=
    fold_left (fun lib '(id, d) => assign id (makeEntry false d) lib)
              SHAPE_DEFINITIONS cleared in
  loadCustomShapesIntoLibrary customShapes builtin.

(** The library of a page without custom shapes. *)
Definition SHAPE_LIBRARY : ShapeLibrary := buildShapeLibrary [].

(** A cell list is normalized when its least row and least column are 0. *)
Definition normalized (cells : list Cell) : Prop :=
  Math_min (map fst cells) = Some 0 /\ Math_min (map snd cells) = Some 0.

Definition normalizedb (cells : list Cell) : bool :=
  match Math_min (map fst cells), Math_min (map snd cells) with
  | Some a, Some b => (a =? 0) && (b =? 0)
  | _, _ => false
  end.

End Shapes.

(** ** The solver *)

Module Solver.
Import Shapes.

(** A grid cell holds one of the strings ['empty'], ['blocked'],
    [`locked-${color}`] or the colour itself.  The four are kept apart: a
    colour called ['empty'], ['blocked'] or ['locked-...'] is outside the
    model. *)
Inductive CellState :=
| Empty
| Blocked
| LockedFor (color : string)
| FilledWith (color : string).

Definition is_blocked (s : option CellState) : bool :=
  match s with Some Blocked => true | _ => false end.

(** A requirement object [{green: n, blue: m}], keyed by colour. *)
Definition Req := list (string * Z).

Record Placement := mkPlacement {
  shapeId : string;
  rotationIndex : Z;
  cells : list Cell;
  cellSet : list Cell }.

(** The objects pushed by the per-colour searches; [usedShapeIndices] is
    [None] where the object has no such field. *)
Record ColorSolution := mkColorSolution {
  sol_placements : list Placement;
  sol_cells : list Cell;
  usedShapeIndices : option (list Z) }.

Record Solution := mkSolution {
  green : list Cell;
  blue : list Cell;
  greenPlacements : list Placement;
  bluePlacements : list Placement }.

Inductive Result :=
| Failure (message : string)
| Success (solutions : list Solution).

(** Everything a running solver call can reach by reference: the three
    objects received from the caller, and the arrays and sets the call
    allocates for its search. *)
Record Store := mkStore {
  gridState : list (list CellState);
  rowReqs : list Req;
  colReqs : list Req;
  solutions : list ColorSolution;
  rowCounts : list Z;
  colCounts : list Z;
  usedCells : list Cell;
  currentPlacements : list Placement;
  usedIndices : list Z }.

Definition initStore (g : list (list CellState)) (rr cr : list Req) : Store :=
  mkStore g rr cr [] [] [] [] [] [].

Definition with_solutions (v : list ColorSolution) (st : Store) : Store :=
  mkStore (gridState st) (rowReqs st) (colReqs st) v (rowCounts st)
          (colCounts st) (usedCells st) (currentPlacements st) (usedIndices st).

Definition with_rowCounts (v : list Z) (st : Store) : Store :=
  mkStore (gridState st) (rowReqs st) (colReqs st) (solutions st) v
          (colCounts st) (usedCells st) (currentPlacements st) (usedIndices st).

Definition with_colCounts (v : list Z) (st : Store) : Store :=
  mkStore (gridState st) (rowReqs st) (colReqs st) (solutions st) (rowCounts st)
          v (usedCells st) (currentPlacements st) (usedIndices st).

Definition with_usedCells (v : list Cell) (st : Store) : Store :=
  mkStore (gridState st) (rowReqs st) (colReqs st) (solutions st) (rowCounts st)
          (colCounts st) v (currentPlacements st) (usedIndices st).

Definition with_currentPlacements (v : list Placement) (st : Store) : Store :=
  mkStore (gridState st) (rowReqs st) (colReqs st) (solutions st) (rowCounts st)
          (colCounts st) (usedCells st) v (usedIndices st).

Definition with_usedIndices (v : list Z) (st : Store) : Store :=
  mkStore (gridState st) (rowReqs st) (colReqs st) (solutions st) (rowCounts st)
          (colCounts st) (usedCells st) (currentPlacements st) v.

(** [Array(n).fill(0)]; a negative length is a [RangeError]. *)
Definition Array_fill0 (n : Z) : option (list Z) :=
  if n <? 0 then None else Some (repeat 0 (Z.to_nat n)).

(** The locals that every per-colour search allocates afresh. *)
Definition fresh_locals (gridRows gridCols : Z) (st : Store) : option Store :=
  rc <- Array_fill0 gridRows ;;
  cc <- Array_fill0 gridCols ;;
  Some (mkStore (gridState st) (rowReqs st) (colReqs st) [] rc cc [] [] []).

(** [arr[i] += d] for an index inside the array; an index outside is
    outside the model. *)
Fixpoint bump (d : Z) (arr : list Z) (n : nat) : option (list Z) :=
  match arr, n with
  | [], _ => None
  | x :: arr', O => Some (x + d :: arr')
  | x :: arr', S n' => arr'' <- bump d arr' n' ;; Some (x :: arr'')
  end.

Definition add_at (d : Z) (arr : list Z) (i : Z) : option (list Z) :=
  if i <? 0 then None else bump d arr (Z.to_nat i).

(** *** Placement enumeration *)

(** The two inner loops of [generatePlacementsForShape] for one rotation. *)
Definition placementsOfRotation (shapeId : string) (rotIdx : Z)
    (rotation : list Cell) (b : Bounds) (gridRows gridCols : Z)
    (blockedSet : list Cell) : list Placement :=
  flat_map (fun startRow =>
    flat_map (fun startCol =>
      let cells := map (fun '(r, c) => (startRow + r, startCol + c)) rotation in
      let overlapsBlocked := existsb (has blockedSet) cells in
      if negb overlapsBlocked
      then [mkPlacement shapeId rotIdx cells (new_Set cells)]
      else [])
      (range (gridCols - width b + 1)))
    (range (gridRows - height b + 1)).

Fixpoint placementsOfRotations (shapeId : string) (rotIdx : Z)
    (rots : list (list Cell)) (gridRows gridCols : Z) (blockedSet : list Cell)
  : option (list Placement) :=
  match rots with
  | [] => Some []
  | rotation :: rots' =>
      bounds <- getShapeBounds rotation ;;
      more <- placementsOfRotations shapeId (rotIdx + 1) rots' gridRows gridCols blockedSet ;;
      Some (placementsOfRotation shapeId rotIdx rotation bounds gridRows gridCols blockedSet
              ++ more)
  end.

Definition generatePlacementsForShape (lib : ShapeLibrary) (shapeId : string)
    (gridRows gridCols : Z) (blockedSet : list Cell) : option (list Placement) :=
  shape <- lookup shapeId lib ;;
  placementsOfRotations shapeId 0 (rotations shape) gridRows gridCols blockedSet.

Fixpoint placementsOfShapes (lib : ShapeLibrary) (gridRows gridCols : Z)
    (blockedSet : list Cell) (ids : list string) : option (list Placement) :=
  match ids with
  | [] => Some []
  | shapeId :: ids' =>
      shapePlacements <- generatePlacementsForShape lib shapeId gridRows gridCols blockedSet ;;
      more <- placementsOfShapes lib gridRows gridCols blockedSet ids' ;;
      Some (shapePlacements ++ more)
  end.

Definition generateAllPlacements (lib : ShapeLibrary) (gridRows gridCols : Z)
    (blockedCells : list Cell) (enabledShapes : list string)
  : option (list Placement) :=
  placementsOfShapes lib gridRows gridCols (new_Set blockedCells) enabledShapes.

(** *** Count checks *)

(** [x !== req[color]] and [x > req[color]], where the requirement may be
    [undefined]. *)
Definition strict_neq (x : Z) (q : option Z) : bool :=
  match q with Some y => negb (x =? y) | None => true end.

Definition gt (x : Z) (q : option Z) : bool :=
  match q with Some y => y <? x | None => false end.

(** [req[color] > 0] *)
Definition positive_req (color : string) (q : Req) : bool :=
  match lookup color q with Some y => 0 <? y | None => false end.

(** One of the [for] loops of [countsMatch] and [countsExceed]: does some
    index satisfy [test]?  Reading past the end of [reqs] dereferences
    [undefined]. *)
Fixpoint some_index (test : Z -> option Z -> bool) (counts : list Z)
    (reqs : list Req) (color : string) : option bool :=
  match counts with
  | [] => Some false
  | x :: counts' =>
      match reqs with
      | [] => None
      | q :: reqs' =>
          if test x (lookup color q) then Some true
          else some_index test counts' reqs' color
      end
  end.

Definition countsMatch (rowCounts colCounts : list Z) (rowReqs colReqs : list Req)
    (color : string) : option bool :=
  r <- some_index strict_neq rowCounts rowReqs color ;;
  if r then Some false
  else
    c <- some_index strict_neq colCounts colReqs color ;;
    if c then Some false else Some true.

Definition countsExceed (rowCounts colCounts : list Z) (rowReqs colReqs : list Req)
    (color : string) : option bool :=
  r <- some_index gt rowCounts rowReqs color ;;
  if r then Some true
  else
    c <- some_index gt colCounts colReqs color ;;
    if c then Some true else Some false.

(** *** Per-colour search, free counts *)

(** [placement.cells.some(([r, c]) => usedCells.has(`${r},${c}`))] *)
Definition overlaps (set : list Cell) (p : Placement) : bool :=
  existsb (has set) (cells p).

(** The body of [for (const [r, c] of placement.cells)] when placing. *)
Definition mark_cell (st : Store) (rc : Cell) : option Store :=
  let '(r, c) := rc in
  rows <- add_at 1 (rowCounts st) r ;;
  cols <- add_at 1 (colCounts st) c ;;
  Some (with_colCounts cols (with_rowCounts rows
          (with_usedCells (set_add (usedCells st) (r, c)) st))).

Definition unmark_cell (st : Store) (rc : Cell) : option Store :=
  let '(r, c) := rc in
  rows <- add_at (-1) (rowCounts st) r ;;
  cols <- add_at (-1) (colCounts st) c ;;
  Some (with_colCounts cols (with_rowCounts rows
          (with_usedCells (set_delete (usedCells st) (r, c)) st))).

Fixpoint foldM {A S : Type} (f : S -> A -> option S) (l : list A) (s : S) : option S :=
  match l with
  | [] => Some s
  | x :: l' => s' <- f s x ;; foldM f l' s'
  end.

Definition place (p : Placement) (st : Store) : option Store :=
  foldM mark_cell (cells p)
        (with_currentPlacements (currentPlacements st ++ [p]) st).

Definition unplace (p : Placement) (st : Store) : option Store :=
  foldM unmark_cell (cells p)
        (with_currentPlacements (removelast (currentPlacements st)) st).

(** The snapshot pushed when the counts match. *)
Definition snapshot (st : Store) : ColorSolution :=
  mkColorSolution (currentPlacements st) (usedCells st) None.

(** The part of [backtrack] before its [for] loop; [rest] is the loop. *)
Definition backtrack_head (color : string) (rest : Store -> option Store)
    (st : Store) : option Store :=
  m <- countsMatch (rowCounts st) (colCounts st) (rowReqs st) (colReqs st) color ;;
  let st1 := if m then with_solutions (solutions st ++ [snapshot st]) st else st in
  if m && (100 <=? Z.of_nat (List.length (solutions st1))) then Some st1
  else
    e <- countsExceed (rowCounts st1) (colCounts st1) (rowReqs st1) (colReqs st1) color ;;
    if e then Some st1 else rest st1.

(** The [for] loop of [backtrack(startIdx)]; [ps] is
    [validPlacements.slice(startIdx)], so that the call [backtrack(i + 1)]
    runs on the placements after the current one. *)
Fixpoint backtrack_loop (color : string) (ps : list Placement) (st : Store)
  : option Store :=
  match ps with
  | [] => Some st
  | placement :: ps' =>
      if overlaps (usedCells st) placement then backtrack_loop color ps' st
      else
        st1 <- place placement st ;;
        st2 <- backtrack_head color (backtrack_loop color ps') st1 ;;
        st3 <- unplace placement st2 ;;
        if 100 <=? Z.of_nat (List.length (solutions st3)) then Some st3
        else backtrack_loop color ps' st3
  end.

Definition backtrack (color : string) (ps : list Placement) (st : Store)
  : option Store :=
  backtrack_head color (backtrack_loop color ps) st.

(** The sort key [Math.min(...p.cells.map(([r, c]) => r * 100 + c))];
    [None] is the infinity of a placement without cells. *)
Definition sortKey (p : Placement) : option Z :=
  Math_min (map (fun '(r, c) => r * 100 + c) (cells p)).

(** Is [aMin - bMin] at most zero?  (infinity minus infinity is [NaN],
    which [sort] reads as zero.) *)
Definition key_le (a b : option Z) : bool :=
  match a, b with
  | Some x, Some y => x <=? y
  | Some _, None => true
  | None, Some _ => false
  | None, None => true
  end.

(** [Array.prototype.sort] is stable: the result is the one arrangement in
    ascending key order that keeps equal keys in their former order.
    Insertion from the right computes it. *)
Fixpoint sort_insert (p : Placement) (l : list Placement) : list Placement :=
  match l with
  | [] => [p]
  | q :: l' =>
      if key_le (sortKey p) (sortKey q) then p :: q :: l'
      else q :: sort_insert p l'
  end.

Fixpoint sortByPosition (l : list Placement) : list Placement :=
  match l with
  | [] => []
  | p :: l' => sort_insert p (sortByPosition l')
  end.

Definition validPlacementsOf (placements : list Placement)
    (forbiddenCells : list Cell) : list Placement :=
  let forbiddenSet := new_Set forbiddenCells in
  sortByPosition (filter (fun p => negb (overlaps forbiddenSet p)) placements).

Definition solveForColor (color : string) (placements : list Placement)
    (gridRows gridCols : Z) (forbiddenCells : list Cell) (st : Store)
  : option (list ColorSolution * Store) :=
  let validPlacements := validPlacementsOf placements forbiddenCells in
  st0 <- fresh_locals gridRows gridCols st ;;
  st' <- backtrack color validPlacements st0 ;;
  Some (solutions st', st').

(** *** [runSolver] *)

(** The double loop that collects the blocked cells. *)
Definition blockedCellsOf (gridRows gridCols : Z) (gridState : list (list CellState))
  : option (list Cell) :=
  foldM (fun acc r =>
    foldM (fun acc c =>
      row <- get gridState r ;;
      Some (if is_blocked (get row c) then acc ++ [(r, c)] else acc))
      (range gridCols) acc)
    (range gridRows) [].

Definition hasReq (color : string) (rowReqs colReqs : list Req) : bool :=
  existsb (positive_req color) rowReqs || existsb (positive_req color) colReqs.

(** The inner [for (const blueSol of blueSolutions)] with its [break]. *)
Fixpoint pushCombined (greenSol : ColorSolution) (blueSolutions : list ColorSolution)
    (sols : list Solution) : list Solution :=
  match blueSolutions with
  | [] => sols
  | blueSol :: more =>
      let sols' := sols ++ [mkSolution (sol_cells greenSol) (sol_cells blueSol)
                              (sol_placements greenSol) (sol_placements blueSol)] in
      if 50 <=? Z.of_nat (List.length sols') then sols'
      else pushCombined greenSol more sols'
  end.

(** The loop [for (const greenSol of greenSolutions)]. *)
Fixpoint combine_loop (hasBlueReq : bool) (allPlacements : list Placement)
    (gridRows gridCols : Z) (blockedCells : list Cell)
    (greenSolutions : list ColorSolution) (sols : list Solution) (st : Store)
  : option (list Solution * Store) :=
  match greenSolutions with
  | [] => Some (sols, st)
  | greenSol :: more =>
      let forbiddenForBlue := blockedCells ++ sol_cells greenSol in
      r <- (if hasBlueReq then
              bs <- solveForColor "blue" allPlacements gridRows gridCols
                      forbiddenForBlue st ;;
              Some (pushCombined greenSol (fst bs) sols, snd bs)
            else
              Some (sols ++ [mkSolution (sol_cells greenSol) []
                               (sol_placements greenSol) []], st)) ;;
      if 50 <=? Z.of_nat (List.length (fst r)) then Some r
      else combine_loop hasBlueReq allPlacements gridRows gridCols blockedCells
             more (fst r) (snd r)
  end.

(** [runSolver]; the store holds [gridState], [rowReqs] and [colReqs] as
    passed by the caller, and is returned as the call leaves it. *)
Definition runSolver (lib : ShapeLibrary) (gridRows gridCols : Z)
    (enabledShapes : list string) (st : Store) : option (Result * Store) :=
  blockedCells <- blockedCellsOf gridRows gridCols (gridState st) ;;
  let hasGreenReq := hasReq "green" (rowReqs st) (colReqs st) in
  let hasBlueReq := hasReq "blue" (rowReqs st) (colReqs st) in
  if negb hasGreenReq && negb hasBlueReq
  then Some (Failure "No requirements specified", st)
  else
    allPlacements <- generateAllPlacements lib gridRows gridCols blockedCells enabledShapes ;;
    if (List.length allPlacements =? 0)%nat
    then Some (Failure "No valid shape placements possible", st)
    else
      g <- (if hasGreenReq
            then solveForColor "green" allPlacements gridRows gridCols blockedCells st
            else Some ([mkColorSolution [] [] None], st)) ;;
      let '(greenSolutions, st1) := g in
      if hasGreenReq && (List.length greenSolutions =? 0)%nat
      then Some (Failure "No valid green configuration found", st1)
      else
        r <- combine_loop hasBlueReq allPlacements gridRows gridCols blockedCells
               greenSolutions [] st1 ;;
        let '(sols, st2) := r in
        if (List.length sols =? 0)%nat
        then Some (Failure "No valid solution found", st2)
        else Some (Success sols, st2).

(** The list [greenSolutions] that [runSolver] goes through: the result of
    the green search, or the single empty solution when no green is
    required. *)
Definition runSolver_greenSolutions (lib : ShapeLibrary) (gridRows gridCols : Z)
    (enabledShapes : list string) (st : Store) : option (list ColorSolution) :=
  blockedCells <- blockedCellsOf gridRows gridCols (gridState st) ;;
  allPlacements <- generateAllPlacements lib gridRows gridCols blockedCells enabledShapes ;;
  if hasReq "green" (rowReqs st) (colReqs st)
  then
    g <- solveForColor "green" allPlacements gridRows gridCols blockedCells st ;;
    Some (fst g)
  else Some [mkColorSolution [] [] None].

(** *** "Fit all pieces" *)

(** The state of [runFitAllPiecesSolver]: its [solutions] array, its
    [usedCells] set and its [currentPlacements] stack. *)
Record FitState := mkFit {
  fit_solutions : list Solution;
  fit_usedCells : list Cell;
  fit_currentPlacements : list Placement }.

(** [for (const [shapeId, count] of Object.entries(shapeCounts))
       for (let i = 0; i < count; i++) shapeInstances.push(shapeId)] *)
Definition shapeInstancesOf (shapeCounts : list (string * Z)) : list string :=
  flat_map (fun '(shapeId, count) => map (fun _ => shapeId) (range count)) shapeCounts.

(** [for (const shapeId of Object.keys(shapeCounts))
       placementsByShape[shapeId] = generatePlacementsForShape(...)] *)
Fixpoint placementsByShapeOf (lib : ShapeLibrary) (gridRows gridCols : Z)
    (blockedSet : list Cell) (keys : list string)
    (acc : list (string * list Placement)) : option (list (string * list Placement)) :=
  match keys with
  | [] => Some acc
  | shapeId :: keys' =>
      ps <- generatePlacementsForShape lib shapeId gridRows gridCols blockedSet ;;
      placementsByShapeOf lib gridRows gridCols blockedSet keys' (assign shapeId ps acc)
  end.

(** The check that every shape has a placement; the result is the message
    of the first shape without one. *)
Fixpoint firstWithoutPlacement (lib : ShapeLibrary)
    (entries : list (string * list Placement)) : option (option string) :=
  match entries with
  | [] => Some None
  | (shapeId, placements) :: entries' =>
      if (List.length placements =? 0)%nat
      then shape <- lookup shapeId lib ;;
           Some (Some ("No valid placements for shape: " ++ name shape)%string)
      else firstWithoutPlacement lib entries'
  end.

Definition fit_place (p : Placement) (st : FitState) : FitState :=
  mkFit (fit_solutions st)
        (fold_left set_add (cells p) (fit_usedCells st))
        (fit_currentPlacements st ++ [p]).

Definition fit_unplace (p : Placement) (st : FitState) : FitState :=
  mkFit (fit_solutions st)
        (fold_left set_delete (cells p) (fit_usedCells st))
        (removelast (fit_currentPlacements st)).

(** The solution pushed once every instance is placed. *)
Definition fit_solution (st : FitState) : Solution :=
  mkSolution (flat_map cells (fit_currentPlacements st)) []
             (fit_currentPlacements st) [].

(** [backtrack(instanceIdx)]; [instances] is
    [shapeInstances.slice(instanceIdx)].  The result carries the boolean the
    source returns. *)
Fixpoint fit_backtrack (placementsByShape : list (string * list Placement))
    (instances : list string) (st : FitState) : option (bool * FitState) :=
  match instances with
  | [] =>
      let st' := mkFit (fit_solutions st ++ [fit_solution st])
                       (fit_usedCells st) (fit_currentPlacements st) in
      Some (50 <=? Z.of_nat (List.length (fit_solutions st')), st')
  | shapeId :: instances' =>
      placements <- lookup shapeId placementsByShape ;;
      (fix loop (ps : list Placement) (st : FitState) : option (bool * FitState) :=
         match ps with
         | [] => Some (false, st)
         | placement :: ps' =>
             if overlaps (fit_usedCells st) placement then loop ps' st
             else
               r <- fit_backtrack placementsByShape instances' (fit_place placement st) ;;
               let '(shouldStop, st2) := r in
               if shouldStop then Some (true, st2)
               else loop ps' (fit_unplace placement st2)
         end) placements st
  end.

Definition runFitAllPiecesSolver (lib : ShapeLibrary) (gridRows gridCols : Z)
    (blockedCells : list Cell) (shapeCounts : list (string * Z)) : option Result :=
  let blockedSet := new_Set blockedCells in
  let shapeInstances := shapeInstancesOf shapeCounts in
  if (List.length shapeInstances =? 0)%nat
  then Some (Failure "No shapes to place")
  else
    placementsByShape <- placementsByShapeOf lib gridRows gridCols blockedSet
                           (map fst shapeCounts) [] ;;
    missing <- firstWithoutPlacement lib placementsByShape ;;
    match missing with
    | Some message => Some (Failure message)
    | None =>
        r <- fit_backtrack placementsByShape shapeInstances (mkFit [] [] []) ;;
        let sols := fit_solutions (snd r) in
        if (List.length sols =? 0)%nat
        then Some (Failure "Could not fit all pieces on the grid")
        else Some (Success sols)
    end.

(** *** Exact shape counts *)

(** [placement.cells.some(([r, c]) =>
       usedCells.has(`${r},${c}`) || forbiddenSet.has(`${r},${c}`))] *)
Definition overlaps2 (used forbiddenSet : list Cell) (p : Placement) : bool :=
  existsb (fun rc => has used rc || has forbiddenSet rc) (cells p).

(** [usedShapeIndices.add(i)], [.delete(i)] and [.has(i)] *)
Definition idx_has (s : list Z) (i : Z) : bool := existsb (Z.eqb i) s.
Definition idx_add (s : list Z) (i : Z) : list Z := if idx_has s i then s else s ++ [i].
Definition idx_delete (s : list Z) (i : Z) : list Z := filter (fun j => negb (i =? j)) s.

(** Placing and removing a shape instance in [solveForColorWithCounts];
    [track] tells whether the search keeps [usedShapeIndices] (it does not in
    [solveForColorWithCountsSimple]). *)
Definition place_instance (track : bool) (i : Z) (p : Placement) (st : Store)
  : option Store :=
  let st1 := with_currentPlacements (currentPlacements st ++ [p]) st in
  let st2 := if track then with_usedIndices (idx_add (usedIndices st1) i) st1 else st1 in
  foldM mark_cell (cells p) st2.

Definition unplace_instance (track : bool) (i : Z) (p : Placement) (st : Store)
  : option Store :=
  let st1 := with_currentPlacements (removelast (currentPlacements st)) st in
  let st2 := if track then with_usedIndices (idx_delete (usedIndices st1) i) st1 else st1 in
  foldM unmark_cell (cells p) st2.

Definition snapshot_instances (track : bool) (st : Store) : ColorSolution :=
  mkColorSolution (currentPlacements st) (usedCells st)
                  (if track then Some (usedIndices st) else None).

(** The part of [backtrack(instanceIdx)] before its loops. *)
Definition counts_head (track : bool) (color : string)
    (rest : Store -> option (bool * Store)) (st : Store) : option (bool * Store) :=
  m <- countsMatch (rowCounts st) (colCounts st) (rowReqs st) (colReqs st) color ;;
  let st1 := if m then with_solutions (solutions st ++ [snapshot_instances track st]) st
             else st in
  if m && (100 <=? Z.of_nat (List.length (solutions st1))) then Some (true, st1)
  else
    e <- countsExceed (rowCounts st1) (colCounts st1) (rowReqs st1) (colReqs st1) color ;;
    if e then Some (false, st1) else rest st1.

(** The loop [for (let i = instanceIdx; i < shapeInstances.length; i++)]
    with, inside it, the loop over the placements of instance [i];
    [instances] is [shapeInstances.slice(i)]. *)
Fixpoint counts_loop (track : bool) (color : string)
    (placementsByShape : list (string * list Placement)) (forbiddenSet : list Cell)
    (i : Z) (instances : list string) (st : Store) : option (bool * Store) :=
  match instances with
  | [] => Some (false, st)
  | shapeId :: instances' =>
      placements <- lookup shapeId placementsByShape ;;
      r <- (fix loop (ps : list Placement) (st : Store) : option (bool * Store) :=
              match ps with
              | [] => Some (false, st)
              | placement :: ps' =>
                  if overlaps2 (usedCells st) forbiddenSet placement then loop ps' st
                  else
                    st1 <- place_instance track i placement st ;;
                    r <- counts_head track color
                           (counts_loop track color placementsByShape forbiddenSet
                              (i + 1) instances') st1 ;;
                    let '(shouldStop, st2) := r in
                    if shouldStop then Some (true, st2)
                    else
                      st3 <- unplace_instance track i placement st2 ;;
                      loop ps' st3
              end) placements st ;;
      let '(stopped, st') := r in
      if stopped then Some (true, st')
      else counts_loop track color placementsByShape forbiddenSet (i + 1) instances' st'
  end.

Definition solveWithInstances (track : bool) (color : string)
    (shapeInstances : list string) (placementsByShape : list (string * list Placement))
    (gridRows gridCols : Z) (forbiddenCells : list Cell) (st : Store)
  : option (list ColorSolution * Store) :=
  let forbiddenSet := new_Set forbiddenCells in
  st0 <- fresh_locals gridRows gridCols st ;;
  r <- counts_head track color
         (counts_loop track color placementsByShape forbiddenSet 0 shapeInstances) st0 ;;
  Some (solutions (snd r), snd r).

(** [solveForColorWithCounts] keeps the indices of the instances in use. *)
Definition solveForColorWithCounts := solveWithInstances true.

(** [solveForColorWithCountsSimple] is the same search without them. *)
Definition solveForColorWithCountsSimple := solveWithInstances false.

(** [shapeInstances.filter((_, idx) => !greenSol.usedShapeIndices.has(idx))] *)
Fixpoint remainingFrom (idx : Z) (shapeInstances : list string) (used : list Z)
  : list string :=
  match shapeInstances with
  | [] => []
  | s :: rest =>
      if idx_has used idx then remainingFrom (idx + 1) rest used
      else s :: remainingFrom (idx + 1) rest used
  end.

(** The loop over the green solutions in [runSolverWithShapeCounts]. *)
Fixpoint combine_counts_loop (hasBlueReq : bool) (shapeInstances : list string)
    (placementsByShape : list (string * list Placement))
    (gridRows gridCols : Z) (blockedCells : list Cell)
    (greenSolutions : list ColorSolution) (sols : list Solution) (st : Store)
  : option (list Solution * Store) :=
  match greenSolutions with
  | [] => Some (sols, st)
  | greenSol :: more =>
      let forbiddenForBlue := blockedCells ++ sol_cells greenSol in
      used <- usedShapeIndices greenSol ;;
      let remainingShapeInstances := remainingFrom 0 shapeInstances used in
      r <- (if hasBlueReq then
              if (List.length remainingShapeInstances =? 0)%nat
              then Some (sols, st, true)
              else
                bs <- solveForColorWithCountsSimple "blue" remainingShapeInstances
                        placementsByShape gridRows gridCols forbiddenForBlue st ;;
                Some (pushCombined greenSol (fst bs) sols, snd bs, false)
            else
              Some (sols ++ [mkSolution (sol_cells greenSol) []
                               (sol_placements greenSol) []], st, false)) ;;
      let '(sols', st', continued) := r in
      if negb continued && (50 <=? Z.of_nat (List.length sols')) then Some (sols', st')
      else combine_counts_loop hasBlueReq shapeInstances placementsByShape
             gridRows gridCols blockedCells more sols' st'
  end.

Definition runSolverWithShapeCounts (lib : ShapeLibrary) (gridRows gridCols : Z)
    (shapeCounts : list (string * Z)) (st : Store) : option (Result * Store) :=
  blockedCells <- blockedCellsOf gridRows gridCols (gridState st) ;;
  let hasGreenReq := hasReq "green" (rowReqs st) (colReqs st) in
  let hasBlueReq := hasReq "blue" (rowReqs st) (colReqs st) in
  if negb hasGreenReq && negb hasBlueReq
  then Some (Failure "No requirements specified", st)
  else
    let blockedSet := new_Set blockedCells in
    let shapeInstances := shapeInstancesOf shapeCounts in
    placementsByShape <- placementsByShapeOf lib gridRows gridCols blockedSet
                           (map fst shapeCounts) [] ;;
    g <- (if hasGreenReq
          then solveForColorWithCounts "green" shapeInstances placementsByShape
                 gridRows gridCols blockedCells st
          else Some ([mkColorSolution [] [] (Some [])], st)) ;;
    let '(greenSolutions, st1) := g in
    if hasGreenReq && (List.length greenSolutions =? 0)%nat
    then Some (Failure "No valid green configuration found with selected shapes", st1)
    else
      r <- combine_counts_loop hasBlueReq shapeInstances placementsByShape
             gridRows gridCols blockedCells greenSolutions [] st1 ;;
      let '(sols, st2) := r in
      if (List.length sols =? 0)%nat
      then Some (Failure "No valid solution found with selected shape counts", st2)
      else Some (Success sols, st2).

(** The list [greenSolutions] that [runSolverWithShapeCounts] goes through:
    the result of the green search, or the single empty solution when no
    green is required. *)
Definition greenSolutionsWithShapeCounts (lib : ShapeLibrary) (gridRows gridCols : Z)
    (shapeCounts : list (string * Z)) (st : Store) : option (list ColorSolution) :=
  blockedCells <- blockedCellsOf gridRows gridCols (gridState st) ;;
  placementsByShape <- placementsByShapeOf lib gridRows gridCols (new_Set blockedCells)
                         (map fst shapeCounts) [] ;;
  if hasReq "green" (rowReqs st) (colReqs st)
  then
    g <- solveForColorWithCounts "green" (shapeInstancesOf shapeCounts) placementsByShape
           gridRows gridCols blockedCells st ;;
    Some (fst g)
  else Some [mkColorSolution [] [] (Some [])].

End Solver.

(** ** The puzzle generator *)

Module Generator.
Import Shapes Solver.

(** The argument of [generate]; an absent field is [None]. *)
Record RawConfig := mkRawConfig {
  raw_gridRows : option Z;
  raw_gridCols : option Z;
  raw_colors : option (list string);
  raw_blockers : option bool;
  raw_locks : option bool;
  raw_shapePool : option (list string) }.

(** [this.config] *)
Record Config := mkConfig {
  gridRows : Z;
  gridCols : Z;
  colors : list string;
  blockers : bool;
  locks : bool;
  shapePool : list string }.

(** [x || d] on numbers: 0 is falsy. *)
Definition num_or (x : option Z) (d : Z) : Z :=
  match x with Some n => if n =? 0 then d else n | None => d end.

Definition configOf (lib : ShapeLibrary) (config : RawConfig) : Config :=
  mkConfig (num_or (raw_gridRows config) 5)
           (num_or (raw_gridCols config) 5)
           (match raw_colors config with Some cs => cs | None => ["green"; "blue"] end)
           (match raw_blockers config with Some false => false | _ => true end)
           (match raw_locks config with Some true => true | _ => false end)
           (match raw_shapePool config with Some p => p | None => map fst lib end).

(** *** Randomness

    The stream holds one number per call of [Math.random].
    [Math.floor(Math.random() * n)] is the remainder of the draw modulo [n],
    so that every index below [n] can come out; it is 0 when [n] is 0. *)
Definition pick (x n : Z) : Z := if n <=? 0 then 0 else x mod n.

(** *** Grids *)

Definition Grid := list (list CellState).

(** [Array(gridRows).fill(null).map(() => Array(gridCols).fill('empty'))] *)
Definition emptyGrid (gridRows gridCols : Z) : option Grid :=
  if (gridRows <? 0) then None
  else if (0 <? gridRows) && (gridCols <? 0) then None
  else Some (repeat (repeat Empty (Z.to_nat gridCols)) (Z.to_nat gridRows)).

(** [grid[r][c] === 'empty']; [grid[r]] may be [undefined]. *)
Definition isEmptyAt (grid : Grid) (r c : Z) : option bool :=
  row <- get grid r ;;
  Some (match get row c with Some Empty => true | _ => false end).

Fixpoint replace_nth {A : Type} (l : list A) (n : nat) (v : A) : option (list A) :=
  match l, n with
  | [], _ => None
  | _ :: l', O => Some (v :: l')
  | x :: l', S n' => l'' <- replace_nth l' n' v ;; Some (x :: l'')
  end.

(** [grid[r][c] = v] at a position inside the grid. *)
Definition setAt (grid : Grid) (r c : Z) (v : CellState) : option Grid :=
  if (r <? 0) || (c <? 0) then None
  else
    row <- nth_error grid (Z.to_nat r) ;;
    row' <- replace_nth row (Z.to_nat c) v ;;
    replace_nth grid (Z.to_nat r) row'.

(** [grid.length] and [grid[0].length] *)
Definition dims (grid : Grid) : option (Z * Z) :=
  row0 <- get grid 0 ;;
  Some (Z.of_nat (List.length grid), Z.of_nat (List.length row0)).

(** *** Phases 1 to 4 *)

Record Budget := mkBudget {
  totalCells : Z;
  colorCount : Z;
  reserveNeeded : Z;
  availableForShapes : Z;
  budgetPerColor : Z;
  colorBudgets : list (string * Z) }.

(** [_allocateBudget]; [Math.floor((R + C) / 1.5)] is [2 (R + C) / 3]
    rounded down.  With no colour [budgetPerColor] is not a number and is
    never read. *)
Definition _allocateBudget (cfg : Config) : Budget :=
  let totalCells := gridRows cfg * gridCols cfg in
  let colorCount := Z.of_nat (List.length (colors cfg)) in
  let minReserve := (2 * (gridRows cfg + gridCols cfg)) / 3 in
  let reserveNeeded := if blockers cfg || locks cfg then minReserve else 0 in
  let availableForShapes := totalCells - reserveNeeded in
  let budgetPerColor := availableForShapes / colorCount in
  mkBudget totalCells colorCount reserveNeeded availableForShapes budgetPerColor
    (fold_left (fun acc color => assign color budgetPerColor acc) (colors cfg) []).

Record SelectedShape := mkSelected {
  sel_shapeId : string;
  sel_rotationIndex : Z;
  sel_cells : option (list Cell);
  sel_cellCount : Z }.

Record Selection := mkSelection {
  sel_success : bool;
  colorShapes : list (string * list SelectedShape);
  colorRemainders : list (string * Z);
  sel_totalRemainder : Z }.

(** The [while (remaining > 0)] loop of [_selectShapes]. *)
Fixpoint selectLoop (lib : ShapeLibrary) (pool : list string) (remaining : Z)
    (shapes : list SelectedShape) (rnd : list Z) {struct rnd}
  : option (list SelectedShape * Z * list Z) :=
  if remaining <=? 0 then Some (shapes, remaining, rnd)
  else
    let validShapes :=
      filter (fun shapeId =>
                match lookup shapeId lib with
                | Some shape => cellCount shape <=? remaining
                | None => false
                end) pool in
    if (List.length validShapes =? 0)%nat then Some (shapes, remaining, rnd)
    else
      match rnd with
      | x :: y :: rnd' =>
          shapeId <- get validShapes (pick x (Z.of_nat (List.length validShapes))) ;;
          shape <- lookup shapeId lib ;;
          let rotationIndex := pick y (Z.of_nat (List.length (rotations shape))) in
          selectLoop lib pool (remaining - cellCount shape)
            (shapes ++ [mkSelected shapeId rotationIndex
                          (get (rotations shape) rotationIndex) (cellCount shape)])
            rnd'
      | _ => None
      end.

(** The loop over the colours in [_selectShapes]. *)
Fixpoint selectColors (lib : ShapeLibrary) (pool : list string)
    (budgets : list (string * Z)) (cs : list string) (sel : Selection)
    (rnd : list Z) : option (Selection * list Z) :=
  match cs with
  | [] => Some (sel, rnd)
  | color :: cs' =>
      remaining <- lookup color budgets ;;
      r <- selectLoop lib pool remaining [] rnd ;;
      let '(shapes, remaining', rnd') := r in
      if (List.length shapes =? 0)%nat
      then Some (mkSelection false (colorShapes sel) (colorRemainders sel)
                   (sel_totalRemainder sel), rnd')
      else selectColors lib pool budgets cs'
             (mkSelection (sel_success sel)
                (assign color shapes (colorShapes sel))
                (assign color remaining' (colorRemainders sel))
                (sel_totalRemainder sel + remaining'))
             rnd'
  end.

Definition _selectShapes (lib : ShapeLibrary) (cfg : Config) (budget : Budget)
    (rnd : list Z) : option (Selection * list Z) :=
  selectColors lib (shapePool cfg) (colorBudgets budget) (colors cfg)
    (mkSelection true [] [] 0) rnd.

Record BlockerLockBudget := mkBLB {
  blockerBudget : Z;
  lockBudget : Z;
  totalRemainder : Z }.

Definition _calculateBlockerLockBudget (cfg : Config) (budget : Budget)
    (shapeSelection : Selection) : BlockerLockBudget :=
  let totalRemainder := sel_totalRemainder shapeSelection + reserveNeeded budget in
  if blockers cfg && locks cfg then
    let blockerBudget := totalRemainder / 2 in
    mkBLB blockerBudget (totalRemainder - blockerBudget) totalRemainder
  else if blockers cfg then mkBLB totalRemainder 0 totalRemainder
  else if locks cfg then mkBLB 0 totalRemainder totalRemainder
  else mkBLB 0 0 totalRemainder.

(** [distribution[color]++] *)
Definition increment (color : string) (o : list (string * Z)) : list (string * Z) :=
  match lookup color o with
  | Some n => assign color (n + 1) o
  | None => o
  end.

(** The [while (remainder > 0)] loop of [_distributeLocks]. *)
Fixpoint distributeRemainder (cs : list string) (remainder : Z)
    (distribution : list (string * Z)) (rnd : list Z) {struct rnd}
  : option (list (string * Z) * list Z) :=
  if remainder <=? 0 then Some (distribution, rnd)
  else
    match rnd with
    | x :: rnd' =>
        randomColor <- get cs (pick x (Z.of_nat (List.length cs))) ;;
        distributeRemainder cs (remainder - 1) (increment randomColor distribution) rnd'
    | [] => None
    end.

(** [_distributeLocks]; with no colour the quotient and the remainder are
    not numbers and the object stays empty. *)
Definition _distributeLocks (cfg : Config) (blb : BlockerLockBudget) (rnd : list Z)
  : option (list (string * Z) * list Z) :=
  let colorCount := Z.of_nat (List.length (colors cfg)) in
  if lockBudget blb =? 0
  then Some (fold_left (fun d c => assign c 0 d) (colors cfg) [], rnd)
  else if colorCount =? 0 then Some ([], rnd)
  else
    let locksPerColor := lockBudget blb / colorCount in
    let remainder := Z.rem (lockBudget blb) colorCount in
    distributeRemainder (colors cfg) remainder
      (fold_left (fun d c => assign c locksPerColor d) (colors cfg) []) rnd.

(** *** Phases 5 and 6 *)

Inductive Strategy := symmetrical | chaotic.

(** [Math.ceil(n / 2)] *)
Definition half_up (n : Z) : Z := (n + 1) / 2.

(** [positions.filter(([pr, pc]) => grid[pr][pc] === 'empty')] *)
Fixpoint filterEmpty (grid : Grid) (positions : list Cell) : option (list Cell) :=
  match positions with
  | [] => Some []
  | (pr, pc) :: more =>
      e <- isEmptyAt grid pr pc ;;
      rest <- filterEmpty grid more ;;
      Some (if e then (pr, pc) :: rest else rest)
  end.

(** The [for (const [pr, pc] of positions)] loop of the symmetrical
    blockers, with its [break]. *)
Fixpoint blockEach (count : Z) (positions : list Cell) (grid : Grid)
    (blockers : list Cell) (placed : Z) : option (Grid * list Cell * Z) :=
  match positions with
  | [] => Some (grid, blockers, placed)
  | (pr, pc) :: more =>
      if count <=? placed then Some (grid, blockers, placed)
      else
        e <- isEmptyAt grid pr pc ;;
        if e then
          grid' <- setAt grid pr pc Blocked ;;
          blockEach count more grid' (blockers ++ [(pr, pc)]) (placed + 1)
        else blockEach count more grid blockers placed
  end.

(** The [while (placed < count)] loop of the symmetrical blockers. *)
Fixpoint blockersSymmetrical (rows cols count : Z) (grid : Grid)
    (blockers : list Cell) (placed : Z) (rnd : list Z) {struct rnd}
  : option (Grid * list Cell * list Z) :=
  if count <=? placed then Some (grid, blockers, rnd)
  else
    match rnd with
    | x :: y :: rnd' =>
        let r := pick x (half_up rows) in
        let c := pick y (half_up cols) in
        positions <- filterEmpty grid
                       [(r, c); (r, cols - 1 - c); (rows - 1 - r, c);
                        (rows - 1 - r, cols - 1 - c)] ;;
        res <- blockEach count positions grid blockers placed ;;
        let '(grid', blockers', placed') := res in
        blockersSymmetrical rows cols count grid' blockers' placed' rnd'
    | _ => None
    end.

(** The loop that drops one mark after another on random empty cells.  It
    serves the chaotic blockers and the chaotic locks, where
    [limit = Some (count * 10)] bounds the attempts, and the symmetrical
    locks, where nothing does. *)
Fixpoint scatter (mark : CellState) (limit : option Z) (rows cols count : Z)
    (grid : Grid) (placedCells : list Cell) (placed attempts : Z) (rnd : list Z)
    {struct rnd} : option (Grid * list Cell * list Z) :=
  if (placed <? count)
     && match limit with Some l => attempts <? l | None => true end
  then
    match rnd with
    | x :: y :: rnd' =>
        let r := pick x rows in
        let c := pick y cols in
        e <- isEmptyAt grid r c ;;
        if e then
          grid' <- setAt grid r c mark ;;
          scatter mark limit rows cols count grid' (placedCells ++ [(r, c)])
                  (placed + 1) (attempts + 1) rnd'
        else
          scatter mark limit rows cols count grid placedCells placed (attempts + 1) rnd'
    | _ => None
    end
  else Some (grid, placedCells, rnd).

Definition _placeBlockers (grid : Grid) (count : Z) (strategy : Strategy)
    (rnd : list Z) : option (Grid * list Cell * list Z) :=
  d <- dims grid ;;
  let '(rows, cols) := d in
  match strategy with
  | symmetrical => blockersSymmetrical rows cols count grid [] 0 rnd
  | chaotic => scatter Blocked (Some (count * 10)) rows cols count grid [] 0 0 rnd
  end.

(** The loop over [Object.keys(distribution)] in [_placeLocks]. *)
Fixpoint placeLocksLoop (strategy : Strategy) (rows cols : Z)
    (distribution : list (string * Z)) (grid : Grid)
    (locks : list (string * list Cell)) (rnd : list Z)
  : option (Grid * list (string * list Cell) * list Z) :=
  match distribution with
  | [] => Some (grid, locks, rnd)
  | (color, count) :: more =>
      res <- scatter (LockedFor color)
               (match strategy with symmetrical => None | chaotic => Some (count * 10) end)
               rows cols count grid [] 0 0 rnd ;;
      let '(grid', cells, rnd') := res in
      placeLocksLoop strategy rows cols more grid' (assign color cells locks) rnd'
  end.

Definition _placeLocks (grid : Grid) (distribution : list (string * Z))
    (strategy : Strategy) (rnd : list Z)
  : option (Grid * list (string * list Cell) * list Z) :=
  d <- dims grid ;;
  let '(rows, cols) := d in
  placeLocksLoop strategy rows cols distribution grid [] rnd.

Record GenPlacement := mkGenPlacement {
  gp_shapeId : string;
  gp_rotationIndex : Z;
  gp_position : Cell;
  gp_cells : list Cell;
  gp_color : string }.

(** [cells.every(([cr, cc]) => grid[cr][cc] === 'empty')] *)
Fixpoint everyEmpty (grid : Grid) (cells : list Cell) : option bool :=
  match cells with
  | [] => Some true
  | (cr, cc) :: more =>
      e <- isEmptyAt grid cr cc ;;
      if e then everyEmpty grid more else Some false
  end.

(** The positions collected by the two loops of [_findShapePlacement]. *)
Definition validPositionsOf (grid : Grid) (shapeCells : list Cell) (b : Bounds)
    (rows cols : Z) : option (list (Z * Z * list Cell)) :=
  foldM (fun acc r =>
    foldM (fun acc c =>
      let cells := map (fun '(sr, sc) => (r + sr, c + sc)) shapeCells in
      isValid <- everyEmpty grid cells ;;
      Some (if isValid then acc ++ [(r, c, cells)] else acc))
      (range (cols - width b + 1)) acc)
    (range (rows - height b + 1)) [].

(** [_findShapePlacement]; the inner [None] is [null].  A draw is taken only
    when some position is valid. *)
Definition _findShapePlacement (grid : Grid) (shape : SelectedShape)
    (color : string) (rnd : list Z) : option (option GenPlacement * list Z) :=
  d <- dims grid ;;
  let '(rows, cols) := d in
  shapeCells <- sel_cells shape ;;
  bounds <- getShapeBounds shapeCells ;;
  validPositions <- validPositionsOf grid shapeCells bounds rows cols ;;
  if (List.length validPositions =? 0)%nat then Some (None, rnd)
  else
    match rnd with
    | x :: rnd' =>
        chosen <- get validPositions (pick x (Z.of_nat (List.length validPositions))) ;;
        let '(row, col, cells) := chosen in
        Some (Some (mkGenPlacement (sel_shapeId shape) (sel_rotationIndex shape)
                      (row, col) cells color), rnd')
    | [] => None
    end.

(** [for (const [r, c] of cells) grid[r][c] = v] *)
Definition markAll (v : CellState) (cells : list Cell) (grid : Grid) : option Grid :=
  foldM (fun g '(r, c) => setAt g r c v) cells grid.

(** The loop over the shapes of one colour in [_findValidPlacement]; the
    inner [None] is the early [return { success: false }]. *)
Fixpoint placeShapes (color : string) (shapes : list SelectedShape)
    (workingGrid : Grid) (placements : list GenPlacement) (rnd : list Z)
  : option (option (Grid * list GenPlacement) * list Z) :=
  match shapes with
  | [] => Some (Some (workingGrid, placements), rnd)
  | shape :: more =>
      r <- _findShapePlacement workingGrid shape color rnd ;;
      match r with
      | (None, rnd') => Some (None, rnd')
      | (Some placement, rnd') =>
          g <- markAll (FilledWith color) (gp_cells placement) workingGrid ;;
          placeShapes color more g (placements ++ [placement]) rnd'
      end
  end.

Record PlacementResult := mkPlacementResult {
  pr_grid : Grid;
  pr_shapes : list (string * list GenPlacement);
  pr_solution : list (string * list Cell) }.

(** The loop over [Object.keys(colorShapes)] in [_findValidPlacement]. *)
Fixpoint placeColors (colorShapes : list (string * list SelectedShape))
    (acc : PlacementResult) (rnd : list Z)
  : option (option PlacementResult * list Z) :=
  match colorShapes with
  | [] => Some (Some acc, rnd)
  | (color, shapes) :: more =>
      r <- placeShapes color shapes (pr_grid acc) [] rnd ;;
      match r with
      | (None, rnd') => Some (None, rnd')
      | (Some (g, placements), rnd') =>
          placeColors more
            (mkPlacementResult g
               (assign color placements (pr_shapes acc))
               (assign color (flat_map gp_cells placements) (pr_solution acc)))
            rnd'
      end
  end.

(** [_findValidPlacement]; it works on a copy of [grid] and reads neither
    [blockers] nor [locks]. *)
Definition _findValidPlacement (grid : Grid)
    (colorShapes : list (string * list SelectedShape)) (rnd : list Z)
  : option (option PlacementResult * list Z) :=
  _ <- dims grid ;;
  placeColors colorShapes (mkPlacementResult grid [] []) rnd.

(** The scan of [_findEmptyCells]; [grid[0].length] is read once per row, so
    a grid without rows gives the empty list. *)
Definition emptyCellsOf (grid : Grid) : option (list Cell) :=
  match grid with
  | [] => Some []
  | row0 :: _ =>
      foldM (fun acc r =>
        foldM (fun acc c =>
          e <- isEmptyAt grid r c ;;
          Some (if e then acc ++ [(r, c)] else acc))
          (range (Z.of_nat (List.length row0))) acc)
        (range (Z.of_nat (List.length grid))) []
  end.

(** [[empty[i], empty[j]] = [empty[j], empty[i]]] *)
Definition swap (l : list Cell) (i j : Z) : option (list Cell) :=
  a <- get l i ;;
  b <- get l j ;;
  l1 <- replace_nth l (Z.to_nat i) b ;;
  replace_nth l1 (Z.to_nat j) a.

(** The shuffle [for (let i = empty.length - 1; i > 0; i--)]; [n] is [i]. *)
Fixpoint shuffle (n : nat) (empty : list Cell) (rnd : list Z)
  : option (list Cell * list Z) :=
  match n with
  | O => Some (empty, rnd)
  | S n' =>
      match rnd with
      | x :: rnd' =>
          let i := Z.of_nat n in
          let j := pick x (i + 1) in
          empty' <- swap empty i j ;;
          shuffle n' empty' rnd'
      | [] => None
      end
  end.

Definition _findEmptyCells (grid : Grid) (rnd : list Z) : option (list Cell * list Z) :=
  empty <- emptyCellsOf grid ;;
  shuffle (List.length empty - 1) empty rnd.

(** [arr.slice(0, n)] and [arr.slice(n)]; a negative [n] counts from the
    end. *)
Definition slice_to {A : Type} (l : list A) (n : Z) : list A :=
  if n <? 0 then firstn (List.length l - Z.to_nat (- n)) l else firstn (Z.to_nat n) l.

Definition slice_from {A : Type} (l : list A) (n : Z) : list A :=
  if n <? 0 then skipn (List.length l - Z.to_nat (- n)) l else skipn (Z.to_nat n) l.

Definition _placeInEmptyCells (emptyCells : list Cell) (count : Z) : list Cell :=
  slice_to emptyCells count.

(** [_placeLocksinEmptyCells]; [emptyCells] is [emptyCells.slice(index)]:
    each colour takes the next [count] cells, as far as there are any. *)
Fixpoint _placeLocksinEmptyCells (emptyCells : list Cell)
    (distribution : list (string * Z)) (locks : list (string * list Cell))
  : list (string * list Cell) :=
  match distribution with
  | [] => locks
  | (color, count) :: more =>
      _placeLocksinEmptyCells (skipn (Z.to_nat count) emptyCells) more
        (assign color (firstn (Z.to_nat count) emptyCells) locks)
  end.

(** [for (const color of Object.keys(locks))
       for (const [r, c] of locks[color]) grid[r][c] = `locked-${color}`] *)
Fixpoint writeLocks (locks : list (string * list Cell)) (grid : Grid) : option Grid :=
  match locks with
  | [] => Some grid
  | (color, cells) :: more =>
      g <- markAll (LockedFor color) cells grid ;;
      writeLocks more g
  end.

Record Placed := mkPlaced {
  pl_grid : Grid;
  pl_shapes : list (string * list GenPlacement);
  pl_blockers : list Cell;
  pl_locks : list (string * list Cell);
  pl_solution : list (string * list Cell) }.

(** The five tries of [_placeAndValidate] with blockers and locks on the
    grid; [n] tries are left.  The inner [None] says that all have failed. *)
Fixpoint tryWithBlockers (n : nat) (cfg : Config) (shapeSelection : Selection)
    (blb : BlockerLockBudget) (lockDistribution : list (string * Z))
    (strategy : Strategy) (rnd : list Z) : option (option Placed * list Z) :=
  match n with
  | O => Some (None, rnd)
  | S n' =>
      grid <- emptyGrid (gridRows cfg) (gridCols cfg) ;;
      b <- _placeBlockers grid (blockerBudget blb) strategy rnd ;;
      let '(grid1, blockers, rnd1) := b in
      l <- _placeLocks grid1 lockDistribution strategy rnd1 ;;
      let '(grid2, locks, rnd2) := l in
      p <- _findValidPlacement grid2 (colorShapes shapeSelection) rnd2 ;;
      match p with
      | (Some placementResult, rnd3) =>
          Some (Some (mkPlaced (pr_grid placementResult) (pr_shapes placementResult)
                        blockers locks (pr_solution placementResult)), rnd3)
      | (None, rnd3) =>
          tryWithBlockers n' cfg shapeSelection blb lockDistribution strategy rnd3
      end
  end.

(** The fallback of [_placeAndValidate]: shapes first, then blockers and
    locks on cells left empty. *)
Definition fallback (cfg : Config) (shapeSelection : Selection)
    (blb : BlockerLockBudget) (lockDistribution : list (string * Z))
    (rnd : list Z) : option (option Placed * list Z) :=
  grid <- emptyGrid (gridRows cfg) (gridCols cfg) ;;
  p <- _findValidPlacement grid (colorShapes shapeSelection) rnd ;;
  match p with
  | (None, rnd1) => Some (None, rnd1)
  | (Some placementResult, rnd1) =>
      e <- _findEmptyCells (pr_grid placementResult) rnd1 ;;
      let '(emptyCells, rnd2) := e in
      let blockers := _placeInEmptyCells emptyCells (blockerBudget blb) in
      let remainingCells := slice_from emptyCells (blockerBudget blb) in
      let locks := _placeLocksinEmptyCells remainingCells lockDistribution [] in
      g1 <- markAll Blocked blockers (pr_grid placementResult) ;;
      g2 <- writeLocks locks g1 ;;
      Some (Some (mkPlaced g2 (pr_shapes placementResult) blockers locks
                    (pr_solution placementResult)), rnd2)
  end.

Definition _placeAndValidate (cfg : Config) (shapeSelection : Selection)
    (blb : BlockerLockBudget) (lockDistribution : list (string * Z))
    (strategy : Strategy) (rnd : list Z) : option (option Placed * list Z) :=
  r <- tryWithBlockers 5 cfg shapeSelection blb lockDistribution strategy rnd ;;
  match r with
  | (Some placed, rnd') => Some (Some placed, rnd')
  | (None, rnd') => fallback cfg shapeSelection blb lockDistribution rnd'
  end.

(** *** Phase 7 *)

(** [cell === color || cell === `locked-${color}`] *)
Definition countsFor (color : string) (cell : option CellState) : bool :=
  match cell with
  | Some (FilledWith k) => String.eqb k color
  | Some (LockedFor k) => String.eqb k color
  | _ => false
  end.

(** [for (const color of this.config.colors)
       if (cell === color || cell === `locked-${color}`) req[color]++] *)
Definition countCell (cs : list string) (cell : option CellState)
    (req : list (string * Z)) : list (string * Z) :=
  fold_left (fun q color => if countsFor color cell then increment color q else q) cs req.

(** [for (const color of this.config.colors) req[color] = 0] *)
Definition zeroReq (cs : list string) : list (string * Z) :=
  fold_left (fun q color => assign color 0 q) cs [].

Record Requirements := mkRequirements {
  req_rows : list Req;
  req_cols : list Req }.

Definition rowRequirement (cs : list string) (grid : Grid) (cols r : Z)
  : option Req :=
  row <- get grid r ;;
  Some (fold_left (fun q c => countCell cs (get row c) q) (range cols) (zeroReq cs)).

Definition colRequirement (cs : list string) (grid : Grid) (rows c : Z)
  : option Req :=
  foldM (fun q r => row <- get grid r ;; Some (countCell cs (get row c) q))
        (range rows) (zeroReq cs).

Fixpoint mapM {A B : Type} (f : A -> option B) (l : list A) : option (list B) :=
  match l with
  | [] => Some []
  | x :: l' => y <- f x ;; ys <- mapM f l' ;; Some (y :: ys)
  end.

Definition _calculateDisplayRequirements (cfg : Config) (grid : Grid)
  : option Requirements :=
  d <- dims grid ;;
  let '(rows, cols) := d in
  rs <- mapM (rowRequirement (colors cfg) grid cols) (range rows) ;;
  cs <- mapM (colRequirement (colors cfg) grid rows) (range cols) ;;
  Some (mkRequirements rs cs).

(** *** [_attemptGeneration] and [generate] *)

Record Puzzle := mkPuzzle {
  grid : Grid;
  shapes : list (string * list GenPlacement);
  puzzle_blockers : list Cell;
  puzzle_locks : list (string * list Cell);
  requirements : Requirements;
  solution : list (string * list Cell) }.

Inductive Attempt :=
| Failed (reason : string)
| Generated (puzzle : Puzzle).

Definition _attemptGeneration (lib : ShapeLibrary) (cfg : Config) (rnd : list Z)
  : option (Attempt * list Z) :=
  let budget := _allocateBudget cfg in
  s <- _selectShapes lib cfg budget rnd ;;
  let '(shapeSelection, rnd1) := s in
  if negb (sel_success shapeSelection)
  then Some (Failed "Shape selection failed", rnd1)
  else
    let blockerLockBudget := _calculateBlockerLockBudget cfg budget shapeSelection in
    l <- _distributeLocks cfg blockerLockBudget rnd1 ;;
    let '(lockDistribution, rnd2) := l in
    match rnd2 with
    | [] => None
    | x :: rnd3 =>
        let strategy := if pick x 2 =? 0 then symmetrical else chaotic in
        p <- _placeAndValidate cfg shapeSelection blockerLockBudget lockDistribution
               strategy rnd3 ;;
        match p with
        | (None, rnd4) => Some (Failed "Placement/validation failed", rnd4)
        | (Some placementResult, rnd4) =>
            displayRequirements <-
              _calculateDisplayRequirements cfg (pl_grid placementResult) ;;
            Some (Generated
                    (mkPuzzle (pl_grid placementResult) (pl_shapes placementResult)
                       (pl_blockers placementResult) (pl_locks placementResult)
                       displayRequirements (pl_solution placementResult)),
                  rnd4)
        end
    end.

(** [generate]: [attempts] is the number of turns of the [while] loop that
    fit in the four seconds of the clock; the inner [None] is [null]. *)
Fixpoint generateLoop (lib : ShapeLibrary) (cfg : Config) (attempts : nat)
    (rnd : list Z) : option (option Puzzle) :=
  match attempts with
  | O => Some None
  | S attempts' =>
      r <- _attemptGeneration lib cfg rnd ;;
      match r with
      | (Generated puzzle, _) => Some (Some puzzle)
      | (Failed _, rnd') => generateLoop lib cfg attempts' rnd'
      end
  end.

Definition generate (lib : ShapeLibrary) (config : RawConfig) (attempts : nat)
    (rnd : list Z) : option (option Puzzle) :=
  generateLoop lib (configOf lib config) attempts rnd.

End Generator.

(** ** Concrete puzzles *)

Module Examples.
Import Shapes Solver Generator.

Definition req (g b : Z) : Req := [("green", g); ("blue", b)].

(** One row of five cells: the first locked for blue, the fourth locked for
    green, the last blocked; green is asked for once in each of the first
    three columns. *)
Definition strip_store : Store :=
  initStore [[LockedFor "blue"; Empty; Empty; LockedFor "green"; Blocked]]
            [req 3 0] [req 1 0; req 1 0; req 1 0; req 0 0; req 0 0].

Definition strip_run : option (Result * Store) :=
  Eval vm_compute in runSolver SHAPE_LIBRARY 1 5 ["line-3"] strip_store.

Definition strip_solutions : list Solution :=
  Eval vm_compute in
    match strip_run with Some (Success sols, _) => sols | _ => [] end.

Definition strip_final : Store :=
  Eval vm_compute in
    match strip_run with Some (_, st) => st | None => strip_store end.

(** The same strip solved with exactly one line of three. *)
Definition strip_exact_run : option (Result * Store) :=
  Eval vm_compute in runSolverWithShapeCounts SHAPE_LIBRARY 1 5 [("line-3", 1)] strip_store.

Definition strip_exact_solutions : list Solution :=
  Eval vm_compute in
    match strip_exact_run with Some (Success sols, _) => sols | _ => [] end.

Definition strip_exact_final : Store :=
  Eval vm_compute in
    match strip_exact_run with Some (_, st) => st | None => strip_store end.

(** The line of three at the left end of the strip, as a candidate
    solution. *)
Definition strip_candidate : Solution :=
  let line := mkPlacement "line-3" 0 [(0, 0); (0, 1); (0, 2)]
                          (new_Set [(0, 0); (0, 1); (0, 2)]) in
  mkSolution [(0, 0); (0, 1); (0, 2)] [] [line] [].

(** A two by two grid with every cell blocked, asking for four green cells. *)
Definition walled_store : Store :=
  initStore [[Blocked; Blocked]; [Blocked; Blocked]]
            [req 2 0; req 2 0] [req 2 0; req 2 0].

(** The solutions of "fit all pieces" for one line of three on an empty row
    of four cells. *)
Definition line_fits : list Solution :=
  Eval vm_compute in
    match runFitAllPiecesSolver SHAPE_LIBRARY 1 4 [] [("line-3", 1)] with
    | Some (Success sols) => sols
    | _ => []
    end.

(** Two lines of three on a grid of 2 rows and 151 columns: one at the right
    end of the first row, one at the left end of the second row. *)
Definition line_right : Placement :=
  let cells := [(0, 148); (0, 149); (0, 150)] in
  mkPlacement "line-3" 0 cells (new_Set cells).

Definition line_below : Placement :=
  let cells := [(1, 0); (1, 1); (1, 2)] in
  mkPlacement "line-3" 0 cells (new_Set cells).

(** The placements of the line of three on an empty grid of 2 rows and 4
    columns, last one first. *)
Definition lines_2x4 : list Placement :=
  Eval vm_compute in
    match generateAllPlacements SHAPE_LIBRARY 2 4 [] ["line-3"] with
    | Some ps => rev ps
    | None => []
    end.

Definition no_puzzle : Puzzle := mkPuzzle [] [] [] [] (mkRequirements [] []) [].

(** A run of the generator with the default grid and palette (5 by 5, green
    and blue, blockers, no locks) over three shapes. *)
Definition default_config : RawConfig :=
  mkRawConfig None None None None None (Some ["square-4"; "line-3"; "L-3"]).

Definition default_draws : list Z :=
  [32217; 9930; 16746; 16651; 5453; 2731; 13932; 11183; 14342; 26131;
   6783; 23149; 28501; 473; 16825; 2900; 13313; 29778; 2289; 21547;
   21643; 22454; 741; 17965; 29756; 2610; 19502; 4485; 28403; 21452;
   12772; 25736; 11696; 3579; 5905; 692; 14303].

Definition default_puzzle : Puzzle :=
  Eval vm_compute in
    match generate SHAPE_LIBRARY default_config 1 default_draws with
    | Some (Some p) => p
    | _ => no_puzzle
    end.

(** The shapes selected in that run. *)
Definition default_selection : Selection :=
  Eval vm_compute in
    match _selectShapes SHAPE_LIBRARY (configOf SHAPE_LIBRARY default_config)
            (_allocateBudget (configOf SHAPE_LIBRARY default_config)) default_draws with
    | Some (sel, _) => sel
    | None => mkSelection false [] [] 0
    end.

Definition default_draws_left : list Z :=
  Eval vm_compute in
    match _selectShapes SHAPE_LIBRARY (configOf SHAPE_LIBRARY default_config)
            (_allocateBudget (configOf SHAPE_LIBRARY default_config)) default_draws with
    | Some (_, rnd) => rnd
    | None => []
    end.

(** A grid of 2 by 2 with two empty cells. *)
Definition corner_grid : Grid := [[Empty; Blocked]; [FilledWith "green"; Empty]].

(** A run with locks and no blockers on a grid of 3 by 3: one green square,
    and five cells locked for green. *)
Definition locked_config : RawConfig :=
  mkRawConfig (Some 3) (Some 3) (Some ["green"]) (Some false) (Some true)
              (Some ["square-4"]).

Definition locked_draws : list Z := [0; 0; 1; 0; 2; 1; 2; 2; 0; 2; 1; 2; 2; 0].

Definition locked_puzzle : Puzzle :=
  Eval vm_compute in
    match generate SHAPE_LIBRARY locked_config 1 locked_draws with
    | Some (Some p) => p
    | _ => no_puzzle
    end.

(** A run with blockers and locks on a grid of 4 by 4, green and blue:
    four blockers, three cells locked for green and two for blue. *)
Definition mixed_config : RawConfig :=
  mkRawConfig (Some 4) (Some 4) (Some ["green"; "blue"]) (Some true) (Some true)
              (Some ["L-3"; "line-3"]).

Definition mixed_draws : list Z :=
  [137; 582; 867; 821; 782; 64; 261; 120; 507; 779; 460;
   483; 667; 388; 807; 214; 96; 499; 29; 914; 855; 399].

Definition mixed_puzzle : Puzzle :=
  Eval vm_compute in
    match generate SHAPE_LIBRARY mixed_config 1 mixed_draws with
    | Some (Some p) => p
    | _ => no_puzzle
    end.

(** A grid of 3 by 3 with a green cell in the middle, for blockers and
    locks. *)
Definition open_grid : Grid :=
  [[Empty; Empty; Empty]; [Empty; FilledWith "green"; Empty]; [Empty; Empty; Empty]].

(** Three blockers, placed symmetrically, then one lock for green and two
    for blue. *)
Definition open_draws : list Z := [0; 0; 1; 1; 5; 7; 4; 2; 2; 1; 0; 1; 9].

Definition blocked_grid : Grid :=
  [[Blocked; Empty; Blocked]; [Empty; FilledWith "green"; Empty]; [Blocked; Empty; Empty]].

Definition locked_grid : Grid :=
  [[Blocked; LockedFor "blue"; Blocked];
   [Empty; FilledWith "green"; LockedFor "blue"];
   [Blocked; LockedFor "green"; Empty]].

End Examples.

From Stdlib Require Import DecimalString.

(** ** Counting the cells of a solution and validating it *)

Module Validate.
Import Shapes Solver.

(** [`${n}`] for an integer, and for a value read from a requirement
    object. *)
Definition show (n : Z) : string := NilZero.string_of_int (Z.to_int n).

Definition show_opt (x : option Z) : string :=
  match x with Some n => show n | None => "undefined" end.

(** The key [`${r},${c}`] of a cell. *)
Definition key (rc : Cell) : string := (show (fst rc) ++ "," ++ show (snd rc))%string.

(** [calculateCounts]; the result is the pair [{ rowCounts, colCounts }]. *)
Definition calculateCounts (cells : list Cell) (gridRows gridCols : Z)
  : option (list Z * list Z) :=
  rowCounts <- Array_fill0 gridRows ;;
  colCounts <- Array_fill0 gridCols ;;
  foldM (fun counts rc =>
           rows <- add_at 1 (fst counts) (fst rc) ;;
           cols <- add_at 1 (snd counts) (snd rc) ;;
           Some (rows, cols))
        cells (rowCounts, colCounts).

(** [a !== b] on two numbers that may be [undefined]. *)
Definition differs (a b : option Z) : bool :=
  match a, b with
  | Some x, Some y => negb (x =? y)
  | None, None => false
  | _, _ => true
  end.

(** One of the four loops of [validateSolution] over the rows or the
    columns: [label] is ["Row"] or ["Col"]. *)
Definition checkLines (label color : string) (n : Z) (counts : list Z)
    (reqs : list Req) (errors : list string) : option (list string) :=
  foldM (fun errors i =>
           q <- get reqs i ;;
           if differs (get counts i) (lookup color q)
           then Some (errors ++ [(label ++ " " ++ show i ++ " " ++ color ++ ": expected "
                                    ++ show_opt (lookup color q) ++ ", got "
                                    ++ show_opt (get counts i))%string])
           else Some errors)
        (range n) errors.

(** [validateSolution]; the result is the pair [{ valid, errors }]. *)
Definition validateSolution (solution : Solution) (gridRows gridCols : Z)
    (rowReqs colReqs : list Req) : option (bool * list string) :=
  greenCounts <- calculateCounts (green solution) gridRows gridCols ;;
  blueCounts <- calculateCounts (blue solution) gridRows gridCols ;;
  e1 <- checkLines "Row" "green" gridRows (fst greenCounts) rowReqs [] ;;
  e2 <- checkLines "Col" "green" gridCols (snd greenCounts) colReqs e1 ;;
  e3 <- checkLines "Row" "blue" gridRows (fst blueCounts) rowReqs e2 ;;
  e4 <- checkLines "Col" "blue" gridCols (snd blueCounts) colReqs e3 ;;
  let greenSet := new_Set (green solution) in
  let blueSet := new_Set (blue solution) in
  let errors :=
    fold_left (fun errors cell =>
                 if has blueSet cell then errors ++ [("Overlap at " ++ key cell)%string]
                 else errors)
              greenSet e4 in
  Some ((List.length errors =? 0)%nat, errors).

End Validate.
(** ** Facts about cells and key sets *)

Lemma cell_eqb_spec (a b : Cell) : reflect (a = b) (cell_eqb a b).
Proof.
  destruct a as [r c], b as [r' c']; unfold cell_eqb; simpl.
  destruct (Z.eqb_spec r r'), (Z.eqb_spec c c'); constructor; congruence.
Qed.

Lemma cell_eqb_refl (a : Cell) : cell_eqb a a = true.
Proof. destruct (cell_eqb_spec a a); congruence. Qed.

Lemma cell_eqb_eq (a b : Cell) : cell_eqb a b = true <-> a = b.
Proof. destruct (cell_eqb_spec a b); split; congruence. Qed.


Definition cell_eq_dec (a b : Cell) : {a = b} + {a <> b}.
Proof. decide equality; apply Z.eq_dec. Defined.


(** Inversion of a successful bind. *)
Ltac bind_inv H :=
  match type of H with
  | match ?e with Some _ => _ | None => None end = Some _ =>
      let E := fresh "E" in destruct e eqn:E; [|discriminate H]
  end.

Tactic Notation "bind_as" hyp(H) simple_intropattern(x) ident(E) :=
  match type of H with
  | match ?e with Some _ => _ | None => None end = Some _ =>
      destruct e as [x|] eqn:E; [|discriminate H]
  end.

Lemma has_In (s : list Cell) (x : Cell) : has s x = true <-> In x s.
Proof.
  unfold has. rewrite existsb_exists. split.
  - intros (y & Hy & E). apply cell_eqb_eq in E. subst; assumption.
  - intros H. exists x. split; [assumption|apply cell_eqb_refl].
Qed.

Lemma has_false (s : list Cell) (x : Cell) : has s x = false <-> ~ In x s.
Proof.
  rewrite <- has_In. destruct (has s x); split; congruence.
Qed.

Lemma set_add_In (s : list Cell) (x y : Cell) :
  In y (set_add s x) <-> In y s \/ y = x.
Proof.
  unfold set_add. destruct (has s x) eqn:E.
  - apply has_In in E. split; [auto|]. intros [H| ->]; assumption.
  - rewrite in_app_iff. simpl. split; intros [H|H]; auto.
    + destruct H as [H|[]]; auto.
Qed.

Lemma fold_set_add_In (l s : list Cell) (y : Cell) :
  In y (fold_left set_add l s) <-> In y s \/ In y l.
Proof.
  revert s; induction l as [|x l IH]; intros s; simpl.
  - tauto.
  - rewrite IH, set_add_In. split; intros H; intuition auto.
Qed.

Lemma new_Set_In (l : list Cell) (y : Cell) : In y (new_Set l) <-> In y l.
Proof. unfold new_Set. rewrite fold_set_add_In. simpl. tauto. Qed.


Lemma fold_set_delete_filter (l s : list Cell) :
  fold_left set_delete l s = filter (fun y => negb (existsb (cell_eqb y) l)) s.
Proof.
  revert s; induction l as [|x l IH]; intros s; simpl.
  - induction s as [|a s IHs]; simpl; [reflexivity|]. f_equal; assumption.
  - rewrite IH. unfold set_delete.
    induction s as [|a s IHs]; simpl; [reflexivity|].
    destruct (cell_eqb_spec x a) as [->|Hne]; simpl.
    + rewrite cell_eqb_refl. simpl. assumption.
    + destruct (cell_eqb_spec a x) as [->|_]; [congruence|]. simpl.
      destruct (existsb (cell_eqb a) l); simpl; [assumption|].
      f_equal; assumption.
Qed.

Lemma fold_set_add_app (l s : list Cell) :
  exists extra, fold_left set_add l s = s ++ extra /\ Forall (fun y => In y l) extra.
Proof.
  revert s; induction l as [|x l IH]; intros s; simpl.
  - exists []. rewrite app_nil_r. auto.
  - destruct (IH (set_add s x)) as (extra & E & Hall). rewrite E.
    assert (Hall' : Forall (fun y => x = y \/ In y l) extra).
    { eapply Forall_impl; [|exact Hall]. simpl; auto. }
    unfold set_add. destruct (has s x).
    + exists extra. split; [reflexivity|assumption].
    + exists (x :: extra). rewrite <- app_assoc. split; [reflexivity|].
      constructor; [auto|assumption].
Qed.

(** Removing the cells that were just added gives the set back, when none of
    them was in it. *)
Lemma fold_delete_add (l s : list Cell) :
  (forall y, In y l -> ~ In y s) ->
  fold_left set_delete l (fold_left set_add l s) = s.
Proof.
  intros Hdisj.
  destruct (fold_set_add_app l s) as (extra & -> & Hall).
  rewrite fold_set_delete_filter, filter_app.
  assert (E1 : filter (fun y => negb (existsb (cell_eqb y) l)) s = s).
  { apply forallb_filter_id. apply forallb_forall. intros y Hy.
    apply negb_true_iff. destruct (existsb (cell_eqb y) l) eqn:E; [|reflexivity].
    apply existsb_exists in E. destruct E as (z & Hz & Ez).
    apply cell_eqb_eq in Ez. subst z. exfalso. exact (Hdisj _ Hz Hy). }
  assert (E2 : filter (fun y => negb (existsb (cell_eqb y) l)) extra = []).
  { clear -Hall. induction Hall as [|y extra Hy _ IH]; simpl; [reflexivity|].
    assert (E : existsb (cell_eqb y) l = true).
    { apply existsb_exists. exists y. split; [assumption|apply cell_eqb_refl]. }
    rewrite E. simpl. assumption. }
  rewrite E1, E2. apply app_nil_r.
Qed.

Lemma range_In (n x : Z) : In x (range n) <-> 0 <= x < n.
Proof.
  unfold range. rewrite in_map_iff. split.
  - intros (k & <- & Hk). apply in_seq in Hk. lia.
  - intros H. exists (Z.to_nat x). split; [lia|]. apply in_seq. lia.
Qed.

Lemma get_Some_range {A : Type} (l : list A) (i : Z) (x : A) :
  get l i = Some x -> 0 <= i < Z.of_nat (List.length l).
Proof.
  unfold get. destruct (Z.ltb_spec i 0) as [Hlt|Hge]; [discriminate|].
  intros Hn. assert (Hs : nth_error l (Z.to_nat i) <> None) by congruence.
  apply nth_error_Some in Hs. lia.
Qed.

Lemma NoDup_app_disjoint {A : Type} (l1 l2 : list A) (a : A) :
  NoDup (l1 ++ l2) -> In a l1 -> In a l2 -> False.
Proof.
  induction l1 as [|x l1 IH]; simpl; intros Hnd H1 H2; [destruct H1|].
  inversion_clear Hnd as [|? ? Hx Hnd'].
  destruct H1 as [->|H1]; [|exact (IH Hnd' H1 H2)].
  apply Hx. apply in_app_iff. right. exact H2.
Qed.
(** ** Facts about [Math_min] and the shape library *)

Module ShapesFacts.
Import Shapes.

Lemma fold_min_spec (xs : list Z) (x : Z) :
  (fold_left Z.min xs x = x \/ In (fold_left Z.min xs x) xs) /\
  fold_left Z.min xs x <= x /\
  Forall (fun y => fold_left Z.min xs x <= y) xs.
Proof.
  revert x; induction xs as [|a xs IH]; intros x; simpl.
  - repeat split; auto; lia.
  - destruct (IH (Z.min x a)) as [Hin [Hle Hall]].
    split; [|split].
    + destruct Hin as [E|Hin]; [|auto].
      rewrite E. destruct (Z.min_spec x a) as [[_ E']|[_ E']]; rewrite E'; auto.
    + lia.
    + constructor; [lia|assumption].
Qed.

Lemma Math_min_least (xs : list Z) (m : Z) :
  Math_min xs = Some m <-> In m xs /\ Forall (fun y => m <= y) xs.
Proof.
  destruct xs as [|x xs]; simpl.
  - split; [discriminate|intros [[] _]].
  - pose proof (fold_min_spec xs x) as H; simpl in H.
    destruct H as [Hin [Hle Hall]].
    split.
    + intros E; injection E as <-.
      split; [destruct Hin as [E|Hin]; [left; symmetry; exact E|right; exact Hin]
             |constructor; assumption].
    + intros [Hm Hall']. f_equal.
      set (k := fold_left Z.min xs x) in *.
      assert (k <= m).
      { destruct Hm as [<-|Hm]; [assumption|].
        rewrite Forall_forall in Hall; auto. }
      assert (m <= k).
      { inversion_clear Hall' as [|? ? Hx Hxs].
        destruct Hin as [->|Hin]; [assumption|].
        rewrite Forall_forall in Hxs; auto. }
      lia.
Qed.

Lemma Math_min_shift (xs : list Z) (m : Z) :
  Math_min xs = Some m -> Math_min (map (fun x => x - m) xs) = Some 0.
Proof.
  rewrite !Math_min_least. intros [Hin Hall]. split.
  - apply in_map_iff. exists m. split; [lia|assumption].
  - apply Forall_map. eapply Forall_impl; [|exact Hall]. simpl; intros; lia.
Qed.

Lemma Math_min_nonempty (xs : list Z) : xs <> [] -> exists m, Math_min xs = Some m.
Proof. destruct xs; [congruence|simpl; eauto]. Qed.

Lemma rotateShape90_length (cells : list Cell) :
  List.length (rotateShape90 cells) = List.length cells.
Proof.
  unfold rotateShape90. destruct cells as [|x cells]; [reflexivity|].
  simpl. rewrite !length_map. reflexivity.
Qed.

Lemma rotateShape90_nonempty (cells : list Cell) (H : cells <> []) :
  rotateShape90 cells <> [].
Proof.
  intros E. apply (f_equal (@List.length _)) in E.
  rewrite rotateShape90_length in E. destruct cells; [congruence|discriminate].
Qed.

(** Every rotation produced by [rotateShape90] from a non-empty cell list is
    normalized. *)
Lemma rotateShape90_normalized (cells : list Cell) (Hne : cells <> []) :
  normalized (rotateShape90 cells).
Proof. unfold rotateShape90.
  set (rotated := map (fun '(r, c) => (c, - r)) cells).
  assert (Hr : rotated <> []) by (subst rotated; destruct cells; [congruence|discriminate]).
  destruct (Math_min_nonempty (map fst rotated)) as [mr Hmr].
  { destruct rotated; [congruence|discriminate]. }
  destruct (Math_min_nonempty (map snd rotated)) as [mc Hmc].
  { destruct rotated; [congruence|discriminate]. }
  rewrite Hmr, Hmc. unfold normalized. rewrite !map_map.
  split.
  - rewrite <- (Math_min_shift _ _ Hmr), map_map.
    f_equal. apply map_ext. intros [r c]; reflexivity.
  - rewrite <- (Math_min_shift _ _ Hmc), map_map.
    f_equal. apply map_ext. intros [r c]; reflexivity.
Qed.

Lemma normalizedb_spec (cells : list Cell) :
  normalizedb cells = true <-> normalized cells.
Proof.
  unfold normalizedb, normalized.
  destruct (Math_min (map fst cells)) as [a|], (Math_min (map snd cells)) as [b|].
  - rewrite andb_true_iff, !Z.eqb_eq. split.
    + intros [-> ->]; auto.
    + intros [E1 E2]. injection E1 as ->. injection E2 as ->. auto.
  - split; [discriminate|intros [_ ?]; discriminate].
  - split; [discriminate|intros [? _]; discriminate].
  - split; [discriminate|intros [? _]; discriminate].
Qed.

Lemma rotation_step_inv (rots : list (list Cell)) (cur : list Cell) (P : list Cell -> Prop) :
  P (rotateShape90 cur) -> Forall P rots ->
  Forall P (fst (rotation_step (rots, cur))).
Proof.
  intros Hc Hr. unfold rotation_step. cbn [fst].
  destruct (negb _); [|assumption].
  apply Forall_app; split; [assumption|constructor; [assumption|constructor]].
Qed.

Lemma rotation_step_snd (rots : list (list Cell)) (cur : list Cell) :
  snd (rotation_step (rots, cur)) = rotateShape90 cur.
Proof. reflexivity. Qed.

Lemma rotation_step_head (rots : list (list Cell)) (cur x : list Cell) :
  hd_error rots = Some x -> hd_error (fst (rotation_step (rots, cur))) = Some x.
Proof.
  unfold rotation_step. cbn [fst]. destruct (negb _); [|auto].
  destruct rots; [discriminate|auto].
Qed.

Lemma rotation_step_tail (rots : list (list Cell)) (cur : list Cell) (P : list Cell -> Prop) :
  P (rotateShape90 cur) -> rots <> [] -> Forall P (tl rots) ->
  Forall P (tl (fst (rotation_step (rots, cur)))).
Proof.
  intros Hc Hne Hr. unfold rotation_step. cbn [fst].
  destruct (negb _); [|assumption].
  destruct rots as [|r rots]; [congruence|]. cbn [tl app] in *.
  apply Forall_app; split; [assumption|constructor; [assumption|constructor]].
Qed.

Lemma rotation_step_nonempty (rots : list (list Cell)) (cur : list Cell) :
  rots <> [] -> fst (rotation_step (rots, cur)) <> [].
Proof.
  unfold rotation_step. cbn [fst]. destruct (negb _); [|auto].
  destruct rots; [congruence|discriminate].
Qed.

Lemma rotation_step_eta (a : list (list Cell) * list Cell) :
  rotation_step a = rotation_step (fst a, snd a).
Proof. destruct a; reflexivity. Qed.

(** The rotation list starts with the base cells, stored as they are. *)
Lemma getAllRotations_head (cells : list Cell) :
  hd_error (getAllRotations cells) = Some cells.
Proof.
  unfold getAllRotations.
  rewrite (rotation_step_eta (rotation_step (rotation_step _))).
  apply rotation_step_head.
  rewrite (rotation_step_eta (rotation_step _)).
  apply rotation_step_head. apply rotation_step_head. reflexivity.
Qed.

(** Every rotation after the first is an output of [rotateShape90]. *)
Lemma getAllRotations_tail (cells : list Cell) (Hne : cells <> []) :
  Forall normalized (tl (getAllRotations cells)).
Proof. unfold getAllRotations.
  pose proof (rotateShape90_nonempty _ Hne) as H1.
  pose proof (rotateShape90_nonempty _ H1) as H2.
  rewrite (rotation_step_eta (rotation_step (rotation_step _))).
  apply rotation_step_tail.
  - rewrite (rotation_step_eta (rotation_step _)), !rotation_step_snd.
    apply rotateShape90_normalized; assumption.
  - rewrite (rotation_step_eta (rotation_step _)).
    apply rotation_step_nonempty, rotation_step_nonempty. discriminate.
  - rewrite (rotation_step_eta (rotation_step _)).
    apply rotation_step_tail.
    + rewrite rotation_step_snd. apply rotateShape90_normalized; assumption.
    + apply rotation_step_nonempty. discriminate.
    + apply rotation_step_tail.
      * apply rotateShape90_normalized; assumption.
      * discriminate.
      * constructor.
Qed.

Lemma getAllRotations_normalized (cells : list Cell) :
  cells <> [] -> normalized cells -> Forall normalized (getAllRotations cells).
Proof.
  intros Hne Hn.
  pose proof (getAllRotations_head cells) as Hh.
  pose proof (getAllRotations_tail _ Hne) as Ht.
  destruct (getAllRotations cells) as [|r rs]; [constructor|].
  simpl in Hh, Ht. injection Hh as ->. constructor; assumption.
Qed.

Lemma in_assign {A : Type} (id k : string) (v w : A) (o : list (string * A)) :
  In (k, w) (assign id v o) -> w = v \/ In (k, w) o.
Proof.
  induction o as [|[k' w'] o IH]; simpl.
  - intros [E|[]]; injection E; auto.
  - destruct (String.eqb id k').
    + intros [E|H]; [injection E; auto|auto].
    + intros [E|H]; [auto|]. destruct (IH H); auto.
Qed.

Lemma in_fold_assign {A B : Type} (f : B -> A) (defs : list (string * B))
    (o : list (string * A)) (k : string) (w : A) :
  In (k, w) (fold_left (fun lib '(id, d) => assign id (f d) lib) defs o) ->
  (exists id d, In (id, d) defs /\ w = f d) \/ In (k, w) o.
Proof.
  revert o; induction defs as [|[id d] defs IH]; intros o; simpl; [auto|].
  intros H. destruct (IH _ H) as [(id' & d' & Hin & E)|Hin].
  - left; exists id', d'; auto.
  - destruct (in_assign _ _ _ _ _ Hin) as [E|Hin'].
    + left; exists id, d; auto.
    + auto.
Qed.

Lemma lookup_assign {A : Type} (id k : string) (v : A) (o : list (string * A)) :
  lookup id (assign k v o) = if String.eqb id k then Some v else lookup id o.
Proof.
  induction o as [|[k' w] o IH]; simpl.
  - reflexivity.
  - destruct (String.eqb_spec k k') as [->|Hk]; simpl.
    + destruct (String.eqb id k'); reflexivity.
    + destruct (String.eqb_spec id k') as [->|Hid].
      * destruct (String.eqb_spec k' k); [congruence|reflexivity].
      * assumption.
Qed.

(** Where a library entry comes from. *)
Lemma buildShapeLibrary_entry (custom : list (string * ShapeDefinition))
    (id : string) (e : ShapeEntry) :
  In (id, e) (buildShapeLibrary custom) ->
  (exists id' d, In (id', d) custom /\ e = makeEntry true d) \/
  (exists id' d, In (id', d) SHAPE_DEFINITIONS /\ e = makeEntry false d).
Proof.
  unfold buildShapeLibrary, loadCustomShapesIntoLibrary. intros H.
  destruct (in_fold_assign (makeEntry true) _ _ _ _ H) as [?|H1]; [auto|].
  destruct (in_fold_assign (makeEntry false) _ _ _ _ H1) as [?|[]]; auto.
Qed.

Lemma builtin_definitions_normalized :
  Forall (fun '(_, d) => def_cells d <> [] /\ normalized (def_cells d)) SHAPE_DEFINITIONS.
Proof.
  unfold SHAPE_DEFINITIONS.
  repeat (constructor; [split; [discriminate|apply normalizedb_spec; reflexivity]|]).
  constructor.
Qed.

(** C8 (as stated) fails: [buildShapeLibrary] stores the cells of a
    definition as they are, so a custom shape drawn away from the origin
    gives an entry whose base shape, and first rotation, are not normalized. *)
Lemma C8_unnormalized_custom_shape :
  ~ (forall custom id e,
        In (id, e) (buildShapeLibrary custom) ->
        normalized (baseShape e) /\ Forall normalized (rotations e)).
Proof.
  intros H.
  destruct (H [("bar", mkDef "Bar" [(0, 1); (0, 2)])] "bar"
              (makeEntry true (mkDef "Bar" [(0, 1); (0, 2)]))) as [[_ Hc] _].
  - vm_compute. do 20 right. left. reflexivity.
  - vm_compute in Hc. discriminate Hc.
Qed.

(** C8 (amended).  In every entry of the library built by
    [buildShapeLibrary], the first rotation is the base shape, stored as the
    definition gives it; every generated rotation (every one after the
    first) is normalized: least row 0 and least column 0, provided the shape
    has a cell; hence the whole entry is normalized as soon as its base
    shape is, and this is the case of every built-in entry. *)
Theorem C8_rotations_normalized :
  forall custom id e,
    In (id, e) (buildShapeLibrary custom) ->
    hd_error (rotations e) = Some (baseShape e) /\
    (baseShape e <> [] -> Forall normalized (tl (rotations e))) /\
    (normalized (baseShape e) -> Forall normalized (rotations e)) /\
    (isCustom e = false ->
       normalized (baseShape e) /\ Forall normalized (rotations e)).
Proof.
  intros custom id e Hin.
  assert (Hbase : forall d c, e = makeEntry c d ->
            hd_error (rotations e) = Some (baseShape e) /\
            (baseShape e <> [] -> Forall normalized (tl (rotations e))) /\
            (normalized (baseShape e) -> Forall normalized (rotations e))).
  { intros d c ->. cbn [rotations baseShape makeEntry].
    split; [apply getAllRotations_head|].
    split; [apply getAllRotations_tail|].
    intros Hn. apply getAllRotations_normalized; [|assumption].
    destruct Hn as [Hn _]. intros E; rewrite E in Hn; discriminate Hn. }
  destruct (buildShapeLibrary_entry _ _ _ Hin) as [(id' & d & Hd & E)|(id' & d & Hd & E)].
  - destruct (Hbase d true E) as (H1 & H2 & H3).
    repeat split; try assumption; subst e; discriminate.
  - destruct (Hbase d false E) as (H1 & H2 & H3).
    split; [assumption|]. split; [assumption|]. split; [assumption|].
    intros _.
    pose proof builtin_definitions_normalized as Hall.
    rewrite Forall_forall in Hall. specialize (Hall _ Hd). cbn in Hall.
    destruct Hall as [Hne Hn].
    assert (Hb : normalized (baseShape e)) by (subst e; exact Hn).
    split; [exact Hb|exact (H3 Hb)].
Qed.

(** The square of the built-in library. *)
Lemma C8_rotations_normalized_witness :
  let e := makeEntry false (mkDef "2x2 Square" [(0, 0); (0, 1); (1, 0); (1, 1)]) in
  In ("square-4", e) (buildShapeLibrary []) /\
  (hd_error (rotations e) = Some (baseShape e) /\
   (baseShape e <> [] -> Forall normalized (tl (rotations e))) /\
   (normalized (baseShape e) -> Forall normalized (rotations e)) /\
   (isCustom e = false ->
      normalized (baseShape e) /\ Forall normalized (rotations e))).
Proof.
  intros e.
  assert (Hin : In ("square-4", e) (buildShapeLibrary [])).
  { vm_compute. left. reflexivity. }
  split; [exact Hin|].
  exact (C8_rotations_normalized [] "square-4" e Hin).
Defined.

End ShapesFacts.

(** ** Facts about the solver *)

Module SolverFacts.
Import Shapes Solver.

(** *** The caller's objects are only read *)

Definition same_inputs (st st' : Store) : Prop :=
  gridState st' = gridState st /\ rowReqs st' = rowReqs st /\ colReqs st' = colReqs st.

Lemma same_inputs_refl (st : Store) : same_inputs st st.
Proof. repeat split. Qed.

Lemma same_inputs_trans (a b c : Store) :
  same_inputs a b -> same_inputs b c -> same_inputs a c.
Proof. unfold same_inputs. intros (?&?&?) (?&?&?). repeat split; congruence. Qed.

(** What a step of the search leaves alone: the caller's objects and the
    solutions found so far. *)
Definition keeps (st st' : Store) : Prop :=
  same_inputs st st' /\ solutions st' = solutions st.

Lemma keeps_refl (st : Store) : keeps st st.
Proof. split; [apply same_inputs_refl|reflexivity]. Qed.

Lemma keeps_trans (a b c : Store) : keeps a b -> keeps b c -> keeps a c.
Proof.
  intros [H1 E1] [H2 E2]. split; [eapply same_inputs_trans; eassumption|congruence].
Qed.

Lemma foldM_rel {A S : Type} (R : S -> S -> Prop) (f : S -> A -> option S) :
  (forall s, R s s) -> (forall a b c, R a b -> R b c -> R a c) ->
  (forall s x s', f s x = Some s' -> R s s') ->
  forall l s s', foldM f l s = Some s' -> R s s'.
Proof.
  intros Hrefl Htrans Hstep. induction l as [|x l IH]; intros s s' H; simpl in H.
  - injection H as <-. apply Hrefl.
  - bind_inv H. eapply Htrans; [eapply Hstep; eassumption|eapply IH; eassumption].
Qed.

Lemma mark_cell_keeps (st : Store) (rc : Cell) (st' : Store) :
  mark_cell st rc = Some st' -> keeps st st'.
Proof.
  unfold mark_cell. destruct rc as [r c]. intros H.
  bind_inv H. bind_inv H. injection H as <-. repeat split.
Qed.

Lemma unmark_cell_keeps (st : Store) (rc : Cell) (st' : Store) :
  unmark_cell st rc = Some st' -> keeps st st'.
Proof.
  unfold unmark_cell. destruct rc as [r c]. intros H.
  bind_inv H. bind_inv H. injection H as <-. repeat split.
Qed.

Lemma place_keeps (p : Placement) (st st' : Store) :
  place p st = Some st' -> keeps st st'.
Proof.
  unfold place. intros H.
  apply (foldM_rel keeps mark_cell keeps_refl keeps_trans mark_cell_keeps) in H.
  eapply keeps_trans; [|exact H]. repeat split.
Qed.

Lemma unplace_keeps (p : Placement) (st st' : Store) :
  unplace p st = Some st' -> keeps st st'.
Proof.
  unfold unplace. intros H.
  apply (foldM_rel keeps unmark_cell keeps_refl keeps_trans unmark_cell_keeps) in H.
  eapply keeps_trans; [|exact H]. repeat split.
Qed.

(** *** The cap of the per-colour search *)

Definition count (st : Store) : Z := Z.of_nat (List.length (solutions st)).

(** What a part of the search run from fewer than 100 solutions ensures. *)
Definition capped (k : Store -> option Store) : Prop :=
  forall st st', count st < 100 -> k st = Some st' ->
                 count st' <= 100 /\ same_inputs st st'.

Lemma backtrack_head_capped (color : string) (k : Store -> option Store) :
  capped k -> capped (backtrack_head color k).
Proof.
  intros Hk st st' Hlt H. unfold backtrack_head in H.
  bind_inv H.
  set (st1 := if b then with_solutions (solutions st ++ [snapshot st]) st else st) in *.
  assert (H1 : count st1 <= 100 /\ same_inputs st st1).
  { subst st1. destruct b.
    - split; [|repeat split]. unfold count in *. cbn [solutions with_solutions].
      rewrite length_app. simpl. lia.
    - split; [lia|apply same_inputs_refl]. }
  destruct H1 as [Hc Hs].
  destruct (b && (100 <=? Z.of_nat (List.length (solutions st1)))) eqn:Estop.
  - injection H as <-. auto.
  - bind_inv H. destruct b0.
    + injection H as <-. auto.
    + assert (Hlt1 : count st1 < 100).
      { destruct b; [|subst st1; assumption].
        simpl in Estop. apply Z.leb_gt in Estop. exact Estop. }
      destruct (Hk _ _ Hlt1 H) as [Hc' Hs'].
      split; [assumption|eapply same_inputs_trans; eassumption].
Qed.

Lemma backtrack_loop_capped (color : string) (ps : list Placement) :
  capped (backtrack_loop color ps).
Proof.
  induction ps as [|p ps IH]; intros st st' Hlt H; simpl in H.
  - injection H as <-. split; [lia|apply same_inputs_refl].
  - destruct (overlaps (usedCells st) p); [exact (IH _ _ Hlt H)|].
    bind_inv H. rename s into st1.
    bind_inv H. rename s into st2.
    bind_inv H. rename s into st3.
    destruct (place_keeps _ _ _ E) as [Hs1 Hc1].
    assert (Hlt1 : count st1 < 100) by (unfold count in *; rewrite Hc1; assumption).
    destruct (backtrack_head_capped color _ IH _ _ Hlt1 E0) as [Hc2 Hs2].
    destruct (unplace_keeps _ _ _ E1) as [Hs3 Hc3].
    assert (Hs : same_inputs st st3).
    { eapply same_inputs_trans; [exact Hs1|].
      eapply same_inputs_trans; [exact Hs2|exact Hs3]. }
    destruct (Z.leb_spec 100 (Z.of_nat (List.length (solutions st3)))) as [Hge|Hlt3].
    + injection H as <-. split; [|assumption]. unfold count in *. rewrite Hc3. assumption.
    + destruct (IH _ _ Hlt3 H) as [Hc' Hs'].
      split; [assumption|eapply same_inputs_trans; eassumption].
Qed.

Lemma fresh_locals_spec (gridRows gridCols : Z) (st st0 : Store) :
  fresh_locals gridRows gridCols st = Some st0 ->
  same_inputs st st0 /\ solutions st0 = [] /\ usedCells st0 = [] /\
  currentPlacements st0 = [] /\
  rowCounts st0 = repeat 0 (Z.to_nat gridRows) /\
  colCounts st0 = repeat 0 (Z.to_nat gridCols) /\
  0 <= gridRows /\ 0 <= gridCols.
Proof.
  unfold fresh_locals, Array_fill0. intros H.
  destruct (Z.ltb_spec gridRows 0); [discriminate|].
  destruct (Z.ltb_spec gridCols 0); [discriminate|].
  injection H as <-. repeat split; assumption.
Qed.

(** [solveForColor] returns at most 100 solutions and leaves the caller's
    objects as they were. *)
Lemma solveForColor_capped (color : string) (placements : list Placement)
    (gridRows gridCols : Z) (forbiddenCells : list Cell) (st st' : Store)
    (sols : list ColorSolution) :
  solveForColor color placements gridRows gridCols forbiddenCells st = Some (sols, st') ->
  (List.length sols <= 100)%nat /\ same_inputs st st'.
Proof.
  unfold solveForColor. intros H. bind_inv H. rename s into st0.
  bind_inv H. injection H as <- <-.
  destruct (fresh_locals_spec _ _ _ _ E) as (Hs0 & Hsol & _).
  assert (Hlt : count st0 < 100) by (unfold count; rewrite Hsol; simpl; lia).
  destruct (backtrack_head_capped color _ (backtrack_loop_capped color _) _ _ Hlt E0)
    as [Hc Hs].
  split; [unfold count in Hc; lia|eapply same_inputs_trans; eassumption].
Qed.

(** *** The cap of [runSolver] *)




(** *** The cells of a solution lie in the grid, off the forbidden cells *)

Lemma foldM_inv {A S : Type} (Inv : S -> Prop) (f : S -> A -> option S) (l : list A) :
  (forall s x s', In x l -> Inv s -> f s x = Some s' -> Inv s') ->
  forall s s', Inv s -> foldM f l s = Some s' -> Inv s'.
Proof.
  induction l as [|x l IH]; intros Hstep s s' Hs H; simpl in H.
  - injection H as <-. assumption.
  - bind_inv H. apply (IH (fun s x s' Hx => Hstep s x s' (or_intror Hx)) s0 s').
    + eapply Hstep; [left; reflexivity|exact Hs|exact E].
    + assumption.
Qed.

Lemma bump_spec (d : Z) (arr arr' : list Z) (n : nat) :
  bump d arr n = Some arr' ->
  (n < List.length arr)%nat /\ List.length arr' = List.length arr.
Proof.
  revert arr arr'; induction n as [|n IH]; intros [|x arr] arr' H; simpl in H;
    try discriminate.
  - injection H as <-. simpl. split; lia.
  - bind_inv H. injection H as <-. destruct (IH _ _ E). simpl. split; lia.
Qed.

Lemma add_at_spec (d : Z) (arr arr' : list Z) (i : Z) :
  add_at d arr i = Some arr' ->
  0 <= i < Z.of_nat (List.length arr) /\ List.length arr' = List.length arr.
Proof.
  unfold add_at. destruct (Z.ltb_spec i 0); [discriminate|].
  intros H'. destruct (bump_spec _ _ _ _ H'). split; [lia|assumption].
Qed.

Section SearchInvariant.

Variables (R C : nat) (F : list Cell).







(** A placement none of whose cells is forbidden. *)
Definition allowed (p : Placement) : Prop := forall rc, In rc (cells p) -> ~ In rc F.






End SearchInvariant.

Lemma sort_insert_perm (p : Placement) (l : list Placement) :
  Permutation (sort_insert p l) (p :: l).
Proof.
  induction l as [|q l IH]; simpl; [reflexivity|].
  destruct (key_le _ _); [reflexivity|].
  rewrite IH. apply perm_swap.
Qed.

Lemma sortByPosition_perm (l : list Placement) : Permutation (sortByPosition l) l.
Proof.
  induction l as [|p l IH]; simpl; [reflexivity|].
  rewrite sort_insert_perm. constructor. assumption.
Qed.

Lemma overlaps_false (set : list Cell) (p : Placement) :
  overlaps set p = false <-> forall rc, In rc (cells p) -> ~ In rc set.
Proof.
  unfold overlaps. split.
  - intros H rc Hrc Hin. apply has_In in Hin.
    assert (existsb (has set) (cells p) = true) by (apply existsb_exists; eauto).
    congruence.
  - intros H. destruct (existsb (has set) (cells p)) eqn:E; [|reflexivity].
    apply existsb_exists in E. destruct E as (rc & Hrc & Hh).
    apply has_In in Hh. exfalso. exact (H _ Hrc Hh).
Qed.

Lemma validPlacementsOf_allowed (placements : list Placement) (F : list Cell) :
  Forall (allowed F) (validPlacementsOf placements F).
Proof.
  unfold validPlacementsOf.
  eapply Permutation_Forall; [symmetry; apply sortByPosition_perm|].
  apply Forall_forall. intros p Hp. apply filter_In in Hp. destruct Hp as [_ Hp].
  apply negb_true_iff in Hp. rewrite overlaps_false in Hp.
  intros rc Hrc Hin. apply (Hp rc Hrc). apply new_Set_In. assumption.
Qed.


(** *** Blocked cells *)

(** The state of a cell of the grid, [gridState[r][c]]. *)
Definition stateAt (g : list (list CellState)) (rc : Cell) : option CellState :=
  match get g (fst rc) with
  | Some row => get row (snd rc)
  | None => None
  end.

Lemma is_blocked_true (s : option CellState) : is_blocked s = true <-> s = Some Blocked.
Proof.
  destruct s as [[| | |]|]; simpl; split; intros H; try discriminate; auto.
Qed.

Lemma blocked_row_spec (g : list (list CellState)) (r : Z) (l : list Z) :
  forall acc res,
    foldM (fun acc c =>
             row <- get g r ;;
             Some (if is_blocked (get row c) then acc ++ [(r, c)] else acc)) l acc
      = Some res ->
    exists extra, res = acc ++ extra /\
      forall rc, In rc extra <->
                 exists c, In c l /\ rc = (r, c) /\ stateAt g (r, c) = Some Blocked.
Proof.
  induction l as [|c l IH]; intros acc res H; simpl in H.
  - injection H as <-. exists []. rewrite app_nil_r. split; [reflexivity|].
    intros rc; split; [intros []|intros (c & [] & _)].
  - bind_as H acc' E. bind_as E row E0. injection E as <-.
    destruct (IH _ _ H) as (extra & -> & Hex). clear IH H.
    assert (Hst : stateAt g (r, c) = get row c).
    { unfold stateAt. cbn [fst snd]. rewrite E0. reflexivity. }
    destruct (is_blocked (get row c)) eqn:Eb.
    + exists ((r, c) :: extra). rewrite <- app_assoc. split; [reflexivity|].
      intros rc. simpl. rewrite Hex. split.
      * intros [<-|(c' & Hc' & E1 & E2)].
        -- exists c. split; [auto|split; [reflexivity|]].
           rewrite Hst. apply is_blocked_true. assumption.
        -- exists c'. auto.
      * intros (c' & [<-|Hc'] & E1 & E2); [left; congruence|right; eauto].
    + exists extra. split; [reflexivity|]. intros rc. rewrite Hex. split.
      * intros (c' & Hc' & E1 & E2). exists c'. simpl; auto.
      * intros (c' & [<-|Hc'] & E1 & E2); [|eauto].
        rewrite Hst in E2. apply is_blocked_true in E2. congruence.
Qed.

Lemma blocked_rows_spec (g : list (list CellState)) (cols : list Z) (l : list Z) :
  forall acc res,
    foldM (fun acc r =>
             foldM (fun acc c =>
                      row <- get g r ;;
                      Some (if is_blocked (get row c) then acc ++ [(r, c)] else acc))
                   cols acc) l acc
      = Some res ->
    exists extra, res = acc ++ extra /\
      forall rc, In rc extra <->
                 In (fst rc) l /\ In (snd rc) cols /\ stateAt g rc = Some Blocked.
Proof.
  induction l as [|r l IH]; intros acc res H; simpl in H.
  - injection H as <-. exists []. rewrite app_nil_r. split; [reflexivity|].
    intros rc; split; [intros []|intros ([] & _)].
  - bind_inv H.
    destruct (blocked_row_spec _ _ _ _ _ E) as (e1 & -> & H1).
    destruct (IH _ _ H) as (e2 & -> & H2). clear IH H E.
    exists (e1 ++ e2). rewrite <- app_assoc. split; [reflexivity|].
    intros rc. rewrite in_app_iff, H1, H2. simpl. split.
    + intros [(c & Hc & -> & Hb)|(Hr & Hc & Hb)]; cbn [fst snd]; auto.
    + intros ([Hr|Hr] & Hc & Hb); [left|right; auto].
      destruct rc as [a b]. cbn [fst snd] in *. subst a. exists b. auto.
Qed.

(** [blockedCellsOf] collects exactly the blocked cells of the scanned
    rectangle. *)
Lemma blockedCellsOf_spec (gridRows gridCols : Z) (g : list (list CellState))
    (bl : list Cell) :
  blockedCellsOf gridRows gridCols g = Some bl ->
  forall rc, In rc bl <->
             0 <= fst rc < gridRows /\ 0 <= snd rc < gridCols /\
             stateAt g rc = Some Blocked.
Proof.
  unfold blockedCellsOf. intros H rc.
  destruct (blocked_rows_spec _ _ _ _ _ H) as (extra & -> & Hex).
  simpl. rewrite Hex, !range_In. reflexivity.
Qed.







(** *** Locked cells are not read *)






Lemma get_map {A B : Type} (f : A -> B) (l : list A) (i : Z) :
  get (map f l) i = option_map f (get l i).
Proof. unfold get. destruct (i <? 0); [reflexivity|apply nth_error_map]. Qed.













(** *** C2 *)











(** *** C4 *)

(** [runSolver] reports the absence of placements as such. *)
Lemma runSolver_no_placements (lib : ShapeLibrary) (gridRows gridCols : Z)
    (enabledShapes : list string) (st : Store) (bl : list Cell) :
  blockedCellsOf gridRows gridCols (gridState st) = Some bl ->
  hasReq "green" (rowReqs st) (colReqs st) || hasReq "blue" (rowReqs st) (colReqs st)
    = true ->
  generateAllPlacements lib gridRows gridCols bl enabledShapes = Some [] ->
  runSolver lib gridRows gridCols enabledShapes st
  = Some (Failure "No valid shape placements possible", st).
Proof.
  intros Hb Hreq Hgen. unfold runSolver. rewrite Hb.
  destruct (hasReq "green" _ _), (hasReq "blue" _ _); try discriminate Hreq;
    cbn [negb andb]; rewrite Hgen; reflexivity.
Qed.

(** [runSolverWithShapeCounts] has no such report: none of its failures
    carries that message. *)
Lemma runSolverWithShapeCounts_messages (lib : ShapeLibrary) (gridRows gridCols : Z)
    (shapeCounts : list (string * Z)) (st st' : Store) (message : string) :
  runSolverWithShapeCounts lib gridRows gridCols shapeCounts st
    = Some (Failure message, st') ->
  message = "No requirements specified" \/
  message = "No valid green configuration found with selected shapes" \/
  message = "No valid solution found with selected shape counts".
Proof.
  unfold runSolverWithShapeCounts. intros H. bind_inv H.
  destruct (negb _ && negb _); [injection H as <- _; auto|].
  bind_inv H. bind_inv H. destruct p as [greenSolutions st1].
  destruct (_ && (List.length greenSolutions =? 0)%nat); [injection H as <- _; auto|].
  bind_inv H. destruct p as [sols st2].
  destruct (List.length sols =? 0)%nat; [injection H as <- _; auto|discriminate H].
Qed.

(** C4.  On the grid whose four cells are blocked no placement of the
    square exists.  [runSolver] answers 'No valid shape placements possible';
    [runSolverWithShapeCounts], given the same grid and requirements, skips
    that check and answers with its no-solution message. *)
Theorem C4_exact_counts_misses_no_placements :
  placementsByShapeOf SHAPE_LIBRARY 2 2
    (new_Set [(0, 0); (0, 1); (1, 0); (1, 1)]) ["square-4"] []
    = Some [("square-4", [])] /\
  option_map fst (runSolver SHAPE_LIBRARY 2 2 ["square-4"] Examples.walled_store)
    = Some (Failure "No valid shape placements possible") /\
  option_map fst
    (runSolverWithShapeCounts SHAPE_LIBRARY 2 2 [("square-4", 1)] Examples.walled_store)
    = Some (Failure "No valid green configuration found with selected shapes").
Proof. repeat split; vm_compute; reflexivity. Qed.

End SolverFacts.

(** ** Facts about "fit all pieces" *)

Module FitAllFacts.
Import Shapes Solver.

(** Every complete assignment, in the order the search meets them: the
    instances are taken in list order and, for each, the placements of its
    shape that do not overlap the cells in use. *)
Fixpoint allFits (placementsByShape : list (string * list Placement))
    (instances : list string) (used : list Cell) (current : list Placement)
  : list Solution :=
  match instances with
  | [] => [mkSolution (flat_map cells current) [] current []]
  | shapeId :: instances' =>
      match lookup shapeId placementsByShape with
      | None => []
      | Some placements =>
          flat_map (fun p =>
                      if overlaps used p then []
                      else allFits placementsByShape instances'
                             (fold_left set_add (cells p) used) (current ++ [p]))
                   placements
      end
  end.

(** The loop over the placements of one instance, with the rest of the
    search as [k]. *)
Definition fit_loop (k : FitState -> option (bool * FitState)) :=
  fix loop (ps : list Placement) (st : FitState) : option (bool * FitState) :=
    match ps with
    | [] => Some (false, st)
    | placement :: ps' =>
        if overlaps (fit_usedCells st) placement then loop ps' st
        else
          r <- k (fit_place placement st) ;;
          let '(shouldStop, st2) := r in
          if shouldStop then Some (true, st2)
          else loop ps' (fit_unplace placement st2)
    end.

Lemma fit_backtrack_cons (pbs : list (string * list Placement)) (shapeId : string)
    (instances : list string) (st : FitState) :
  fit_backtrack pbs (shapeId :: instances) st
  = (placements <- lookup shapeId pbs ;;
     fit_loop (fit_backtrack pbs instances) placements st).
Proof. reflexivity. Qed.

Definition cap (l : list Solution) : list Solution := firstn 50 l.

Definition full (l : list Solution) : bool := 50 <=? Z.of_nat (List.length l).

(** What a part of the search does, started below the cap: it appends the
    solutions [found], up to the cap, reports whether the cap was reached,
    and otherwise puts the set and the stack back. *)
Definition runs (k : FitState -> option (bool * FitState))
    (found : list Cell -> list Placement -> list Solution) : Prop :=
  forall st stop st',
    full (fit_solutions st) = false ->
    k st = Some (stop, st') ->
    let all := fit_solutions st ++ found (fit_usedCells st) (fit_currentPlacements st) in
    fit_solutions st' = cap all /\ stop = full all /\
    (stop = false ->
     fit_usedCells st' = fit_usedCells st /\
     fit_currentPlacements st' = fit_currentPlacements st).

Lemma full_false_cap (l : list Solution) : full l = false -> cap l = l.
Proof.
  unfold full, cap. intros H. apply Z.leb_gt in H. apply firstn_all2. lia.
Qed.

Lemma full_app (l l' : list Solution) : full l = true -> full (l ++ l') = true.
Proof.
  unfold full. rewrite !Z.leb_le, length_app. lia.
Qed.

Lemma cap_app_full (l l' : list Solution) : full l = true -> cap (l ++ l') = cap l.
Proof.
  unfold full, cap. intros H. apply Z.leb_le in H.
  rewrite firstn_app. replace (50 - List.length l)%nat with 0%nat by lia.
  simpl. apply app_nil_r.
Qed.

Lemma fit_unplace_place (p : Placement) (st st2 : FitState) :
  overlaps (fit_usedCells st) p = false ->
  fit_usedCells st2 = fit_usedCells (fit_place p st) ->
  fit_currentPlacements st2 = fit_currentPlacements (fit_place p st) ->
  fit_usedCells (fit_unplace p st2) = fit_usedCells st /\
  fit_currentPlacements (fit_unplace p st2) = fit_currentPlacements st /\
  fit_solutions (fit_unplace p st2) = fit_solutions st2.
Proof.
  intros Hov Hu Hc. unfold fit_unplace. cbn. rewrite Hu, Hc. cbn.
  split; [|split; [apply removelast_last|reflexivity]].
  apply fold_delete_add. apply SolverFacts.overlaps_false. assumption.
Qed.

Lemma fit_loop_runs (k : FitState -> option (bool * FitState))
    (found : list Cell -> list Placement -> list Solution) (ps : list Placement) :
  runs k found ->
  runs (fit_loop k ps)
       (fun used current =>
          flat_map (fun p =>
                      if overlaps used p then []
                      else found (fold_left set_add (cells p) used) (current ++ [p]))
                   ps).
Proof.
  intros Hk. induction ps as [|p ps IH]; intros st stop st' Hnf H; simpl in H.
  - injection H as <- <-. cbn. rewrite app_nil_r.
    split; [symmetry; apply full_false_cap; assumption|]. split; auto.
  - cbn [flat_map]. destruct (overlaps (fit_usedCells st) p) eqn:Hov.
    + exact (IH _ _ _ Hnf H).
    + bind_inv H. destruct p0 as [shouldStop st2].
      destruct (Hk (fit_place p st) _ _ Hnf E) as (Hsol & Hstop & Hrest).
      cbv zeta in Hsol, Hstop, Hrest.
      cbn [fit_solutions fit_usedCells fit_currentPlacements fit_place] in Hsol, Hstop, Hrest.
      set (A := found (fold_left set_add (cells p) (fit_usedCells st))
                      (fit_currentPlacements st ++ [p])) in *.
      cbv zeta. rewrite app_assoc.
      destruct shouldStop.
      * injection H as <- <-. symmetry in Hstop.
        rewrite cap_app_full by assumption.
        split; [assumption|]. split; [symmetry; apply full_app; assumption|discriminate].
      * symmetry in Hstop. rewrite (full_false_cap _ Hstop) in Hsol.
        destruct (Hrest eq_refl) as [Hu Hc].
        destruct (fit_unplace_place p st st2 Hov Hu Hc) as (Hu' & Hc' & Hs').
        assert (Hnf' : full (fit_solutions (fit_unplace p st2)) = false)
          by (rewrite Hs', Hsol; assumption).
        destruct (IH _ _ _ Hnf' H) as (Hsol3 & Hstop3 & Hrest3).
        cbv zeta in Hsol3, Hstop3. rewrite Hs', Hsol, Hu', Hc' in *.
        split; [assumption|]. split; [assumption|].
        intros Hf. destruct (Hrest3 Hf). split; congruence.
Qed.

(** The search is the enumeration [allFits], cut at 50 solutions. *)
Lemma fit_backtrack_runs (pbs : list (string * list Placement)) (instances : list string) :
  runs (fit_backtrack pbs instances) (allFits pbs instances).
Proof.
  induction instances as [|shapeId instances IH]; intros st stop st' Hnf H.
  - simpl in H. injection H as <- <-. cbv zeta.
    cbn [fit_solutions fit_usedCells fit_currentPlacements allFits].
    change (mkSolution (flat_map cells (fit_currentPlacements st)) []
              (fit_currentPlacements st) []) with (fit_solution st).
    assert (Hcap : cap (fit_solutions st ++ [fit_solution st])
                   = fit_solutions st ++ [fit_solution st]).
    { unfold cap. apply firstn_all2. unfold full in Hnf. apply Z.leb_gt in Hnf.
      rewrite length_app. simpl. lia. }
    split; [symmetry; exact Hcap|]. split; [reflexivity|]. intros _. split; reflexivity.
  - rewrite fit_backtrack_cons in H. bind_inv H. cbn [allFits]. rewrite E.
    exact (fit_loop_runs _ _ l IH st stop st' Hnf H).
Qed.

Lemma In_cap (s : Solution) (l : list Solution) : In s (cap l) -> In s l.
Proof.
  unfold cap. intros H. rewrite <- (firstn_skipn 50 l). apply in_app_iff. auto.
Qed.

Lemma runFitAllPiecesSolver_spec (lib : ShapeLibrary) (gridRows gridCols : Z)
    (blockedCells : list Cell) (shapeCounts : list (string * Z)) (sols : list Solution) :
  runFitAllPiecesSolver lib gridRows gridCols blockedCells shapeCounts
    = Some (Success sols) ->
  exists pbs,
    placementsByShapeOf lib gridRows gridCols (new_Set blockedCells)
      (map fst shapeCounts) [] = Some pbs /\
    sols = cap (allFits pbs (shapeInstancesOf shapeCounts) [] []).
Proof.
  unfold runFitAllPiecesSolver. intros H.
  destruct (List.length (shapeInstancesOf shapeCounts) =? 0)%nat; [discriminate|].
  bind_as H pbs E. bind_as H missing E0. destruct missing; [discriminate|].
  bind_as H r E1. destruct r as [stop st']. cbn [snd] in H.
  destruct (List.length (fit_solutions st') =? 0)%nat; [discriminate|].
  injection H as <-. exists pbs. split; [reflexivity|].
  destruct (fit_backtrack_runs pbs _ (mkFit [] [] []) stop st' eq_refl E1) as (Hs & _).
  exact Hs.
Qed.

(** *** C5 *)

(** C5 (as stated) fails: the search does not stop at its first complete
    assignment.  With one line of three on an empty row of four cells it
    returns both positions of the line. *)
Lemma C5_search_goes_on_after_first :
  ~ (forall lib gridRows gridCols blockedCells shapeCounts sols,
        runFitAllPiecesSolver lib gridRows gridCols blockedCells shapeCounts
          = Some (Success sols) ->
        List.length sols = 1%nat).
Proof.
  intros H.
  assert (E : runFitAllPiecesSolver SHAPE_LIBRARY 1 4 [] [("line-3", 1)]
              = Some (Success Examples.line_fits)) by (vm_compute; reflexivity).
  apply H in E. vm_compute in E. discriminate E.
Qed.

(** C5 (amended).  The backtracking of "fit all pieces" records every
    complete assignment it meets and goes on; it stops only when 50 solutions
    are recorded.  The solutions returned are the first 50 complete
    assignments in search order, and all of them when there are fewer. *)
Theorem C5_fit_all_first_fifty :
  forall lib gridRows gridCols blockedCells shapeCounts sols,
    runFitAllPiecesSolver lib gridRows gridCols blockedCells shapeCounts
      = Some (Success sols) ->
    exists placementsByShape,
      placementsByShapeOf lib gridRows gridCols (new_Set blockedCells)
        (map fst shapeCounts) [] = Some placementsByShape /\
      sols = firstn 50 (allFits placementsByShape (shapeInstancesOf shapeCounts) [] []).
Proof.
  intros lib gridRows gridCols blockedCells shapeCounts sols H.
  exact (runFitAllPiecesSolver_spec _ _ _ _ _ _ H).
Qed.

Lemma C5_fit_all_first_fifty_witness :
  runFitAllPiecesSolver SHAPE_LIBRARY 1 4 [] [("line-3", 1)]
    = Some (Success Examples.line_fits) /\
  (exists placementsByShape,
      placementsByShapeOf SHAPE_LIBRARY 1 4 (new_Set []) (map fst [("line-3", 1)]) []
        = Some placementsByShape /\
      Examples.line_fits
      = firstn 50 (allFits placementsByShape (shapeInstancesOf [("line-3", 1)]) [] [])).
Proof.
  assert (E : runFitAllPiecesSolver SHAPE_LIBRARY 1 4 [] [("line-3", 1)]
              = Some (Success Examples.line_fits)) by (vm_compute; reflexivity).
  split; [exact E|].
  exact (C5_fit_all_first_fifty SHAPE_LIBRARY 1 4 [] [("line-3", 1)]
           Examples.line_fits E).
Defined.

(** *** C10 *)

Lemma placementsOfRotation_shapeId (id : string) (rotIdx : Z) (rotation : list Cell)
    (b : Bounds) (gridRows gridCols : Z) (blockedSet : list Cell) :
  Forall (fun p => shapeId p = id)
         (placementsOfRotation id rotIdx rotation b gridRows gridCols blockedSet).
Proof.
  unfold placementsOfRotation. apply Forall_flat_map, Forall_forall. intros r _.
  apply Forall_flat_map, Forall_forall. intros c _.
  destruct (negb _); constructor; [reflexivity|constructor].
Qed.

Lemma placementsOfRotations_shapeId (id : string) (rots : list (list Cell))
    (gridRows gridCols : Z) (blockedSet : list Cell) :
  forall rotIdx ps,
    placementsOfRotations id rotIdx rots gridRows gridCols blockedSet = Some ps ->
    Forall (fun p => shapeId p = id) ps.
Proof.
  induction rots as [|rot rots IH]; intros rotIdx ps H; simpl in H.
  - injection H as <-. constructor.
  - bind_inv H. bind_inv H. injection H as <-. apply Forall_app. split.
    + apply placementsOfRotation_shapeId.
    + eapply IH; eassumption.
Qed.

Lemma placementsByShapeOf_shapeId (lib : ShapeLibrary) (gridRows gridCols : Z)
    (blockedSet : list Cell) (keys : list string) :
  forall acc pbs,
    (forall id ps, lookup id acc = Some ps -> Forall (fun p => shapeId p = id) ps) ->
    placementsByShapeOf lib gridRows gridCols blockedSet keys acc = Some pbs ->
    forall id ps, lookup id pbs = Some ps -> Forall (fun p => shapeId p = id) ps.
Proof.
  induction keys as [|k keys IH]; intros acc pbs Hacc H; simpl in H.
  - injection H as <-. assumption.
  - bind_as H ps0 E. refine (IH _ _ _ H).
    intros id ps. rewrite ShapesFacts.lookup_assign.
    destruct (String.eqb_spec id k) as [->|_]; [|apply Hacc].
    intros Hps; injection Hps as <-.
    unfold generatePlacementsForShape in E. bind_inv E.
    eapply placementsOfRotations_shapeId; eassumption.
Qed.

(** The shape of the solutions listed by [allFits]. *)
Lemma allFits_shape (pbs : list (string * list Placement)) (instances : list string) :
  (forall id ps, lookup id pbs = Some ps -> Forall (fun p => shapeId p = id) ps) ->
  forall used current s,
    In s (allFits pbs instances used current) ->
    blue s = [] /\ bluePlacements s = [] /\
    green s = flat_map cells (greenPlacements s) /\
    exists chosen, greenPlacements s = current ++ chosen /\
                   map shapeId chosen = instances.
Proof.
  intros Hpbs. induction instances as [|id instances IH]; intros used current s H;
    simpl in H.
  - destruct H as [<-|[]]. cbn. repeat split. exists []. rewrite app_nil_r. auto.
  - destruct (lookup id pbs) as [ps|] eqn:E; [|destruct H].
    apply in_flat_map in H. destruct H as (p & Hp & H).
    destruct (overlaps used p); [destruct H|].
    destruct (IH _ _ _ H) as (H1 & H2 & H3 & chosen & H4 & H5).
    repeat split; try assumption.
    exists (p :: chosen). rewrite H4, <- app_assoc. split; [reflexivity|].
    simpl. f_equal; [|assumption].
    pose proof (Hpbs _ _ E) as Hall. rewrite Forall_forall in Hall. auto.
Qed.

(** C10.  Every solution returned by [runFitAllPiecesSolver] holds, under
    [greenPlacements], one placement for every shape instance, in the order
    of the instances, and under [green] the cells of these placements; its
    [blue] and [bluePlacements] are empty. *)
Theorem C10_fit_all_is_green_only :
  forall lib gridRows gridCols blockedCells shapeCounts sols,
    runFitAllPiecesSolver lib gridRows gridCols blockedCells shapeCounts
      = Some (Success sols) ->
    Forall (fun s =>
              green s = flat_map cells (greenPlacements s) /\
              map shapeId (greenPlacements s) = shapeInstancesOf shapeCounts /\
              blue s = [] /\ bluePlacements s = []) sols.
Proof.
  intros lib gridRows gridCols blockedCells shapeCounts sols H.
  destruct (runFitAllPiecesSolver_spec _ _ _ _ _ _ H) as (pbs & Hpbs & ->).
  apply Forall_forall. intros s Hs. apply In_cap in Hs.
  assert (Hids : forall id ps, lookup id pbs = Some ps ->
                               Forall (fun p => shapeId p = id) ps).
  { eapply placementsByShapeOf_shapeId; [|exact Hpbs]. intros id ps Hl; discriminate Hl. }
  destruct (allFits_shape pbs _ Hids _ _ _ Hs) as (H1 & H2 & H3 & chosen & H4 & H5).
  simpl in H4. subst chosen. auto.
Qed.

Lemma C10_fit_all_is_green_only_witness :
  runFitAllPiecesSolver SHAPE_LIBRARY 1 4 [] [("line-3", 1)]
    = Some (Success Examples.line_fits) /\
  Forall (fun s =>
            green s = flat_map cells (greenPlacements s) /\
            map shapeId (greenPlacements s) = shapeInstancesOf [("line-3", 1)] /\
            blue s = [] /\ bluePlacements s = []) Examples.line_fits.
Proof.
  assert (E : runFitAllPiecesSolver SHAPE_LIBRARY 1 4 [] [("line-3", 1)]
              = Some (Success Examples.line_fits)) by (vm_compute; reflexivity).
  split; [exact E|].
  exact (C10_fit_all_is_green_only SHAPE_LIBRARY 1 4 [] [("line-3", 1)]
           Examples.line_fits E).
Defined.

End FitAllFacts.

(** ** Facts about the order of exploration *)

Module SortFacts.
Import Shapes Solver.

(** The least position of a placement when positions are numbered
    [r * stride + c]; [sortKey] is the case of stride 100. *)
Definition minPosition (stride : Z) (p : Placement) : option Z :=
  Math_min (map (fun '(r, c) => r * stride + c) (cells p)).

Lemma sortKey_minPosition (p : Placement) : sortKey p = minPosition 100 p.
Proof. reflexivity. Qed.

(** Ascending order of the least positions. *)
Definition ascending (stride : Z) (l : list Placement) : Prop :=
  StronglySorted
    (fun p q => key_le (minPosition stride p) (minPosition stride q) = true) l.

Definition key_eqb (a b : option Z) : bool :=
  match a, b with
  | Some x, Some y => x =? y
  | None, None => true
  | _, _ => false
  end.

Lemma key_le_refl (a : option Z) : key_le a a = true.
Proof. destruct a; simpl; [apply Z.leb_refl|reflexivity]. Qed.

Lemma key_le_trans (a b c : option Z) :
  key_le a b = true -> key_le b c = true -> key_le a c = true.
Proof.
  destruct a, b, c; simpl; try discriminate; auto.
  rewrite !Z.leb_le. lia.
Qed.

Lemma key_le_total (a b : option Z) : key_le a b = false -> key_le b a = true.
Proof.
  destruct a, b; simpl; try discriminate; auto.
  rewrite Z.leb_gt, Z.leb_le. lia.
Qed.

Lemma key_le_antisym (a b : option Z) :
  key_le a b = true -> key_le b a = true -> a = b.
Proof.
  destruct a, b; simpl; try discriminate; auto.
  rewrite !Z.leb_le. intros. f_equal. lia.
Qed.

Lemma key_eqb_le (a b : option Z) : key_eqb a b = true -> key_le a b = true.
Proof.
  destruct a, b; simpl; try discriminate; auto.
  rewrite Z.eqb_eq, Z.leb_le. lia.
Qed.

Lemma sort_insert_sorted (p : Placement) (l : list Placement) :
  ascending 100 l -> ascending 100 (sort_insert p l).
Proof.
  unfold ascending. induction l as [|q l IH]; intros Hs; simpl.
  - constructor; [constructor|constructor].
  - apply StronglySorted_inv in Hs. destruct Hs as [Hl Hq].
    destruct (key_le (sortKey p) (sortKey q)) eqn:E.
    + constructor; [constructor; assumption|].
      constructor; [exact E|].
      eapply Forall_impl; [|exact Hq]. intros x Hx.
      eapply key_le_trans; [exact E|exact Hx].
    + constructor; [apply IH; assumption|].
      eapply Permutation_Forall; [symmetry; apply SolverFacts.sort_insert_perm|].
      constructor; [|assumption]. apply key_le_total. exact E.
Qed.

Lemma sortByPosition_sorted (l : list Placement) : ascending 100 (sortByPosition l).
Proof.
  induction l as [|p l IH]; simpl; [constructor|].
  apply sort_insert_sorted. assumption.
Qed.

(** Stability: placements with one and the same key keep their order. *)
Lemma sort_insert_stable (k : option Z) (p : Placement) (l : list Placement) :
  filter (fun q => key_eqb (sortKey q) k) (sort_insert p l)
  = filter (fun q => key_eqb (sortKey q) k) (p :: l).
Proof.
  induction l as [|q l IH]; simpl; [reflexivity|].
  destruct (key_le (sortKey p) (sortKey q)) eqn:E; [reflexivity|].
  simpl in *. rewrite IH.
  destruct (key_eqb (sortKey p) k) eqn:Ep; [|reflexivity].
  destruct (key_eqb (sortKey q) k) eqn:Eq; [|reflexivity].
  exfalso.
  assert (Hpq : sortKey p = sortKey q).
  { destruct (sortKey p), (sortKey q), k; simpl in Ep, Eq; try discriminate;
      try reflexivity. apply Z.eqb_eq in Ep, Eq. congruence. }
  rewrite Hpq, key_le_refl in E. discriminate E.
Qed.

Lemma sortByPosition_stable (k : option Z) (l : list Placement) :
  filter (fun q => key_eqb (sortKey q) k) (sortByPosition l)
  = filter (fun q => key_eqb (sortKey q) k) l.
Proof.
  induction l as [|p l IH]; simpl; [reflexivity|].
  rewrite sort_insert_stable. simpl. rewrite IH. reflexivity.
Qed.

(** Two ascending lists of keys with the same elements are equal. *)
Lemma sorted_keys_unique (l1 l2 : list (option Z)) :
  StronglySorted (fun a b => key_le a b = true) l1 ->
  StronglySorted (fun a b => key_le a b = true) l2 ->
  Permutation l1 l2 -> l1 = l2.
Proof.
  revert l2. induction l1 as [|a l1 IH]; intros l2 H1 H2 Hp.
  - symmetry. apply Permutation_nil. assumption.
  - destruct l2 as [|b l2].
    { symmetry in Hp. apply Permutation_nil in Hp. discriminate Hp. }
    apply StronglySorted_inv in H1. destruct H1 as [H1 Ha].
    apply StronglySorted_inv in H2. destruct H2 as [H2 Hb].
    assert (Hab : a = b).
    { assert (Hin : In b (a :: l1)) by (eapply Permutation_in; [symmetry; exact Hp|left; reflexivity]).
      assert (Hin' : In a (b :: l2)) by (eapply Permutation_in; [exact Hp|left; reflexivity]).
      rewrite Forall_forall in Ha, Hb.
      destruct Hin as [E|Hin]; [auto|].
      destruct Hin' as [E|Hin']; [auto|].
      apply key_le_antisym; auto. }
    subst b. f_equal. apply IH; try assumption.
    eapply Permutation_cons_inv. exact Hp.
Qed.

Lemma StronglySorted_map {A B : Type} (f : A -> B) (R : B -> B -> Prop) (l : list A) :
  StronglySorted (fun x y => R (f x) (f y)) l -> StronglySorted R (map f l).
Proof.
  induction 1 as [|x l Hl IH Hx]; simpl; constructor; [assumption|].
  apply Forall_map. assumption.
Qed.

Lemma Permutation_filter' {A : Type} (f : A -> bool) (l l' : list A) :
  Permutation l l' -> Permutation (filter f l) (filter f l').
Proof.
  induction 1 as [|x l l' _ IH|x y l|l l' l'' _ IH1 _ IH2]; simpl.
  - constructor.
  - destruct (f x); [constructor|]; assumption.
  - destruct (f x), (f y); try reflexivity. apply perm_swap.
  - etransitivity; eassumption.
Qed.

(** The keys are met in the same order whatever the order of the input. *)
Lemma validPlacementsOf_keys (placements placements' : list Placement) (F : list Cell) :
  Permutation placements placements' ->
  map sortKey (validPlacementsOf placements F)
  = map sortKey (validPlacementsOf placements' F).
Proof.
  intros Hp. unfold validPlacementsOf.
  apply sorted_keys_unique.
  - apply StronglySorted_map. apply sortByPosition_sorted.
  - apply StronglySorted_map. apply sortByPosition_sorted.
  - apply Permutation_map.
    rewrite !SolverFacts.sortByPosition_perm. apply Permutation_filter'. assumption.
Qed.

(** *** Stride 100 against the width of the grid *)

Definition within_columns (gridCols : Z) (p : Placement) : Prop :=
  forall rc, In rc (cells p) -> 0 <= snd rc < gridCols.

Lemma position_order (C r c r' c' : Z) :
  0 < C <= 100 -> 0 <= c < C -> 0 <= c' < C ->
  r * 100 + c <= r' * 100 + c' -> r * C + c <= r' * C + c'.
Proof.
  intros HC Hc Hc' H.
  destruct (Z.lt_trichotomy r r') as [Hlt|[->|Hgt]]; [|lia|lia].
  assert ((r + 1) * C <= r' * C) by (apply Z.mul_le_mono_nonneg_r; lia).
  lia.
Qed.

Lemma minPosition_stride (C : Z) (p : Placement) :
  0 < C <= 100 -> within_columns C p ->
  match minPosition 100 p with
  | None => minPosition C p = None
  | Some _ =>
      exists r c, In (r, c) (cells p) /\
                  minPosition 100 p = Some (r * 100 + c) /\
                  minPosition C p = Some (r * C + c)
  end.
Proof.
  intros HC Hw. unfold minPosition.
  destruct (Math_min (map (fun '(r, c) => r * 100 + c) (cells p))) as [m|] eqn:E.
  - pose proof E as E'. apply ShapesFacts.Math_min_least in E'. destruct E' as [Hin Hall].
    apply in_map_iff in Hin. destruct Hin as ([r c] & Hm & Hrc).
    exists r, c. split; [assumption|]. split; [congruence|].
    apply ShapesFacts.Math_min_least. split.
    + apply in_map_iff. exists (r, c). auto.
    + apply Forall_map. apply Forall_forall. intros [r' c'] Hin'.
      rewrite Forall_map, Forall_forall in Hall. specialize (Hall _ Hin'). cbn in Hall.
      apply position_order; try assumption.
      * exact (Hw _ Hrc).
      * exact (Hw _ Hin').
      * lia.
  - destruct (cells p); [reflexivity|discriminate E].
Qed.

Lemma key_le_stride (C : Z) (p q : Placement) :
  0 < C <= 100 -> within_columns C p -> within_columns C q ->
  key_le (minPosition 100 p) (minPosition 100 q) = true ->
  key_le (minPosition C p) (minPosition C q) = true.
Proof.
  intros HC Hp Hq H.
  pose proof (minPosition_stride C p HC Hp) as Sp.
  pose proof (minPosition_stride C q HC Hq) as Sq.
  destruct (minPosition 100 p) as [a|], (minPosition 100 q) as [b|].
  - destruct Sp as (r & c & Hin & Ea & ->). destruct Sq as (r' & c' & Hin' & Eb & ->).
    injection Ea as ->. injection Eb as ->. simpl in *.
    rewrite Z.leb_le in *. apply position_order; try assumption.
    + exact (Hp _ Hin).
    + exact (Hq _ Hin').
  - destruct Sp as (r & c & _ & _ & ->). rewrite Sq. reflexivity.
  - discriminate H.
  - rewrite Sp, Sq. reflexivity.
Qed.

Lemma StronglySorted_impl_in {A : Type} (R R' : A -> A -> Prop) (l : list A) :
  (forall x y, In x l -> In y l -> R x y -> R' x y) ->
  StronglySorted R l -> StronglySorted R' l.
Proof.
  intros Himp Hs. induction Hs as [|x l Hl IH Hx]; constructor.
  - apply IH. intros a b Ha Hb. apply Himp; right; assumption.
  - apply Forall_forall. intros y Hy. rewrite Forall_forall in Hx.
    apply Himp; [left; reflexivity|right; assumption|auto].
Qed.

(** *** C6 *)

(** C6 (as stated) fails: the key is [r * 100 + c] whatever the width of the
    grid.  On a grid of 151 columns the line at the left of the second row
    (key 100, position 151) is explored before the line at the right of the
    first row (key 148, position 148). *)
Lemma C6_stride_is_not_the_width :
  ~ (forall gridRows gridCols placements forbiddenCells,
        Forall (fun p => forall rc, In rc (cells p) ->
                                    0 <= fst rc < gridRows /\ 0 <= snd rc < gridCols)
               placements ->
        ascending gridCols (validPlacementsOf placements forbiddenCells)).
Proof.
  intros H.
  specialize (H 2 151 [Examples.line_right; Examples.line_below] []).
  assert (Hin : Forall (fun p => forall rc, In rc (cells p) ->
                                            0 <= fst rc < 2 /\ 0 <= snd rc < 151)
                       [Examples.line_right; Examples.line_below]).
  { repeat (constructor;
            [intros rc Hrc; simpl in Hrc;
             repeat (destruct Hrc as [<-|Hrc]; [simpl; lia|]); destruct Hrc|]).
    constructor. }
  specialize (H Hin). clear Hin.
  change (validPlacementsOf [Examples.line_right; Examples.line_below] [])
    with [Examples.line_below; Examples.line_right] in H.
  apply StronglySorted_inv in H. destruct H as [_ H].
  inversion_clear H as [|? ? Hle _]. vm_compute in Hle. discriminate Hle.
Qed.

(** C6 (amended).  [solveForColor] explores the placements that touch no
    forbidden cell in ascending order of their least position numbered
    [r * 100 + c], placements of equal key in the order of the input; the
    sequence of keys does not depend on the order of the input.  When the
    grid has at most 100 columns and the placements lie in its columns, this
    is also the ascending order of the positions [r * C + c]. *)
Theorem C6_explored_in_position_order :
  forall (placements : list Placement) (forbiddenCells : list Cell),
    let explored := validPlacementsOf placements forbiddenCells in
    (forall color gridRows gridCols st,
        solveForColor color placements gridRows gridCols forbiddenCells st
        = (st0 <- fresh_locals gridRows gridCols st ;;
           st' <- backtrack color explored st0 ;;
           Some (solutions st', st'))) /\
    Permutation explored
      (filter (fun p => negb (overlaps (new_Set forbiddenCells) p)) placements) /\
    ascending 100 explored /\
    (forall k,
        filter (fun q => key_eqb (minPosition 100 q) k) explored
        = filter (fun q => key_eqb (minPosition 100 q) k)
            (filter (fun p => negb (overlaps (new_Set forbiddenCells) p)) placements)) /\
    (forall placements',
        Permutation placements placements' ->
        map (minPosition 100) explored
        = map (minPosition 100) (validPlacementsOf placements' forbiddenCells)) /\
    (forall gridCols,
        0 < gridCols <= 100 ->
        Forall (within_columns gridCols) placements ->
        ascending gridCols explored).
Proof.
  intros placements F explored.
  split; [reflexivity|].
  split; [apply SolverFacts.sortByPosition_perm|].
  split; [apply sortByPosition_sorted|].
  split; [intros k; apply sortByPosition_stable|].
  split; [intros placements' Hp; apply validPlacementsOf_keys; assumption|].
  intros gridCols HC Hw.
  assert (Hw' : forall p, In p explored -> within_columns gridCols p).
  { intros p Hp. rewrite Forall_forall in Hw. apply Hw.
    apply (Permutation_in _ (SolverFacts.sortByPosition_perm _)) in Hp.
    apply filter_In in Hp. exact (proj1 Hp). }
  eapply StronglySorted_impl_in; [|apply sortByPosition_sorted].
  intros p q Hp Hq. apply key_le_stride; auto.
Qed.

(** The lines of three of a grid of 2 rows and 4 columns, handed over last
    one first, are explored in the order of their positions. *)
Lemma C6_explored_in_position_order_witness :
  ascending 100 (validPlacementsOf Examples.lines_2x4 []) /\
  (0 < 4 <= 100 /\ Forall (within_columns 4) Examples.lines_2x4) /\
  ascending 4 (validPlacementsOf Examples.lines_2x4 []).
Proof.
  pose proof (C6_explored_in_position_order Examples.lines_2x4 []) as H.
  destruct H as (_ & _ & H100 & _ & _ & Hwidth).
  assert (Hw : Forall (within_columns 4) Examples.lines_2x4).
  { unfold Examples.lines_2x4.
    repeat (constructor;
            [intros rc Hrc; simpl in Hrc;
             repeat (destruct Hrc as [<-|Hrc]; [simpl; lia|]); destruct Hrc|]).
    constructor. }
  split; [exact H100|]. split; [split; [lia|exact Hw]|].
  apply Hwidth; [lia|exact Hw].
Defined.

End SortFacts.

(** ** Facts about the search with exact shape counts *)

Module ExactFacts.
Import Shapes Solver.

(** *** Count arrays *)

(** How often [j] occurs among the indices [ks]. *)
Definition tally (ks : list Z) (j : Z) : Z := Z.of_nat (count_occ Z.eq_dec ks j).

(** [arr] is [arr0] with [d] added at every index of [ks], once per
    occurrence. *)
Definition shifted (d : Z) (arr0 arr : list Z) (ks : list Z) : Prop :=
  forall j, get arr j = option_map (fun x => x + d * tally ks j) (get arr0 j).

Lemma tally_nil (j : Z) : tally [] j = 0.
Proof. reflexivity. Qed.

Lemma tally_cons (i : Z) (ks : list Z) (j : Z) :
  tally (i :: ks) j = (if j =? i then 1 else 0) + tally ks j.
Proof.
  unfold tally. simpl. destruct (Z.eq_dec i j) as [->|Hne].
  - rewrite Z.eqb_refl. lia.
  - destruct (Z.eqb_spec j i); [congruence|lia].
Qed.

Lemma tally_app (ks1 ks2 : list Z) (j : Z) : tally (ks1 ++ ks2) j = tally ks1 j + tally ks2 j.
Proof. unfold tally. rewrite count_occ_app. lia. Qed.

Lemma tally_nonneg (ks : list Z) (j : Z) : 0 <= tally ks j.
Proof. unfold tally. lia. Qed.

Lemma get_nth_error {A : Type} (l : list A) (n : nat) : get l (Z.of_nat n) = nth_error l n.
Proof.
  unfold get. destruct (Z.ltb_spec (Z.of_nat n) 0); [lia|]. rewrite Nat2Z.id. reflexivity.
Qed.

Lemma get_ext {A : Type} (l l' : list A) : (forall j, get l j = get l' j) -> l = l'.
Proof.
  intros H. apply nth_error_ext. intros n. rewrite <- !get_nth_error. apply H.
Qed.

Lemma get_length {A : Type} (l : list A) (j : Z) :
  0 <= j < Z.of_nat (List.length l) -> exists x, get l j = Some x.
Proof.
  intros H. unfold get. destruct (Z.ltb_spec j 0); [lia|].
  destruct (nth_error l (Z.to_nat j)) eqn:E; [eauto|].
  apply nth_error_None in E. lia.
Qed.

Lemma bump_get (d : Z) (arr arr' : list Z) (n : nat) :
  bump d arr n = Some arr' ->
  forall m, nth_error arr' m
            = option_map (fun x => if (m =? n)%nat then x + d else x) (nth_error arr m).
Proof.
  revert arr arr'. induction n as [|n IH]; intros [|x arr] arr' H m; simpl in H;
    try discriminate.
  - injection H as <-. destruct m as [|m]; simpl; [reflexivity|].
    destruct (nth_error arr m); reflexivity.
  - bind_as H arr1 E. injection H as <-. destruct m as [|m]; [reflexivity|].
    simpl. apply IH. assumption.
Qed.

Lemma add_at_get (d : Z) (arr arr' : list Z) (i : Z) :
  add_at d arr i = Some arr' ->
  forall j, get arr' j = option_map (fun x => if j =? i then x + d else x) (get arr j).
Proof.
  unfold add_at. destruct (Z.ltb_spec i 0) as [|Hi]; [discriminate|]. intros H j.
  unfold get. destruct (Z.ltb_spec j 0) as [Hj|Hj].
  - reflexivity.
  - rewrite (bump_get _ _ _ _ H).
    destruct (nth_error arr (Z.to_nat j)); [|reflexivity]. simpl. f_equal.
    destruct (Nat.eqb_spec (Z.to_nat j) (Z.to_nat i)), (Z.eqb_spec j i); try reflexivity; lia.
Qed.

Lemma bump_total (d : Z) (arr : list Z) (n : nat) :
  (n < List.length arr)%nat -> exists arr', bump d arr n = Some arr'.
Proof.
  revert arr. induction n as [|n IH]; intros [|x arr] H; simpl in *; try lia.
  - eauto.
  - destruct (IH arr) as [arr' E]; [lia|]. rewrite E. eauto.
Qed.

Lemma add_at_total (d : Z) (arr : list Z) (i : Z) :
  0 <= i < Z.of_nat (List.length arr) -> exists arr', add_at d arr i = Some arr'.
Proof.
  intros H. unfold add_at. destruct (Z.ltb_spec i 0); [lia|].
  apply bump_total. lia.
Qed.

Lemma shifted_refl (d : Z) (arr : list Z) : shifted d arr arr [].
Proof.
  intros j. destruct (get arr j); [|reflexivity]. cbn [option_map]. f_equal.
  rewrite tally_nil. lia.
Qed.

Lemma shifted_step (d : Z) (arr0 arr arr' : list Z) (ks : list Z) (i : Z) :
  shifted d arr0 arr ks -> add_at d arr i = Some arr' -> shifted d arr0 arr' (ks ++ [i]).
Proof.
  intros Hs H j. rewrite (add_at_get _ _ _ _ H), Hs.
  destruct (get arr0 j); [|reflexivity]. cbn [option_map]. f_equal.
  rewrite tally_app, tally_cons, tally_nil. destruct (j =? i); lia.
Qed.

Lemma shifted_length (d : Z) (arr0 arr : list Z) (ks : list Z) :
  shifted d arr0 arr ks -> List.length arr = List.length arr0.
Proof.
  intros H.
  destruct (Nat.lt_trichotomy (List.length arr) (List.length arr0)) as [Hlt|[E|Hgt]];
    [|assumption|]; exfalso.
  - specialize (H (Z.of_nat (List.length arr))). rewrite !get_nth_error in H.
    assert (E1 : nth_error arr (List.length arr) = None) by (apply nth_error_None; lia).
    destruct (nth_error arr0 (List.length arr)) eqn:E2.
    + rewrite E1 in H. discriminate H.
    + apply nth_error_None in E2. lia.
  - specialize (H (Z.of_nat (List.length arr0))). rewrite !get_nth_error in H.
    assert (E1 : nth_error arr0 (List.length arr0) = None) by (apply nth_error_None; lia).
    destruct (nth_error arr (List.length arr0)) eqn:E2.
    + rewrite E1 in H. discriminate H.
    + apply nth_error_None in E2. lia.
Qed.

(** Adding and then taking away the same tallies gives the array back. *)
Lemma shifted_inverse (arr0 arr1 arr2 : list Z) (ks : list Z) :
  shifted 1 arr0 arr1 ks -> shifted (-1) arr1 arr2 ks -> arr2 = arr0.
Proof.
  intros H1 H2. apply get_ext. intros j. rewrite H2, H1.
  destruct (get arr0 j); [|reflexivity]. cbn [option_map]. f_equal. lia.
Qed.

(** *** Marking and unmarking cells *)

Lemma store_ext (a b : Store) :
  gridState a = gridState b -> rowReqs a = rowReqs b -> colReqs a = colReqs b ->
  solutions a = solutions b -> rowCounts a = rowCounts b -> colCounts a = colCounts b ->
  usedCells a = usedCells b -> currentPlacements a = currentPlacements b ->
  usedIndices a = usedIndices b -> a = b.
Proof. destruct a, b; simpl; intros; subst; reflexivity. Qed.

(** A cell of the grid whose count arrays are those of [st]. *)
Definition inside (st : Store) (rc : Cell) : Prop :=
  0 <= fst rc < Z.of_nat (List.length (rowCounts st)) /\
  0 <= snd rc < Z.of_nat (List.length (colCounts st)).

(** [st'] is [st] after the counts of the cells [L] were moved by [d] each;
    nothing else but [usedCells] differs. *)
Definition moved (d : Z) (st st' : Store) (L : list Cell) : Prop :=
  shifted d (rowCounts st) (rowCounts st') (map fst L) /\
  shifted d (colCounts st) (colCounts st') (map snd L) /\
  gridState st' = gridState st /\ rowReqs st' = rowReqs st /\
  colReqs st' = colReqs st /\ solutions st' = solutions st /\
  currentPlacements st' = currentPlacements st /\ usedIndices st' = usedIndices st.

Lemma moved_refl (d : Z) (st : Store) : moved d st st [].
Proof. unfold moved. repeat split; apply shifted_refl. Qed.

Lemma moved_lengths (d : Z) (st st' : Store) (L : list Cell) :
  moved d st st' L ->
  List.length (rowCounts st') = List.length (rowCounts st) /\
  List.length (colCounts st') = List.length (colCounts st).
Proof.
  intros (Hr & Hc & _). split; eapply shifted_length; eassumption.
Qed.

Section Marking.

Variables (d : Z) (step : Store -> Cell -> option Store)
          (upd : list Cell -> Cell -> list Cell).

Hypothesis step_def : forall st rc,
  step st rc =
  (rows <- add_at d (rowCounts st) (fst rc) ;;
   cols <- add_at d (colCounts st) (snd rc) ;;
   Some (with_colCounts cols (with_rowCounts rows
           (with_usedCells (upd (usedCells st) rc) st)))).

Lemma step_moved (st0 st st' : Store) (L : list Cell) (rc : Cell) :
  moved d st0 st L -> step st rc = Some st' ->
  moved d st0 st' (L ++ [rc]) /\ usedCells st' = upd (usedCells st) rc /\ inside st rc.
Proof.
  intros (Hr & Hc & Hrest) H. rewrite step_def in H.
  bind_as H rows Er. bind_as H cols Ec. injection H as <-.
  split; [|split].
  - unfold moved. cbn. rewrite !map_app. cbn [map].
    split; [eapply shifted_step; eassumption|].
    split; [eapply shifted_step; eassumption|exact Hrest].
  - reflexivity.
  - split; [exact (proj1 (SolverFacts.add_at_spec _ _ _ _ Er))
           |exact (proj1 (SolverFacts.add_at_spec _ _ _ _ Ec))].
Qed.

Lemma foldM_moved (L : list Cell) :
  forall st0 st st' L0,
    moved d st0 st L0 -> foldM step L st = Some st' ->
    moved d st0 st' (L0 ++ L) /\
    usedCells st' = fold_left upd L (usedCells st) /\
    Forall (inside st) L.
Proof.
  induction L as [|rc L IH]; intros st0 st st' L0 Hm H; simpl in H.
  - injection H as <-. rewrite app_nil_r. auto.
  - bind_as H st1 E. destruct (step_moved _ _ _ _ _ Hm E) as (Hm1 & Hu1 & Hin).
    destruct (IH _ _ _ _ Hm1 H) as (Hm2 & Hu2 & Hall).
    rewrite <- app_assoc in Hm2. simpl. rewrite <- Hu1.
    split; [exact Hm2|]. split; [exact Hu2|].
    constructor; [exact Hin|].
    destruct (moved_lengths _ _ _ _ Hm) as [Lr Lc].
    destruct (moved_lengths _ _ _ _ Hm1) as [Lr1 Lc1].
    eapply Forall_impl; [|exact Hall]. unfold inside. intros x. rewrite Lr1, Lc1, Lr, Lc.
    rewrite <- Lr, <- Lc. auto.
Qed.

Lemma foldM_total (L : list Cell) :
  forall st, Forall (inside st) L -> exists st', foldM step L st = Some st'.
Proof.
  induction L as [|rc L IH]; intros st Hall; simpl; [eauto|].
  inversion_clear Hall as [|? ? [Hr Hc] Hall'].
  destruct (add_at_total d _ _ Hr) as [rows Er].
  destruct (add_at_total d _ _ Hc) as [cols Ec].
  rewrite step_def, Er, Ec.
  apply IH. eapply Forall_impl; [|exact Hall']. unfold inside. cbn.
  rewrite (proj2 (SolverFacts.add_at_spec _ _ _ _ Er)),
          (proj2 (SolverFacts.add_at_spec _ _ _ _ Ec)). auto.
Qed.

End Marking.

Lemma mark_cell_def (st : Store) (rc : Cell) :
  mark_cell st rc =
  (rows <- add_at 1 (rowCounts st) (fst rc) ;;
   cols <- add_at 1 (colCounts st) (snd rc) ;;
   Some (with_colCounts cols (with_rowCounts rows
           (with_usedCells (set_add (usedCells st) rc) st)))).
Proof. destruct rc; reflexivity. Qed.

Lemma unmark_cell_def (st : Store) (rc : Cell) :
  unmark_cell st rc =
  (rows <- add_at (-1) (rowCounts st) (fst rc) ;;
   cols <- add_at (-1) (colCounts st) (snd rc) ;;
   Some (with_colCounts cols (with_rowCounts rows
           (with_usedCells (set_delete (usedCells st) rc) st)))).
Proof. destruct rc; reflexivity. Qed.

(** *** Placing and removing an instance *)

Lemma idx_has_In (s : list Z) (i : Z) : idx_has s i = true <-> In i s.
Proof.
  unfold idx_has. rewrite existsb_exists. split.
  - intros (j & Hj & E). apply Z.eqb_eq in E. subst; assumption.
  - intros H. exists i. split; [assumption|apply Z.eqb_refl].
Qed.

Lemma idx_delete_add (s : list Z) (i : Z) : ~ In i s -> idx_delete (idx_add s i) i = s.
Proof.
  intros Hn. unfold idx_add.
  assert (Hs : idx_delete s i = s).
  { unfold idx_delete. apply forallb_filter_id. apply forallb_forall. intros j Hj.
    apply negb_true_iff. apply Z.eqb_neq. intros ->. contradiction. }
  destruct (idx_has s i) eqn:E; [assumption|].
  unfold idx_delete in *. rewrite filter_app, Hs. simpl. rewrite Z.eqb_refl. simpl.
  apply app_nil_r.
Qed.

(** What [place_instance] does to the store. *)
Lemma place_instance_spec (track : bool) (i : Z) (p : Placement) (st st1 : Store) :
  place_instance track i p st = Some st1 ->
  shifted 1 (rowCounts st) (rowCounts st1) (map fst (cells p)) /\
  shifted 1 (colCounts st) (colCounts st1) (map snd (cells p)) /\
  usedCells st1 = fold_left set_add (cells p) (usedCells st) /\
  currentPlacements st1 = currentPlacements st ++ [p] /\
  usedIndices st1 = (if track then idx_add (usedIndices st) i else usedIndices st) /\
  gridState st1 = gridState st /\ rowReqs st1 = rowReqs st /\
  colReqs st1 = colReqs st /\ solutions st1 = solutions st /\
  Forall (inside st) (cells p).
Proof.
  unfold place_instance. intros H.
  match type of H with foldM _ _ ?s = _ => set (st0 := s) in * end.
  destruct (foldM_moved 1 mark_cell set_add mark_cell_def (cells p) st0 st0 st1 []
              (moved_refl 1 st0) H) as ((Hr & Hc & Hg & Hrr & Hcr & Hs & Hcur & Hidx) & Hu & Hin).
  subst st0. destruct track; cbn in *; repeat split; assumption.
Qed.

Lemma place_instance_total (track : bool) (i : Z) (p : Placement) (st : Store) :
  Forall (inside st) (cells p) -> exists st1, place_instance track i p st = Some st1.
Proof.
  intros H. unfold place_instance.
  apply (foldM_total 1 mark_cell set_add mark_cell_def).
  destruct track; exact H.
Qed.

Lemma place_instance_with_solutions (track : bool) (i : Z) (p : Placement)
    (v : list ColorSolution) (st st1 : Store) :
  place_instance track i p st = Some st1 ->
  place_instance track i p (with_solutions v st) = Some (with_solutions v st1).
Proof.
  intros H. pose proof (place_instance_spec _ _ _ _ _ H) as S.
  destruct S as (Hr & Hc & Hu & Hcur & Hidx & Hg & Hrr & Hcr & Hs & Hin).
  destruct (place_instance_total track i p (with_solutions v st)) as [st2 E]; [exact Hin|].
  rewrite E. f_equal.
  pose proof (place_instance_spec _ _ _ _ _ E) as S2.
  destruct S2 as (Hr2 & Hc2 & Hu2 & Hcur2 & Hidx2 & Hg2 & Hrr2 & Hcr2 & Hs2 & _).
  cbn in *. apply store_ext; cbn; try congruence.
  - apply get_ext. intros j. rewrite Hr2, Hr. reflexivity.
  - apply get_ext. intros j. rewrite Hc2, Hc. reflexivity.
Qed.

(** Removing the instance just placed gives the store back, whatever
    solutions were recorded in between. *)
Lemma unplace_instance_place (track : bool) (i : Z) (p : Placement)
    (v : list ColorSolution) (st st1 : Store) :
  place_instance track i p st = Some st1 ->
  (forall rc, In rc (cells p) -> ~ In rc (usedCells st)) ->
  ~ In i (usedIndices st) ->
  unplace_instance track i p (with_solutions v st1) = Some (with_solutions v st).
Proof.
  intros H Hfresh Hidx.
  destruct (place_instance_spec _ _ _ _ _ H)
    as (Hr & Hc & Hu & Hcur & Hi & Hg & Hrr & Hcr & Hs & Hin).
  unfold unplace_instance.
  match goal with |- foldM _ _ ?s = _ => set (st0 := s) end.
  assert (Hin0 : Forall (inside st0) (cells p)).
  { eapply Forall_impl; [|exact Hin]. unfold inside. subst st0.
    destruct track; cbn; rewrite (shifted_length _ _ _ _ Hr), (shifted_length _ _ _ _ Hc);
      auto. }
  destruct (foldM_total (-1) unmark_cell set_delete unmark_cell_def (cells p) st0 Hin0)
    as [st2 E].
  rewrite E. f_equal.
  destruct (foldM_moved (-1) unmark_cell set_delete unmark_cell_def (cells p) st0 st0 st2 []
              (moved_refl (-1) st0) E)
    as ((Hr2 & Hc2 & Hg2 & Hrr2 & Hcr2 & Hs2 & Hcur2 & Hi2) & Hu2 & _).
  cbn [app] in Hr2, Hc2.
  assert (Er : rowCounts st0 = rowCounts st1) by (subst st0; destruct track; reflexivity).
  assert (Ec : colCounts st0 = colCounts st1) by (subst st0; destruct track; reflexivity).
  assert (Eu : usedCells st0 = usedCells st1) by (subst st0; destruct track; reflexivity).
  rewrite Er in Hr2. rewrite Ec in Hc2. rewrite Eu in Hu2.
  apply store_ext; cbn.
  - rewrite Hg2. subst st0. destruct track; cbn; assumption.
  - rewrite Hrr2. subst st0. destruct track; cbn; assumption.
  - rewrite Hcr2. subst st0. destruct track; cbn; assumption.
  - rewrite Hs2. subst st0. destruct track; reflexivity.
  - eapply shifted_inverse; eassumption.
  - eapply shifted_inverse; eassumption.
  - rewrite Hu2, Hu. apply fold_delete_add. assumption.
  - rewrite Hcur2. subst st0. destruct track; cbn; rewrite Hcur; apply removelast_last.
  - rewrite Hi2. subst st0. destruct track; cbn; rewrite Hi.
    + apply idx_delete_add. assumption.
    + reflexivity.
Qed.

(** *** The search as an enumeration *)

Definition cap (l : list ColorSolution) : list ColorSolution := firstn 100 l.

Definition full (l : list ColorSolution) : bool := 100 <=? Z.of_nat (List.length l).

Lemma below_cap_all (l : list ColorSolution) : full l = false -> cap l = l.
Proof.
  unfold full, cap. intros H. apply Z.leb_gt in H. apply firstn_all2. lia.
Qed.

Lemma full_grows (l l' : list ColorSolution) : full l = true -> full (l ++ l') = true.
Proof. unfold full. rewrite !Z.leb_le, length_app. lia. Qed.

Lemma cap_after_full (l l' : list ColorSolution) : full l = true -> cap (l ++ l') = cap l.
Proof.
  unfold full, cap. intros H. apply Z.leb_le in H.
  rewrite firstn_app. replace (100 - List.length l)%nat with 0%nat by lia.
  simpl. apply app_nil_r.
Qed.

Lemma cap_exact (l l' : list ColorSolution) x :
  full l = false -> full (l ++ [x]) = true -> cap ((l ++ [x]) ++ l') = l ++ [x].
Proof.
  unfold full. intros H1 H2. apply Z.leb_gt in H1. apply Z.leb_le in H2.
  rewrite length_app in H2. cbn [List.length] in H2.
  unfold cap. rewrite firstn_app.
  replace (100 - List.length (l ++ [x]))%nat with 0%nat
    by (rewrite length_app; cbn [List.length]; lia).
  rewrite firstn_O, app_nil_r. apply firstn_all2.
  rewrite length_app. cbn [List.length]. lia.
Qed.

(** The store without its recorded solutions. *)
Definition erase (st : Store) : Store := with_solutions [] st.

Section Enumeration.

Variables (track : bool) (color : string)
          (placementsByShape : list (string * list Placement))
          (forbiddenSet : list Cell).

(** The solutions met from a node of the search: the snapshot of the node
    when its counts match, then, unless a count exceeds, those of [rest]. *)
Definition enumHead (rest : Store -> list ColorSolution) (st : Store)
  : list ColorSolution :=
  match countsMatch (rowCounts st) (colCounts st) (rowReqs st) (colReqs st) color with
  | Some m =>
      (if m then [snapshot_instances track st] else []) ++
      match countsExceed (rowCounts st) (colCounts st) (rowReqs st) (colReqs st) color with
      | Some false => rest st
      | _ => []
      end
  | None => []
  end.

(** The solutions met by the loops over the instances from index [i] on. *)
Fixpoint enumLoop (i : Z) (instances : list string) (st : Store) : list ColorSolution :=
  match instances with
  | [] => []
  | shapeId :: instances' =>
      match lookup shapeId placementsByShape with
      | None => []
      | Some placements =>
          flat_map (fun p =>
                      if overlaps2 (usedCells st) forbiddenSet p then []
                      else match place_instance track i p st with
                           | Some st1 => enumHead (enumLoop (i + 1) instances') st1
                           | None => []
                           end) placements
          ++ enumLoop (i + 1) instances' st
      end
  end.

(** The loop over the placements of instance [i], with the search from the
    next node as [k]. *)
Definition counts_ploop (i : Z) (k : Store -> option (bool * Store)) :=
  fix loop (ps : list Placement) (st : Store) : option (bool * Store) :=
    match ps with
    | [] => Some (false, st)
    | placement :: ps' =>
        if overlaps2 (usedCells st) forbiddenSet placement then loop ps' st
        else
          st1 <- place_instance track i placement st ;;
          r <- k st1 ;;
          let '(shouldStop, st2) := r in
          if shouldStop then Some (true, st2)
          else
            st3 <- unplace_instance track i placement st2 ;;
            loop ps' st3
    end.

Lemma counts_loop_cons (i : Z) (shapeId : string) (instances : list string) (st : Store) :
  counts_loop track color placementsByShape forbiddenSet i (shapeId :: instances) st
  = (placements <- lookup shapeId placementsByShape ;;
     r <- counts_ploop i
            (counts_head track color
               (counts_loop track color placementsByShape forbiddenSet (i + 1) instances))
            placements st ;;
     let '(stopped, st') := r in
     if stopped then Some (true, st')
     else counts_loop track color placementsByShape forbiddenSet (i + 1) instances st').
Proof. reflexivity. Qed.

Variables (R C : nat).

(** The stores on which the search runs without leaving the model: count
    arrays of the size of the grid, requirements for every row and column,
    and, at instance [i], only earlier instances in use. *)
Definition wf (i : Z) (st : Store) : Prop :=
  List.length (rowCounts st) = R /\ List.length (colCounts st) = C /\
  (R <= List.length (rowReqs st))%nat /\ (C <= List.length (colReqs st))%nat /\
  Forall (fun j => j < i) (usedIndices st).

Definition in_grid (p : Placement) : Prop :=
  Forall (fun rc => 0 <= fst rc < Z.of_nat R /\ 0 <= snd rc < Z.of_nat C) (cells p).

(** What a part of the search does from a store below the cap: it returns,
    having appended the solutions [found], up to the cap; it tells whether
    the cap was reached, and otherwise leaves everything else as it was. *)
Definition runs (ok : Store -> Prop) (k : Store -> option (bool * Store))
    (found : Store -> list ColorSolution) : Prop :=
  forall st, ok st -> full (solutions st) = false ->
    exists stop st',
      k st = Some (stop, st') /\
      solutions st' = cap (solutions st ++ found (erase st)) /\
      stop = full (solutions st ++ found (erase st)) /\
      (stop = false -> st' = with_solutions (solutions st ++ found (erase st)) st).

Lemma some_index_total (test : Z -> option Z -> bool) (counts : list Z)
    (reqs : list Req) :
  (List.length counts <= List.length reqs)%nat ->
  exists b, some_index test counts reqs color = Some b.
Proof.
  revert reqs. induction counts as [|x counts IH]; intros reqs H; simpl; [eauto|].
  destruct reqs as [|q reqs]; simpl in H; [lia|].
  destruct (test x (lookup color q)); [eauto|]. apply IH. lia.
Qed.

Lemma countsMatch_total (i : Z) (st : Store) :
  wf i st ->
  exists m, countsMatch (rowCounts st) (colCounts st) (rowReqs st) (colReqs st) color
            = Some m.
Proof.
  intros (Hr & Hc & Hrr & Hcr & _). unfold countsMatch.
  destruct (some_index_total strict_neq (rowCounts st) (rowReqs st)) as [r Er]; [lia|].
  destruct (some_index_total strict_neq (colCounts st) (colReqs st)) as [c Ec]; [lia|].
  rewrite Er, Ec. destruct r; [eauto|]. destruct c; eauto.
Qed.

Lemma countsExceed_total (i : Z) (st : Store) :
  wf i st ->
  exists e, countsExceed (rowCounts st) (colCounts st) (rowReqs st) (colReqs st) color
            = Some e.
Proof.
  intros (Hr & Hc & Hrr & Hcr & _). unfold countsExceed.
  destruct (some_index_total gt (rowCounts st) (rowReqs st)) as [r Er]; [lia|].
  destruct (some_index_total gt (colCounts st) (colReqs st)) as [c Ec]; [lia|].
  rewrite Er, Ec. destruct r; [eauto|]. destruct c; eauto.
Qed.

Lemma with_solutions_same (st : Store) : with_solutions (solutions st) st = st.
Proof. destruct st; reflexivity. Qed.

Lemma counts_head_runs (i : Z) (k : Store -> option (bool * Store))
    (found : Store -> list ColorSolution) :
  runs (wf i) k found -> runs (wf i) (counts_head track color k) (enumHead found).
Proof.
  intros Hk st Hwf Hnf. unfold counts_head, enumHead.
  cbn [rowCounts colCounts rowReqs colReqs erase with_solutions].
  destruct (countsMatch_total i st Hwf) as [m Em]. rewrite Em.
  destruct (countsExceed_total i st Hwf) as [e Ee].
  change (snapshot_instances track (erase st)) with (snapshot_instances track st).
  set (snap := snapshot_instances track st).
  destruct m.
  - (* the counts match: the snapshot is recorded *)
    cbn [andb solutions with_solutions rowCounts colCounts rowReqs colReqs].
    change (100 <=? Z.of_nat (List.length (solutions st ++ [snap])))
      with (full (solutions st ++ [snap])).
    destruct (full (solutions st ++ [snap])) eqn:Ef.
    + exists true, (with_solutions (solutions st ++ [snap]) st).
      split; [reflexivity|]. cbn [solutions with_solutions].
      match goal with |- context [[snap] ++ ?x] => generalize x end. intros X.
      rewrite (app_assoc (solutions st) [snap] X).
      split; [symmetry; apply cap_exact; assumption|].
      split; [symmetry; apply full_grows; assumption|discriminate].
    + rewrite Ee. destruct e.
      * exists false, (with_solutions (solutions st ++ [snap]) st).
        split; [reflexivity|]. rewrite app_nil_r. cbn [solutions with_solutions].
        split; [symmetry; apply below_cap_all; assumption|]. split; auto.
      * set (st1 := with_solutions (solutions st ++ [snap]) st).
        assert (Hwf1 : wf i st1) by exact Hwf.
        destruct (Hk st1 Hwf1 Ef) as (stop & st' & Hrun & Hsol & Hstop & Hrest).
        exists stop, st'. split; [exact Hrun|].
        change (erase st1) with (erase st) in *. cbn [solutions with_solutions st1] in *.
        rewrite <- app_assoc in Hsol, Hstop, Hrest.
        split; [exact Hsol|]. split; [exact Hstop|].
        intros Hf. rewrite (Hrest Hf). reflexivity.
  - cbn [andb app]. rewrite Ee. destruct e.
    + exists false, st. split; [reflexivity|]. rewrite app_nil_r.
      split; [symmetry; apply below_cap_all; assumption|].
      split; [symmetry; assumption|]. intros _. symmetry. apply with_solutions_same.
    + exact (Hk st Hwf Hnf).
Qed.

Lemma wf_next (i : Z) (st : Store) : wf i st -> wf (i + 1) st.
Proof.
  intros (Hr & Hc & Hrr & Hcr & Hidx). repeat split; try assumption.
  eapply Forall_impl; [|exact Hidx]. simpl. intros; lia.
Qed.

Lemma wf_with_solutions (i : Z) (v : list ColorSolution) (st : Store) :
  wf i st -> wf i (with_solutions v st).
Proof. intros H; exact H. Qed.

Lemma wf_placed (i : Z) (p : Placement) (st st1 : Store) :
  wf i st -> place_instance track i p st = Some st1 -> wf (i + 1) st1.
Proof.
  intros (Hr & Hc & Hrr & Hcr & Hidx) H.
  destruct (place_instance_spec _ _ _ _ _ H)
    as (Sr & Sc & _ & _ & Hi & _ & Err & Ecr & _).
  unfold wf. rewrite (shifted_length _ _ _ _ Sr), (shifted_length _ _ _ _ Sc), Err, Ecr, Hi.
  repeat split; try assumption.
  assert (Hidx' : Forall (fun j => j < i + 1) (usedIndices st)).
  { eapply Forall_impl; [|exact Hidx]. simpl. intros; lia. }
  destruct track; [|assumption].
  unfold idx_add. destruct (idx_has _ _); [assumption|].
  apply Forall_app. split; [assumption|]. constructor; [lia|constructor].
Qed.

Lemma overlaps2_false (used : list Cell) (p : Placement) :
  overlaps2 used forbiddenSet p = false ->
  forall rc, In rc (cells p) -> ~ In rc used /\ ~ In rc forbiddenSet.
Proof.
  unfold overlaps2. intros H rc Hrc.
  assert (E : has used rc || has forbiddenSet rc = false).
  { destruct (has used rc || has forbiddenSet rc) eqn:E; [|reflexivity].
    assert (X : existsb (fun rc => has used rc || has forbiddenSet rc) (cells p) = true)
      by (apply existsb_exists; eauto).
    congruence. }
  apply orb_false_iff in E. destruct E as [E1 E2].
  split; apply has_false; assumption.
Qed.

Lemma counts_ploop_runs (i : Z) (k : Store -> option (bool * Store))
    (found : Store -> list ColorSolution) (ps : list Placement) :
  Forall in_grid ps ->
  runs (wf (i + 1)) k found ->
  runs (wf i) (counts_ploop i k ps)
       (fun st =>
          flat_map (fun p =>
                      if overlaps2 (usedCells st) forbiddenSet p then []
                      else match place_instance track i p st with
                           | Some st1 => found st1
                           | None => []
                           end) ps).
Proof.
  intros Hps Hk. induction ps as [|p ps IH]; intros st Hwf Hnf.
  - exists false, st. split; [reflexivity|]. cbn [flat_map]. rewrite app_nil_r.
    split; [symmetry; apply below_cap_all; assumption|].
    split; [symmetry; assumption|]. intros _. symmetry. apply with_solutions_same.
  - inversion_clear Hps as [|? ? Hp Hps']. specialize (IH Hps').
    cbn [counts_ploop flat_map]. fold (counts_ploop i k).
    change (usedCells (erase st)) with (usedCells st).
    destruct (overlaps2 (usedCells st) forbiddenSet p) eqn:Hov.
    + exact (IH st Hwf Hnf).
    + assert (Hin : Forall (inside st) (cells p)).
      { destruct Hwf as (Hr & Hc & _). unfold inside. rewrite Hr, Hc. exact Hp. }
      destruct (place_instance_total track i p st Hin) as [st1 E1]. rewrite E1.
      pose proof (place_instance_with_solutions track i p [] st st1 E1) as E1'.
      change (with_solutions [] st) with (erase st) in E1'.
      change (with_solutions [] st1) with (erase st1) in E1'.
      rewrite E1'.
      assert (Es1 : solutions st1 = solutions st).
      { destruct (place_instance_spec _ _ _ _ _ E1) as (_&_&_&_&_&_&_&_&Hs&_). exact Hs. }
      assert (Hnf1 : full (solutions st1) = false) by (rewrite Es1; exact Hnf).
      destruct (Hk st1 (wf_placed _ _ _ _ Hwf E1) Hnf1)
        as (stop1 & st2 & Hrun & Hsol & Hstop & Hrest).
      rewrite Hrun. rewrite Es1 in Hsol, Hstop, Hrest.
      set (A := found (erase st1)) in *.
      rewrite app_assoc.
      destruct stop1.
      * exists true, st2. split; [reflexivity|]. symmetry in Hstop.
        rewrite cap_after_full by assumption.
        split; [assumption|]. split; [symmetry; apply full_grows; assumption|discriminate].
      * rewrite (Hrest eq_refl).
        assert (Hfresh : forall rc, In rc (cells p) -> ~ In rc (usedCells st))
          by (intros rc Hrc; exact (proj1 (overlaps2_false _ _ Hov rc Hrc))).
        assert (Hidx : ~ In i (usedIndices st)).
        { destruct Hwf as (_&_&_&_&Hidx). intros Hi. rewrite Forall_forall in Hidx.
          specialize (Hidx _ Hi). simpl in Hidx. lia. }
        rewrite (unplace_instance_place track i p _ st st1 E1 Hfresh Hidx).
        set (st3 := with_solutions (solutions st ++ A) st).
        symmetry in Hstop.
        destruct (IH st3 Hwf Hstop) as (stop & st' & Hrun3 & Hsol3 & Hstop3 & Hrest3).
        exists stop, st'. split; [exact Hrun3|].
        change (erase st3) with (erase st) in *. cbn [solutions with_solutions st3] in *.
        split; [exact Hsol3|]. split; [exact Hstop3|].
        intros Hf. rewrite (Hrest3 Hf). reflexivity.
Qed.

(** Every instance has its placements, all inside the grid. *)
Definition instances_ok (instances : list string) : Prop :=
  Forall (fun shapeId =>
            exists ps, lookup shapeId placementsByShape = Some ps /\ Forall in_grid ps)
         instances.

(** The search over the instances is the enumeration, cut at 100. *)
Lemma counts_loop_runs (instances : list string) :
  instances_ok instances ->
  forall i,
    runs (wf i)
         (counts_loop track color placementsByShape forbiddenSet i instances)
         (enumLoop i instances).
Proof.
  induction instances as [|shapeId instances IH]; intros Hok i st Hwf Hnf.
  - exists false, st. split; [reflexivity|]. cbn [enumLoop]. rewrite app_nil_r.
    split; [symmetry; apply below_cap_all; assumption|].
    split; [symmetry; assumption|]. intros _. symmetry. apply with_solutions_same.
  - inversion_clear Hok as [|? ? (ps & Hl & Hps) Hok'].
    rewrite counts_loop_cons. cbn [enumLoop]. rewrite Hl.
    pose proof (counts_ploop_runs i _ _ ps Hps
                  (counts_head_runs (i + 1) _ _ (IH Hok' (i + 1)))) as Hp.
    destruct (Hp st Hwf Hnf) as (stopped & st1 & Hrun & Hsol & Hstop & Hrest).
    rewrite Hrun. cbv beta in Hsol, Hstop, Hrest.
    match type of Hsol with _ = cap (_ ++ ?x) => set (P := x) in * end.
    rewrite app_assoc.
    destruct stopped.
    + exists true, st1. split; [reflexivity|]. symmetry in Hstop.
      rewrite cap_after_full by assumption.
      split; [assumption|]. split; [symmetry; apply full_grows; assumption|discriminate].
    + rewrite (Hrest eq_refl). symmetry in Hstop.
      set (st2 := with_solutions (solutions st ++ P) st).
      destruct (IH Hok' (i + 1) st2 (wf_next _ _ Hwf) Hstop)
        as (stop & st' & Hrun2 & Hsol2 & Hstop2 & Hrest2).
      exists stop, st'. split; [exact Hrun2|].
      change (erase st2) with (erase st) in *. cbn [solutions with_solutions st2] in *.
      split; [exact Hsol2|]. split; [exact Hstop2|].
      intros Hf. rewrite (Hrest2 Hf). reflexivity.
Qed.

(** *** Paths of the search *)

Definition matchAt (st : Store) : option bool :=
  countsMatch (rowCounts st) (colCounts st) (rowReqs st) (colReqs st) color.

Definition exceedAt (st : Store) : option bool :=
  countsExceed (rowCounts st) (colCounts st) (rowReqs st) (colReqs st) color.

(** A way through the loops from [st], at instance [i], to the node [final]
    whose counts match: instances are skipped or given one of their
    placements, and no count exceeds on the way. *)
Fixpoint loopPath (i : Z) (instances : list string) (st final : Store) : Prop :=
  match instances with
  | [] => False
  | shapeId :: instances' =>
      ((exists ps, lookup shapeId placementsByShape = Some ps) /\
       loopPath (i + 1) instances' st final) \/
      exists ps p st1,
        lookup shapeId placementsByShape = Some ps /\ In p ps /\
        overlaps2 (usedCells st) forbiddenSet p = false /\
        place_instance track i p st = Some st1 /\
        ((st1 = final /\ matchAt st1 = Some true) \/
         (exists m, matchAt st1 = Some m /\ exceedAt st1 = Some false /\
                    loopPath (i + 1) instances' st1 final))
  end.

Definition nodePath (i : Z) (instances : list string) (st final : Store) : Prop :=
  (st = final /\ matchAt st = Some true) \/
  (exists m, matchAt st = Some m /\ exceedAt st = Some false /\
             loopPath i instances st final).

Lemma enumHead_here (rest : Store -> list ColorSolution) (st : Store) :
  matchAt st = Some true -> In (snapshot_instances track st) (enumHead rest st).
Proof.
  unfold matchAt, enumHead. intros ->. left. reflexivity.
Qed.

Lemma enumHead_below (rest : Store -> list ColorSolution) (st : Store) (m : bool) x :
  matchAt st = Some m -> exceedAt st = Some false -> In x (rest st) ->
  In x (enumHead rest st).
Proof.
  unfold matchAt, exceedAt, enumHead. intros -> -> H. apply in_app_iff. right. exact H.
Qed.

Lemma loopPath_enum (instances : list string) :
  forall i st final,
    loopPath i instances st final ->
    In (snapshot_instances track final) (enumLoop i instances st).
Proof.
  induction instances as [|shapeId instances IH]; intros i st final H; simpl in H.
  - destruct H.
  - cbn [enumLoop].
    destruct H as [[(ps & Hl) H]|(ps & p & st1 & Hl & Hp & Hov & Hpl & H)].
    + rewrite Hl. apply in_app_iff. right. apply IH. exact H.
    + rewrite Hl. apply in_app_iff. left. apply in_flat_map. exists p.
      split; [exact Hp|]. rewrite Hov, Hpl.
      destruct H as [[<- Hm]|(m & Hm & He & H)].
      * apply enumHead_here. exact Hm.
      * eapply enumHead_below; [exact Hm|exact He|]. apply IH. exact H.
Qed.

(** *** From a set of placements to a path *)

(** The counts equal the requirements of the colour. *)
Definition exact (counts : list Z) (reqs : list Req) : Prop :=
  some_index strict_neq counts reqs color = Some false.

(** Once the placements [T] are added, the counts of [st] are exact. *)
Definition due (st : Store) (T : list Placement) : Prop :=
  exists gr gc,
    shifted 1 (rowCounts st) gr (map fst (flat_map cells T)) /\
    shifted 1 (colCounts st) gc (map snd (flat_map cells T)) /\
    exact gr (rowReqs st) /\ exact gc (colReqs st).

Lemma Forall2_of_nth {A B : Type} (P : A -> B -> Prop) (l : list A) (l' : list B) :
  List.length l = List.length l' ->
  (forall n x y, nth_error l n = Some x -> nth_error l' n = Some y -> P x y) ->
  Forall2 P l l'.
Proof.
  revert l'. induction l as [|a l IH]; intros [|b l'] Hlen H; simpl in Hlen;
    try discriminate; constructor.
  - apply (H 0%nat); reflexivity.
  - apply IH; [lia|]. intros n x y Hx Hy. apply (H (S n)); assumption.
Qed.

Lemma shifted_le (arr0 arr : list Z) (ks : list Z) :
  shifted 1 arr0 arr ks -> Forall2 Z.le arr0 arr.
Proof.
  intros H. apply Forall2_of_nth.
  - symmetry. eapply shifted_length. exact H.
  - intros n x y Hx Hy. specialize (H (Z.of_nat n)). rewrite !get_nth_error, Hx, Hy in H.
    cbn [option_map] in H. rewrite Z.mul_1_l in H. injection H as H.
    pose proof (tally_nonneg ks (Z.of_nat n)). lia.
Qed.

Lemma not_exceed (counts goal : list Z) (reqs : list Req) :
  Forall2 Z.le counts goal -> exact goal reqs ->
  some_index gt counts reqs color = Some false.
Proof.
  unfold exact. intros H. revert reqs.
  induction H as [|x y counts goal Hxy _ IH]; intros reqs He; simpl in *; [reflexivity|].
  destruct reqs as [|q reqs]; [discriminate|].
  destruct (lookup color q) as [v|]; simpl in *; [|discriminate].
  destruct (Z.eqb_spec y v) as [->|]; simpl in He; [|discriminate].
  destruct (Z.ltb_spec v x); [lia|]. apply IH. exact He.
Qed.

Lemma due_exceed (st : Store) (T : list Placement) : due st T -> exceedAt st = Some false.
Proof.
  intros (gr & gc & Hr & Hc & Er & Ec). unfold exceedAt, countsExceed.
  rewrite (not_exceed _ _ _ (shifted_le _ _ _ Hr) Er),
          (not_exceed _ _ _ (shifted_le _ _ _ Hc) Ec). reflexivity.
Qed.

Lemma shifted_nil (arr0 arr : list Z) : shifted 1 arr0 arr [] -> arr = arr0.
Proof.
  intros H. apply get_ext. intros j. rewrite H.
  destruct (get arr0 j); [|reflexivity]. cbn [option_map]. f_equal.
  rewrite tally_nil. lia.
Qed.

Lemma due_match (st : Store) : due st [] -> matchAt st = Some true.
Proof.
  intros (gr & gc & Hr & Hc & Er & Ec). cbn in Hr, Hc.
  apply shifted_nil in Hr, Hc. subst gr gc.
  unfold matchAt, countsMatch. unfold exact in Er, Ec. rewrite Er, Ec. reflexivity.
Qed.

Lemma shifted_rest (arr0 arr1 goal : list Z) (k1 k2 k : list Z) :
  (forall j, tally k j = tally k1 j + tally k2 j) ->
  shifted 1 arr0 goal k -> shifted 1 arr0 arr1 k1 -> shifted 1 arr1 goal k2.
Proof.
  intros Hk Hg H1 j. rewrite Hg, H1.
  destruct (get arr0 j); [|reflexivity]. cbn [option_map]. apply f_equal.
  rewrite Hk. lia.
Qed.

Lemma due_placed (i : Z) (st st1 : Store) (T1 T2 : list Placement) (p : Placement) :
  due st (T1 ++ p :: T2) -> place_instance track i p st = Some st1 ->
  due st1 (T1 ++ T2).
Proof.
  intros (gr & gc & Hr & Hc & Er & Ec) H.
  destruct (place_instance_spec _ _ _ _ _ H) as (Sr & Sc & _ & _ & _ & _ & Err & Ecr & _).
  exists gr, gc. rewrite Err, Ecr.
  split; [|split; [|split; assumption]].
  - eapply shifted_rest; [|exact Hr|exact Sr]. intros j.
    rewrite !flat_map_app. cbn [flat_map]. rewrite !map_app, !tally_app.
    unfold Cell in *. lia.
  - eapply shifted_rest; [|exact Hc|exact Sc]. intros j.
    rewrite !flat_map_app. cbn [flat_map]. rewrite !map_app, !tally_app.
    unfold Cell in *. lia.
Qed.

Lemma remainingFrom_all (l : list string) (U : list Z) :
  forall i, Forall (fun j => j < i) U -> remainingFrom i l U = l.
Proof.
  induction l as [|x l IH]; intros i HU; simpl; [reflexivity|].
  assert (E : idx_has U i = false).
  { destruct (idx_has U i) eqn:E; [|reflexivity]. apply idx_has_In in E.
    rewrite Forall_forall in HU. specialize (HU _ E). simpl in HU. lia. }
  rewrite E. f_equal. apply IH. eapply Forall_impl; [|exact HU]. simpl. intros; lia.
Qed.

(** What is known of the node reached. *)
Definition reached (i : Z) (instances : list string) (st : Store) (T : list Placement)
    (final : Store) : Prop :=
  (forall rc, In rc (usedCells final) <->
              In rc (usedCells st) \/ In rc (flat_map cells T)) /\
  (track = true ->
   (forall j, In j (usedIndices st) -> In j (usedIndices final)) /\
   (forall j, In j (usedIndices final) -> In j (usedIndices st) \/ i <= j) /\
   (forall id, (count_occ string_dec (remainingFrom i instances (usedIndices final)) id
                + count_occ string_dec (map shapeId T) id
                = count_occ string_dec instances id)%nat)).

Lemma reached_here (i : Z) (instances : list string) (st : Store) :
  wf i st -> reached i instances st [] st.
Proof.
  intros Hwf. split.
  - intros rc. cbn. tauto.
  - intros _. split; [auto|]. split; [auto|]. intros id.
    rewrite remainingFrom_all; [cbn; lia|]. exact (proj2 (proj2 (proj2 (proj2 Hwf)))).
Qed.

(** The placements [T] can be given to the instances [instances]. *)
Definition fits (instances : list string) (T : list Placement) : Prop :=
  forall id, (count_occ string_dec (map shapeId T) id
              <= count_occ string_dec instances id)%nat.

Lemma fits_nil (T : list Placement) : fits [] T -> T = [].
Proof.
  intros H. destruct T as [|p T]; [reflexivity|].
  specialize (H (shapeId p)). cbn in H. destruct (string_dec _ _); [lia|congruence].
Qed.

Lemma build_path (instances : list string) :
  instances_ok instances ->
  forall i st T,
    wf i st ->
    fits instances T ->
    (forall p, In p T -> exists ps, lookup (shapeId p) placementsByShape = Some ps /\ In p ps) ->
    NoDup (flat_map cells T) ->
    (forall rc, In rc (flat_map cells T) ->
                ~ In rc (usedCells st) /\ ~ In rc forbiddenSet) ->
    due st T ->
    exists final, nodePath i instances st final /\ reached i instances st T final.
Proof.
  induction instances as [|id instances IH]; intros Hok i st T Hwf Hfit Hin Hnd Hfree Hdue.
  { apply fits_nil in Hfit. subst T. exists st. split; [|apply reached_here; assumption].
    left. split; [reflexivity|apply due_match; assumption]. }
  destruct T as [|t T0].
  { exists st. split; [|apply reached_here; assumption].
    left. split; [reflexivity|apply due_match; assumption]. }
  set (T := t :: T0) in *.
  inversion_clear Hok as [|? ? (ps & Hl & Hps) Hok'].
  destruct (countsMatch_total i st Hwf) as [m Hm].
  pose proof (due_exceed _ _ Hdue) as He.
  destruct (in_dec string_dec id (map shapeId T)) as [Hid|Hid].
  - (* some placement of [T] is for this instance *)
    apply in_map_iff in Hid. destruct Hid as (p & Hp & HpT).
    destruct (in_split _ _ HpT) as (T1 & T2 & ET).
    assert (Hnd' : NoDup (cells p ++ flat_map cells (T1 ++ T2))).
    { eapply Permutation_NoDup; [|exact Hnd]. rewrite ET, !flat_map_app. cbn [flat_map].
      rewrite app_assoc, (Permutation_app_comm (flat_map cells T1) (cells p)), <- app_assoc.
      reflexivity. }
    assert (Hsub : forall rc, In rc (cells p) \/ In rc (flat_map cells (T1 ++ T2)) ->
                              In rc (flat_map cells T)).
    { intros rc. rewrite ET, !flat_map_app. cbn [flat_map]. rewrite !in_app_iff. tauto. }
    assert (Hov : overlaps2 (usedCells st) forbiddenSet p = false).
    { unfold overlaps2. destruct (existsb _ (cells p)) eqn:E; [|reflexivity].
      apply existsb_exists in E. destruct E as (rc & Hrc & E).
      destruct (Hfree rc (Hsub rc (or_introl Hrc))) as [H1 H2].
      apply has_false in H1, H2. rewrite H1, H2 in E. discriminate E. }
    destruct (Hin p HpT) as (ps' & Hl' & Hpps). rewrite Hp, Hl in Hl'. injection Hl' as <-.
    assert (Hinside : Forall (inside st) (cells p)).
    { destruct Hwf as (Hr & Hc & _). unfold inside. rewrite Hr, Hc.
      rewrite Forall_forall in Hps. exact (Hps p Hpps). }
    destruct (place_instance_total track i p st Hinside) as [st1 Hpl].
    destruct (place_instance_spec _ _ _ _ _ Hpl)
      as (_ & _ & Hu1 & _ & Hi1 & _ & _ & _ & _ & _).
    destruct (IH Hok' (i + 1) st1 (T1 ++ T2)) as (final & Hpath & Hreach & Hreach2).
    + eapply wf_placed; eassumption.
    + intros id'. specialize (Hfit id'). rewrite ET in Hfit.
      rewrite map_app, count_occ_app in *. cbn [map count_occ] in Hfit.
      rewrite Hp in Hfit. destruct (string_dec id id'); lia.
    + intros q Hq. apply Hin. rewrite ET. apply in_app_iff in Hq. apply in_app_iff.
      destruct Hq; [left|right; right]; assumption.
    + eapply NoDup_app_remove_l. exact Hnd'.
    + intros rc Hrc. rewrite Hu1, fold_set_add_In.
      destruct (Hfree rc (Hsub rc (or_intror Hrc))) as [H1 H2].
      split; [|assumption]. intros [H|H]; [contradiction|].
      exact (NoDup_app_disjoint _ _ _ Hnd' H Hrc).
    + rewrite ET in Hdue. eapply due_placed; eassumption.
    + exists final. split.
      * right. exists m. split; [exact Hm|]. split; [exact He|].
        cbn [loopPath]. right. exists ps, p, st1. repeat split; try assumption.
      * split.
        -- intros rc. rewrite Hreach, Hu1, fold_set_add_In, ET, !flat_map_app.
           cbn [flat_map]. rewrite !in_app_iff. tauto.
        -- intros Ht. destruct (Hreach2 Ht) as (E1 & E2 & E3). rewrite Ht in Hi1.
           assert (Hi : In i (usedIndices st1)).
           { rewrite Hi1. unfold idx_add. destruct (idx_has _ _) eqn:E.
             - apply idx_has_In. exact E.
             - apply in_app_iff. right. left. reflexivity. }
           assert (Hmono : forall j, In j (usedIndices st) -> In j (usedIndices st1)).
           { intros j Hj. rewrite Hi1. unfold idx_add. destruct (idx_has _ _); [assumption|].
             apply in_app_iff. left. assumption. }
           split; [auto|]. split.
           ++ intros j Hj. destruct (E2 j Hj) as [H|H]; [|right; lia].
              rewrite Hi1 in H. unfold idx_add in H.
              destruct (idx_has _ _); [left; assumption|].
              apply in_app_iff in H. destruct H as [H|[<-|[]]]; [left; assumption|right; lia].
           ++ intros id'. cbn [remainingFrom].
              assert (Ehas : idx_has (usedIndices final) i = true)
                by (apply idx_has_In; auto).
              rewrite Ehas. specialize (E3 id'). rewrite ET.
              rewrite map_app, count_occ_app in *. cbn [map count_occ].
              rewrite Hp. destruct (string_dec id id'); lia.
  - (* no placement of [T] is for this instance: it is skipped *)
    destruct (IH Hok' (i + 1) st T) as (final & Hpath & Hreach & Hreach2);
      try assumption.
    + apply wf_next. assumption.
    + intros id'. specialize (Hfit id'). cbn [count_occ] in Hfit.
      destruct (string_dec id id') as [<-|]; [|lia].
      assert (count_occ string_dec (map shapeId T) id = 0%nat)
        by (apply count_occ_not_In; assumption).
      lia.
    + exists final. split.
      * destruct Hpath as [Hhere|(m' & Hm' & He' & Hloop)]; [left; assumption|].
        right. exists m'. split; [assumption|]. split; [assumption|].
        cbn [loopPath]. left. split; [eauto|assumption].
      * split; [exact Hreach|].
        intros Ht. destruct (Hreach2 Ht) as (E1 & E2 & E3).
        split; [exact E1|]. split.
        -- intros j Hj. destruct (E2 j Hj); [left; assumption|right; lia].
        -- intros id'. cbn [remainingFrom].
           assert (Ehas : idx_has (usedIndices final) i = false).
           { destruct (idx_has (usedIndices final) i) eqn:E; [|reflexivity].
             apply idx_has_In in E. destruct (E2 i E) as [H|H]; [|lia].
             destruct Hwf as (_&_&_&_&Hidx). rewrite Forall_forall in Hidx.
             specialize (Hidx _ H). simpl in Hidx. lia. }
           rewrite Ehas. specialize (E3 id'). cbn [count_occ].
           destruct (string_dec id id'); lia.
Qed.

End Enumeration.

(** *** The search as a whole *)

Lemma cap_short (l : list ColorSolution) :
  (List.length (cap l) < 100)%nat -> cap l = l.
Proof.
  unfold cap. intros H. apply firstn_all2.
  destruct (Nat.le_gt_cases (List.length l) 100) as [Hle|Hgt]; [assumption|].
  rewrite firstn_length_le in H; lia.
Qed.

(** The store in which a search starts. *)
Definition start (gridRows gridCols : Z) (st : Store) : Store :=
  mkStore (gridState st) (rowReqs st) (colReqs st) []
          (repeat 0 (Z.to_nat gridRows)) (repeat 0 (Z.to_nat gridCols)) [] [] [].

(** The solutions of a search with exact counts, before the cap. *)
Definition found (track : bool) (color : string)
    (shapeInstances : list string) (placementsByShape : list (string * list Placement))
    (gridRows gridCols : Z) (forbiddenCells : list Cell) (st : Store)
  : list ColorSolution :=
  enumHead track color
    (enumLoop track color placementsByShape (new_Set forbiddenCells) 0 shapeInstances)
    (start gridRows gridCols st).

Lemma place_instance_inputs (track : bool) (i : Z) (p : Placement) (st st1 : Store) :
  place_instance track i p st = Some st1 -> SolverFacts.same_inputs st st1.
Proof.
  intros H. destruct (place_instance_spec _ _ _ _ _ H) as (_&_&_&_&_&Hg&Hr&Hc&_).
  repeat split; assumption.
Qed.

Lemma unplace_instance_inputs (track : bool) (i : Z) (p : Placement) (st st1 : Store) :
  unplace_instance track i p st = Some st1 -> SolverFacts.same_inputs st st1.
Proof.
  unfold unplace_instance. intros H.
  match type of H with foldM _ _ ?s = _ => set (st0 := s) in * end.
  destruct (foldM_moved (-1) unmark_cell set_delete unmark_cell_def (cells p) st0 st0 st1 []
              (moved_refl (-1) st0) H) as ((_ & _ & Hg & Hr & Hc & _) & _).
  subst st0. destruct track; cbn in *; repeat split; assumption.
Qed.

Definition keeps_inputs (k : Store -> option (bool * Store)) : Prop :=
  forall st stop st', k st = Some (stop, st') -> SolverFacts.same_inputs st st'.

Lemma counts_head_inputs (track : bool) (color : string)
    (k : Store -> option (bool * Store)) :
  keeps_inputs k -> keeps_inputs (counts_head track color k).
Proof.
  intros Hk st stop st' H. unfold counts_head in H. bind_as H m Em.
  destruct m.
  - cbn [andb] in H. destruct (100 <=? _).
    + injection H as _ <-. repeat split.
    + bind_as H e Ee. destruct e.
      * injection H as _ <-. repeat split.
      * apply Hk in H. exact H.
  - cbn [andb] in H. bind_as H e Ee. destruct e.
    + injection H as _ <-. repeat split.
    + apply Hk in H. exact H.
Qed.

Lemma counts_ploop_inputs (track : bool) (forbiddenSet : list Cell) (i : Z)
    (k : Store -> option (bool * Store)) (ps : list Placement) :
  keeps_inputs k -> keeps_inputs (counts_ploop track forbiddenSet i k ps).
Proof.
  intros Hk. induction ps as [|p ps IH]; intros st stop st' H; simpl in H.
  - injection H as _ <-. apply SolverFacts.same_inputs_refl.
  - destruct (overlaps2 _ _ _); [exact (IH _ _ _ H)|].
    bind_as H st1 E1. bind_as H r Er. destruct r as [shouldStop st2].
    pose proof (place_instance_inputs _ _ _ _ _ E1) as S1.
    pose proof (Hk _ _ _ Er) as S2.
    destruct shouldStop.
    + injection H as _ <-. eapply SolverFacts.same_inputs_trans; eassumption.
    + bind_as H st3 E3. pose proof (unplace_instance_inputs _ _ _ _ _ E3) as S3.
      pose proof (IH _ _ _ H) as S4.
      eapply SolverFacts.same_inputs_trans; [exact S1|].
      eapply SolverFacts.same_inputs_trans; [exact S2|].
      eapply SolverFacts.same_inputs_trans; eassumption.
Qed.

Lemma counts_loop_inputs (track : bool) (color : string)
    (pbs : list (string * list Placement)) (forbiddenSet : list Cell)
    (instances : list string) :
  forall i, keeps_inputs (counts_loop track color pbs forbiddenSet i instances).
Proof.
  induction instances as [|id instances IH]; intros i st stop st' H.
  - simpl in H. injection H as _ <-. apply SolverFacts.same_inputs_refl.
  - rewrite counts_loop_cons in H. bind_as H ps El. bind_as H r Er.
    destruct r as [stopped st1].
    pose proof (counts_ploop_inputs track forbiddenSet i _ ps
                  (counts_head_inputs track color _ (IH (i + 1))) _ _ _ Er) as S1.
    destruct stopped.
    + injection H as _ <-. exact S1.
    + eapply SolverFacts.same_inputs_trans; [exact S1|]. exact (IH _ _ _ _ H).
Qed.

(** A search with exact counts returns the first 100 of its solutions, and
    hands the caller's objects back. *)
Lemma solveWithInstances_spec (track : bool) (color : string)
    (shapeInstances : list string) (pbs : list (string * list Placement))
    (gridRows gridCols : Z) (forbiddenCells : list Cell) (st : Store) :
  0 <= gridRows -> 0 <= gridCols ->
  (Z.to_nat gridRows <= List.length (rowReqs st))%nat ->
  (Z.to_nat gridCols <= List.length (colReqs st))%nat ->
  instances_ok pbs (Z.to_nat gridRows) (Z.to_nat gridCols) shapeInstances ->
  exists st',
    solveWithInstances track color shapeInstances pbs gridRows gridCols forbiddenCells st
    = Some (cap (found track color shapeInstances pbs gridRows gridCols forbiddenCells st),
            st') /\
    SolverFacts.same_inputs st st'.
Proof.
  intros HR HC Hrr Hcr Hok. unfold solveWithInstances, fresh_locals, Array_fill0.
  destruct (Z.ltb_spec gridRows 0); [lia|]. destruct (Z.ltb_spec gridCols 0); [lia|].
  change (mkStore (gridState st) (rowReqs st) (colReqs st) []
            (repeat 0 (Z.to_nat gridRows)) (repeat 0 (Z.to_nat gridCols)) [] [] [])
    with (start gridRows gridCols st).
  set (st0 := start gridRows gridCols st).
  assert (Hwf : wf (Z.to_nat gridRows) (Z.to_nat gridCols) 0 st0).
  { unfold wf, st0, start. cbn. rewrite !repeat_length. repeat split; auto. }
  pose proof (counts_head_runs track color (Z.to_nat gridRows) (Z.to_nat gridCols) 0 _ _
                (counts_loop_runs track color pbs (new_Set forbiddenCells)
                   (Z.to_nat gridRows) (Z.to_nat gridCols) shapeInstances Hok 0)) as Hrun.
  destruct (Hrun st0 Hwf eq_refl) as (stop & st' & E & Hsol & _).
  rewrite E. cbn [snd]. exists st'. split.
  - f_equal. f_equal. exact Hsol.
  - apply (counts_head_inputs track color _
             (counts_loop_inputs track color pbs (new_Set forbiddenCells) shapeInstances 0))
      in E.
    exact E.
Qed.

(** *** Putting the two colours together *)

Definition combined (g b : ColorSolution) : Solution :=
  mkSolution (sol_cells g) (sol_cells b) (sol_placements g) (sol_placements b).

Lemma pushCombined_grows (g : ColorSolution) (bs : list ColorSolution) :
  forall sols, (List.length sols <= List.length (pushCombined g bs sols))%nat.
Proof.
  induction bs as [|b bs IH]; intros sols; simpl; [lia|].
  match goal with |- context [if ?c then _ else _] => destruct c end.
  - rewrite length_app. simpl. lia.
  - etransitivity; [|apply IH]. rewrite length_app. simpl. lia.
Qed.

Lemma pushCombined_all (g : ColorSolution) (bs : list ColorSolution) :
  forall sols,
    (List.length (pushCombined g bs sols) < 50)%nat ->
    pushCombined g bs sols = sols ++ map (combined g) bs.
Proof.
  induction bs as [|b bs IH]; intros sols; simpl; [rewrite app_nil_r; reflexivity|].
  match goal with |- context [if ?c then _ else _] => destruct c eqn:E end.
  - apply Z.leb_le in E. intros H. lia.
  - intros H. rewrite (IH _ H), <- app_assoc. reflexivity.
Qed.

Lemma start_same (gridRows gridCols : Z) (st st' : Store) :
  SolverFacts.same_inputs st st' -> start gridRows gridCols st' = start gridRows gridCols st.
Proof. intros (Hg & Hr & Hc). unfold start. rewrite Hg, Hr, Hc. reflexivity. Qed.

Lemma remainingFrom_In (l : list string) (U : list Z) (x : string) :
  forall i, In x (remainingFrom i l U) -> In x l.
Proof.
  induction l as [|y l IH]; intros i H; simpl in H; [assumption|].
  destruct (idx_has U i).
  - right. exact (IH _ H).
  - destruct H as [H|H]; [left; exact H|right; exact (IH _ H)].
Qed.

Lemma instances_ok_sub (pbs : list (string * list Placement)) (R C : nat)
    (l l' : list string) :
  instances_ok pbs R C l -> (forall x, In x l' -> In x l) -> instances_ok pbs R C l'.
Proof.
  unfold instances_ok. rewrite !Forall_forall. intros H Hsub x Hx. apply H, Hsub, Hx.
Qed.

Lemma flat_map_length_In {A B : Type} (f : A -> list B) (l : list A) (x : A) :
  In x l -> (List.length (f x) <= List.length (flat_map f l))%nat.
Proof.
  induction l as [|y l IH]; intros H; [destruct H|].
  simpl. rewrite length_app. destruct H as [->|H]; [lia|]. specialize (IH H). lia.
Qed.

Section Combining.

Variables (hasBlueReq : bool) (shapeInstances : list string)
          (placementsByShape : list (string * list Placement))
          (gridRows gridCols : Z) (blockedCells : list Cell) (st0 : Store).

Hypotheses (HR : 0 <= gridRows) (HC : 0 <= gridCols)
           (Hrr : (Z.to_nat gridRows <= List.length (rowReqs st0))%nat)
           (Hcr : (Z.to_nat gridCols <= List.length (colReqs st0))%nat)
           (Hok : instances_ok placementsByShape (Z.to_nat gridRows) (Z.to_nat gridCols)
                    shapeInstances).

(** The blue solutions looked for after the green solution [g]. *)
Definition blueFor (g : ColorSolution) (used : list Z) : list ColorSolution :=
  cap (found false "blue" (remainingFrom 0 shapeInstances used) placementsByShape
         gridRows gridCols (blockedCells ++ sol_cells g) st0).

(** What the green solution [g] adds to the combined solutions. *)
Definition combos (g : ColorSolution) : list Solution :=
  match usedShapeIndices g with
  | None => []
  | Some used =>
      if hasBlueReq then
        if (List.length (remainingFrom 0 shapeInstances used) =? 0)%nat then []
        else map (combined g) (blueFor g used)
      else [mkSolution (sol_cells g) [] (sol_placements g) []]
  end.

(** The loop over the green solutions returns, and what it returns holds
    every combination when it is shorter than the cap. *)
Lemma combine_counts_loop_spec (greenSolutions : list ColorSolution) :
  Forall (fun g => usedShapeIndices g <> None) greenSolutions ->
  forall sols st,
    SolverFacts.same_inputs st0 st ->
    exists sols' st',
      combine_counts_loop hasBlueReq shapeInstances placementsByShape gridRows gridCols
        blockedCells greenSolutions sols st = Some (sols', st') /\
      SolverFacts.same_inputs st0 st' /\
      (List.length sols <= List.length sols')%nat /\
      ((List.length sols' < 50)%nat -> sols' = sols ++ flat_map combos greenSolutions).
Proof.
  induction greenSolutions as [|g more IH]; intros Hall sols st Hst.
  - exists sols, st. cbn. rewrite app_nil_r. auto.
  - inversion_clear Hall as [|? ? Hg Hmore]. specialize (IH Hmore).
    cbn [combine_counts_loop flat_map]. unfold combos at 1.
    destruct (usedShapeIndices g) as [used|] eqn:Eu; [|congruence].
    cbv beta iota zeta. destruct hasBlueReq.
    + destruct (List.length (remainingFrom 0 shapeInstances used) =? 0)%nat eqn:El.
      * cbn [negb andb app]. exact (IH sols st Hst).
      * unfold solveForColorWithCountsSimple.
        destruct (solveWithInstances_spec false "blue"
                    (remainingFrom 0 shapeInstances used) placementsByShape
                    gridRows gridCols (blockedCells ++ sol_cells g) st HR HC)
          as (st1 & E & Hin).
        { destruct Hst as (_ & -> & _). exact Hrr. }
        { destruct Hst as (_ & _ & ->). exact Hcr. }
        { apply (instances_ok_sub _ _ _ _ _ Hok). intros x. apply remainingFrom_In. }
        rewrite E. cbn [fst snd negb andb].
        unfold found in *. rewrite (start_same _ _ _ _ Hst).
        fold (found false "blue" (remainingFrom 0 shapeInstances used) placementsByShape
                gridRows gridCols (blockedCells ++ sol_cells g) st0).
        fold (blueFor g used).
        pose proof (pushCombined_grows g (blueFor g used) sols) as Hgrow.
        assert (Hst1 : SolverFacts.same_inputs st0 st1)
          by (eapply SolverFacts.same_inputs_trans; eassumption).
        destruct (50 <=? _) eqn:E50.
        -- eexists _, st1. split; [reflexivity|]. split; [exact Hst1|].
           split; [exact Hgrow|]. apply Z.leb_le in E50. intros H. lia.
        -- destruct (IH (pushCombined g (blueFor g used) sols) st1 Hst1)
             as (sols' & st' & Erun & Hin' & Hlen & Hsmall).
           exists sols', st'. split; [exact Erun|]. split; [exact Hin'|].
           split; [lia|]. intros H. rewrite (Hsmall H), app_assoc. f_equal.
           apply pushCombined_all. lia.
    + cbn [negb andb].
      destruct (50 <=? _) eqn:E50.
      * eexists _, st. split; [reflexivity|]. split; [exact Hst|].
        split; [rewrite length_app; simpl; lia|]. apply Z.leb_le in E50. intros H. lia.
      * destruct (IH (sols ++ [mkSolution (sol_cells g) [] (sol_placements g) []]) st Hst)
          as (sols' & st' & Erun & Hin' & Hlen & Hsmall).
        exists sols', st'. split; [exact Erun|]. split; [exact Hin'|].
        rewrite length_app in Hlen. simpl in Hlen.
        split; [lia|]. intros H. rewrite (Hsmall H), <- app_assoc. reflexivity.
Qed.

End Combining.

(** *** A set of placements that the search finds *)

Lemma exact_get (color : string) (counts : list Z) (reqs : list Req) :
  exact color counts reqs ->
  forall n x, nth_error counts n = Some x ->
    exists q, nth_error reqs n = Some q /\ lookup color q = Some x.
Proof.
  unfold exact. revert reqs.
  induction counts as [|y counts IH]; intros reqs H n x Hn; [destruct n; discriminate|].
  simpl in H. destruct reqs as [|q reqs]; [discriminate|].
  destruct (strict_neq y (lookup color q)) eqn:E; [discriminate|].
  destruct n as [|n]; simpl in Hn |- *.
  - injection Hn as ->. exists q. split; [reflexivity|].
    unfold strict_neq in E. destruct (lookup color q) as [v|]; [|discriminate].
    destruct (Z.eqb_spec x v); [congruence|discriminate].
  - exact (IH _ H _ _ Hn).
Qed.

Lemma nodePath_enum (track : bool) (color : string)
    (pbs : list (string * list Placement)) (forbiddenSet : list Cell)
    (i : Z) (instances : list string) (st final : Store) :
  nodePath track color pbs forbiddenSet i instances st final ->
  In (snapshot_instances track final)
     (enumHead track color (enumLoop track color pbs forbiddenSet i instances) st).
Proof.
  intros [[<- Hm]|(m & Hm & He & H)].
  - apply enumHead_here. exact Hm.
  - eapply enumHead_below; [exact Hm|exact He|]. apply loopPath_enum. exact H.
Qed.

Definition tracked (g : ColorSolution) : Prop := usedShapeIndices g <> None.

Lemma enumHead_tracked (color : string) (rest : Store -> list ColorSolution) (st : Store) :
  Forall tracked (rest st) -> Forall tracked (enumHead true color rest st).
Proof.
  intros H. unfold enumHead. destruct (countsMatch _ _ _ _ _) as [m|]; [|constructor].
  apply Forall_app. split.
  - destruct m; constructor; [discriminate|constructor].
  - destruct (countsExceed _ _ _ _ _) as [[|]|]; try constructor. exact H.
Qed.

Lemma enumLoop_tracked (color : string) (pbs : list (string * list Placement))
    (forbiddenSet : list Cell) (instances : list string) :
  forall i st, Forall tracked (enumLoop true color pbs forbiddenSet i instances st).
Proof.
  induction instances as [|id instances IH]; intros i st; cbn [enumLoop]; [constructor|].
  destruct (lookup id pbs) as [ps|]; [|constructor].
  apply Forall_app. split; [|apply IH].
  apply Forall_forall. intros x Hx. apply in_flat_map in Hx. destruct Hx as (p & _ & Hx).
  destruct (overlaps2 _ _ _); [destruct Hx|].
  destruct (place_instance _ _ _ _) as [st1|]; [|destruct Hx].
  pose proof (enumHead_tracked color _ st1 (IH (i + 1) st1)) as H.
  rewrite Forall_forall in H. exact (H _ Hx).
Qed.

Lemma Forall_cap (P : ColorSolution -> Prop) (l : list ColorSolution) :
  Forall P l -> Forall P (cap l).
Proof.
  unfold cap. generalize 100%nat. intros n H. revert n.
  induction H as [|x l Hx _ IH]; intros [|n]; simpl; constructor; auto.
Qed.

Lemma positive_somewhere (color : string) (reqs : list Req) :
  existsb (positive_req color) reqs = true ->
  exists n q y, nth_error reqs n = Some q /\ lookup color q = Some y /\ 0 < y.
Proof.
  intros H. apply existsb_exists in H. destruct H as (q & Hq & Hp).
  apply In_nth_error in Hq. destruct Hq as [n Hn].
  unfold positive_req in Hp. destruct (lookup color q) as [y|] eqn:E; [|discriminate].
  apply Z.ltb_lt in Hp. eauto 6.
Qed.

Lemma positive_at (color : string) (reqs : list Req) (n : nat) (q : Req) (y : Z) :
  nth_error reqs n = Some q -> lookup color q = Some y -> 0 < y ->
  existsb (positive_req color) reqs = true.
Proof.
  intros Hn Hl Hy. apply existsb_exists. exists q. split.
  - eapply nth_error_In. exact Hn.
  - unfold positive_req. rewrite Hl. apply Z.ltb_lt. exact Hy.
Qed.

Lemma nth_error_zeros (n m : nat) : (m < n)%nat -> nth_error (repeat 0 n) m = Some 0.
Proof.
  revert m. induction n as [|n IH]; intros m H; [lia|].
  destruct m as [|m]; simpl; [reflexivity|]. apply IH. lia.
Qed.

Section Requirements.

Variables (color : string) (gridRows gridCols : Z) (st : Store) (T : list Placement).

Hypotheses (HR : 0 <= gridRows) (HC : 0 <= gridCols)
           (Hdue : due color (start gridRows gridCols st) T).

(** Without a requirement of the colour, exact counts leave no cell. *)
Lemma no_requirement_no_cell :
  (forall p, In p T -> in_grid (Z.to_nat gridRows) (Z.to_nat gridCols) p) ->
  hasReq color (rowReqs st) (colReqs st) = false ->
  flat_map cells T = [].
Proof.
  intros Hgrid Hno. destruct (flat_map cells T) as [|rc L] eqn:EL; [reflexivity|]. exfalso.
  assert (Hrc : In rc (flat_map cells T)) by (rewrite EL; left; reflexivity).
  apply in_flat_map in Hrc. destruct Hrc as (p & Hp & Hrc).
  specialize (Hgrid p Hp). unfold in_grid in Hgrid. rewrite Forall_forall in Hgrid.
  destruct (Hgrid rc Hrc) as [Hr _].
  destruct Hdue as (gr & gc & Sr & _ & Er & _). cbn [start rowCounts rowReqs] in Sr, Er.
  rewrite EL in Sr. specialize (Sr (fst rc)).
  replace (fst rc) with (Z.of_nat (Z.to_nat (fst rc))) in Sr at 1 2 by lia.
  rewrite !get_nth_error, nth_error_zeros in Sr by lia. cbn [option_map map] in Sr.
  rewrite tally_cons, Z.eqb_refl in Sr.
  destruct (exact_get _ _ _ Er _ _ Sr) as (q & Hq & Hl).
  pose proof (tally_nonneg (map fst L) (fst rc)) as Hpos.
  assert (E : existsb (positive_req color) (rowReqs st) = true).
  { eapply positive_at; [exact Hq|exact Hl|]. unfold Cell in *. lia. }
  unfold hasReq in Hno. rewrite E in Hno. discriminate.
Qed.

(** With a requirement of the colour, exact counts need a cell. *)
Lemma requirement_some_placement :
  List.length (rowReqs st) = Z.to_nat gridRows ->
  List.length (colReqs st) = Z.to_nat gridCols ->
  hasReq color (rowReqs st) (colReqs st) = true ->
  T <> [].
Proof.
  intros Hrr Hcr Hreq ->. destruct Hdue as (gr & gc & Sr & Sc & Er & Ec).
  cbn [start rowCounts colCounts rowReqs colReqs flat_map map] in Sr, Sc, Er, Ec.
  apply shifted_nil in Sr, Sc. subst gr gc.
  unfold hasReq in Hreq. apply orb_true_iff in Hreq.
  destruct Hreq as [H|H]; apply positive_somewhere in H;
    destruct H as (n & q & y & Hn & Hl & Hy).
  - assert (Hlt : (n < Z.to_nat gridRows)%nat).
    { rewrite <- Hrr. apply nth_error_Some. congruence. }
    destruct (exact_get _ _ _ Er n 0 (nth_error_zeros _ _ Hlt)) as (q' & Hq' & Hl').
    rewrite Hn in Hq'. injection Hq' as <-. rewrite Hl in Hl'. injection Hl' as ->. lia.
  - assert (Hlt : (n < Z.to_nat gridCols)%nat).
    { rewrite <- Hcr. apply nth_error_Some. congruence. }
    destruct (exact_get _ _ _ Ec n 0 (nth_error_zeros _ _ Hlt)) as (q' & Hq' & Hl').
    rewrite Hn in Hq'. injection Hq' as <-. rewrite Hl in Hl'. injection Hl' as ->. lia.
Qed.

End Requirements.

(** The list [greenSolutions] of [runSolverWithShapeCounts], before the
    combinations are made. *)
Definition greenSolutionsOf (shapeInstances : list string)
    (pbs : list (string * list Placement)) (gridRows gridCols : Z) (bl : list Cell)
    (st : Store) : list ColorSolution :=
  if hasReq "green" (rowReqs st) (colReqs st)
  then cap (found true "green" shapeInstances pbs gridRows gridCols bl st)
  else [mkColorSolution [] [] (Some [])].

(** The cells of [l] are those of [l']. *)
Definition same_cells (l l' : list Cell) : Prop := forall rc, In rc l <-> In rc l'.

Section Certificate.

Variables (lib : ShapeLibrary) (gridRows gridCols : Z) (shapeCounts : list (string * Z))
          (st : Store) (bl : list Cell) (pbs : list (string * list Placement))
          (Tg Tb : list Placement).

Hypotheses
  (HR : 0 <= gridRows) (HC : 0 <= gridCols)
  (Hrr : List.length (rowReqs st) = Z.to_nat gridRows)
  (Hcr : List.length (colReqs st) = Z.to_nat gridCols)
  (Hbl : blockedCellsOf gridRows gridCols (gridState st) = Some bl)
  (Hpbs : placementsByShapeOf lib gridRows gridCols (new_Set bl) (map fst shapeCounts) []
          = Some pbs)
  (Hok : instances_ok pbs (Z.to_nat gridRows) (Z.to_nat gridCols)
           (shapeInstancesOf shapeCounts))
  (Hfit : fits (shapeInstancesOf shapeCounts) (Tg ++ Tb))
  (Hin : forall p, In p (Tg ++ Tb) ->
           exists ps, lookup (shapeId p) pbs = Some ps /\ In p ps)
  (Hnd : NoDup (flat_map cells (Tg ++ Tb)))
  (Hfree : forall rc, In rc (flat_map cells (Tg ++ Tb)) -> ~ In rc bl)
  (Hgreen : hasReq "green" (rowReqs st) (colReqs st) = true ->
            due "green" (start gridRows gridCols st) Tg)
  (Hnogreen : hasReq "green" (rowReqs st) (colReqs st) = false -> flat_map cells Tg = [])
  (Hblue : hasReq "blue" (rowReqs st) (colReqs st) = true ->
           due "blue" (start gridRows gridCols st) Tb)
  (Hnoblue : hasReq "blue" (rowReqs st) (colReqs st) = false -> flat_map cells Tb = [])
  (Hsome : flat_map cells (Tg ++ Tb) <> []).

Lemma wf_start : wf (Z.to_nat gridRows) (Z.to_nat gridCols) 0 (start gridRows gridCols st).
Proof.
  unfold wf, start. cbn. rewrite !repeat_length, Hrr, Hcr. repeat split; auto.
Qed.

Lemma fits_green : fits (shapeInstancesOf shapeCounts) Tg.
Proof.
  intros id. specialize (Hfit id). rewrite map_app, count_occ_app in Hfit. lia.
Qed.

Lemma fits_blue : fits (shapeInstancesOf shapeCounts) Tb.
Proof.
  intros id. specialize (Hfit id). rewrite map_app, count_occ_app in Hfit. lia.
Qed.

(** The green search, when it ends below its cap, has found [Tg]. *)
Lemma green_found :
  (List.length (greenSolutionsOf (shapeInstancesOf shapeCounts) pbs gridRows gridCols bl st)
   < 100)%nat ->
  exists g used,
    In g (greenSolutionsOf (shapeInstancesOf shapeCounts) pbs gridRows gridCols bl st) /\
    usedShapeIndices g = Some used /\
    same_cells (sol_cells g) (flat_map cells Tg) /\
    fits (remainingFrom 0 (shapeInstancesOf shapeCounts) used) Tb.
Proof.
  unfold greenSolutionsOf. destruct (hasReq "green" (rowReqs st) (colReqs st)) eqn:Eg.
  - intros Hshort. rewrite (cap_short _ Hshort).
    rewrite flat_map_app in Hnd.
    destruct (build_path true "green" pbs (new_Set bl) _ _ _ Hok 0
                (start gridRows gridCols st) Tg wf_start fits_green)
      as (final & Hpath & Hused & Hidx).
    + intros p Hp. apply Hin. apply in_app_iff. left. exact Hp.
    + eapply NoDup_app_remove_r. exact Hnd.
    + intros rc Hrc. split; [intros []|]. rewrite new_Set_In. apply Hfree.
      rewrite flat_map_app. apply in_app_iff. left. exact Hrc.
    + exact (Hgreen eq_refl).
    + exists (snapshot_instances true final), (usedIndices final).
      split; [apply nodePath_enum; exact Hpath|]. split; [reflexivity|].
      split.
      * intros rc. cbn [snapshot_instances sol_cells]. rewrite Hused. cbn. tauto.
      * destruct (Hidx eq_refl) as (_ & _ & Hcount). intros id.
        specialize (Hcount id). pose proof (Hfit id) as Hf.
        rewrite map_app, count_occ_app in Hf. lia.
  - intros _. exists (mkColorSolution [] [] (Some [])), []. split; [left; reflexivity|].
    split; [reflexivity|]. split.
    + rewrite (Hnogreen eq_refl). intros rc. cbn. tauto.
    + rewrite remainingFrom_all by constructor. exact fits_blue.
Qed.

(** The blue search after such a green solution, when it ends below its
    cap, has found [Tb]. *)
Lemma blue_found (g : ColorSolution) (used : list Z) :
  hasReq "blue" (rowReqs st) (colReqs st) = true ->
  same_cells (sol_cells g) (flat_map cells Tg) ->
  fits (remainingFrom 0 (shapeInstancesOf shapeCounts) used) Tb ->
  (List.length (blueFor (shapeInstancesOf shapeCounts) pbs gridRows gridCols bl st g used)
   < 100)%nat ->
  exists b,
    In b (blueFor (shapeInstancesOf shapeCounts) pbs gridRows gridCols bl st g used) /\
    same_cells (sol_cells b) (flat_map cells Tb).
Proof.
  intros Eb Hg Hrem Hshort. unfold blueFor in *. rewrite (cap_short _ Hshort).
  rewrite flat_map_app in Hnd.
  destruct (build_path false "blue" pbs (new_Set (bl ++ sol_cells g)) _ _
              (remainingFrom 0 (shapeInstancesOf shapeCounts) used)
              (instances_ok_sub _ _ _ _ _ Hok (fun x => remainingFrom_In _ _ x 0)) 0
              (start gridRows gridCols st) Tb wf_start Hrem)
    as (final & Hpath & Hused & _).
  - intros p Hp. apply Hin. apply in_app_iff. right. exact Hp.
  - eapply NoDup_app_remove_l. exact Hnd.
  - intros rc Hrc. split; [intros []|]. rewrite new_Set_In, in_app_iff. intros [H|H].
    + revert H. apply Hfree. rewrite flat_map_app. apply in_app_iff. right. exact Hrc.
    + apply Hg in H. exact (NoDup_app_disjoint _ _ _ Hnd H Hrc).
  - exact (Hblue Eb).
  - exists (snapshot_instances false final). split; [apply nodePath_enum; exact Hpath|].
    intros rc. cbn [snapshot_instances sol_cells]. rewrite Hused. cbn. tauto.
Qed.

(** The combinations made from the green solutions. *)
Lemma combine_complete (greenSolutions : list ColorSolution) (st1 : Store) :
  greenSolutions
  = greenSolutionsOf (shapeInstancesOf shapeCounts) pbs gridRows gridCols bl st ->
  SolverFacts.same_inputs st st1 ->
  exists res st',
    (r <- combine_counts_loop (hasReq "blue" (rowReqs st) (colReqs st))
            (shapeInstancesOf shapeCounts) pbs gridRows gridCols bl greenSolutions [] st1 ;;
     let '(sols, st2) := r in
     if (List.length sols =? 0)%nat
     then Some (Failure "No valid solution found with selected shape counts", st2)
     else Some (Success sols, st2)) = Some (res, st') /\
    ((List.length greenSolutions < 100)%nat ->
     exists sols,
       res = Success sols /\ sols <> [] /\
       ((List.length sols < 50)%nat ->
        exists s, In s sols /\
                  same_cells (green s) (flat_map cells Tg) /\
                  same_cells (blue s) (flat_map cells Tb))).
Proof.
  intros -> Hst1.
  set (gsols := greenSolutionsOf (shapeInstancesOf shapeCounts) pbs gridRows gridCols bl st).
  assert (Htr : Forall tracked gsols).
  { unfold gsols, greenSolutionsOf. destruct (hasReq "green" _ _).
    - apply Forall_cap, enumHead_tracked, enumLoop_tracked.
    - repeat constructor. discriminate. }
  destruct (combine_counts_loop_spec (hasReq "blue" (rowReqs st) (colReqs st))
              (shapeInstancesOf shapeCounts) pbs gridRows gridCols
              bl st HR HC (Nat.eq_le_incl _ _ (eq_sym Hrr)) (Nat.eq_le_incl _ _ (eq_sym Hcr))
              Hok gsols Htr [] st1 Hst1)
    as (sols' & st' & E & _ & _ & Hsmall).
  rewrite E. cbn [app] in Hsmall.
  assert (Hkey : (List.length gsols < 100)%nat -> (List.length sols' < 50)%nat ->
                 exists s, In s sols' /\
                           same_cells (green s) (flat_map cells Tg) /\
                           same_cells (blue s) (flat_map cells Tb)).
  { intros Hg H50. specialize (Hsmall H50).
    destruct (green_found Hg) as (g & used & Hing & Hu & Hcells & Hfitb).
    fold gsols in Hing.
    pose proof (flat_map_length_In
                  (combos (hasReq "blue" (rowReqs st) (colReqs st))
                     (shapeInstancesOf shapeCounts) pbs gridRows gridCols bl st)
                  _ _ Hing) as Hlen.
    rewrite <- Hsmall in Hlen.
    assert (Hcombo : exists s,
               In s (combos (hasReq "blue" (rowReqs st) (colReqs st))
                       (shapeInstancesOf shapeCounts) pbs gridRows gridCols bl st g) /\
               same_cells (green s) (flat_map cells Tg) /\
               same_cells (blue s) (flat_map cells Tb)).
    { pose proof (blue_found g used) as Hbf.
      unfold combos in Hlen |- *. rewrite Hu in Hlen |- *. revert Hlen.
      destruct (hasReq "blue" (rowReqs st) (colReqs st)) eqn:Eb; intros Hlen.
      - destruct (List.length (remainingFrom 0 (shapeInstancesOf shapeCounts) used) =? 0)%nat
          eqn:El.
        + exfalso. apply Nat.eqb_eq in El. apply length_zero_iff_nil in El.
          rewrite El in Hfitb. apply fits_nil in Hfitb.
          exact (requirement_some_placement "blue" gridRows gridCols st Tb (Hblue eq_refl)
                   Hrr Hcr Eb Hfitb).
        + rewrite length_map in Hlen.
          destruct (Hbf eq_refl Hcells Hfitb) as (b & Hb & Hbc); [lia|].
          exists (combined g b). split; [|split; assumption].
          apply in_map. exact Hb.
      - exists (mkSolution (sol_cells g) [] (sol_placements g) []).
        split; [left; reflexivity|]. split; [exact Hcells|].
        rewrite (Hnoblue eq_refl). intros rc. cbn. tauto. }
    destruct Hcombo as (s & Hs & Hsg & Hsb). exists s. split; [|split; assumption].
    rewrite Hsmall. apply in_flat_map. exists g. split; assumption. }
  destruct (List.length sols' =? 0)%nat eqn:E0.
  - eexists _, st'. split; [reflexivity|]. intros Hg. exfalso.
    apply Nat.eqb_eq in E0. destruct (Hkey Hg) as (s & Hs & _); [lia|].
    apply length_zero_iff_nil in E0. rewrite E0 in Hs. destruct Hs.
  - exists (Success sols'), st'. split; [reflexivity|]. intros Hg.
    exists sols'. split; [reflexivity|]. split; [intros ->; discriminate E0|].
    intros H50. exact (Hkey Hg H50).
Qed.

(** The solver with exact counts returns; when the green search ends below
    its cap the result is a success, and when the solutions are fewer than
    50 as well, one of them has the cells of [Tg] and [Tb]. *)
Lemma runSolverWithShapeCounts_complete :
  exists res st',
    runSolverWithShapeCounts lib gridRows gridCols shapeCounts st = Some (res, st') /\
    ((List.length (greenSolutionsOf (shapeInstancesOf shapeCounts) pbs gridRows gridCols
                     bl st) < 100)%nat ->
     exists sols,
       res = Success sols /\ sols <> [] /\
       ((List.length sols < 50)%nat ->
        exists s, In s sols /\
                  same_cells (green s) (flat_map cells Tg) /\
                  same_cells (blue s) (flat_map cells Tb))).
Proof.
  pose proof green_found as Hgf. pose proof combine_complete as Hcc.
  unfold runSolverWithShapeCounts. rewrite Hbl. cbv beta zeta.
  destruct (hasReq "green" (rowReqs st) (colReqs st)) eqn:Eg.
  - cbn [negb andb]. rewrite Hpbs. unfold solveForColorWithCounts.
    destruct (solveWithInstances_spec true "green" (shapeInstancesOf shapeCounts) pbs
                gridRows gridCols bl st HR HC
                (Nat.eq_le_incl _ _ (eq_sym Hrr)) (Nat.eq_le_incl _ _ (eq_sym Hcr)) Hok)
      as (st1 & E & Hst1).
    rewrite E.
    assert (Egs : cap (found true "green" (shapeInstancesOf shapeCounts) pbs gridRows
                         gridCols bl st)
                  = greenSolutionsOf (shapeInstancesOf shapeCounts) pbs gridRows gridCols
                      bl st)
      by (unfold greenSolutionsOf; rewrite Eg; reflexivity).
    rewrite Egs.
    destruct (List.length _ =? 0)%nat eqn:E0.
    + eexists _, st1. split; [reflexivity|]. intros Hg. exfalso.
      destruct (Hgf Hg) as (g & _ & Hing & _).
      apply Nat.eqb_eq, length_zero_iff_nil in E0. rewrite E0 in Hing. destruct Hing.
    + apply Hcc; [reflexivity|exact Hst1].
  - assert (Eb : hasReq "blue" (rowReqs st) (colReqs st) = true).
    { destruct (hasReq "blue" (rowReqs st) (colReqs st)) eqn:Eb; [reflexivity|].
      exfalso. apply Hsome. rewrite flat_map_app.
      rewrite (Hnogreen eq_refl), (Hnoblue eq_refl). reflexivity. }
    replace (negb false && negb (hasReq "blue" (rowReqs st) (colReqs st))) with false
      by (rewrite Eb; reflexivity).
    cbn [negb andb]. rewrite Hpbs.
    assert (Egs : [mkColorSolution [] [] (Some [])]
                  = greenSolutionsOf (shapeInstancesOf shapeCounts) pbs gridRows gridCols
                      bl st)
      by (unfold greenSolutionsOf; rewrite Eg; reflexivity).
    rewrite Egs.
    apply Hcc; [reflexivity|apply SolverFacts.same_inputs_refl].
Qed.

Lemma greenSolutionsWithShapeCounts_spec :
  greenSolutionsWithShapeCounts lib gridRows gridCols shapeCounts st
  = Some (greenSolutionsOf (shapeInstancesOf shapeCounts) pbs gridRows gridCols bl st).
Proof.
  unfold greenSolutionsWithShapeCounts, greenSolutionsOf. rewrite Hbl, Hpbs.
  destruct (hasReq "green" (rowReqs st) (colReqs st)); [|reflexivity].
  unfold solveForColorWithCounts.
  destruct (solveWithInstances_spec true "green" (shapeInstancesOf shapeCounts) pbs
              gridRows gridCols bl st HR HC
              (Nat.eq_le_incl _ _ (eq_sym Hrr)) (Nat.eq_le_incl _ _ (eq_sym Hcr)) Hok)
    as (st1 & E & _).
  rewrite E. reflexivity.
Qed.

(** The same, with the green solutions as the solver computes them. *)
Lemma runSolverWithShapeCounts_certified :
  exists res st' greenSolutions,
    runSolverWithShapeCounts lib gridRows gridCols shapeCounts st = Some (res, st') /\
    greenSolutionsWithShapeCounts lib gridRows gridCols shapeCounts st
    = Some greenSolutions /\
    ((List.length greenSolutions < 100)%nat ->
     exists sols,
       res = Success sols /\ sols <> [] /\
       ((List.length sols < 50)%nat ->
        exists s, In s sols /\
                  same_cells (green s) (flat_map cells Tg) /\
                  same_cells (blue s) (flat_map cells Tb))).
Proof.
  destruct runSolverWithShapeCounts_complete as (res & st' & Hrun & H).
  exists res, st', (greenSolutionsOf (shapeInstancesOf shapeCounts) pbs gridRows gridCols
                      bl st).
  split; [exact Hrun|]. split; [exact greenSolutionsWithShapeCounts_spec|exact H].
Qed.

End Certificate.

End ExactFacts.

(** ** Facts about the generator *)

Module GeneratorFacts.
Import Shapes Solver Generator.

(** *** Phase 7: the requirements are the cell counts *)

(** Does the cell hold colour [k], filled or locked? *)
Definition colored (k : string) (s : option CellState) : bool :=
  match s with
  | Some (FilledWith k') => String.eqb k' k
  | Some (LockedFor k') => String.eqb k' k
  | Some Empty => false
  | Some Blocked => false
  | None => false
  end.

(** The number of columns [c] below [cols] with [grid[r][c]] of colour [k],
    and the number of rows [r] below [rows] likewise. *)
Definition rowCount (k : string) (grid : Grid) (cols r : Z) : Z :=
  Z.of_nat (List.length
    (filter (fun c => colored k (SolverFacts.stateAt grid (r, c))) (range cols))).

Definition colCount (k : string) (grid : Grid) (rows c : Z) : Z :=
  Z.of_nat (List.length
    (filter (fun r => colored k (SolverFacts.stateAt grid (r, c))) (range rows))).

Lemma countsFor_colored (k : string) (s : option CellState) :
  countsFor k s = colored k s.
Proof. destruct s as [[| | |]|]; reflexivity. Qed.

Lemma lookup_increment (k c : string) (q : list (string * Z)) :
  lookup k (increment c q)
  = if String.eqb k c then option_map (fun n => n + 1) (lookup k q) else lookup k q.
Proof.
  unfold increment. destruct (lookup c q) as [n|] eqn:E.
  - rewrite ShapesFacts.lookup_assign.
    destruct (String.eqb_spec k c) as [->|_]; [rewrite E|]; reflexivity.
  - destruct (String.eqb_spec k c) as [->|_]; [rewrite E|]; reflexivity.
Qed.

Lemma lookup_zero (k : string) (cs : list string) :
  forall acc, lookup k (fold_left (fun q color => assign color 0 q) cs acc)
              = if existsb (String.eqb k) cs then Some 0 else lookup k acc.
Proof.
  induction cs as [|c cs IH]; intros acc; simpl; [reflexivity|].
  rewrite IH, ShapesFacts.lookup_assign.
  destruct (existsb (String.eqb k) cs); [rewrite orb_true_r; reflexivity|].
  rewrite orb_false_r. reflexivity.
Qed.

Lemma existsb_eqb_In (k : string) (cs : list string) :
  existsb (String.eqb k) cs = true <-> In k cs.
Proof.
  rewrite existsb_exists. split.
  - intros (x & Hx & E). apply String.eqb_eq in E. subst; assumption.
  - intros H. exists k. split; [assumption|apply String.eqb_refl].
Qed.

(** One cell adds one to the colour it holds, as many times as the palette
    lists that colour. *)
Lemma lookup_countCell (k : string) (cell : option CellState) (cs : list string) :
  forall q n,
    lookup k q = Some n ->
    lookup k (countCell cs cell q)
    = Some (n + if colored k cell then Z.of_nat (count_occ string_dec cs k) else 0).
Proof.
  unfold countCell. induction cs as [|c cs IH]; intros q n Hq; simpl.
  - rewrite Hq. f_equal. destruct (colored k cell); lia.
  - destruct (string_dec c k) as [->|Hne].
    + rewrite countsFor_colored. destruct (colored k cell) eqn:Ec.
      * erewrite IH; [|rewrite lookup_increment, String.eqb_refl, Hq; reflexivity].
        f_equal. lia.
      * erewrite IH; [|exact Hq]. reflexivity.
    + assert (Hq' : lookup k (if countsFor c cell then increment c q else q) = Some n).
      { destruct (countsFor c cell); [|assumption].
        rewrite lookup_increment.
        destruct (String.eqb_spec k c); [congruence|assumption]. }
      erewrite IH; [|exact Hq']. reflexivity.
Qed.

Lemma count_occ_NoDup (cs : list string) (k : string) :
  NoDup cs -> In k cs -> count_occ string_dec cs k = 1%nat.
Proof.
  intros Hnd Hin. apply NoDup_count_occ with (decA := string_dec) (x := k) in Hnd.
  apply (count_occ_In string_dec) in Hin. lia.
Qed.

Section Counting.

Variables (cs : list string) (k : string).
Hypothesis Hnd : NoDup cs.
Hypothesis Hk : In k cs.

Lemma lookup_countCell_one (cell : option CellState) (q : list (string * Z)) (n : Z) :
  lookup k q = Some n ->
  lookup k (countCell cs cell q) = Some (n + if colored k cell then 1 else 0).
Proof.
  intros Hq. rewrite (lookup_countCell k cell cs q n Hq), (count_occ_NoDup cs k Hnd Hk).
  reflexivity.
Qed.

Lemma lookup_zeroReq : lookup k (zeroReq cs) = Some 0.
Proof.
  unfold zeroReq. rewrite lookup_zero.
  apply existsb_eqb_In in Hk. rewrite Hk. reflexivity.
Qed.

Lemma row_fold (row : list CellState) (l : list Z) :
  forall q n,
    lookup k q = Some n ->
    lookup k (fold_left (fun q c => countCell cs (get row c) q) l q)
    = Some (n + Z.of_nat (List.length (filter (fun c => colored k (get row c)) l))).
Proof.
  induction l as [|c l IH]; intros q n Hq; simpl.
  - rewrite Hq. f_equal. lia.
  - erewrite IH; [|apply lookup_countCell_one; exact Hq].
    f_equal. destruct (colored k (get row c)); simpl; lia.
Qed.

Lemma rowRequirement_spec (grid : Grid) (cols r : Z) (q : Req) :
  rowRequirement cs grid cols r = Some q ->
  lookup k q = Some (rowCount k grid cols r).
Proof.
  unfold rowRequirement, rowCount. intros H. bind_as H row E. injection H as <-.
  rewrite (row_fold row _ _ 0 lookup_zeroReq). f_equal. simpl. f_equal. f_equal.
  apply filter_ext. intros c. unfold SolverFacts.stateAt. cbn [fst snd].
  rewrite E. reflexivity.
Qed.

Lemma col_fold (grid : Grid) (c : Z) (l : list Z) :
  forall q q' n,
    lookup k q = Some n ->
    foldM (fun q r => row <- get grid r ;; Some (countCell cs (get row c) q)) l q
      = Some q' ->
    lookup k q'
    = Some (n + Z.of_nat (List.length
                  (filter (fun r => colored k (SolverFacts.stateAt grid (r, c))) l))).
Proof.
  induction l as [|r l IH]; intros q q' n Hq H; simpl in H.
  - injection H as <-. rewrite Hq. simpl. f_equal. lia.
  - bind_as H q1 E. bind_as E row Er. injection E as <-.
    erewrite IH; [| |exact H]; [|apply lookup_countCell_one; exact Hq].
    f_equal. simpl. unfold SolverFacts.stateAt at 2. cbn [fst snd]. rewrite Er.
    destruct (colored k (get row c)); simpl; lia.
Qed.

Lemma colRequirement_spec (grid : Grid) (rows c : Z) (q : Req) :
  colRequirement cs grid rows c = Some q ->
  lookup k q = Some (colCount k grid rows c).
Proof.
  unfold colRequirement, colCount. intros H.
  rewrite (col_fold grid c _ _ _ 0 lookup_zeroReq H). reflexivity.
Qed.

End Counting.

Lemma mapM_spec {A B : Type} (f : A -> option B) (l : list A) :
  forall ys, mapM f l = Some ys -> Forall2 (fun x y => f x = Some y) l ys.
Proof.
  induction l as [|x l IH]; intros ys H; simpl in H.
  - injection H as <-. constructor.
  - bind_as H y E. bind_as H ys' E'. injection H as <-. constructor; auto.
Qed.

Lemma Forall2_get {A B : Type} (R : A -> B -> Prop) (l : list A) (l' : list B) :
  Forall2 R l l' ->
  forall i x, get l i = Some x -> exists y, get l' i = Some y /\ R x y.
Proof.
  unfold get. intros H i x. destruct (i <? 0); [discriminate|].
  generalize (Z.to_nat i). clear i.
  induction H as [|a b l l' Hab _ IH]; intros [|n] Hx; simpl in *; try discriminate.
  - injection Hx as <-. eauto.
  - apply IH. assumption.
Qed.

Lemma get_range (n i : Z) : 0 <= i < n -> get (range n) i = Some i.
Proof.
  intros H. unfold get, range. destruct (Z.ltb_spec i 0); [lia|].
  rewrite nth_error_map, nth_error_seq.
  destruct (Nat.ltb_spec (Z.to_nat i) (Z.to_nat n)); [|lia].
  simpl. f_equal. lia.
Qed.

Lemma range_length (n : Z) : 0 <= n -> Z.of_nat (List.length (range n)) = n.
Proof. intros H. unfold range. rewrite length_map, length_seq. lia. Qed.

(** The requirements derived from a grid are its counts of coloured cells,
    row by row and column by column. *)
Lemma _calculateDisplayRequirements_spec (cfg : Config) (grid : Grid)
    (reqs : Requirements) :
  NoDup (colors cfg) ->
  _calculateDisplayRequirements cfg grid = Some reqs ->
  exists rows cols,
    dims grid = Some (rows, cols) /\
    Z.of_nat (List.length (req_rows reqs)) = rows /\
    Z.of_nat (List.length (req_cols reqs)) = cols /\
    forall k, In k (colors cfg) ->
      (forall r, 0 <= r < rows ->
         exists q, get (req_rows reqs) r = Some q /\
                   lookup k q = Some (rowCount k grid cols r)) /\
      (forall c, 0 <= c < cols ->
         exists q, get (req_cols reqs) c = Some q /\
                   lookup k q = Some (colCount k grid rows c)).
Proof.
  intros Hnd H. unfold _calculateDisplayRequirements in H.
  bind_as H d Ed. destruct d as [rows cols].
  bind_as H rs Er. bind_as H cs Ec. injection H as <-. cbn [req_rows req_cols].
  apply mapM_spec in Er, Ec.
  assert (Hrows : 0 <= rows /\ 0 <= cols).
  { unfold dims in Ed. bind_inv Ed. injection Ed as <- <-. lia. }
  exists rows, cols. split; [reflexivity|].
  split; [rewrite <- (Forall2_length Er); apply range_length; lia|].
  split; [rewrite <- (Forall2_length Ec); apply range_length; lia|].
  intros k Hk. split.
  - intros r Hr.
    destruct (Forall2_get _ _ _ Er r r (get_range _ _ Hr)) as (q & Hq & Hf).
    exists q. split; [assumption|].
    eapply rowRequirement_spec; eassumption.
  - intros c Hc.
    destruct (Forall2_get _ _ _ Ec c c (get_range _ _ Hc)) as (q & Hq & Hf).
    exists q. split; [assumption|].
    eapply colRequirement_spec; eassumption.
Qed.

Lemma _attemptGeneration_requirements (lib : ShapeLibrary) (cfg : Config)
    (rnd rnd' : list Z) (puzzle : Puzzle) :
  _attemptGeneration lib cfg rnd = Some (Generated puzzle, rnd') ->
  _calculateDisplayRequirements cfg (grid puzzle) = Some (requirements puzzle).
Proof.
  unfold _attemptGeneration. intros H.
  bind_as H s Es. destruct s as [sel rnd1].
  destruct (negb (sel_success sel)); [discriminate|].
  bind_as H l El. destruct l as [dist rnd2].
  destruct rnd2 as [|x rnd3]; [discriminate|].
  bind_as H p Ep. destruct p as [[placed|] rnd4]; [|discriminate].
  bind_as H reqs Er. injection H as <- _. exact Er.
Qed.

Lemma generateLoop_attempt (lib : ShapeLibrary) (cfg : Config) (attempts : nat) :
  forall rnd puzzle,
    generateLoop lib cfg attempts rnd = Some (Some puzzle) ->
    exists rnd1 rnd2, _attemptGeneration lib cfg rnd1 = Some (Generated puzzle, rnd2).
Proof.
  induction attempts as [|n IH]; intros rnd puzzle H; simpl in H; [discriminate|].
  bind_as H r E. destruct r as [[reason|p] rnd'].
  - eapply IH; eassumption.
  - injection H as <-. eauto.
Qed.



End GeneratorFacts.

(** ** The generator against the solver with exact counts *)

Module RoundTrip.
Import Shapes Solver Generator.

(** *** The shape library *)

Fixpoint nodupb (l : list Cell) : bool :=
  match l with
  | [] => true
  | x :: l' => negb (has l' x) && nodupb l'
  end.

(** A rotation the searches can work with: its least row and column are 0
    and no cell is listed twice. *)
Definition rotation_ok (cells : list Cell) : bool := normalizedb cells && nodupb cells.

Definition library_ok (lib : ShapeLibrary) : bool :=
  forallb (fun '(_, e) => forallb rotation_ok (rotations e)) lib.

Lemma nodupb_spec (l : list Cell) : nodupb l = true -> NoDup l.
Proof.
  induction l as [|x l IH]; simpl; intros H; constructor.
  - apply andb_true_iff in H. destruct H as [H _]. apply negb_true_iff in H.
    intros Hin. apply has_In in Hin. congruence.
  - apply IH. apply andb_true_iff in H. tauto.
Qed.

Lemma lookup_In {A : Type} (id : string) (o : list (string * A)) (v : A) :
  lookup id o = Some v -> In (id, v) o.
Proof.
  induction o as [|[k w] o IH]; simpl; [discriminate|].
  destruct (String.eqb_spec id k) as [->|_].
  - intros [= ->]. left. reflexivity.
  - intros H. right. exact (IH H).
Qed.

Lemma library_ok_rotation (lib : ShapeLibrary) (id : string) (e : ShapeEntry)
    (rot : list Cell) :
  library_ok lib = true -> lookup id lib = Some e -> In rot (rotations e) ->
  normalized rot /\ NoDup rot.
Proof.
  unfold library_ok. intros Hlib Hl Hrot. apply lookup_In in Hl.
  rewrite forallb_forall in Hlib. specialize (Hlib _ Hl). cbn in Hlib.
  rewrite forallb_forall in Hlib. specialize (Hlib _ Hrot).
  unfold rotation_ok in Hlib. apply andb_true_iff in Hlib. destruct Hlib as [Hn Hd].
  split; [apply ShapesFacts.normalizedb_spec; exact Hn|apply nodupb_spec; exact Hd].
Qed.

Lemma fold_max_spec (xs : list Z) :
  forall x, x <= fold_left Z.max xs x /\ Forall (fun y => y <= fold_left Z.max xs x) xs.
Proof.
  induction xs as [|a xs IH]; intros x; simpl; [split; [lia|constructor]|].
  destruct (IH (Z.max x a)) as [H1 H2]. split; [lia|]. constructor; [lia|exact H2].
Qed.

Lemma Math_max_greatest (xs : list Z) (m : Z) :
  Math_max xs = Some m -> Forall (fun y => y <= m) xs.
Proof.
  destruct xs as [|x xs]; simpl; [discriminate|]. intros [= <-].
  destruct (fold_max_spec xs x) as [H1 H2]. constructor; assumption.
Qed.

(** The bounds of a normalized rotation: its cells lie within
    [height] rows and [width] columns from the origin. *)
Lemma getShapeBounds_normalized (rot : list Cell) :
  normalized rot ->
  exists b, getShapeBounds rot = Some b /\
            forall rc, In rc rot -> 0 <= fst rc < height b /\ 0 <= snd rc < width b.
Proof.
  intros [Hr Hc]. unfold getShapeBounds. rewrite Hr, Hc.
  destruct (Math_max (map fst rot)) as [r1|] eqn:Er.
  2:{ destruct rot; simpl in *; discriminate. }
  destruct (Math_max (map snd rot)) as [c1|] eqn:Ec.
  2:{ destruct rot; simpl in *; discriminate. }
  eexists. split; [reflexivity|]. cbn [height width]. intros rc Hrc.
  apply ShapesFacts.Math_min_least in Hr, Hc. destruct Hr as [_ Hr], Hc as [_ Hc].
  apply Math_max_greatest in Er, Ec. rewrite Forall_forall in Hr, Hc, Er, Ec.
  specialize (Hr _ (in_map fst _ _ Hrc)). specialize (Hc _ (in_map snd _ _ Hrc)).
  specialize (Er _ (in_map fst _ _ Hrc)). specialize (Ec _ (in_map snd _ _ Hrc)).
  simpl in *. lia.
Qed.

(** *** The placements of the solver *)

(** The cells of a rotation moved to [(row, col)]. *)
Definition shiftTo (row col : Z) (rot : list Cell) : list Cell :=
  map (fun '(r, c) => (row + r, col + c)) rot.

Lemma placementsOfRotation_In (id : string) (i : Z) (rot : list Cell) (b : Bounds)
    (R C : Z) (B : list Cell) (p : Placement) :
  In p (placementsOfRotation id i rot b R C B) <->
  exists row col,
    In row (range (R - height b + 1)) /\ In col (range (C - width b + 1)) /\
    existsb (has B) (shiftTo row col rot) = false /\
    p = mkPlacement id i (shiftTo row col rot) (new_Set (shiftTo row col rot)).
Proof.
  unfold placementsOfRotation. rewrite in_flat_map. split.
  - intros (row & Hrow & H). apply in_flat_map in H. destruct H as (col & Hcol & H).
    fold (shiftTo row col rot) in H.
    destruct (existsb (has B) (shiftTo row col rot)) eqn:E; simpl in H; [destruct H|].
    destruct H as [<-|[]]. exists row, col. auto.
  - intros (row & col & Hrow & Hcol & E & ->). exists row. split; [exact Hrow|].
    apply in_flat_map. exists col. split; [exact Hcol|].
    fold (shiftTo row col rot). rewrite E. left. reflexivity.
Qed.

Lemma placementsOfRotations_In (id : string) (R C : Z) (B : list Cell)
    (rots : list (list Cell)) :
  forall i ps,
    placementsOfRotations id i rots R C B = Some ps ->
    forall j rot b row col,
      get rots j = Some rot -> getShapeBounds rot = Some b ->
      In row (range (R - height b + 1)) -> In col (range (C - width b + 1)) ->
      existsb (has B) (shiftTo row col rot) = false ->
      In (mkPlacement id (i + j) (shiftTo row col rot) (new_Set (shiftTo row col rot))) ps.
Proof.
  induction rots as [|rot0 rots IH]; intros i ps H j rot b row col Hj Hb Hrow Hcol E.
  - unfold get in Hj. destruct (j <? 0); [discriminate|].
    destruct (Z.to_nat j); discriminate.
  - simpl in H. bind_as H b0 Eb. bind_as H more Em. injection H as <-.
    apply in_app_iff.
    pose proof (get_Some_range _ _ _ Hj) as Hrange.
    destruct (Z.eq_dec j 0) as [->|Hne].
    + left. cbn in Hj. injection Hj as ->. rewrite Hb in Eb. injection Eb as ->.
      rewrite Z.add_0_r. apply placementsOfRotation_In. exists row, col. auto.
    + right. replace (i + j) with ((i + 1) + (j - 1)) by lia.
      eapply IH; try eassumption.
      unfold get in Hj |- *. destruct (Z.ltb_spec j 0); [lia|].
      destruct (Z.ltb_spec (j - 1) 0); [lia|].
      replace (Z.to_nat j) with (S (Z.to_nat (j - 1))) in Hj by lia. exact Hj.
Qed.

Lemma placementsOfRotations_cells (id : string) (R C : Z) (B : list Cell)
    (rots : list (list Cell)) :
  forall i ps,
    placementsOfRotations id i rots R C B = Some ps ->
    forall p, In p ps ->
      exists rot b row col,
        In rot rots /\ getShapeBounds rot = Some b /\
        In row (range (R - height b + 1)) /\ In col (range (C - width b + 1)) /\
        cells p = shiftTo row col rot.
Proof.
  induction rots as [|rot0 rots IH]; intros i ps H p Hp; simpl in H.
  - injection H as <-. destruct Hp.
  - bind_as H b0 Eb. bind_as H more Em. injection H as <-.
    apply in_app_iff in Hp. destruct Hp as [Hp|Hp].
    + apply placementsOfRotation_In in Hp. destruct Hp as (row & col & Hrow & Hcol & _ & ->).
      exists rot0, b0, row, col. cbn. auto 6.
    + destruct (IH _ _ Em _ Hp) as (rot & b & row & col & Hrot & Hrest).
      exists rot, b, row, col. split; [right; exact Hrot|exact Hrest].
Qed.

Lemma placementsOfRotations_total (id : string) (R C : Z) (B : list Cell)
    (rots : list (list Cell)) :
  Forall normalized rots ->
  forall i, exists ps, placementsOfRotations id i rots R C B = Some ps.
Proof.
  induction 1 as [|rot rots Hrot _ IH]; intros i; simpl; [eauto|].
  destruct (getShapeBounds_normalized rot Hrot) as (b & -> & _).
  destruct (IH (i + 1)) as [more ->]. eauto.
Qed.

Lemma placementsByShapeOf_lookup (lib : ShapeLibrary) (R C : Z) (B : list Cell)
    (keys : list string) :
  forall acc pbs,
    placementsByShapeOf lib R C B keys acc = Some pbs ->
    forall id,
      (In id keys -> lookup id pbs = generatePlacementsForShape lib id R C B) /\
      (~ In id keys -> lookup id pbs = lookup id acc).
Proof.
  induction keys as [|k keys IH]; intros acc pbs H id; simpl in H.
  - injection H as <-. split; [intros []|reflexivity].
  - bind_as H ps E. destruct (IH _ _ H id) as [Hin Hout].
    destruct (in_dec string_dec id keys) as [Hk|Hk].
    + split; [intros _; exact (Hin Hk)|]. intros Hn. exfalso. apply Hn. right. exact Hk.
    + rewrite (Hout Hk), ShapesFacts.lookup_assign.
      destruct (String.eqb_spec id k) as [->|Hne].
      * split; [intros _; symmetry; exact E|]. intros Hn. exfalso. apply Hn. left. reflexivity.
      * split; [|reflexivity]. intros [->|Hin']; [congruence|contradiction].
Qed.

Lemma placementsByShapeOf_total (lib : ShapeLibrary) (R C : Z) (B : list Cell)
    (keys : list string) :
  (forall id, In id keys -> exists ps, generatePlacementsForShape lib id R C B = Some ps) ->
  forall acc, exists pbs, placementsByShapeOf lib R C B keys acc = Some pbs.
Proof.
  induction keys as [|k keys IH]; intros H acc; simpl; [eauto|].
  destruct (H k (or_introl eq_refl)) as [ps ->].
  apply IH. intros id Hid. apply H. right. exact Hid.
Qed.

Lemma generatePlacementsForShape_total (lib : ShapeLibrary) (id : string) (e : ShapeEntry)
    (R C : Z) (B : list Cell) :
  library_ok lib = true -> lookup id lib = Some e ->
  exists ps, generatePlacementsForShape lib id R C B = Some ps.
Proof.
  intros Hlib Hl. unfold generatePlacementsForShape. rewrite Hl.
  apply placementsOfRotations_total. apply Forall_forall. intros rot Hrot.
  exact (proj1 (library_ok_rotation _ _ _ _ Hlib Hl Hrot)).
Qed.

Lemma shiftTo_In (row col : Z) (rot : list Cell) (rc : Cell) :
  In rc (shiftTo row col rot) <->
  exists x, In x rot /\ rc = (row + fst x, col + snd x).
Proof.
  unfold shiftTo. rewrite in_map_iff. split.
  - intros ([r c] & <- & H). exists (r, c). auto.
  - intros ([r c] & H & ->). exists (r, c). auto.
Qed.

(** With a library of normalized rotations the placements of a shape lie
    inside the grid. *)
Lemma generatePlacementsForShape_in_grid (lib : ShapeLibrary) (id : string)
    (R C : Z) (B : list Cell) (ps : list Placement) :
  library_ok lib = true -> 0 <= R -> 0 <= C ->
  generatePlacementsForShape lib id R C B = Some ps ->
  Forall (ExactFacts.in_grid (Z.to_nat R) (Z.to_nat C)) ps.
Proof.
  intros Hlib HR HC H. unfold generatePlacementsForShape in H. bind_as H e El.
  apply Forall_forall. intros p Hp.
  destruct (placementsOfRotations_cells _ _ _ _ _ _ _ H p Hp)
    as (rot & b & row & col & Hrot & Hb & Hrow & Hcol & Hcells).
  destruct (library_ok_rotation _ _ _ _ Hlib El Hrot) as [Hn _].
  destruct (getShapeBounds_normalized rot Hn) as (b' & Hb' & Hin).
  rewrite Hb in Hb'. injection Hb' as <-.
  unfold ExactFacts.in_grid. rewrite Hcells. apply Forall_forall. intros rc Hrc.
  apply shiftTo_In in Hrc. destruct Hrc as (x & Hx & ->). cbn [fst snd].
  apply range_In in Hrow, Hcol. specialize (Hin x Hx). lia.
Qed.

Lemma shapeInstancesOf_In (counts : list (string * Z)) (id : string) :
  In id (shapeInstancesOf counts) -> In id (map fst counts).
Proof.
  unfold shapeInstancesOf. rewrite in_flat_map. intros ([k n] & Hk & H).
  apply in_map_iff in H. destruct H as (_ & <- & _).
  apply in_map_iff. exists (k, n). auto.
Qed.

(** *** Grids *)

(** A grid of [R] rows of [C] cells. *)
Definition shaped (R C : nat) (g : Grid) : Prop :=
  List.length g = R /\ Forall (fun row => List.length row = C) g.

Lemma replace_nth_spec {A : Type} (l : list A) (n : nat) (v : A) (l' : list A) :
  replace_nth l n v = Some l' ->
  List.length l' = List.length l /\
  nth_error l' n = Some v /\
  (forall m, m <> n -> nth_error l' m = nth_error l m).
Proof.
  revert n l'. induction l as [|x l IH]; intros [|n] l' H; simpl in H; try discriminate.
  - injection H as <-. split; [reflexivity|]. split; [reflexivity|].
    intros [|m] Hm; [congruence|reflexivity].
  - bind_as H l1 E. injection H as <-. destruct (IH _ _ E) as (Hlen & Hn & Hm).
    split; [simpl; congruence|]. split; [exact Hn|].
    intros [|m] Hne; [reflexivity|]. simpl. apply Hm. congruence.
Qed.

Lemma replace_nth_Forall {A : Type} (P : A -> Prop) (l : list A) (n : nat) (v : A)
    (l' : list A) :
  replace_nth l n v = Some l' -> Forall P l -> P v -> Forall P l'.
Proof.
  revert n l'. induction l as [|x l IH]; intros [|n] l' H Hl Hv; simpl in H;
    try discriminate.
  - injection H as <-. inversion_clear Hl. constructor; assumption.
  - bind_as H l1 E. injection H as <-. inversion_clear Hl. constructor; eauto.
Qed.

Lemma replace_nth_In {A : Type} (l : list A) (n : nat) (v : A) (l' : list A) (x : A) :
  replace_nth l n v = Some l' -> In x l' -> x = v \/ In x l.
Proof.
  revert n l'. induction l as [|y l IH]; intros [|n] l' H Hx; simpl in H; try discriminate.
  - injection H as <-. destruct Hx as [<-|Hx]; [left; reflexivity|right; right; exact Hx].
  - bind_as H l1 E. injection H as <-. destruct Hx as [<-|Hx].
    + right. left. reflexivity.
    + destruct (IH _ _ E Hx); [left; assumption|right; right; assumption].
Qed.

(** What [grid[r][c] = v] does. *)
Lemma setAt_spec (g : Grid) (r c : Z) (v : CellState) (g' : Grid) :
  setAt g r c v = Some g' ->
  (forall R C, shaped R C g -> shaped R C g') /\
  SolverFacts.stateAt g' (r, c) = Some v /\
  (forall rc, rc <> (r, c) -> SolverFacts.stateAt g' rc = SolverFacts.stateAt g rc).
Proof.
  unfold setAt. destruct (Z.ltb_spec r 0) as [|Hr]; [discriminate|].
  destruct (Z.ltb_spec c 0) as [|Hc]; [discriminate|]. cbn [orb]. intros H.
  bind_as H row Er. bind_as H row' Ec.
  destruct (replace_nth_spec _ _ _ _ Ec) as (Hlen & Hc1 & Hc2).
  destruct (replace_nth_spec _ _ _ _ H) as (Hlen' & Hr1 & Hr2).
  split; [|split].
  - intros R C [HR HC]. split; [congruence|].
    eapply replace_nth_Forall; [exact H|exact HC|].
    rewrite Forall_forall in HC. rewrite Hlen. apply HC. eapply nth_error_In. exact Er.
  - unfold SolverFacts.stateAt, get. cbn [fst snd].
    destruct (Z.ltb_spec r 0); [lia|]. rewrite Hr1.
    destruct (Z.ltb_spec c 0); [lia|]. exact Hc1.
  - intros [r' c'] Hne. unfold SolverFacts.stateAt, get. cbn [fst snd].
    destruct (Z.ltb_spec r' 0); [reflexivity|].
    destruct (Nat.eq_dec (Z.to_nat r') (Z.to_nat r)) as [Er'|Er'].
    + rewrite Er', Hr1, Er. destruct (Z.ltb_spec c' 0); [reflexivity|].
      apply Hc2. intros Ec'. apply Hne. f_equal; lia.
    + rewrite (Hr2 _ Er'). reflexivity.
Qed.

Lemma markAll_spec (v : CellState) (cells : list Cell) :
  forall g g',
    markAll v cells g = Some g' ->
    (forall R C, shaped R C g -> shaped R C g') /\
    (forall rc, In rc cells -> SolverFacts.stateAt g' rc = Some v) /\
    (forall rc, ~ In rc cells -> SolverFacts.stateAt g' rc = SolverFacts.stateAt g rc).
Proof.
  unfold markAll. induction cells as [|[r c] cells IH]; intros g g' H; simpl in H.
  - injection H as <-. split; [auto|]. split; [intros rc []|auto].
  - bind_as H g1 E. destruct (setAt_spec _ _ _ _ _ E) as (S1 & V1 & O1).
    destruct (IH _ _ H) as (S2 & V2 & O2).
    split; [auto|]. split.
    + intros rc Hrc. destruct (in_dec cell_eq_dec rc cells) as [Hin|Hout]; [auto|].
      rewrite (O2 _ Hout). destruct Hrc as [<-|Hrc]; [exact V1|contradiction].
    + intros rc Hrc. rewrite O2 by (intros Hin; apply Hrc; right; exact Hin).
      apply O1. intros ->. apply Hrc. left. reflexivity.
Qed.

Lemma isEmptyAt_true (g : Grid) (r c : Z) :
  isEmptyAt g r c = Some true -> SolverFacts.stateAt g (r, c) = Some Empty.
Proof.
  unfold isEmptyAt, SolverFacts.stateAt. cbn [fst snd].
  destruct (get g r) as [row|]; [|discriminate].
  destruct (get row c) as [[| | |]|]; intros H; try discriminate. reflexivity.
Qed.

Lemma everyEmpty_spec (g : Grid) (cells : list Cell) :
  everyEmpty g cells = Some true ->
  forall rc, In rc cells -> SolverFacts.stateAt g rc = Some Empty.
Proof.
  induction cells as [|[r c] cells IH]; intros H rc Hrc; [destruct Hrc|].
  simpl in H. bind_as H e E. destruct e; [|discriminate].
  destruct Hrc as [<-|Hrc]; [apply isEmptyAt_true; exact E|exact (IH H _ Hrc)].
Qed.

(** A cell that holds something lies inside the grid. *)
Lemma stateAt_inside (R C : nat) (g : Grid) (rc : Cell) (s : CellState) :
  shaped R C g -> SolverFacts.stateAt g rc = Some s ->
  0 <= fst rc < Z.of_nat R /\ 0 <= snd rc < Z.of_nat C.
Proof.
  intros [HR HC]. unfold SolverFacts.stateAt. destruct (get g (fst rc)) as [row|] eqn:Er;
    [|discriminate].
  intros Hc. apply get_Some_range in Hc. pose proof (get_Some_range _ _ _ Er) as Hr.
  rewrite Forall_forall in HC. unfold get in Er. destruct (fst rc <? 0); [discriminate|].
  apply nth_error_In in Er. rewrite (HC _ Er) in Hc. lia.
Qed.

(** *** Blockers and locks leave no shape behind *)

Lemma list_ind2 {A : Type} (P : list A -> Prop) :
  P [] -> (forall x, P [x]) -> (forall x y l, P l -> P (x :: y :: l)) ->
  forall l, P l.
Proof.
  intros H0 H1 H2 l. enough (H : P l /\ forall x, P (x :: l)) by exact (proj1 H).
  induction l as [|y l [IH1 IH2]]; [split; [exact H0|exact H1]|].
  split; [apply IH2|]. intros x. apply H2. exact IH1.
Qed.

(** [g'] has the rows and columns of [g] and no filled cell that [g] has
    not. *)
Definition tame (g g' : Grid) : Prop :=
  (forall R C, shaped R C g -> shaped R C g') /\
  (forall rc k, SolverFacts.stateAt g' rc = Some (FilledWith k) ->
                SolverFacts.stateAt g rc = Some (FilledWith k)).

Lemma tame_refl (g : Grid) : tame g g.
Proof. split; auto. Qed.

Lemma tame_trans (a b c : Grid) : tame a b -> tame b c -> tame a c.
Proof. intros [S1 F1] [S2 F2]. split; auto. Qed.

Definition plain (v : CellState) : Prop := forall k, v <> FilledWith k.

Lemma setAt_tame (g : Grid) (r c : Z) (v : CellState) (g' : Grid) :
  plain v -> setAt g r c v = Some g' -> tame g g'.
Proof.
  intros Hv H. destruct (setAt_spec _ _ _ _ _ H) as (S & V & O). split; [exact S|].
  intros rc k Hk. destruct (cell_eq_dec rc (r, c)) as [->|Hne].
  - rewrite V in Hk. injection Hk as Hk. destruct (Hv k Hk).
  - rewrite <- (O _ Hne). exact Hk.
Qed.

Lemma plain_Blocked : plain Blocked.
Proof. intros k. discriminate. Qed.

Lemma plain_LockedFor (color : string) : plain (LockedFor color).
Proof. intros k. discriminate. Qed.

Lemma blockEach_tame (count : Z) (positions : list Cell) :
  forall g bs placed g' bs' placed',
    blockEach count positions g bs placed = Some (g', bs', placed') -> tame g g'.
Proof.
  induction positions as [|[pr pc] more IH]; intros g bs placed g' bs' placed' H;
    simpl in H.
  - injection H as <- _ _. apply tame_refl.
  - destruct (count <=? placed); [injection H as <- _ _; apply tame_refl|].
    bind_as H e E. destruct e.
    + bind_as H g1 E1. eapply tame_trans; [|eapply IH; exact H].
      eapply setAt_tame; [apply plain_Blocked|exact E1].
    + eapply IH. exact H.
Qed.

Lemma blockersSymmetrical_tame (rows cols count : Z) (rnd : list Z) :
  forall g bs placed g' bs' rnd',
    blockersSymmetrical rows cols count g bs placed rnd = Some (g', bs', rnd') ->
    tame g g'.
Proof.
  induction rnd as [|x|x y rnd IH] using list_ind2; intros g bs placed g' bs' rnd' H;
    simpl in H.
  - destruct (count <=? placed); [|discriminate]. injection H as <- _ _. apply tame_refl.
  - destruct (count <=? placed); [|discriminate]. injection H as <- _ _. apply tame_refl.
  - destruct (count <=? placed); [injection H as <- _ _; apply tame_refl|].
    bind_as H positions Ep. bind_as H res Er. destruct res as [[g1 bs1] placed1].
    eapply tame_trans; [eapply blockEach_tame; exact Er|eapply IH; exact H].
Qed.

Lemma scatter_tame (mark : CellState) (limit : option Z) (rows cols count : Z)
    (rnd : list Z) :
  plain mark ->
  forall g cs placed attempts g' cs' rnd',
    scatter mark limit rows cols count g cs placed attempts rnd = Some (g', cs', rnd') ->
    tame g g'.
Proof.
  intros Hm.
  induction rnd as [|x|x y rnd IH] using list_ind2;
    intros g cs placed attempts g' cs' rnd' H; simpl in H.
  - destruct (_ && _); [discriminate|]. injection H as <- _ _. apply tame_refl.
  - destruct (_ && _); [discriminate|]. injection H as <- _ _. apply tame_refl.
  - destruct (_ && _); [|injection H as <- _ _; apply tame_refl].
    bind_as H e E. destruct e.
    + bind_as H g1 E1. eapply tame_trans; [|eapply IH; exact H].
      eapply setAt_tame; [exact Hm|exact E1].
    + eapply IH. exact H.
Qed.

Lemma _placeBlockers_tame (g : Grid) (count : Z) (strategy : Strategy) (rnd : list Z)
    (g' : Grid) (bs : list Cell) (rnd' : list Z) :
  _placeBlockers g count strategy rnd = Some (g', bs, rnd') -> tame g g'.
Proof.
  unfold _placeBlockers. intros H. bind_as H d Ed. destruct d as [rows cols].
  destruct strategy.
  - eapply blockersSymmetrical_tame. exact H.
  - eapply scatter_tame; [apply plain_Blocked|exact H].
Qed.

Lemma placeLocksLoop_tame (strategy : Strategy) (rows cols : Z)
    (distribution : list (string * Z)) :
  forall g locks rnd g' locks' rnd',
    placeLocksLoop strategy rows cols distribution g locks rnd = Some (g', locks', rnd') ->
    tame g g'.
Proof.
  induction distribution as [|[color count] more IH]; intros g locks rnd g' locks' rnd' H;
    simpl in H.
  - injection H as <- _ _. apply tame_refl.
  - bind_as H res E. destruct res as [[g1 cells] rnd1].
    eapply tame_trans; [|eapply IH; exact H].
    eapply scatter_tame; [apply plain_LockedFor|exact E].
Qed.

Lemma _placeLocks_tame (g : Grid) (distribution : list (string * Z))
    (strategy : Strategy) (rnd : list Z) (g' : Grid) (locks : list (string * list Cell))
    (rnd' : list Z) :
  _placeLocks g distribution strategy rnd = Some (g', locks, rnd') -> tame g g'.
Proof.
  unfold _placeLocks. intros H. bind_as H d Ed. destruct d as [rows cols].
  eapply placeLocksLoop_tame. exact H.
Qed.

Lemma emptyGrid_spec (gridRows gridCols : Z) (g : Grid) :
  emptyGrid gridRows gridCols = Some g ->
  shaped (Z.to_nat gridRows) (Z.to_nat gridCols) g /\
  0 <= gridRows /\ (0 < gridRows -> 0 <= gridCols) /\
  forall rc k, SolverFacts.stateAt g rc <> Some (FilledWith k).
Proof.
  unfold emptyGrid. destruct (Z.ltb_spec gridRows 0) as [|HR]; [discriminate|].
  destruct (Z.ltb_spec 0 gridRows) as [Hpos|Hz]; cbn [andb].
  - destruct (Z.ltb_spec gridCols 0) as [|HC]; [discriminate|]. intros [= <-].
    split; [|split; [lia|split; [lia|]]].
    + split; [apply repeat_length|]. apply Forall_forall. intros row Hrow.
      apply repeat_spec in Hrow. subst row. apply repeat_length.
    + intros rc k. unfold SolverFacts.stateAt. destruct (get _ (fst rc)) as [row|] eqn:Er;
        [|discriminate].
      unfold get in Er. destruct (fst rc <? 0); [discriminate|].
      apply nth_error_In, repeat_spec in Er. subst row.
      unfold get. destruct (snd rc <? 0); [discriminate|].
      intros Hc. apply nth_error_In, repeat_spec in Hc. discriminate.
  - intros [= <-]. replace (Z.to_nat gridRows) with 0%nat by lia.
    split; [split; [reflexivity|constructor]|]. split; [lia|]. split; [lia|].
    intros rc k. unfold SolverFacts.stateAt, get. simpl.
    destruct (fst rc <? 0); [discriminate|]. destruct (Z.to_nat (fst rc)); discriminate.
Qed.

Lemma dims_shaped (R C : nat) (g : Grid) (rows cols : Z) :
  shaped R C g -> dims g = Some (rows, cols) ->
  rows = Z.of_nat R /\ cols = Z.of_nat C /\ (0 < R)%nat.
Proof.
  intros [HR HC] H. unfold dims in H. bind_as H row0 E. injection H as <- <-.
  destruct g as [|row g]; [discriminate|]. cbn in E. injection E as ->.
  inversion_clear HC as [|? ? Hrow _]. cbn [List.length] in *.
  split; [lia|]. split; lia.
Qed.

(** *** The shapes selected and placed *)

Lemma assign_keys {A : Type} (k : string) (v : A) (o : list (string * A)) (x : string) :
  In x (map fst (assign k v o)) <-> x = k \/ In x (map fst o).
Proof.
  induction o as [|[k' w] o IH]; simpl.
  - split; [intros [<-|[]]; auto|intros [->|[]]; auto].
  - destruct (String.eqb_spec k k') as [->|Hne]; simpl.
    + split; [intros [<-|H]; auto|intros [->|[<-|H]]; auto].
    + rewrite IH. split; [intros [<-|[->|H]]; auto|intros [->|[<-|H]]; auto].
Qed.

Lemma assign_keys_NoDup {A : Type} (k : string) (v : A) (o : list (string * A)) :
  NoDup (map fst o) -> NoDup (map fst (assign k v o)).
Proof.
  induction o as [|[k' w] o IH]; simpl; intros H.
  - constructor; [intros []|constructor].
  - destruct (String.eqb_spec k k') as [->|Hne]; simpl; [exact H|].
    inversion_clear H as [|? ? Hk Ho]. constructor; [|exact (IH Ho)].
    rewrite assign_keys. intros [E|E]; [congruence|contradiction].
Qed.

Lemma lookup_None {A : Type} (k : string) (o : list (string * A)) :
  lookup k o = None <-> ~ In k (map fst o).
Proof.
  induction o as [|[k' w] o IH]; simpl; [tauto|].
  destruct (String.eqb_spec k k') as [->|Hne].
  - split; [discriminate|]. intros H. exfalso. apply H. left. reflexivity.
  - rewrite IH. split; [intros H [E|E]; [congruence|contradiction]|tauto].
Qed.

Lemma lookup_Some_key {A : Type} (k : string) (o : list (string * A)) (v : A) :
  lookup k o = Some v -> In k (map fst o).
Proof.
  intros H. destruct (in_dec string_dec k (map fst o)) as [Hin|Hout]; [exact Hin|].
  apply lookup_None in Hout. congruence.
Qed.

(** A selected shape is a rotation of a shape of the library. *)
Definition sel_ok (lib : ShapeLibrary) (s : SelectedShape) : Prop :=
  exists e, lookup (sel_shapeId s) lib = Some e /\
            sel_cells s = get (rotations e) (sel_rotationIndex s).

Lemma selectLoop_ok (lib : ShapeLibrary) (pool : list string) (rnd : list Z) :
  forall remaining shapes shapes' remaining' rnd',
    selectLoop lib pool remaining shapes rnd = Some (shapes', remaining', rnd') ->
    Forall (sel_ok lib) shapes -> Forall (sel_ok lib) shapes'.
Proof.
  induction rnd as [|x|x y rnd IH] using list_ind2;
    intros remaining shapes shapes' remaining' rnd' H Hs; simpl in H.
  - destruct (remaining <=? 0); [injection H as <- _ _; exact Hs|].
    destruct (_ =? _)%nat; [injection H as <- _ _; exact Hs|discriminate].
  - destruct (remaining <=? 0); [injection H as <- _ _; exact Hs|].
    destruct (_ =? _)%nat; [injection H as <- _ _; exact Hs|discriminate].
  - destruct (remaining <=? 0); [injection H as <- _ _; exact Hs|].
    destruct (_ =? _)%nat; [injection H as <- _ _; exact Hs|].
    bind_as H shapeId Ei. bind_as H shape El.
    eapply IH; [exact H|]. apply Forall_app. split; [exact Hs|].
    constructor; [|constructor]. exists shape. cbn. auto.
Qed.

(** What is known of the shapes selected for the colours. *)
Definition selection_ok (lib : ShapeLibrary) (palette : list string)
    (colorShapes : list (string * list SelectedShape)) : Prop :=
  Forall (fun entry => Forall (sel_ok lib) (snd entry) /\ snd entry <> []) colorShapes /\
  NoDup (map fst colorShapes) /\
  (forall k, In k (map fst colorShapes) -> In k palette).

Lemma selectColors_ok (lib : ShapeLibrary) (pool : list string)
    (budgets : list (string * Z)) (palette : list string) (cs : list string) :
  forall sel rnd sel' rnd',
    selectColors lib pool budgets cs sel rnd = Some (sel', rnd') ->
    sel_success sel' = true ->
    (forall k, In k cs -> In k palette) ->
    selection_ok lib palette (colorShapes sel) ->
    selection_ok lib palette (colorShapes sel') /\
    (forall k, In k (map fst (colorShapes sel)) \/ In k cs ->
               In k (map fst (colorShapes sel'))).
Proof.
  induction cs as [|color cs IH]; intros sel rnd sel' rnd' H Hok Hpal Hsel; simpl in H.
  - injection H as <- _. split; [exact Hsel|]. intros k [Hk|[]]. exact Hk.
  - bind_as H remaining Eb. bind_as H r Er. destruct r as [[shapes remaining1] rnd1].
    destruct (List.length shapes =? 0)%nat eqn:El.
    + injection H as <- _. discriminate Hok.
    + destruct (IH _ _ _ _ H Hok (fun k Hk => Hpal k (or_intror Hk))) as [Hsel' Hkeys].
      * cbn [colorShapes]. destruct Hsel as (Hall & Hnd & Hin).
        split; [|split].
        -- apply Forall_forall. intros [k l] Hkl.
           apply ShapesFacts.in_assign in Hkl. destruct Hkl as [->|Hkl].
           ++ cbn [snd]. split.
              ** eapply selectLoop_ok; [exact Er|constructor].
              ** intros ->. discriminate El.
           ++ rewrite Forall_forall in Hall. exact (Hall _ Hkl).
        -- apply assign_keys_NoDup. exact Hnd.
        -- intros k Hk. apply assign_keys in Hk. destruct Hk as [->|Hk]; [|exact (Hin _ Hk)].
           apply Hpal. left. reflexivity.
      * split; [exact Hsel'|]. intros k Hk. apply Hkeys. cbn [colorShapes].
        rewrite assign_keys. destruct Hk as [Hk|[<-|Hk]]; auto.
Qed.

(** A placement of the generator is a rotation of a shape of the library,
    moved to a position that keeps it within its bounds inside the grid. *)
Definition genuine (lib : ShapeLibrary) (R C : Z) (gp : GenPlacement) : Prop :=
  exists e rot b row col,
    lookup (gp_shapeId gp) lib = Some e /\
    get (rotations e) (gp_rotationIndex gp) = Some rot /\
    getShapeBounds rot = Some b /\
    In row (range (R - height b + 1)) /\ In col (range (C - width b + 1)) /\
    gp_cells gp = shiftTo row col rot.

Lemma validPositionsOf_In (g : Grid) (shapeCells : list Cell) (b : Bounds) (rows cols : Z)
    (vps : list (Z * Z * list Cell)) :
  validPositionsOf g shapeCells b rows cols = Some vps ->
  forall r c cells, In (r, c, cells) vps ->
    In r (range (rows - height b + 1)) /\ In c (range (cols - width b + 1)) /\
    cells = shiftTo r c shapeCells /\ everyEmpty g cells = Some true.
Proof.
  unfold validPositionsOf. intros H.
  set (P := fun x : Z * Z * list Cell =>
              In (fst (fst x)) (range (rows - height b + 1)) /\
              In (snd (fst x)) (range (cols - width b + 1)) /\
              snd x = shiftTo (fst (fst x)) (snd (fst x)) shapeCells /\
              everyEmpty g (snd x) = Some true).
  enough (Hall : Forall P vps).
  { intros r c cells Hin. rewrite Forall_forall in Hall. exact (Hall _ Hin). }
  revert H. apply SolverFacts.foldM_inv with (Inv := Forall P); [|constructor].
  intros acc r acc' Hr Hacc. apply SolverFacts.foldM_inv with (Inv := Forall P); [|exact Hacc].
  intros acc1 c acc2 Hc Hacc1 H. fold (shiftTo r c shapeCells) in H.
  bind_as H isValid E. injection H as <-. destruct isValid; [|exact Hacc1].
  apply Forall_app. split; [exact Hacc1|]. constructor; [|constructor].
  unfold P. cbn [fst snd]. auto.
Qed.

Lemma _findShapePlacement_spec (lib : ShapeLibrary) (R C : nat) (g : Grid)
    (shape : SelectedShape) (color : string) (rnd rnd' : list Z) (gp : GenPlacement) :
  _findShapePlacement g shape color rnd = Some (Some gp, rnd') ->
  shaped R C g -> sel_ok lib shape ->
  genuine lib (Z.of_nat R) (Z.of_nat C) gp /\
  gp_color gp = color /\
  (forall rc, In rc (gp_cells gp) -> SolverFacts.stateAt g rc = Some Empty).
Proof.
  unfold _findShapePlacement. intros H Hg (e & He & Hcells).
  bind_as H d Ed. destruct d as [rows cols].
  destruct (dims_shaped _ _ _ _ _ Hg Ed) as (-> & -> & _).
  bind_as H shapeCells Ec. bind_as H b Eb. bind_as H vps Ev.
  destruct (List.length vps =? 0)%nat; [discriminate|].
  destruct rnd as [|x rnd1]; [discriminate|].
  bind_as H chosen Eg. destruct chosen as [[row col] cells]. injection H as <- _.
  assert (Hin : In (row, col, cells) vps).
  { unfold get in Eg. destruct (_ <? 0); [discriminate|]. eapply nth_error_In. exact Eg. }
  destruct (validPositionsOf_In _ _ _ _ _ _ Ev _ _ _ Hin) as (Hrow & Hcol & -> & Hempty).
  cbn [gp_color gp_cells]. split; [|split; [reflexivity|]].
  - exists e, shapeCells, b, row, col. cbn. rewrite <- Hcells. auto 7.
  - apply everyEmpty_spec. exact Hempty.
Qed.

Lemma shiftTo_NoDup (row col : Z) (rot : list Cell) :
  NoDup rot -> NoDup (shiftTo row col rot).
Proof.
  induction 1 as [|x rot Hx _ IH]; simpl; constructor; [|exact IH].
  intros Hin. apply shiftTo_In in Hin. destruct Hin as (y & Hy & E).
  destruct x as [r c], y as [r' c']. cbn in E. injection E as E1 E2.
  assert (r' = r) by lia. assert (c' = c) by lia. subst. contradiction.
Qed.

Lemma genuine_NoDup (lib : ShapeLibrary) (R C : Z) (gp : GenPlacement) :
  library_ok lib = true -> genuine lib R C gp ->
  NoDup (gp_cells gp) /\ gp_cells gp <> [].
Proof.
  intros Hlib (e & rot & b & row & col & He & Hrot & Hb & _ & _ & ->).
  assert (Hin : In rot (rotations e)).
  { unfold get in Hrot. destruct (_ <? 0); [discriminate|]. eapply nth_error_In. exact Hrot. }
  destruct (library_ok_rotation _ _ _ _ Hlib He Hin) as [Hn Hnd].
  split; [apply shiftTo_NoDup; exact Hnd|].
  destruct rot; [destruct Hn; discriminate|discriminate].
Qed.

Definition filled (g : Grid) (k : string) (rc : Cell) : Prop :=
  SolverFacts.stateAt g rc = Some (FilledWith k).

(** A grid with the shapes placed on it: every colour has its placements,
    each a rotation of a library shape inside the grid, on cells of their
    own, and the cells filled with a colour are those of its placements. *)
Definition layout_ok (lib : ShapeLibrary) (R C : nat) (g : Grid)
    (shapes : list (string * list GenPlacement)) (solution : list (string * list Cell))
  : Prop :=
  shaped R C g /\
  (forall k gps, lookup k shapes = Some gps ->
     gps <> [] /\ Forall (genuine lib (Z.of_nat R) (Z.of_nat C)) gps /\
     NoDup (flat_map gp_cells gps)) /\
  (forall rc k, filled g k rc <->
                exists gps, lookup k shapes = Some gps /\ In rc (flat_map gp_cells gps)) /\
  (forall k, lookup k solution = option_map (flat_map gp_cells) (lookup k shapes)).

Section Placing.

Variables (lib : ShapeLibrary) (R C : nat).
Hypothesis Hlib : library_ok lib = true.

Lemma placeShapes_spec (color : string) (shapes : list SelectedShape) :
  forall g pl rnd g' pl' rnd',
    placeShapes color shapes g pl rnd = Some (Some (g', pl'), rnd') ->
    shaped R C g -> Forall (sel_ok lib) shapes ->
    exists new,
      pl' = pl ++ new /\ List.length new = List.length shapes /\ shaped R C g' /\
      Forall (genuine lib (Z.of_nat R) (Z.of_nat C)) new /\
      NoDup (flat_map gp_cells new) /\
      (forall rc, In rc (flat_map gp_cells new) ->
                  SolverFacts.stateAt g rc = Some Empty /\ filled g' color rc) /\
      (forall rc, ~ In rc (flat_map gp_cells new) ->
                  SolverFacts.stateAt g' rc = SolverFacts.stateAt g rc).
Proof.
  induction shapes as [|shape more IH]; intros g pl rnd g' pl' rnd' H Hg Hs; simpl in H.
  - injection H as <- <- _. exists []. rewrite app_nil_r. cbn.
    split; [reflexivity|]. split; [reflexivity|]. split; [exact Hg|].
    split; [constructor|]. split; [constructor|]. split; [intros rc []|reflexivity].
  - inversion_clear Hs as [|? ? Hshape Hmore].
    bind_as H r E. destruct r as [[gp|] rnd1]; [|discriminate].
    bind_as H g1 Em.
    destruct (_findShapePlacement_spec lib R C _ _ _ _ _ _ E Hg Hshape)
      as (Hgen & Hcol & Hempty).
    destruct (markAll_spec _ _ _ _ Em) as (S1 & V1 & O1).
    destruct (IH _ _ _ _ _ _ H (S1 _ _ Hg) Hmore)
      as (new & -> & Hlen & Hg' & Hall & Hnd & Hin & Hout).
    assert (Hdisj : forall rc, In rc (gp_cells gp) -> ~ In rc (flat_map gp_cells new)).
    { intros rc H1 H2. destruct (Hin _ H2) as [He _]. rewrite (V1 _ H1) in He.
      discriminate He. }
    exists (gp :: new). rewrite <- app_assoc. split; [reflexivity|].
    split; [simpl; congruence|]. split; [exact Hg'|].
    split; [constructor; assumption|]. cbn [flat_map].
    split; [|split].
    + apply NoDup_app; [exact (proj1 (genuine_NoDup _ _ _ _ Hlib Hgen))|exact Hnd|exact Hdisj].
    + intros rc Hrc. apply in_app_iff in Hrc. destruct Hrc as [Hrc|Hrc].
      * split; [exact (Hempty _ Hrc)|]. unfold filled.
        rewrite (Hout _ (Hdisj _ Hrc)). apply V1. exact Hrc.
      * destruct (Hin _ Hrc) as [He Hf]. split; [|exact Hf].
        rewrite <- He. symmetry. apply O1. intros Hgp. rewrite (V1 _ Hgp) in He.
        discriminate He.
    + intros rc Hrc. rewrite in_app_iff in Hrc.
      rewrite Hout by tauto. apply O1. tauto.
Qed.

Lemma placeColors_spec (colorShapes : list (string * list SelectedShape)) :
  forall acc rnd acc' rnd',
    placeColors colorShapes acc rnd = Some (Some acc', rnd') ->
    layout_ok lib R C (pr_grid acc) (pr_shapes acc) (pr_solution acc) ->
    Forall (fun entry => Forall (sel_ok lib) (snd entry) /\ snd entry <> []) colorShapes ->
    NoDup (map fst colorShapes) ->
    (forall k, In k (map fst colorShapes) -> lookup k (pr_shapes acc) = None) ->
    layout_ok lib R C (pr_grid acc') (pr_shapes acc') (pr_solution acc') /\
    (forall k, In k (map fst (pr_shapes acc')) <->
               In k (map fst (pr_shapes acc)) \/ In k (map fst colorShapes)).
Proof.
  induction colorShapes as [|[color shapes] more IH];
    intros acc rnd acc' rnd' H Hacc Hsel Hnd Hnew; simpl in H.
  - injection H as <- _. split; [exact Hacc|]. intros k. cbn. tauto.
  - inversion_clear Hsel as [|? ? [Hshapes Hne] Hmore]. cbn [snd] in Hshapes, Hne.
    cbn [map fst] in Hnd, Hnew. inversion_clear Hnd as [|? ? Hcolor Hnd'].
    bind_as H r E. destruct r as [[[g placements]|] rnd1]; [|discriminate].
    destruct Hacc as (Hg & Hgps & Hfill & Hsol).
    destruct (placeShapes_spec _ _ _ _ _ _ _ _ E Hg Hshapes)
      as (new & -> & Hlen & Hg' & Hall & Hndn & Hin & Hout). cbn [app] in *.
    pose proof (Hnew color (or_introl eq_refl)) as Hfresh.
    destruct (IH _ _ _ _ H) as [Hlay Hkeys]; cbn [pr_grid pr_shapes pr_solution].
    + split; [exact Hg'|]. split; [|split].
      * intros k gps. rewrite ShapesFacts.lookup_assign.
        destruct (String.eqb_spec k color) as [->|Hk]; [|apply Hgps].
        intros [= <-]. split; [|split; assumption].
        intros ->. apply Hne. destruct shapes; [reflexivity|discriminate Hlen].
      * intros rc k. rewrite ShapesFacts.lookup_assign. unfold filled in *.
        destruct (in_dec cell_eq_dec rc (flat_map gp_cells new)) as [Hrc|Hrc].
        -- destruct (Hin _ Hrc) as [He Hf]. rewrite Hf.
           destruct (String.eqb_spec k color) as [->|Hk].
           ++ split; [intros _; eauto|reflexivity].
           ++ split; [intros [= Hc]; congruence|].
              intros (gps & Hl & Hc). exfalso.
              assert (Hold : SolverFacts.stateAt (pr_grid acc) rc = Some (FilledWith k))
                by (apply Hfill; eauto).
              rewrite He in Hold. discriminate Hold.
        -- rewrite (Hout _ Hrc). rewrite Hfill.
           destruct (String.eqb_spec k color) as [->|Hk]; [|reflexivity].
           rewrite Hfresh. split; [intros (gps & Hl & _); discriminate Hl|].
           intros (gps & [= <-] & Hc). contradiction.
      * intros k. rewrite !ShapesFacts.lookup_assign.
        destruct (String.eqb_spec k color); [reflexivity|apply Hsol].
    + exact Hmore.
    + exact Hnd'.
    + intros k Hk. rewrite ShapesFacts.lookup_assign.
      destruct (String.eqb_spec k color) as [->|_]; [contradiction|].
      apply Hnew. right. exact Hk.
    + split; [exact Hlay|]. intros k. rewrite Hkeys. cbn [pr_shapes map fst].
      rewrite assign_keys. cbn [In]. split.
      * intros [[->|Hk]|Hk]; auto.
      * intros [Hk|[<-|Hk]]; auto.
Qed.

Lemma _findValidPlacement_spec (g : Grid)
    (colorShapes : list (string * list SelectedShape)) (palette : list string)
    (rnd rnd' : list Z) (res : PlacementResult) :
  _findValidPlacement g colorShapes rnd = Some (Some res, rnd') ->
  shaped R C g -> (forall rc k, ~ filled g k rc) ->
  selection_ok lib palette colorShapes ->
  layout_ok lib R C (pr_grid res) (pr_shapes res) (pr_solution res) /\
  (forall k, In k (map fst (pr_shapes res)) <-> In k (map fst colorShapes)).
Proof.
  unfold _findValidPlacement. intros H Hg Hun (Hall & Hnd & _).
  bind_as H d Ed.
  destruct (placeColors_spec _ _ _ _ _ H) as [Hlay Hkeys]; cbn [pr_grid pr_shapes pr_solution].
  - split; [exact Hg|]. split; [intros k gps; discriminate|].
    split; [|reflexivity]. intros rc k. split; [intros Hf; destruct (Hun _ _ Hf)|].
    intros (gps & Hl & _). discriminate Hl.
  - exact Hall.
  - exact Hnd.
  - reflexivity.
  - split; [exact Hlay|]. intros k. rewrite Hkeys. cbn. tauto.
Qed.

End Placing.

(** *** Blockers and locks put on the cells left empty *)

Lemma firstn_In' {A : Type} (n : nat) (l : list A) (x : A) : In x (firstn n l) -> In x l.
Proof. intros H. rewrite <- (firstn_skipn n l). apply in_app_iff. left. exact H. Qed.

Lemma skipn_In' {A : Type} (n : nat) (l : list A) (x : A) : In x (skipn n l) -> In x l.
Proof. intros H. rewrite <- (firstn_skipn n l). apply in_app_iff. right. exact H. Qed.

Lemma slice_to_In {A : Type} (l : list A) (n : Z) (x : A) : In x (slice_to l n) -> In x l.
Proof. unfold slice_to. destruct (n <? 0); apply firstn_In'. Qed.

Lemma slice_from_In {A : Type} (l : list A) (n : Z) (x : A) :
  In x (slice_from l n) -> In x l.
Proof. unfold slice_from. destruct (n <? 0); apply skipn_In'. Qed.

Lemma emptyCellsOf_In (g : Grid) (cells : list Cell) :
  emptyCellsOf g = Some cells ->
  forall rc, In rc cells -> SolverFacts.stateAt g rc = Some Empty.
Proof.
  unfold emptyCellsOf. destruct g as [|row0 g']; [intros [= <-] rc []|].
  set (g := row0 :: g'). intros H.
  enough (Hall : Forall (fun rc => SolverFacts.stateAt g rc = Some Empty) cells).
  { intros rc Hrc. rewrite Forall_forall in Hall. exact (Hall _ Hrc). }
  revert H. apply SolverFacts.foldM_inv; [|constructor].
  intros acc r acc' _ Hacc. apply SolverFacts.foldM_inv; [|exact Hacc].
  intros acc1 c acc2 _ Hacc1 H. bind_as H e E. injection H as <-.
  destruct e; [|exact Hacc1].
  apply Forall_app. split; [exact Hacc1|]. constructor; [|constructor].
  apply isEmptyAt_true. exact E.
Qed.

Lemma swap_In (l : list Cell) (i j : Z) (l' : list Cell) (x : Cell) :
  swap l i j = Some l' -> In x l' -> In x l.
Proof.
  unfold swap. intros H Hx. bind_as H a Ea. bind_as H b Eb. bind_as H l1 E1.
  assert (Ha : In a l).
  { unfold get in Ea. destruct (_ <? 0); [discriminate|]. eapply nth_error_In. exact Ea. }
  assert (Hb : In b l).
  { unfold get in Eb. destruct (_ <? 0); [discriminate|]. eapply nth_error_In. exact Eb. }
  destruct (replace_nth_In _ _ _ _ _ H Hx) as [->|Hx1]; [exact Ha|].
  destruct (replace_nth_In _ _ _ _ _ E1 Hx1) as [->|Hx2]; assumption.
Qed.

Lemma shuffle_In (n : nat) :
  forall l rnd l' rnd' x, shuffle n l rnd = Some (l', rnd') -> In x l' -> In x l.
Proof.
  induction n as [|n IH]; intros l rnd l' rnd' x H Hx; simpl in H.
  - injection H as <- _. exact Hx.
  - destruct rnd as [|y rnd1]; [discriminate|]. bind_as H l1 E.
    eapply swap_In; [exact E|]. eapply IH; eassumption.
Qed.

Lemma _findEmptyCells_In (g : Grid) (rnd rnd' : list Z) (cells : list Cell) :
  _findEmptyCells g rnd = Some (cells, rnd') ->
  forall rc, In rc cells -> SolverFacts.stateAt g rc = Some Empty.
Proof.
  unfold _findEmptyCells. intros H rc Hrc. bind_as H empty E.
  eapply emptyCellsOf_In; [exact E|]. eapply shuffle_In; eassumption.
Qed.

Lemma _placeLocksinEmptyCells_In (distribution : list (string * Z)) :
  forall emptyCells locks color cells rc,
    In (color, cells) (_placeLocksinEmptyCells emptyCells distribution locks) ->
    In rc cells ->
    In rc emptyCells \/ exists color' cells', In (color', cells') locks /\ In rc cells'.
Proof.
  induction distribution as [|[k n] more IH]; intros emptyCells locks color cells rc H Hrc;
    simpl in H.
  - right. eauto.
  - destruct (IH _ _ _ _ _ H Hrc) as [Hin|(color' & cells' & Hin & Hrc')].
    + left. eapply skipn_In'. exact Hin.
    + apply ShapesFacts.in_assign in Hin. destruct Hin as [->|Hin].
      * left. eapply firstn_In'. exact Hrc'.
      * right. eauto.
Qed.

Lemma markAll_keeps_filled (v : CellState) (cells : list Cell) (g g' : Grid) :
  markAll v cells g = Some g' -> plain v ->
  (forall rc k, In rc cells -> ~ filled g k rc) ->
  forall rc k, filled g' k rc <-> filled g k rc.
Proof.
  intros H Hv Hcells rc k. destruct (markAll_spec _ _ _ _ H) as (_ & V & O).
  unfold filled in *. destruct (in_dec cell_eq_dec rc cells) as [Hin|Hout].
  - rewrite (V _ Hin). split.
    + intros [= E]. destruct (Hv _ E).
    + intros Hf. destruct (Hcells _ _ Hin Hf).
  - rewrite (O _ Hout). reflexivity.
Qed.

Lemma writeLocks_keeps (locks : list (string * list Cell)) :
  forall g g',
    writeLocks locks g = Some g' ->
    (forall color cells rc k, In (color, cells) locks -> In rc cells -> ~ filled g k rc) ->
    (forall R C, shaped R C g -> shaped R C g') /\
    (forall rc k, filled g' k rc <-> filled g k rc).
Proof.
  induction locks as [|[color cells] more IH]; intros g g' H Hlocks; simpl in H.
  - injection H as <-. split; [auto|reflexivity].
  - bind_as H g1 E.
    pose proof (markAll_keeps_filled _ _ _ _ E (plain_LockedFor color)
                  (fun rc k Hrc => Hlocks color cells rc k (or_introl eq_refl) Hrc)) as K1.
    destruct (markAll_spec _ _ _ _ E) as (S1 & _ & _).
    destruct (IH _ _ H) as [S2 K2].
    + intros color' cells' rc k Hin Hrc. rewrite K1.
      exact (Hlocks color' cells' rc k (or_intror Hin) Hrc).
    + split; [auto|]. intros rc k. rewrite K2. apply K1.
Qed.

Section Validating.

Variables (lib : ShapeLibrary) (cfg : Config) (palette : list string).
Hypothesis Hlib : library_ok lib = true.

Let R := Z.to_nat (gridRows cfg).
Let C := Z.to_nat (gridCols cfg).

Lemma tryWithBlockers_spec (shapeSelection : Selection) (blb : BlockerLockBudget)
    (lockDistribution : list (string * Z)) (strategy : Strategy) (n : nat) :
  forall rnd rnd' placed,
    tryWithBlockers n cfg shapeSelection blb lockDistribution strategy rnd
    = Some (Some placed, rnd') ->
    selection_ok lib palette (colorShapes shapeSelection) ->
    layout_ok lib R C (pl_grid placed) (pl_shapes placed) (pl_solution placed) /\
    (forall k, In k (map fst (pl_shapes placed)) <->
               In k (map fst (colorShapes shapeSelection))).
Proof.
  induction n as [|n IH]; intros rnd rnd' placed H Hsel; simpl in H; [discriminate|].
  bind_as H g0 E0. bind_as H b Eb. destruct b as [[g1 bs] rnd1].
  bind_as H l El. destruct l as [[g2 locks] rnd2].
  bind_as H p Ep. destruct p as [[res|] rnd3]; [|exact (IH _ _ _ H Hsel)].
  injection H as <- _. cbn [pl_grid pl_shapes pl_solution].
  destruct (emptyGrid_spec _ _ _ E0) as (Hg0 & _ & _ & Hun).
  pose proof (tame_trans _ _ _ (_placeBlockers_tame _ _ _ _ _ _ _ Eb)
                (_placeLocks_tame _ _ _ _ _ _ _ El)) as [Hs Hf].
  eapply (_findValidPlacement_spec lib R C Hlib); [exact Ep|exact (Hs _ _ Hg0)| |exact Hsel].
  intros rc k Hk. exact (Hun rc k (Hf _ _ Hk)).
Qed.

Lemma fallback_spec (shapeSelection : Selection) (blb : BlockerLockBudget)
    (lockDistribution : list (string * Z)) (rnd rnd' : list Z) (placed : Placed) :
  fallback cfg shapeSelection blb lockDistribution rnd = Some (Some placed, rnd') ->
  selection_ok lib palette (colorShapes shapeSelection) ->
  layout_ok lib R C (pl_grid placed) (pl_shapes placed) (pl_solution placed) /\
  (forall k, In k (map fst (pl_shapes placed)) <->
             In k (map fst (colorShapes shapeSelection))).
Proof.
  unfold fallback. intros H Hsel. bind_as H g0 E0.
  bind_as H p Ep. destruct p as [[res|] rnd1]; [|discriminate].
  bind_as H e Ee. destruct e as [emptyCells rnd2].
  bind_as H g1 E1. bind_as H g2 E2. injection H as <- _.
  cbn [pl_grid pl_shapes pl_solution].
  destruct (emptyGrid_spec _ _ _ E0) as (Hg0 & _ & _ & Hun).
  destruct (_findValidPlacement_spec lib R C Hlib _ _ palette _ _ _ Ep Hg0 Hun Hsel)
    as [(Hg & Hgps & Hfill & Hsol) Hkeys].
  pose proof (_findEmptyCells_In _ _ _ _ Ee) as Hempty.
  assert (K1 : forall rc k, filled g1 k rc <-> filled (pr_grid res) k rc).
  { apply (markAll_keeps_filled _ _ _ _ E1 plain_Blocked).
    intros rc k Hrc Hf. apply slice_to_In in Hrc. unfold filled in Hf.
    rewrite (Hempty _ Hrc) in Hf. discriminate Hf. }
  destruct (markAll_spec _ _ _ _ E1) as (S1 & _ & _).
  destruct (writeLocks_keeps _ _ _ E2) as [S2 K2].
  { intros color cells rc k Hin Hrc. rewrite K1. intros Hf.
    destruct (_placeLocksinEmptyCells_In _ _ _ _ _ _ Hin Hrc)
      as [Hrc'|(? & ? & [] & _)].
    apply slice_from_In in Hrc'. unfold filled in Hf.
    rewrite (Hempty _ Hrc') in Hf. discriminate Hf. }
  split; [|exact Hkeys].
  split; [auto|]. split; [exact Hgps|]. split; [|exact Hsol].
  intros rc k. rewrite K2, K1. apply Hfill.
Qed.

Lemma _placeAndValidate_spec (shapeSelection : Selection) (blb : BlockerLockBudget)
    (lockDistribution : list (string * Z)) (strategy : Strategy)
    (rnd rnd' : list Z) (placed : Placed) :
  _placeAndValidate cfg shapeSelection blb lockDistribution strategy rnd
  = Some (Some placed, rnd') ->
  selection_ok lib palette (colorShapes shapeSelection) ->
  layout_ok lib R C (pl_grid placed) (pl_shapes placed) (pl_solution placed) /\
  (forall k, In k (map fst (pl_shapes placed)) <->
             In k (map fst (colorShapes shapeSelection))).
Proof.
  unfold _placeAndValidate. intros H Hsel. bind_as H r E.
  destruct r as [[p|] rnd1].
  - injection H as <- _. eapply tryWithBlockers_spec; eassumption.
  - eapply fallback_spec; eassumption.
Qed.

End Validating.

(** *** Counting the cells of a colour *)

Lemma range_NoDup (n : Z) : NoDup (range n).
Proof.
  unfold range. generalize (seq_NoDup (Z.to_nat n) 0). generalize (seq 0 (Z.to_nat n)).
  induction 1 as [|x l Hx _ IH]; simpl; constructor; [|exact IH].
  rewrite in_map_iff. intros (y & E & Hy). apply Nat2Z.inj in E. subst. contradiction.
Qed.

Lemma tally_filter {A : Type} (proj : A -> Z) (L : list A) (j : Z) :
  ExactFacts.tally (map proj L) j
  = Z.of_nat (List.length (filter (fun x => proj x =? j) L)).
Proof.
  unfold ExactFacts.tally. f_equal. induction L as [|x L IH]; simpl; [reflexivity|].
  destruct (Z.eq_dec (proj x) j) as [E|E], (Z.eqb_spec (proj x) j); try contradiction;
    simpl; congruence.
Qed.

(** The cells of [L] on one line of the grid are as many as the positions
    of the line that pass the test [P] which describes [L]. *)
Lemma count_line (L : list Cell) (P : Cell -> bool) (proj : Cell -> Z) (mk : Z -> Cell)
    (n j : Z) :
  NoDup L -> (forall rc, In rc L <-> P rc = true) ->
  (forall x, proj (mk x) = j) ->
  (forall x y, mk x = mk y -> x = y) ->
  (forall rc, proj rc = j -> P rc = true -> exists x, In x (range n) /\ rc = mk x) ->
  Z.of_nat (List.length (filter (fun x => P (mk x)) (range n)))
  = ExactFacts.tally (map proj L) j.
Proof.
  intros Hnd HL Hproj Hinj Hline. rewrite tally_filter. f_equal.
  rewrite <- (length_map mk). apply Permutation_length. apply NoDup_Permutation.
  - assert (H : NoDup (filter (fun x => P (mk x)) (range n)))
      by (apply NoDup_filter, range_NoDup).
    induction H as [|x l Hx _ IH]; simpl; constructor; [|exact IH].
    rewrite in_map_iff. intros (y & E & Hy). apply Hinj in E. subst. contradiction.
  - apply NoDup_filter. exact Hnd.
  - intros rc. rewrite in_map_iff, filter_In, HL. split.
    + intros (x & <- & Hx). apply filter_In in Hx. destruct Hx as [_ Hx].
      split; [exact Hx|]. apply Z.eqb_eq. apply Hproj.
    + intros [HP Hj]. apply Z.eqb_eq in Hj. destruct (Hline _ Hj HP) as (x & Hx & ->).
      exists x. split; [reflexivity|]. apply filter_In. auto.
Qed.

(** No cell of the grid is locked. *)
Definition lock_free (g : Grid) : bool :=
  forallb (forallb (fun s => match s with LockedFor _ => false | _ => true end)) g.

Lemma lock_free_spec (g : Grid) (rc : Cell) (k : string) :
  lock_free g = true -> SolverFacts.stateAt g rc <> Some (LockedFor k).
Proof.
  unfold lock_free, SolverFacts.stateAt. intros H.
  destruct (get g (fst rc)) as [row|] eqn:Er; [|discriminate].
  intros Hc. unfold get in Er, Hc.
  destruct (fst rc <? 0); [discriminate|]. destruct (snd rc <? 0); [discriminate|].
  apply nth_error_In in Er, Hc. rewrite forallb_forall in H. specialize (H _ Er).
  rewrite forallb_forall in H. specialize (H _ Hc). discriminate H.
Qed.

Lemma colored_filled (g : Grid) (k : string) (rc : Cell) :
  lock_free g = true ->
  GeneratorFacts.colored k (SolverFacts.stateAt g rc) = true <-> filled g k rc.
Proof.
  intros Hfree. pose proof (fun k' => lock_free_spec g rc k' Hfree) as Hl.
  unfold filled. destruct (SolverFacts.stateAt g rc) as [[| |k'|k']|]; simpl.
  - split; discriminate.
  - split; discriminate.
  - destruct (Hl k' eq_refl).
  - rewrite String.eqb_eq. split; [intros ->; reflexivity|intros [= ->]; reflexivity].
  - split; discriminate.
Qed.

Section Counts.

Variables (R C : nat) (g : Grid) (k : string) (L : list Cell).
Hypotheses (Hg : shaped R C g) (Hfree : lock_free g = true) (Hnd : NoDup L)
           (HL : forall rc, In rc L <-> filled g k rc).

Lemma rowCount_tally (r : Z) :
  GeneratorFacts.rowCount k g (Z.of_nat C) r = ExactFacts.tally (map fst L) r.
Proof.
  unfold GeneratorFacts.rowCount.
  apply (count_line L (fun rc => GeneratorFacts.colored k (SolverFacts.stateAt g rc))
           fst (fun c => (r, c)) (Z.of_nat C) r Hnd).
  - intros rc. rewrite HL. symmetry. apply colored_filled. exact Hfree.
  - reflexivity.
  - intros x y [= ->]. reflexivity.
  - intros [r' c'] Hr HP. cbn in Hr. subst r'. exists c'. split; [|reflexivity].
    apply colored_filled in HP; [|exact Hfree].
    destruct (stateAt_inside _ _ _ _ _ Hg HP) as [_ Hc]. apply range_In. exact Hc.
Qed.

Lemma colCount_tally (c : Z) :
  GeneratorFacts.colCount k g (Z.of_nat R) c = ExactFacts.tally (map snd L) c.
Proof.
  unfold GeneratorFacts.colCount.
  apply (count_line L (fun rc => GeneratorFacts.colored k (SolverFacts.stateAt g rc))
           snd (fun r => (r, c)) (Z.of_nat R) c Hnd).
  - intros rc. rewrite HL. symmetry. apply colored_filled. exact Hfree.
  - reflexivity.
  - intros x y [= ->]. reflexivity.
  - intros [r' c'] Hc HP. cbn in Hc. subst c'. exists r'. split; [|reflexivity].
    apply colored_filled in HP; [|exact Hfree].
    destruct (stateAt_inside _ _ _ _ _ Hg HP) as [Hr _]. apply range_In. exact Hr.
Qed.

End Counts.

Lemma get_None {A : Type} (l : list A) (j : Z) :
  ~ 0 <= j < Z.of_nat (List.length l) -> get l j = None.
Proof.
  intros H. unfold get. destruct (Z.ltb_spec j 0); [reflexivity|].
  apply nth_error_None. lia.
Qed.

Lemma shifted_zeros (n : nat) (ks : list Z) :
  ExactFacts.shifted 1 (repeat 0 n) (map (ExactFacts.tally ks) (range (Z.of_nat n))) ks.
Proof.
  intros j. rewrite SolverFacts.get_map.
  destruct (Z.lt_ge_cases j 0) as [Hneg|Hpos]; [|destruct (Z.lt_ge_cases j (Z.of_nat n))].
  - rewrite !get_None; [reflexivity| |]; [rewrite repeat_length; lia|].
    unfold range. rewrite length_map, length_seq. lia.
  - rewrite GeneratorFacts.get_range by lia.
    replace j with (Z.of_nat (Z.to_nat j)) at 2 by lia.
    rewrite ExactFacts.get_nth_error, ExactFacts.nth_error_zeros by lia.
    cbn [option_map]. f_equal. lia.
  - rewrite !get_None; [reflexivity| |]; [rewrite repeat_length; lia|].
    unfold range. rewrite length_map, length_seq. lia.
Qed.

Lemma exact_of_get (color : string) (counts : list Z) (reqs : list Req) :
  (forall n x, nth_error counts n = Some x ->
     exists q, nth_error reqs n = Some q /\ lookup color q = Some x) ->
  ExactFacts.exact color counts reqs.
Proof.
  unfold ExactFacts.exact. revert reqs.
  induction counts as [|x counts IH]; intros reqs H; simpl; [reflexivity|].
  destruct (H 0%nat x eq_refl) as (q & Hq & Hl).
  destruct reqs as [|q' reqs]; [discriminate|]. cbn in Hq. injection Hq as ->.
  rewrite Hl. cbn [strict_neq]. rewrite Z.eqb_refl. cbn [negb].
  apply IH. intros n y Hn. exact (H (S n) y Hn).
Qed.

(** *** Requirements of a colour outside the palette *)

Lemma countCell_absent (k : string) (cell : option CellState) (cs : list string) :
  forall q, lookup k q = None -> lookup k (countCell cs cell q) = None.
Proof.
  unfold countCell. induction cs as [|c cs IH]; intros q Hq; simpl; [exact Hq|].
  apply IH. destruct (countsFor c cell); [|exact Hq].
  rewrite GeneratorFacts.lookup_increment, Hq. destruct (String.eqb k c); reflexivity.
Qed.

Lemma zeroReq_absent (k : string) (cs : list string) :
  ~ In k cs -> lookup k (zeroReq cs) = None.
Proof.
  intros Hk. unfold zeroReq. rewrite GeneratorFacts.lookup_zero.
  destruct (existsb (String.eqb k) cs) eqn:E; [|reflexivity].
  apply GeneratorFacts.existsb_eqb_In in E. contradiction.
Qed.

Lemma rowRequirement_absent (k : string) (cs : list string) (g : Grid) (cols r : Z)
    (q : Req) :
  ~ In k cs -> rowRequirement cs g cols r = Some q -> lookup k q = None.
Proof.
  intros Hk H. unfold rowRequirement in H. bind_as H row E. injection H as <-.
  generalize (zeroReq_absent k cs Hk). generalize (zeroReq cs).
  induction (range cols) as [|c l IH]; intros q Hq; simpl; [exact Hq|].
  apply IH. apply countCell_absent. exact Hq.
Qed.

Lemma colRequirement_absent (k : string) (cs : list string) (g : Grid) (rows c : Z)
    (q : Req) :
  ~ In k cs -> colRequirement cs g rows c = Some q -> lookup k q = None.
Proof.
  intros Hk. unfold colRequirement.
  apply SolverFacts.foldM_inv with (Inv := fun q => lookup k q = None).
  - intros q0 r q1 _ Hq0 H. bind_as H row E. injection H as <-.
    apply countCell_absent. exact Hq0.
  - apply zeroReq_absent. exact Hk.
Qed.

Lemma mapM_In {A B : Type} (f : A -> option B) (l : list A) (ys : list B) (y : B) :
  mapM f l = Some ys -> In y ys -> exists x, In x l /\ f x = Some y.
Proof.
  revert ys. induction l as [|x l IH]; intros ys H Hy; simpl in H.
  - injection H as <-. destruct Hy.
  - bind_as H y0 E. bind_as H ys' E'. injection H as <-.
    destruct Hy as [<-|Hy]; [exists x; split; [left; reflexivity|exact E]|].
    destruct (IH _ eq_refl Hy) as (x' & Hx' & Hf). exists x'. split; [right; exact Hx'|exact Hf].
Qed.

Lemma _calculateDisplayRequirements_absent (cfg : Config) (g : Grid) (reqs : Requirements)
    (k : string) :
  ~ In k (colors cfg) -> _calculateDisplayRequirements cfg g = Some reqs ->
  hasReq k (req_rows reqs) (req_cols reqs) = false.
Proof.
  intros Hk H. unfold _calculateDisplayRequirements in H.
  bind_as H d Ed. destruct d as [rows cols]. bind_as H rs Er. bind_as H cs Ec.
  injection H as <-. cbn [req_rows req_cols]. unfold hasReq.
  apply orb_false_iff. split; apply not_true_is_false; intros E;
    apply existsb_exists in E; destruct E as (q & Hq & Hp); unfold positive_req in Hp.
  - destruct (mapM_In _ _ _ _ Er Hq) as (r & _ & Hr).
    rewrite (rowRequirement_absent _ _ _ _ _ _ Hk Hr) in Hp. discriminate Hp.
  - destruct (mapM_In _ _ _ _ Ec Hq) as (c & _ & Hc).
    rewrite (colRequirement_absent _ _ _ _ _ _ Hk Hc) in Hp. discriminate Hp.
Qed.

(** *** The scan for blocked cells *)

Lemma foldM_always {A S : Type} (f : S -> A -> option S) (l : list A) :
  (forall s x, In x l -> exists s', f s x = Some s') ->
  forall s, exists s', foldM f l s = Some s'.
Proof.
  induction l as [|x l IH]; intros H s; simpl; [eauto|].
  destruct (H s x (or_introl eq_refl)) as [s1 ->].
  apply IH. intros s2 y Hy. apply H. right. exact Hy.
Qed.

Lemma blockedCellsOf_total (R C : nat) (g : Grid) :
  shaped R C g -> exists bl, blockedCellsOf (Z.of_nat R) (Z.of_nat C) g = Some bl.
Proof.
  intros [HR _]. unfold blockedCellsOf. apply foldM_always. intros acc r Hr.
  apply foldM_always. intros acc1 c _. apply range_In in Hr.
  destruct (ExactFacts.get_length g r) as [row ->]; [lia|]. eauto.
Qed.

(** *** From a generated puzzle to the solver *)

(** A placement of the generator as the solver writes it. *)
Definition toPlacement (gp : GenPlacement) : Placement :=
  mkPlacement (gp_shapeId gp) (gp_rotationIndex gp) (gp_cells gp) (new_Set (gp_cells gp)).

(** [puzzle.shapes[k]] and [puzzle.solution[k]], empty when the colour is
    absent. *)
Definition placementsFor (k : string) (puzzle : Puzzle) : list GenPlacement :=
  match lookup k (shapes puzzle) with Some gps => gps | None => [] end.

Definition cellsFor (k : string) (puzzle : Puzzle) : list Cell :=
  match lookup k (solution puzzle) with Some cells => cells | None => [] end.

(** The shapes the generator has placed in green and in blue. *)
Definition shapeIdsOf (puzzle : Puzzle) : list string :=
  map gp_shapeId (placementsFor "green" puzzle ++ placementsFor "blue" puzzle).

(** [shapeCounts] holds the shapes of the puzzle, each with the number of
    times it was placed, and nothing else. *)
Definition feeds (shapeCounts : list (string * Z)) (puzzle : Puzzle) : bool :=
  forallb (fun id => existsb (String.eqb id) (shapeIdsOf puzzle)) (map fst shapeCounts) &&
  forallb (fun id => (count_occ string_dec (shapeInstancesOf shapeCounts) id
                      =? count_occ string_dec (shapeIdsOf puzzle) id)%nat)
          (shapeIdsOf puzzle).

(** The solver's inputs taken from the puzzle. *)
Definition storeOf (puzzle : Puzzle) : Store :=
  initStore (grid puzzle) (req_rows (requirements puzzle)) (req_cols (requirements puzzle)).

(** [runSolverWithShapeCounts(grid.length, grid[0].length, grid,
      requirements.rows, requirements.cols, shapeCounts)] *)
Definition solveGenerated (lib : ShapeLibrary) (puzzle : Puzzle)
    (shapeCounts : list (string * Z)) : option (Result * Store) :=
  d <- dims (grid puzzle) ;;
  let '(rows, cols) := d in
  runSolverWithShapeCounts lib rows cols shapeCounts (storeOf puzzle).

(** The green solutions of that call. *)
Definition greenSolutionsGenerated (lib : ShapeLibrary) (puzzle : Puzzle)
    (shapeCounts : list (string * Z)) : option (list ColorSolution) :=
  d <- dims (grid puzzle) ;;
  let '(rows, cols) := d in
  greenSolutionsWithShapeCounts lib rows cols shapeCounts (storeOf puzzle).

Lemma cells_toPlacement (gps : list GenPlacement) :
  flat_map cells (map toPlacement gps) = flat_map gp_cells gps.
Proof. induction gps as [|gp gps IH]; simpl; [reflexivity|]. rewrite IH. reflexivity. Qed.

Lemma shapeId_toPlacement (gps : list GenPlacement) :
  map shapeId (map toPlacement gps) = map gp_shapeId gps.
Proof. rewrite map_map. reflexivity. Qed.

Lemma feeds_spec (shapeCounts : list (string * Z)) (puzzle : Puzzle) :
  feeds shapeCounts puzzle = true ->
  (forall id, In id (map fst shapeCounts) -> In id (shapeIdsOf puzzle)) /\
  (forall id, count_occ string_dec (shapeInstancesOf shapeCounts) id
              = count_occ string_dec (shapeIdsOf puzzle) id).
Proof.
  unfold feeds. intros H. apply andb_true_iff in H. destruct H as [H1 H2].
  rewrite forallb_forall in H1, H2.
  assert (Hkeys : forall id, In id (map fst shapeCounts) -> In id (shapeIdsOf puzzle)).
  { intros id Hid. apply GeneratorFacts.existsb_eqb_In. exact (H1 _ Hid). }
  split; [exact Hkeys|]. intros id.
  destruct (in_dec string_dec id (shapeIdsOf puzzle)) as [Hin|Hout].
  - apply Nat.eqb_eq. exact (H2 _ Hin).
  - rewrite (proj1 (count_occ_not_In string_dec _ _) Hout).
    apply count_occ_not_In. intros Hi. apply Hout, Hkeys, shapeInstancesOf_In. exact Hi.
Qed.

Lemma layout_colour (lib : ShapeLibrary) (R C : nat) (puzzle : Puzzle) (k : string) :
  library_ok lib = true ->
  layout_ok lib R C (grid puzzle) (shapes puzzle) (solution puzzle) ->
  Forall (genuine lib (Z.of_nat R) (Z.of_nat C)) (placementsFor k puzzle) /\
  NoDup (flat_map gp_cells (placementsFor k puzzle)) /\
  (forall rc, In rc (flat_map gp_cells (placementsFor k puzzle)) <->
              filled (grid puzzle) k rc) /\
  cellsFor k puzzle = flat_map gp_cells (placementsFor k puzzle) /\
  (In k (map fst (shapes puzzle)) -> flat_map gp_cells (placementsFor k puzzle) <> []).
Proof.
  intros Hlib (Hg & Hgps & Hfill & Hsol). unfold placementsFor, cellsFor.
  rewrite Hsol. destruct (lookup k (shapes puzzle)) as [gps|] eqn:El; cbn [option_map].
  - destruct (Hgps _ _ El) as (Hne & Hall & Hnd).
    split; [exact Hall|]. split; [exact Hnd|]. split; [|split; [reflexivity|]].
    + intros rc. rewrite Hfill. split; [intros Hrc; eauto|].
      intros (gps' & E & Hrc). rewrite El in E. injection E as <-. exact Hrc.
    + intros _. destruct gps as [|gp gps]; [congruence|]. inversion_clear Hall as [|? ? Hgp _].
      destruct (genuine_NoDup _ _ _ _ Hlib Hgp) as [_ Hc]. cbn [flat_map].
      destruct (gp_cells gp); [congruence|discriminate].
  - split; [constructor|]. split; [constructor|]. split; [|split; [reflexivity|]].
    + intros rc. rewrite Hfill. split; [intros []|].
      intros (gps' & E & _). rewrite El in E. discriminate E.
    + intros Hk. apply lookup_None in El. contradiction.
Qed.

Lemma nth_error_range (m : Z) (n : nat) (x : Z) :
  nth_error (range m) n = Some x -> x = Z.of_nat n /\ Z.of_nat n < m.
Proof.
  unfold range. rewrite nth_error_map, nth_error_seq.
  destruct (Nat.ltb_spec n (Z.to_nat m)); [|discriminate].
  cbn. intros [= <-]. split; [reflexivity|lia].
Qed.

Section Certified.

Variables (lib : ShapeLibrary) (cfg : Config) (puzzle : Puzzle)
          (shapeCounts : list (string * Z)).

Let R := Z.to_nat (gridRows cfg).
Let C := Z.to_nat (gridCols cfg).

Hypotheses
  (Hlib : library_ok lib = true)
  (Hpal : NoDup (colors cfg))
  (Hlay : layout_ok lib R C (grid puzzle) (shapes puzzle) (solution puzzle))
  (Hkeys : forall k, In k (map fst (shapes puzzle)) <-> In k (colors cfg))
  (Hreq : _calculateDisplayRequirements cfg (grid puzzle) = Some (requirements puzzle))
  (Hfree : lock_free (grid puzzle) = true)
  (Hfeed : feeds shapeCounts puzzle = true)
  (Hcol : In "green" (colors cfg) \/ In "blue" (colors cfg)).

Lemma generated_requirements :
  dims (grid puzzle) = Some (Z.of_nat R, Z.of_nat C) /\
  List.length (req_rows (requirements puzzle)) = R /\
  List.length (req_cols (requirements puzzle)) = C /\
  forall k, In k (colors cfg) ->
    (forall n, (n < R)%nat ->
       exists q, nth_error (req_rows (requirements puzzle)) n = Some q /\
                 lookup k q
                 = Some (GeneratorFacts.rowCount k (grid puzzle) (Z.of_nat C) (Z.of_nat n))) /\
    (forall n, (n < C)%nat ->
       exists q, nth_error (req_cols (requirements puzzle)) n = Some q /\
                 lookup k q
                 = Some (GeneratorFacts.colCount k (grid puzzle) (Z.of_nat R) (Z.of_nat n))).
Proof.
  destruct (GeneratorFacts._calculateDisplayRequirements_spec _ _ _ Hpal Hreq)
    as (rows & cols & Hd & Hr & Hc & Hk).
  destruct (dims_shaped _ _ _ _ _ (proj1 Hlay) Hd) as (-> & -> & _).
  split; [exact Hd|]. split; [lia|]. split; [lia|].
  intros k Hin. destruct (Hk k Hin) as [Hrows Hcols]. split.
  - intros n Hn. destruct (Hrows (Z.of_nat n)) as (q & Hq & Hl); [lia|].
    rewrite ExactFacts.get_nth_error in Hq. eauto.
  - intros n Hn. destruct (Hcols (Z.of_nat n)) as (q & Hq & Hl); [lia|].
    rewrite ExactFacts.get_nth_error in Hq. eauto.
Qed.

(** The placements of a colour of the palette bring the counts to the
    requirements. *)
Lemma generated_due (k : string) :
  In k (colors cfg) ->
  ExactFacts.due k (ExactFacts.start (Z.of_nat R) (Z.of_nat C) (storeOf puzzle))
    (map toPlacement (placementsFor k puzzle)).
Proof.
  intros Hk. destruct generated_requirements as (_ & _ & _ & Hq).
  destruct (Hq k Hk) as [Hrows Hcols].
  destruct (layout_colour lib R C puzzle k Hlib Hlay) as (_ & Hnd & Hin & _).
  unfold ExactFacts.due, ExactFacts.start, storeOf.
  cbn [rowCounts colCounts rowReqs colReqs initStore]. rewrite !Nat2Z.id, cells_toPlacement.
  set (L := flat_map gp_cells (placementsFor k puzzle)) in *.
  exists (map (ExactFacts.tally (map fst L)) (range (Z.of_nat R))),
         (map (ExactFacts.tally (map snd L)) (range (Z.of_nat C))).
  split; [apply shifted_zeros|]. split; [apply shifted_zeros|]. split.
  - apply exact_of_get. intros n x Hn. rewrite nth_error_map in Hn.
    destruct (nth_error (range (Z.of_nat R)) n) as [r|] eqn:E; [|discriminate].
    injection Hn as <-. apply nth_error_range in E. destruct E as [-> Hlt].
    destruct (Hrows n) as (q & Hq1 & Hq2); [lia|]. exists q. split; [exact Hq1|].
    rewrite Hq2. f_equal.
    exact (rowCount_tally R C (grid puzzle) k L (proj1 Hlay) Hfree Hnd Hin (Z.of_nat n)).
  - apply exact_of_get. intros n x Hn. rewrite nth_error_map in Hn.
    destruct (nth_error (range (Z.of_nat C)) n) as [c|] eqn:E; [|discriminate].
    injection Hn as <-. apply nth_error_range in E. destruct E as [-> Hlt].
    destruct (Hcols n) as (q & Hq1 & Hq2); [lia|]. exists q. split; [exact Hq1|].
    rewrite Hq2. f_equal.
    exact (colCount_tally R C (grid puzzle) k L (proj1 Hlay) Hfree Hnd Hin (Z.of_nat n)).
Qed.

Lemma generated_in_grid (k : string) (p : Placement) :
  In p (map toPlacement (placementsFor k puzzle)) -> ExactFacts.in_grid R C p.
Proof.
  intros Hp. apply in_map_iff in Hp. destruct Hp as (gp & <- & Hgp).
  destruct (layout_colour lib R C puzzle k Hlib Hlay) as (_ & _ & Hin & _).
  unfold ExactFacts.in_grid. cbn [cells toPlacement]. apply Forall_forall. intros rc Hrc.
  eapply stateAt_inside; [exact (proj1 Hlay)|]. apply Hin. apply in_flat_map. eauto.
Qed.

(** What the solver needs to know of a colour, in the palette or not. *)
Lemma generated_colour (k : string) :
  (hasReq k (req_rows (requirements puzzle)) (req_cols (requirements puzzle)) = true ->
   ExactFacts.due k (ExactFacts.start (Z.of_nat R) (Z.of_nat C) (storeOf puzzle))
     (map toPlacement (placementsFor k puzzle))) /\
  (hasReq k (req_rows (requirements puzzle)) (req_cols (requirements puzzle)) = false ->
   flat_map cells (map toPlacement (placementsFor k puzzle)) = []).
Proof.
  destruct (in_dec string_dec k (colors cfg)) as [Hk|Hk].
  - split; [intros _; exact (generated_due k Hk)|]. intros Hno.
    apply (ExactFacts.no_requirement_no_cell k (Z.of_nat R) (Z.of_nat C) (storeOf puzzle) _
             (generated_due k Hk)); [|exact Hno].
    intros p Hp. rewrite !Nat2Z.id. exact (generated_in_grid k p Hp).
  - split.
    + intros Hyes. rewrite (_calculateDisplayRequirements_absent _ _ _ _ Hk Hreq) in Hyes.
      discriminate Hyes.
    + intros _. unfold placementsFor.
      destruct (lookup k (shapes puzzle)) as [gps|] eqn:El; [|reflexivity].
      apply lookup_Some_key, Hkeys in El. contradiction.
Qed.

Lemma existsb_has_false (B cells : list Cell) :
  (forall rc, In rc cells -> ~ In rc B) -> existsb (has (new_Set B)) cells = false.
Proof.
  intros H. apply not_true_is_false. intros E. apply existsb_exists in E.
  destruct E as (rc & Hrc & Hhas). apply has_In in Hhas. rewrite new_Set_In in Hhas.
  exact (H _ Hrc Hhas).
Qed.

(** The solver on a generated puzzle without locked cell. *)
Lemma generated_round_trip :
  exists res st' greenSolutions,
    solveGenerated lib puzzle shapeCounts = Some (res, st') /\
    greenSolutionsGenerated lib puzzle shapeCounts = Some greenSolutions /\
    ((List.length greenSolutions < 100)%nat ->
     exists sols,
       res = Success sols /\ sols <> [] /\
       ((List.length sols < 50)%nat ->
        exists s, In s sols /\
                  ExactFacts.same_cells (green s) (cellsFor "green" puzzle) /\
                  ExactFacts.same_cells (blue s) (cellsFor "blue" puzzle))).
Proof.
  destruct generated_requirements as (Hd & Hrr & Hcr & _).
  unfold solveGenerated, greenSolutionsGenerated. rewrite Hd.
  destruct (blockedCellsOf_total R C (grid puzzle) (proj1 Hlay)) as [bl Hbl].
  destruct (feeds_spec _ _ Hfeed) as [Hsub Hcount].
  destruct (layout_colour lib R C puzzle "green" Hlib Hlay)
    as (Gall & Gnd & Gin & Gsol & Gsome).
  destruct (layout_colour lib R C puzzle "blue" Hlib Hlay)
    as (Ball & Bnd & Bin & Bsol & Bsome).
  set (G := placementsFor "green" puzzle) in *.
  set (B := placementsFor "blue" puzzle) in *.
  assert (Hgen : forall gp, In gp (G ++ B) ->
                   genuine lib (Z.of_nat R) (Z.of_nat C) gp /\
                   exists k, forall rc, In rc (gp_cells gp) -> filled (grid puzzle) k rc).
  { intros gp Hgp. apply in_app_iff in Hgp. rewrite Forall_forall in Gall, Ball.
    destruct Hgp as [Hgp|Hgp].
    - split; [exact (Gall _ Hgp)|]. exists "green". intros rc Hrc. apply Gin.
      apply in_flat_map. eauto.
    - split; [exact (Ball _ Hgp)|]. exists "blue". intros rc Hrc. apply Bin.
      apply in_flat_map. eauto. }
  assert (Hids : forall id, In id (shapeIdsOf puzzle) -> exists e, lookup id lib = Some e).
  { intros id Hid. unfold shapeIdsOf in Hid. apply in_map_iff in Hid.
    destruct Hid as (gp & <- & Hgp).
    destruct (Hgen _ Hgp) as [(e & _ & _ & _ & _ & He & _) _]. eauto. }
  destruct (placementsByShapeOf_total lib (Z.of_nat R) (Z.of_nat C) (new_Set bl)
              (map fst shapeCounts)) with (acc := @nil (string * list Placement))
    as [pbs Hpbs].
  { intros id Hid. destruct (Hids _ (Hsub _ Hid)) as [e He].
    eapply generatePlacementsForShape_total; eassumption. }
  pose proof (placementsByShapeOf_lookup _ _ _ _ _ _ _ Hpbs) as Hlook.
  assert (Hnb : forall k rc, filled (grid puzzle) k rc -> ~ In rc bl).
  { intros k rc Hf Hin. apply (SolverFacts.blockedCellsOf_spec _ _ _ _ Hbl) in Hin.
    destruct Hin as (_ & _ & Hb). unfold filled in Hf. rewrite Hf in Hb. discriminate Hb. }
  assert (Hkey : forall id, In id (shapeIdsOf puzzle) -> In id (map fst shapeCounts)).
  { intros id Hid. apply shapeInstancesOf_In. apply (count_occ_In string_dec).
    rewrite Hcount. apply (count_occ_In string_dec). exact Hid. }
  destruct (ExactFacts.runSolverWithShapeCounts_certified lib (Z.of_nat R) (Z.of_nat C)
              shapeCounts (storeOf puzzle) bl pbs (map toPlacement G) (map toPlacement B))
    as (res & st' & gs & Hrun & Hgs & Hres).
  - lia.
  - lia.
  - cbn. rewrite Nat2Z.id. exact Hrr.
  - cbn. rewrite Nat2Z.id. exact Hcr.
  - exact Hbl.
  - exact Hpbs.
  - unfold ExactFacts.instances_ok. apply Forall_forall. intros id Hid.
    apply shapeInstancesOf_In in Hid.
    destruct (Hids _ (Hsub _ Hid)) as [e He].
    destruct (generatePlacementsForShape_total lib id e (Z.of_nat R) (Z.of_nat C)
                (new_Set bl) Hlib He) as [ps Hps].
    exists ps. split; [rewrite (proj1 (Hlook id) Hid); exact Hps|].
    eapply generatePlacementsForShape_in_grid; [exact Hlib|lia|lia|exact Hps].
  - intros id. rewrite <- map_app, shapeId_toPlacement, Hcount. unfold shapeIdsOf.
    apply Nat.le_refl.
  - intros p Hp. rewrite <- map_app in Hp. apply in_map_iff in Hp.
    destruct Hp as (gp & <- & Hgp).
    destruct (Hgen _ Hgp) as [(e & rot & b & row & col & He & Hrot & Hb & Hrow & Hcl & Hc)
                                (k & Hk)].
    assert (Hid : In (gp_shapeId gp) (map fst shapeCounts)).
    { apply Hkey. unfold shapeIdsOf. apply in_map. exact Hgp. }
    destruct (generatePlacementsForShape_total lib _ e (Z.of_nat R) (Z.of_nat C)
                (new_Set bl) Hlib He) as [ps Hps].
    exists ps. cbn [shapeId toPlacement].
    split; [rewrite (proj1 (Hlook _) Hid); exact Hps|].
    unfold generatePlacementsForShape in Hps. rewrite He in Hps.
    unfold toPlacement. rewrite Hc.
    replace (gp_rotationIndex gp) with (0 + gp_rotationIndex gp) at 1 by lia.
    eapply placementsOfRotations_In; try eassumption.
    apply existsb_has_false. intros rc Hrc. rewrite <- Hc in Hrc. exact (Hnb k rc (Hk _ Hrc)).
  - rewrite flat_map_app, !cells_toPlacement. apply NoDup_app; [exact Gnd|exact Bnd|].
    intros rc Hg Hb. apply Gin in Hg. apply Bin in Hb. unfold filled in Hg, Hb.
    rewrite Hg in Hb. discriminate Hb.
  - intros rc Hrc. rewrite flat_map_app, !cells_toPlacement in Hrc.
    apply in_app_iff in Hrc. destruct Hrc as [Hrc|Hrc].
    + apply (Hnb "green"). apply Gin. exact Hrc.
    + apply (Hnb "blue"). apply Bin. exact Hrc.
  - exact (proj1 (generated_colour "green")).
  - exact (proj2 (generated_colour "green")).
  - exact (proj1 (generated_colour "blue")).
  - exact (proj2 (generated_colour "blue")).
  - rewrite flat_map_app, !cells_toPlacement. intros E. apply app_eq_nil in E.
    destruct E as [Eg Eb]. destruct Hcol as [Hc|Hc]; apply Hkeys in Hc.
    + exact (Gsome Hc Eg).
    + exact (Bsome Hc Eb).
  - exists res, st', gs. split; [exact Hrun|]. split; [exact Hgs|].
    rewrite !cells_toPlacement in Hres. rewrite Gsol, Bsol. exact Hres.
Qed.

End Certified.

(** *** C1 *)

Lemma _attemptGeneration_layout (lib : ShapeLibrary) (cfg : Config) (rnd rnd' : list Z)
    (puzzle : Puzzle) :
  library_ok lib = true ->
  _attemptGeneration lib cfg rnd = Some (Generated puzzle, rnd') ->
  layout_ok lib (Z.to_nat (gridRows cfg)) (Z.to_nat (gridCols cfg))
    (grid puzzle) (shapes puzzle) (solution puzzle) /\
  (forall k, In k (map fst (shapes puzzle)) <-> In k (colors cfg)).
Proof.
  intros Hlib H. unfold _attemptGeneration in H.
  bind_as H s Es. destruct s as [sel rnd1].
  destruct (sel_success sel) eqn:Hs; cbn [negb] in H; [|discriminate].
  bind_as H l El. destruct l as [dist rnd2].
  destruct rnd2 as [|x rnd3]; [discriminate|].
  bind_as H p Ep. destruct p as [[placed|] rnd4]; [|discriminate].
  bind_as H reqs Er. injection H as <- _. cbn [grid shapes solution].
  unfold _selectShapes in Es.
  destruct (selectColors_ok lib _ _ (colors cfg) _ _ _ _ _ Es Hs (fun k Hk => Hk))
    as [Hsel Hk].
  { cbn [colorShapes]. split; [constructor|]. split; [constructor|intros k []]. }
  destruct (_placeAndValidate_spec lib cfg (colors cfg) Hlib _ _ _ _ _ _ _ Ep Hsel)
    as [Hlay Hkeys].
  split; [exact Hlay|]. intros k. rewrite Hkeys. split.
  - apply (proj2 (proj2 Hsel)).
  - intros Hc. apply Hk. right. exact Hc.
Qed.

(** C1 (as stated) fails: the requirements count the cells locked for a
    colour, and the solver can only reach them with shapes.  The generator
    run with locks yields a grid with one green square and five cells locked
    for green; every requirement is 3, and the solver, given the one square,
    finds no green configuration. *)
Lemma C1_locked_cells_break_round_trip :
  ~ (forall lib config attempts rnd puzzle shapeCounts,
        generate lib config attempts rnd = Some (Some puzzle) ->
        feeds shapeCounts puzzle = true ->
        exists sols st',
          solveGenerated lib puzzle shapeCounts = Some (Success sols, st') /\
          exists s, In s sols /\
                    ExactFacts.same_cells (green s) (cellsFor "green" puzzle) /\
                    ExactFacts.same_cells (blue s) (cellsFor "blue" puzzle)).
Proof.
  intros H.
  assert (Hg : generate SHAPE_LIBRARY Examples.locked_config 1 Examples.locked_draws
               = Some (Some Examples.locked_puzzle)) by (vm_compute; reflexivity).
  assert (Hf : feeds [("square-4", 1)] Examples.locked_puzzle = true)
    by (vm_compute; reflexivity).
  destruct (H _ _ _ _ _ _ Hg Hf) as (sols & st' & E & _).
  vm_compute in E. discriminate E.
Qed.

(** C1 (amended).  Round trip below the caps, without locks.  Take a library
    whose rotations are normalized and list no cell twice, a palette without
    repeated colour that has green or blue, a puzzle returned by [generate]
    whose grid has no locked cell, and a [shapeCounts] object that holds the
    shapes placed in green and in blue, each with the number of times it was
    placed.  Then [runSolverWithShapeCounts], called on the puzzle's grid and
    requirements, returns; if its green search ends with fewer than 100
    solutions, the result is a success with at least one solution; and if
    the success has fewer than 50 solutions, one of them has the green cells
    and the blue cells of the generator's own solution. *)
Theorem C1_round_trip_below_caps :
  forall lib config attempts rnd puzzle shapeCounts,
    generate lib config attempts rnd = Some (Some puzzle) ->
    library_ok lib = true ->
    NoDup (colors (configOf lib config)) ->
    In "green" (colors (configOf lib config)) \/
    In "blue" (colors (configOf lib config)) ->
    lock_free (grid puzzle) = true ->
    feeds shapeCounts puzzle = true ->
    exists res st' greenSolutions,
      solveGenerated lib puzzle shapeCounts = Some (res, st') /\
      greenSolutionsGenerated lib puzzle shapeCounts = Some greenSolutions /\
      ((List.length greenSolutions < 100)%nat ->
       exists sols,
         res = Success sols /\ sols <> [] /\
         ((List.length sols < 50)%nat ->
          exists s, In s sols /\
                    ExactFacts.same_cells (green s) (cellsFor "green" puzzle) /\
                    ExactFacts.same_cells (blue s) (cellsFor "blue" puzzle))).
Proof.
  intros lib config attempts rnd puzzle shapeCounts Hgen Hlib Hpal Hcol Hfree Hfeed.
  destruct (GeneratorFacts.generateLoop_attempt _ _ _ _ _ Hgen) as (rnd1 & rnd2 & Ha).
  destruct (_attemptGeneration_layout _ _ _ _ _ Hlib Ha) as [Hlay Hkeys].
  exact (generated_round_trip lib (configOf lib config) puzzle shapeCounts Hlib Hpal Hlay
           Hkeys (GeneratorFacts._attemptGeneration_requirements _ _ _ _ _ Ha)
           Hfree Hfeed Hcol).
Qed.

Lemma C1_round_trip_below_caps_witness :
  (generate SHAPE_LIBRARY Examples.default_config 1 Examples.default_draws
     = Some (Some Examples.default_puzzle) /\
   library_ok SHAPE_LIBRARY = true /\
   NoDup (colors (configOf SHAPE_LIBRARY Examples.default_config)) /\
   (In "green" (colors (configOf SHAPE_LIBRARY Examples.default_config)) \/
    In "blue" (colors (configOf SHAPE_LIBRARY Examples.default_config))) /\
   lock_free (grid Examples.default_puzzle) = true /\
   feeds [("square-4", 3); ("L-3", 1)] Examples.default_puzzle = true) /\
  exists res st' greenSolutions,
    solveGenerated SHAPE_LIBRARY Examples.default_puzzle [("square-4", 3); ("L-3", 1)]
    = Some (res, st') /\
    greenSolutionsGenerated SHAPE_LIBRARY Examples.default_puzzle
      [("square-4", 3); ("L-3", 1)] = Some greenSolutions /\
    ((List.length greenSolutions < 100)%nat ->
     exists sols,
       res = Success sols /\ sols <> [] /\
       ((List.length sols < 50)%nat ->
        exists s, In s sols /\
                  ExactFacts.same_cells (green s) (cellsFor "green" Examples.default_puzzle) /\
                  ExactFacts.same_cells (blue s) (cellsFor "blue" Examples.default_puzzle))).
Proof.
  assert (Hg : generate SHAPE_LIBRARY Examples.default_config 1 Examples.default_draws
               = Some (Some Examples.default_puzzle)) by (vm_compute; reflexivity).
  assert (Hlib : library_ok SHAPE_LIBRARY = true) by (vm_compute; reflexivity).
  assert (Hnd : NoDup (colors (configOf SHAPE_LIBRARY Examples.default_config))).
  { simpl. constructor; [simpl; intros [E|[]]; discriminate E|].
    constructor; [intros []|constructor]. }
  assert (Hcol : In "green" (colors (configOf SHAPE_LIBRARY Examples.default_config)) \/
                 In "blue" (colors (configOf SHAPE_LIBRARY Examples.default_config)))
    by (left; left; reflexivity).
  assert (Hfree : lock_free (grid Examples.default_puzzle) = true)
    by (vm_compute; reflexivity).
  assert (Hfeed : feeds [("square-4", 3); ("L-3", 1)] Examples.default_puzzle = true)
    by (vm_compute; reflexivity).
  split; [repeat split; assumption|].
  exact (C1_round_trip_below_caps SHAPE_LIBRARY Examples.default_config 1
           Examples.default_draws Examples.default_puzzle [("square-4", 3); ("L-3", 1)]
           Hg Hlib Hnd Hcol Hfree Hfeed).
Defined.

End RoundTrip.

(** ** Facts about counting and validating *)

Module ValidateFacts.
Import Shapes Solver Validate.

(** A cell of a grid of [R] rows and [C] columns. *)
Definition in_bounds (R C : Z) (rc : Cell) : Prop :=
  0 <= fst rc < R /\ 0 <= snd rc < C.

(** The counts of [calculateCounts], line by line. *)
Definition rowTallies (cells : list Cell) (R : Z) : list Z :=
  map (ExactFacts.tally (map fst cells)) (range R).

Definition colTallies (cells : list Cell) (C : Z) : list Z :=
  map (ExactFacts.tally (map snd cells)) (range C).

Lemma shifted_from_zeros (n : nat) (arr : list Z) (ks : list Z) :
  ExactFacts.shifted 1 (repeat 0 n) arr ks ->
  arr = map (ExactFacts.tally ks) (range (Z.of_nat n)).
Proof.
  intros H. apply ExactFacts.get_ext. intros j.
  rewrite H, (RoundTrip.shifted_zeros n ks j). reflexivity.
Qed.

Lemma counts_fold (cells : list Cell) :
  forall a0 b0 a b a' b' L,
    ExactFacts.shifted 1 a0 a (map fst L) -> ExactFacts.shifted 1 b0 b (map snd L) ->
    foldM (fun counts rc =>
             rows <- add_at 1 (fst counts) (fst rc) ;;
             cols <- add_at 1 (snd counts) (snd rc) ;;
             Some (rows, cols)) cells (a, b) = Some (a', b') ->
    ExactFacts.shifted 1 a0 a' (map fst (L ++ cells)) /\
    ExactFacts.shifted 1 b0 b' (map snd (L ++ cells)) /\
    Forall (in_bounds (Z.of_nat (List.length a)) (Z.of_nat (List.length b))) cells.
Proof.
  induction cells as [|rc cells IH]; intros a0 b0 a b a' b' L Ha Hb H;
    cbn [foldM fst snd] in H.
  - injection H as <- <-. rewrite app_nil_r. auto.
  - bind_as H s1 E1. bind_as E1 rows Er. bind_as E1 cols Ec. injection E1 as <-.
    destruct (SolverFacts.add_at_spec _ _ _ _ Er) as [Hr Lr].
    destruct (SolverFacts.add_at_spec _ _ _ _ Ec) as [Hc Lc].
    destruct (IH a0 b0 rows cols a' b' (L ++ [rc])) as (Sa & Sb & Hall).
    + rewrite map_app. eapply ExactFacts.shifted_step; eassumption.
    + rewrite map_app. eapply ExactFacts.shifted_step; eassumption.
    + exact H.
    + rewrite <- app_assoc in Sa, Sb. split; [exact Sa|]. split; [exact Sb|].
      constructor; [split; assumption|]. rewrite Lr, Lc in Hall. exact Hall.
Qed.

Lemma counts_fold_total (cells : list Cell) :
  forall a b,
    Forall (in_bounds (Z.of_nat (List.length a)) (Z.of_nat (List.length b))) cells ->
    exists a' b',
      foldM (fun counts rc =>
               rows <- add_at 1 (fst counts) (fst rc) ;;
               cols <- add_at 1 (snd counts) (snd rc) ;;
               Some (rows, cols)) cells (a, b) = Some (a', b').
Proof.
  induction cells as [|rc cells IH]; intros a b H; cbn [foldM fst snd]; [eauto|].
  inversion_clear H as [|? ? [Hr Hc] Hall].
  destruct (ExactFacts.add_at_total 1 _ _ Hr) as [rows Er].
  destruct (ExactFacts.add_at_total 1 _ _ Hc) as [cols Ec].
  rewrite Er, Ec. apply IH.
  rewrite (proj2 (SolverFacts.add_at_spec _ _ _ _ Er)),
          (proj2 (SolverFacts.add_at_spec _ _ _ _ Ec)). exact Hall.
Qed.

Lemma calculateCounts_spec (cells : list Cell) (R C : Z) (counts : list Z * list Z) :
  calculateCounts cells R C = Some counts <->
  0 <= R /\ 0 <= C /\ Forall (in_bounds R C) cells /\
  counts = (rowTallies cells R, colTallies cells C).
Proof.
  unfold calculateCounts, Array_fill0. split.
  - destruct (Z.ltb_spec R 0) as [|HR]; [discriminate|].
    destruct (Z.ltb_spec C 0) as [|HC]; [discriminate|].
    destruct counts as [a' b']. intros H.
    destruct (counts_fold cells _ _ _ _ _ _ [] (ExactFacts.shifted_refl 1 _)
                (ExactFacts.shifted_refl 1 _) H) as (Sa & Sb & Hall).
    rewrite !repeat_length, !Z2Nat.id in Hall by lia.
    split; [assumption|]. split; [assumption|]. split; [exact Hall|].
    cbn [app] in Sa, Sb. apply shifted_from_zeros in Sa, Sb.
    rewrite Z2Nat.id in Sa, Sb by lia. unfold rowTallies, colTallies. congruence.
  - intros (HR & HC & Hall & ->).
    destruct (Z.ltb_spec R 0); [lia|]. destruct (Z.ltb_spec C 0); [lia|].
    destruct (counts_fold_total cells (repeat 0 (Z.to_nat R)) (repeat 0 (Z.to_nat C)))
      as (a' & b' & E).
    { rewrite !repeat_length, !Z2Nat.id by lia. exact Hall. }
    rewrite E. f_equal.
    destruct (counts_fold cells _ _ _ _ _ _ [] (ExactFacts.shifted_refl 1 _)
                (ExactFacts.shifted_refl 1 _) E) as (Sa & Sb & _).
    cbn [app] in Sa, Sb. apply shifted_from_zeros in Sa, Sb.
    rewrite Z2Nat.id in Sa, Sb by lia. unfold rowTallies, colTallies. congruence.
Qed.

Lemma get_rowTallies (cells : list Cell) (R r : Z) :
  0 <= r < R -> get (rowTallies cells R) r = Some (ExactFacts.tally (map fst cells) r).
Proof.
  intros H. unfold rowTallies. rewrite SolverFacts.get_map, GeneratorFacts.get_range by lia.
  reflexivity.
Qed.

Lemma get_colTallies (cells : list Cell) (C c : Z) :
  0 <= c < C -> get (colTallies cells C) c = Some (ExactFacts.tally (map snd cells) c).
Proof.
  intros H. unfold colTallies. rewrite SolverFacts.get_map, GeneratorFacts.get_range by lia.
  reflexivity.
Qed.

Lemma differs_false (x : Z) (b : option Z) : differs (Some x) b = false <-> b = Some x.
Proof.
  destruct b as [y|]; simpl; [|split; discriminate].
  rewrite negb_false_iff, Z.eqb_eq. split; [intros ->; reflexivity|intros [= ->]; reflexivity].
Qed.

(** *** The loops of [validateSolution] *)

(** A loop of [validateSolution] over the lines [l]. *)
Definition checkOver (label color : string) (counts : list Z) (reqs : list Req)
    (l : list Z) (errors : list string) : option (list string) :=
  foldM (fun errors i =>
           q <- get reqs i ;;
           if differs (get counts i) (lookup color q)
           then Some (errors ++ [(label ++ " " ++ show i ++ " " ++ color ++ ": expected "
                                    ++ show_opt (lookup color q) ++ ", got "
                                    ++ show_opt (get counts i))%string])
           else Some errors)
        l errors.

Lemma checkOver_grows (label color : string) (counts : list Z) (reqs : list Req)
    (l : list Z) :
  forall errors errors',
    checkOver label color counts reqs l errors = Some errors' ->
    exists extra, errors' = errors ++ extra.
Proof.
  unfold checkOver. induction l as [|i l IH]; intros errors errors' H; simpl in H.
  - injection H as <-. exists []. rewrite app_nil_r. reflexivity.
  - bind_as H e1 E1. bind_as E1 q Eq. destruct (differs _ _); injection E1 as <-.
    + destruct (IH _ _ H) as [extra ->]. rewrite <- app_assoc. eauto.
    + exact (IH _ _ H).
Qed.

Lemma checkOver_clean (label color : string) (counts : list Z) (reqs : list Req)
    (l : list Z) :
  forall errors,
    checkOver label color counts reqs l errors = Some errors <->
    forall i, In i l ->
      exists q, get reqs i = Some q /\ differs (get counts i) (lookup color q) = false.
Proof.
  induction l as [|i l IH]; intros errors.
  - split; [intros _ j []|reflexivity].
  - split.
    + intros H. unfold checkOver in H. cbn [foldM] in H.
      bind_as H e1 E1. bind_as E1 q Eq.
      destruct (differs (get counts i) (lookup color q)) eqn:Ed; injection E1 as <-.
      * exfalso. destruct (checkOver_grows _ _ _ _ _ _ _ H) as [extra Hg].
        apply (f_equal (@List.length _)) in Hg.
        rewrite !length_app in Hg. simpl in Hg. lia.
      * intros j [<-|Hj]; [exists q; auto|]. exact (proj1 (IH errors) H j Hj).
    + intros H. destruct (H i (or_introl eq_refl)) as (q & Hq & Hd).
      unfold checkOver. cbn [foldM]. rewrite Hq, Hd.
      apply IH. intros j Hj. apply H. right. exact Hj.
Qed.

Lemma checkLines_grows (label color : string) (n : Z) (counts : list Z) (reqs : list Req)
    (errors errors' : list string) :
  checkLines label color n counts reqs errors = Some errors' ->
  exists extra, errors' = errors ++ extra.
Proof. apply (checkOver_grows label color counts reqs (range n)). Qed.

(** A loop adds no error exactly when every line has its requirement and
    meets it. *)
Lemma checkLines_clean (label color : string) (n : Z) (counts : list Z) (reqs : list Req)
    (errors : list string) :
  checkLines label color n counts reqs errors = Some errors <->
  forall i, 0 <= i < n ->
    exists q, get reqs i = Some q /\ differs (get counts i) (lookup color q) = false.
Proof.
  change (checkLines label color n counts reqs errors)
    with (checkOver label color counts reqs (range n) errors).
  rewrite checkOver_clean.
  split; intros H i Hi; apply H; apply range_In; exact Hi.
Qed.

Lemma overlap_fold (blueSet : list Cell) (greenSet : list Cell) :
  forall errors,
    exists extra,
      fold_left (fun errors cell =>
                   if has blueSet cell then errors ++ [("Overlap at " ++ key cell)%string]
                   else errors) greenSet errors = errors ++ extra /\
      (extra = [] <-> forall cell, In cell greenSet -> has blueSet cell = false).
Proof.
  induction greenSet as [|x l IH]; intros errors; cbn [fold_left].
  - exists []. rewrite app_nil_r. split; [reflexivity|]. split; [intros _ c []|reflexivity].
  - destruct (has blueSet x) eqn:E.
    + destruct (IH (errors ++ [("Overlap at " ++ key x)%string])) as (extra & -> & _).
      exists (("Overlap at " ++ key x)%string :: extra). rewrite <- app_assoc.
      split; [reflexivity|]. split; [discriminate|].
      intros H. specialize (H x (or_introl eq_refl)). congruence.
    + destruct (IH errors) as (extra & -> & Hx). exists extra. split; [reflexivity|].
      rewrite Hx. split.
      * intros H c [<-|Hc]; [exact E|exact (H c Hc)].
      * intros H c Hc. apply H. right. exact Hc.
Qed.

(** A colour's cells meet the requirements of every row and column. *)
Definition meets (color : string) (cells : list Cell) (R C : Z) (rr cr : list Req) : Prop :=
  (forall r, 0 <= r < R ->
     exists q, get rr r = Some q /\
               lookup color q = Some (ExactFacts.tally (map fst cells) r)) /\
  (forall c, 0 <= c < C ->
     exists q, get cr c = Some q /\
               lookup color q = Some (ExactFacts.tally (map snd cells) c)).

Lemma rows_clean (label color : string) (cells : list Cell) (R : Z) (reqs : list Req)
    (errors : list string) :
  checkLines label color R (rowTallies cells R) reqs errors = Some errors <->
  forall r, 0 <= r < R ->
    exists q, get reqs r = Some q /\
              lookup color q = Some (ExactFacts.tally (map fst cells) r).
Proof.
  rewrite checkLines_clean. split; intros H r Hr; destruct (H r Hr) as (q & Hq & Hd);
    exists q; (split; [exact Hq|]).
  - rewrite get_rowTallies in Hd by exact Hr. apply differs_false. exact Hd.
  - rewrite get_rowTallies by exact Hr. apply differs_false. exact Hd.
Qed.

Lemma cols_clean (label color : string) (cells : list Cell) (C : Z) (reqs : list Req)
    (errors : list string) :
  checkLines label color C (colTallies cells C) reqs errors = Some errors <->
  forall c, 0 <= c < C ->
    exists q, get reqs c = Some q /\
              lookup color q = Some (ExactFacts.tally (map snd cells) c).
Proof.
  rewrite checkLines_clean. split; intros H c Hc; destruct (H c Hc) as (q & Hq & Hd);
    exists q; (split; [exact Hq|]).
  - rewrite get_colTallies in Hd by exact Hc. apply differs_false. exact Hd.
  - rewrite get_colTallies by exact Hc. apply differs_false. exact Hd.
Qed.

(** [validateSolution] answers [valid: true], with no error, exactly for
    the solutions whose cells lie in the grid, whose green and blue cells
    are as many as required in every row and column, and none of whose
    cells is both green and blue. *)
Lemma validateSolution_spec :
  forall (s : Solution) (R C : Z) (rr cr : list Req),
    validateSolution s R C rr cr = Some (true, []) <->
    0 <= R /\ 0 <= C /\
    Forall (in_bounds R C) (green s) /\ Forall (in_bounds R C) (blue s) /\
    meets "green" (green s) R C rr cr /\ meets "blue" (blue s) R C rr cr /\
    (forall rc, In rc (green s) -> ~ In rc (blue s)).
Proof.
  intros s R C rr cr. unfold validateSolution, meets. split.
  - intros H. bind_as H gc Eg. bind_as H bc Eb.
    apply calculateCounts_spec in Eg, Eb.
    destruct Eg as (HR & HC & Hgin & ->), Eb as (_ & _ & Hbin & ->). cbn [fst snd] in H.
    bind_as H e1 E1. bind_as H e2 E2. bind_as H e3 E3. bind_as H e4 E4.
    destruct (overlap_fold (new_Set (blue s)) (new_Set (green s)) e4) as (x5 & E5 & H5).
    rewrite E5 in H. injection H as _ H.
    apply app_eq_nil in H. destruct H as [-> ->].
    destruct (checkLines_grows _ _ _ _ _ _ _ E4) as [x4 H4]. symmetry in H4.
    apply app_eq_nil in H4. destruct H4 as [-> ->].
    destruct (checkLines_grows _ _ _ _ _ _ _ E3) as [x3 H3]. symmetry in H3.
    apply app_eq_nil in H3. destruct H3 as [-> ->].
    destruct (checkLines_grows _ _ _ _ _ _ _ E2) as [x2 H2]. symmetry in H2.
    apply app_eq_nil in H2. destruct H2 as [-> ->].
    pose proof (proj1 (rows_clean _ _ _ _ _ _) E1) as G1.
    pose proof (proj1 (cols_clean _ _ _ _ _ _) E2) as G2.
    pose proof (proj1 (rows_clean _ _ _ _ _ _) E3) as B1.
    pose proof (proj1 (cols_clean _ _ _ _ _ _) E4) as B2.
    repeat split; try assumption.
    intros rc Hg Hb. apply (proj2 (new_Set_In _ _)) in Hg.
    pose proof (proj1 H5 eq_refl rc Hg) as Hh.
    assert (Hin : has (new_Set (blue s)) rc = true).
    { apply has_In. apply (proj2 (new_Set_In _ _)). exact Hb. }
    congruence.
  - intros (HR & HC & Hgin & Hbin & [G1 G2] & [B1 B2] & Hdisj).
    rewrite (proj2 (calculateCounts_spec (green s) R C _)
               (conj HR (conj HC (conj Hgin eq_refl)))).
    rewrite (proj2 (calculateCounts_spec (blue s) R C _)
               (conj HR (conj HC (conj Hbin eq_refl)))).
    cbn [fst snd].
    rewrite (proj2 (rows_clean "Row" "green" (green s) R rr []) G1).
    rewrite (proj2 (cols_clean "Col" "green" (green s) C cr []) G2).
    rewrite (proj2 (rows_clean "Row" "blue" (blue s) R rr []) B1).
    rewrite (proj2 (cols_clean "Col" "blue" (blue s) C cr []) B2).
    destruct (overlap_fold (new_Set (blue s)) (new_Set (green s)) []) as (x5 & -> & H5).
    rewrite (proj2 H5); [reflexivity|].
    intros rc Hg. apply (proj1 (new_Set_In _ _)) in Hg. apply not_true_is_false. intros Hh.
    apply has_In in Hh. apply (proj1 (new_Set_In _ _)) in Hh. exact (Hdisj _ Hg Hh).
Qed.



End ValidateFacts.

(** ** Soundness of the searches *)

Module SoundFacts.
Import Shapes Solver Validate ValidateFacts.

Lemma fold_set_add_fresh (l : list Cell) :
  forall s, NoDup l -> (forall x, In x l -> ~ In x s) -> fold_left set_add l s = s ++ l.
Proof.
  induction l as [|x l IH]; intros s Hnd Hs; simpl; [symmetry; apply app_nil_r|].
  inversion_clear Hnd as [|? ? Hx Hl].
  assert (E : set_add s x = s ++ [x]).
  { unfold set_add. rewrite (proj2 (has_false s x)); [reflexivity|].
    apply Hs. left. reflexivity. }
  rewrite E, IH, <- app_assoc; [reflexivity|exact Hl|].
  intros y Hy Hin. apply in_app_iff in Hin. destruct Hin as [Hin|[<-|[]]].
  - exact (Hs y (or_intror Hy) Hin).
  - contradiction.
Qed.

Lemma shifted_trans (a b c : list Z) (k1 k2 : list Z) :
  ExactFacts.shifted 1 a b k1 -> ExactFacts.shifted 1 b c k2 ->
  ExactFacts.shifted 1 a c (k1 ++ k2).
Proof.
  intros H1 H2 j. rewrite H2, H1. destruct (get a j); [|reflexivity].
  cbn [option_map]. f_equal. rewrite ExactFacts.tally_app. lia.
Qed.

Section Node.

Variables (color : string) (F : list Cell) (P : Placement -> Prop).

(** The solution [s] is the node [st] with the placements [new] added:
    they are placements the search may use, they lie in the grid on cells of
    their own, away from the cells in use and the forbidden ones, and bring
    the counts to the requirements. *)
Definition grown (st : Store) (new : list Placement) (s : ColorSolution) : Prop :=
  Forall P new /\
  sol_placements s = currentPlacements st ++ new /\
  sol_cells s = usedCells st ++ flat_map cells new /\
  NoDup (flat_map cells new) /\
  (forall rc, In rc (flat_map cells new) ->
     ~ In rc (usedCells st) /\ ~ In rc F /\ ExactFacts.inside st rc) /\
  ExactFacts.due color st new.

Lemma due_here (st : Store) :
  ExactFacts.matchAt color st = Some true -> ExactFacts.due color st [].
Proof.
  unfold ExactFacts.matchAt, countsMatch. intros H.
  bind_as H r Er. destruct r; [discriminate|]. bind_as H c Ec. destruct c; [discriminate|].
  exists (rowCounts st), (colCounts st). cbn.
  split; [apply ExactFacts.shifted_refl|]. split; [apply ExactFacts.shifted_refl|].
  split; [exact Er|exact Ec].
Qed.

Lemma grown_here (track : bool) (st : Store) :
  ExactFacts.matchAt color st = Some true -> grown st [] (snapshot_instances track st).
Proof.
  intros H. unfold grown. cbn. rewrite !app_nil_r.
  split; [constructor|]. split; [reflexivity|]. split; [reflexivity|]. split; [constructor|].
  split; [intros rc []|]. apply due_here. exact H.
Qed.

Lemma grown_placed (track : bool) (i : Z) (p : Placement) (st st1 : Store)
    (new : list Placement) (s : ColorSolution) :
  place_instance track i p st = Some st1 ->
  P p -> NoDup (cells p) ->
  (forall rc, In rc (cells p) -> ~ In rc (usedCells st) /\ ~ In rc F) ->
  grown st1 new s -> grown st (p :: new) s.
Proof.
  intros Hpl HP Hnd Hfresh (HPn & Hp & Hc & Hndn & Hnew & gr & gc & Sr & Sc & Er & Ec).
  destruct (ExactFacts.place_instance_spec _ _ _ _ _ Hpl)
    as (Pr & Pc & Pu & Pcur & _ & _ & Prr & Pcr & _ & Pin).
  rewrite (fold_set_add_fresh _ _ Hnd (fun x Hx => proj1 (Hfresh x Hx))) in Pu.
  assert (Hin : forall rc, ExactFacts.inside st1 rc -> ExactFacts.inside st rc).
  { unfold ExactFacts.inside. intros rc.
    rewrite (ExactFacts.shifted_length _ _ _ _ Pr), (ExactFacts.shifted_length _ _ _ _ Pc).
    auto. }
  unfold grown. cbn [flat_map].
  split; [constructor; assumption|].
  split; [rewrite Hp, Pcur, <- app_assoc; reflexivity|].
  split; [rewrite Hc, Pu, <- app_assoc; reflexivity|].
  split; [|split].
  - apply NoDup_app; [exact Hnd|exact Hndn|].
    intros rc H1 H2. destruct (Hnew rc H2) as (Hu & _). apply Hu. rewrite Pu.
    apply in_app_iff. right. exact H1.
  - intros rc Hrc. apply in_app_iff in Hrc. destruct Hrc as [Hrc|Hrc].
    + destruct (Hfresh _ Hrc) as [H1 H2]. split; [exact H1|]. split; [exact H2|].
      rewrite Forall_forall in Pin. exact (Pin _ Hrc).
    + destruct (Hnew rc Hrc) as (Hu & Hf & Hi). split; [|split; [exact Hf|exact (Hin _ Hi)]].
      intros H. apply Hu. rewrite Pu. apply in_app_iff. left. exact H.
  - exists gr, gc. rewrite Prr in Er. rewrite Pcr in Ec. cbn [flat_map]. rewrite !map_app.
    split; [eapply shifted_trans; eassumption|].
    split; [eapply shifted_trans; eassumption|]. split; assumption.
Qed.

Lemma grown_same (v : list ColorSolution) (st : Store) (new : list Placement)
    (s : ColorSolution) :
  grown (with_solutions v st) new s <-> grown st new s.
Proof. reflexivity. Qed.

(** At the start of a search the counts to reach are the requirements. *)
Lemma due_start (gridRows gridCols : Z) (st : Store) (new : list Placement) :
  0 <= gridRows -> 0 <= gridCols ->
  ExactFacts.due color (ExactFacts.start gridRows gridCols st) new ->
  meets color (flat_map cells new) gridRows gridCols (rowReqs st) (colReqs st).
Proof.
  intros HR HC (gr & gc & Sr & Sc & Er & Ec). cbn in Sr, Sc, Er, Ec.
  apply shifted_from_zeros in Sr, Sc. rewrite Z2Nat.id in Sr, Sc by lia.
  split.
  - intros r Hr.
    destruct (ExactFacts.exact_get _ _ _ Er (Z.to_nat r)
                (ExactFacts.tally (map fst (flat_map cells new)) r)) as (q & Hq & Hl).
    { rewrite <- ExactFacts.get_nth_error, Z2Nat.id, Sr by lia.
      apply get_rowTallies. exact Hr. }
    exists q. split; [|exact Hl].
    rewrite <- ExactFacts.get_nth_error, Z2Nat.id in Hq by lia. exact Hq.
  - intros c Hc.
    destruct (ExactFacts.exact_get _ _ _ Ec (Z.to_nat c)
                (ExactFacts.tally (map snd (flat_map cells new)) c)) as (q & Hq & Hl).
    { rewrite <- ExactFacts.get_nth_error, Z2Nat.id, Sc by lia.
      apply get_colTallies. exact Hc. }
    exists q. split; [|exact Hl].
    rewrite <- ExactFacts.get_nth_error, Z2Nat.id in Hq by lia. exact Hq.
Qed.

(** What a per-colour solution is made of: placements the search may use,
    on cells of their own inside the grid and off the forbidden cells. *)
Definition made (gridRows gridCols : Z) (placements : list Placement) (cs : list Cell)
  : Prop :=
  Forall P placements /\
  cs = flat_map cells placements /\
  NoDup cs /\
  Forall (in_bounds gridRows gridCols) cs /\
  (forall rc, In rc cs -> ~ In rc F).

(** A per-colour solution: its counts are the required ones in every row
    and column. *)
Definition fine (gridRows gridCols : Z) (rr cr : list Req)
    (placements : list Placement) (cs : list Cell) : Prop :=
  made gridRows gridCols placements cs /\ meets color cs gridRows gridCols rr cr.

Lemma grown_start (gridRows gridCols : Z) (st : Store) (new : list Placement)
    (s : ColorSolution) :
  0 <= gridRows -> 0 <= gridCols ->
  grown (ExactFacts.start gridRows gridCols st) new s ->
  sol_placements s = new /\
  fine gridRows gridCols (rowReqs st) (colReqs st) (sol_placements s) (sol_cells s).
Proof.
  intros HR HC (HP & Hp & Hc & Hnd & Hnew & Hdue). cbn in Hp, Hc. subst new.
  split; [reflexivity|]. unfold fine, made. rewrite Hc.
  split; [|apply due_start; assumption].
  split; [exact HP|]. split; [reflexivity|]. split; [exact Hnd|]. split.
  - apply Forall_forall. intros rc Hrc. destruct (Hnew rc Hrc) as (_ & _ & Hi).
    unfold ExactFacts.inside in Hi. cbn in Hi. rewrite !repeat_length in Hi.
    unfold in_bounds. lia.
  - intros rc Hrc. exact (proj1 (proj2 (Hnew rc Hrc))).
Qed.

(** *** The free search *)

(** Every solution the step [k] adds grows from the node it started at, and
    the step leaves the node as it was. *)
Definition good (k : Store -> option Store) : Prop :=
  forall st st', usedIndices st = [] -> k st = Some st' ->
    exists found,
      st' = with_solutions (solutions st ++ found) st /\
      Forall (fun s => exists new, grown st new s) found.

Lemma backtrack_head_good (rest : Store -> option Store) :
  good rest -> good (backtrack_head color rest).
Proof.
  intros Hrest st st' Hidx H. unfold backtrack_head in H.
  bind_as H m Em. destruct m; cbn [andb] in H.
  - assert (Hsnap : exists new, grown st new (snapshot st)).
    { exists []. exact (grown_here false st Em). }
    set (st1 := with_solutions (solutions st ++ [snapshot st]) st) in *.
    assert (Hdone : Some st1 = Some st' ->
              exists found, st' = with_solutions (solutions st ++ found) st /\
                            Forall (fun s => exists new, grown st new s) found).
    { intros [= <-]. exists [snapshot st]. split; [reflexivity|]. constructor; [exact Hsnap|constructor]. }
    destruct (100 <=? _); [exact (Hdone H)|].
    bind_as H e Ee. destruct e; [exact (Hdone H)|].
    destruct (Hrest st1 st' Hidx H) as (found & -> & Hf).
    exists (snapshot st :: found). split.
    + subst st1. cbn. rewrite <- app_assoc. reflexivity.
    + constructor; [exact Hsnap|exact Hf].
  - assert (Hdone : Some st = Some st' ->
              exists found, st' = with_solutions (solutions st ++ found) st /\
                            Forall (fun s => exists new, grown st new s) found).
    { intros [= <-]. exists []. split; [|constructor].
      rewrite app_nil_r. symmetry. apply ExactFacts.with_solutions_same. }
    bind_as H e Ee. destruct e; [exact (Hdone H)|].
    exact (Hrest st st' Hidx H).
Qed.

Lemma backtrack_loop_good (ps : list Placement) :
  Forall (fun p => P p /\ NoDup (cells p) /\ forall rc, In rc (cells p) -> ~ In rc F) ps ->
  good (backtrack_loop color ps).
Proof.
  induction ps as [|p ps IH]; intros Hps st st' Hidx H.
  - injection H as <-. exists []. split; [|constructor].
    rewrite app_nil_r. symmetry. apply ExactFacts.with_solutions_same.
  - inversion_clear Hps as [|? ? (HP & Hnd & HF) Hps'].
    specialize (IH Hps'). cbn [backtrack_loop] in H.
    destruct (overlaps (usedCells st) p) eqn:Eo; [exact (IH st st' Hidx H)|].
    pose proof (proj1 (SolverFacts.overlaps_false _ _) Eo) as Hfresh.
    bind_as H st1 E1. bind_as H st2 E2. bind_as H st3 E3.
    change (place p st) with (place_instance false 0 p st) in E1.
    change (unplace p st2) with (unplace_instance false 0 p st2) in E3.
    destruct (ExactFacts.place_instance_spec _ _ _ _ _ E1)
      as (_ & _ & _ & _ & Hi1 & _ & _ & _ & Hs1 & _).
    destruct (backtrack_head_good _ IH st1 st2 (eq_trans Hi1 Hidx) E2) as (found1 & -> & Hf1).
    rewrite (ExactFacts.unplace_instance_place false 0 p _ st st1 E1 Hfresh) in E3
      by (rewrite Hidx; intros []).
    injection E3 as <-. rewrite Hs1 in H.
    assert (Hf1' : Forall (fun s => exists new, grown st new s) found1).
    { eapply Forall_impl; [|exact Hf1]. intros s (new & Hg). exists (p :: new).
      eapply grown_placed; try eassumption.
      intros rc Hrc. split; [exact (Hfresh rc Hrc)|exact (HF rc Hrc)]. }
    destruct (100 <=? _).
    + injection H as <-. exists found1. split; [reflexivity|exact Hf1'].
    + destruct (IH (with_solutions (solutions st ++ found1) st) st' Hidx H)
        as (found2 & -> & Hf2).
      exists (found1 ++ found2). split.
      * cbn. rewrite <- app_assoc. reflexivity.
      * apply Forall_app. split; [exact Hf1'|exact Hf2].
Qed.

End Node.

Lemma fresh_locals_start (gridRows gridCols : Z) (st st0 : Store) :
  fresh_locals gridRows gridCols st = Some st0 ->
  0 <= gridRows /\ 0 <= gridCols /\ st0 = ExactFacts.start gridRows gridCols st.
Proof.
  unfold fresh_locals, Array_fill0. intros H.
  destruct (Z.ltb_spec gridRows 0); [discriminate|].
  destruct (Z.ltb_spec gridCols 0); [discriminate|].
  injection H as <-. repeat split; assumption.
Qed.

(** Every solution of [solveForColor] is made of given placements, lying
    apart from one another and from the forbidden cells, that bring every
    row and column to its requirement. *)
Lemma solveForColor_fine (color : string) (placements : list Placement)
    (gridRows gridCols : Z) (F : list Cell) (st st' : Store) (sols : list ColorSolution) :
  Forall (fun p => NoDup (cells p)) placements ->
  solveForColor color placements gridRows gridCols F st = Some (sols, st') ->
  0 <= gridRows /\ 0 <= gridCols /\
  Forall (fun s => fine color F (fun p => In p placements) gridRows gridCols
                        (rowReqs st) (colReqs st) (sol_placements s) (sol_cells s)) sols.
Proof.
  intros Hnd H. unfold solveForColor in H. bind_as H st0 E0. bind_as H st1 E1.
  injection H as <- <-.
  destruct (fresh_locals_start _ _ _ _ E0) as (HR & HC & ->).
  assert (Hps : Forall (fun p => In p placements /\ NoDup (cells p) /\
                                 forall rc, In rc (cells p) -> ~ In rc F)
                       (validPlacementsOf placements F)).
  { pose proof (SolverFacts.validPlacementsOf_allowed placements F) as Ha.
    rewrite Forall_forall in Ha, Hnd |- *. intros p Hp.
    assert (Hin : In p placements).
    { unfold validPlacementsOf in Hp.
      apply (Permutation_in _ (SolverFacts.sortByPosition_perm _)) in Hp.
      apply filter_In in Hp. tauto. }
    split; [exact Hin|]. split; [exact (Hnd _ Hin)|exact (Ha _ Hp)]. }
  destruct (backtrack_head_good color F _ _ (backtrack_loop_good color F _ _ Hps)
              (ExactFacts.start gridRows gridCols st) st1 eq_refl E1) as (found & -> & Hf).
  split; [exact HR|]. split; [exact HC|].
  cbn. eapply Forall_impl; [|exact Hf]. intros s (new & Hg).
  exact (proj2 (grown_start _ _ _ _ _ _ _ _ HR HC Hg)).
Qed.

(** *** Both colours *)

(** The requirement objects the page builds: both colours are present and
    no count is negative. *)
Definition counted (q : Req) : bool :=
  match lookup "green" q, lookup "blue" q with
  | Some g, Some b => (0 <=? g) && (0 <=? b)
  | _, _ => false
  end.

(** Without a requirement of a colour, requirements that are met by some
    cells of the other colour are met by no cell of this one. *)
Lemma meets_none (this other : string) (cs : list Cell) (R C : Z) (rr cr : list Req) :
  (forall q, In q (rr ++ cr) -> exists v, lookup other q = Some v /\ 0 <= v) ->
  hasReq other rr cr = false ->
  meets this cs R C rr cr -> meets other [] R C rr cr.
Proof.
  intros Hq Hno [Hr Hc]. unfold hasReq in Hno. apply orb_false_iff in Hno.
  destruct Hno as [Nr Nc].
  assert (Hz : forall l q, existsb (positive_req other) l = false -> In q l ->
                 (exists v, lookup other q = Some v /\ 0 <= v) -> lookup other q = Some 0).
  { intros l q Hl Hin (v & Hv & Hpos).
    assert (E : positive_req other q = false).
    { destruct (positive_req other q) eqn:E; [|reflexivity].
      assert (existsb (positive_req other) l = true) by (apply existsb_exists; eauto).
      congruence. }
    unfold positive_req in E. rewrite Hv in E. apply Z.ltb_ge in E.
    rewrite Hv. f_equal. lia. }
  split.
  - intros r Hr0. destruct (Hr r Hr0) as (q & Hg & _). exists q. split; [exact Hg|].
    assert (Hin : In q rr).
    { unfold get in Hg. destruct (r <? 0); [discriminate|]. eapply nth_error_In; eassumption. }
    apply (Hz rr q Nr Hin). apply Hq. apply in_app_iff. left. exact Hin.
  - intros c Hc0. destruct (Hc c Hc0) as (q & Hg & _). exists q. split; [exact Hg|].
    assert (Hin : In q cr).
    { unfold get in Hg. destruct (c <? 0); [discriminate|]. eapply nth_error_In; eassumption. }
    apply (Hz cr q Nc Hin). apply Hq. apply in_app_iff. right. exact Hin.
Qed.

Lemma counted_green (l : list Req) :
  forallb counted l = true ->
  forall q, In q l -> exists v, lookup "green" q = Some v /\ 0 <= v.
Proof.
  intros H q Hq. rewrite forallb_forall in H. specialize (H q Hq). unfold counted in H.
  destruct (lookup "green" q) as [g|]; [|discriminate].
  destruct (lookup "blue" q) as [b|]; [|discriminate].
  apply andb_true_iff in H. exists g. split; [reflexivity|]. apply Z.leb_le. tauto.
Qed.

Lemma counted_blue (l : list Req) :
  forallb counted l = true ->
  forall q, In q l -> exists v, lookup "blue" q = Some v /\ 0 <= v.
Proof.
  intros H q Hq. rewrite forallb_forall in H. specialize (H q Hq). unfold counted in H.
  destruct (lookup "green" q) as [g|]; [|discriminate].
  destruct (lookup "blue" q) as [b|]; [|discriminate].
  apply andb_true_iff in H. exists b. split; [reflexivity|]. apply Z.leb_le. tauto.
Qed.

Lemma pushCombined_Forall (Ss : Solution -> Prop) (g : ColorSolution)
    (bs : list ColorSolution) :
  Forall (fun b => Ss (ExactFacts.combined g b)) bs ->
  forall sols, Forall Ss sols -> Forall Ss (pushCombined g bs sols).
Proof.
  induction 1 as [|b bs Hb _ IH]; intros sols Hs; simpl; [exact Hs|].
  assert (Forall Ss (sols ++ [ExactFacts.combined g b])).
  { apply Forall_app. split; [exact Hs|]. constructor; [exact Hb|constructor]. }
  match goal with |- context [if ?c then _ else _] => destruct c end; [assumption|].
  apply IH. assumption.
Qed.

Section Combining.

Variables (Sg : ColorSolution -> Prop) (Ss : Solution -> Prop).
Variables (hasBlueReq : bool) (allPlacements : list Placement) (gridRows gridCols : Z)
          (blockedCells : list Cell) (st0 : Store).

Hypothesis Hblue :
  hasBlueReq = true ->
  forall g st bs st',
    Sg g -> SolverFacts.same_inputs st0 st ->
    solveForColor "blue" allPlacements gridRows gridCols (blockedCells ++ sol_cells g) st
      = Some (bs, st') ->
    Forall (fun b => Ss (ExactFacts.combined g b)) bs.

Hypothesis Hnone :
  hasBlueReq = false ->
  forall g, Sg g -> Ss (mkSolution (sol_cells g) [] (sol_placements g) []).

Lemma combine_loop_sound (greenSolutions : list ColorSolution) :
  Forall Sg greenSolutions ->
  forall sols0 st sols st',
    SolverFacts.same_inputs st0 st -> Forall Ss sols0 ->
    combine_loop hasBlueReq allPlacements gridRows gridCols blockedCells
      greenSolutions sols0 st = Some (sols, st') ->
    Forall Ss sols.
Proof.
  induction 1 as [|g gs Hg _ IH]; intros sols0 st sols st' Hst Hs H; simpl in H.
  - injection H as <- _. exact Hs.
  - bind_as H r Er. destruct r as [sols1 st1]. cbn [fst snd] in H.
    assert (Hr : Forall Ss sols1 /\ SolverFacts.same_inputs st0 st1).
    { destruct hasBlueReq eqn:Eb.
      - bind_as Er bs Ebs. destruct bs as [bs stb]. cbn [fst snd] in Er.
        injection Er as <- <-. split.
        + apply pushCombined_Forall; [|exact Hs]. exact (Hblue eq_refl _ _ _ _ Hg Hst Ebs).
        + eapply SolverFacts.same_inputs_trans; [exact Hst|].
          exact (proj2 (SolverFacts.solveForColor_capped _ _ _ _ _ _ _ _ Ebs)).
      - injection Er as <- <-. split; [|exact Hst].
        apply Forall_app. split; [exact Hs|]. constructor; [|constructor].
        apply Hnone; [reflexivity|exact Hg]. }
    destruct Hr as [Hs1 Hst1].
    destruct (50 <=? _).
    + injection H as <- _. exact Hs1.
    + exact (IH _ _ _ _ Hst1 Hs1 H).
Qed.

End Combining.

(** *** [runSolver] *)

Lemma placementsOfShapes_In (lib : ShapeLibrary) (R C : Z) (B : list Cell)
    (ids : list string) :
  forall all, placementsOfShapes lib R C B ids = Some all ->
    forall p, In p all <->
      exists id ps, In id ids /\ generatePlacementsForShape lib id R C B = Some ps /\ In p ps.
Proof.
  induction ids as [|id ids IH]; intros all H p; simpl in H.
  - injection H as <-. split; [intros []|intros (? & ? & [] & _)].
  - bind_as H ps E. bind_as H more Em. injection H as <-.
    rewrite in_app_iff, (IH _ eq_refl p). split.
    + intros [Hp|(id' & ps' & Hi & Hg & Hp)].
      * exists id, ps. split; [left; reflexivity|]. split; assumption.
      * exists id', ps'. split; [right; exact Hi|]. split; assumption.
    + intros (id' & ps' & [<-|Hi] & Hg & Hp).
      * left. rewrite E in Hg. injection Hg as <-. exact Hp.
      * right. exists id', ps'. split; [exact Hi|]. split; assumption.
Qed.

Lemma generated_shapeId (lib : ShapeLibrary) (id : string) (R C : Z) (B : list Cell)
    (ps : list Placement) (p : Placement) :
  generatePlacementsForShape lib id R C B = Some ps -> In p ps -> shapeId p = id.
Proof.
  unfold generatePlacementsForShape. intros H Hp. bind_as H e El.
  pose proof (FitAllFacts.placementsOfRotations_shapeId _ _ _ _ _ _ _ H) as Hall.
  rewrite Forall_forall in Hall. exact (Hall p Hp).
Qed.

Lemma generated_NoDup (lib : ShapeLibrary) (id : string) (R C : Z) (B : list Cell)
    (ps : list Placement) (p : Placement) :
  RoundTrip.library_ok lib = true ->
  generatePlacementsForShape lib id R C B = Some ps -> In p ps -> NoDup (cells p).
Proof.
  unfold generatePlacementsForShape. intros Hlib H Hp. bind_as H e El.
  destruct (RoundTrip.placementsOfRotations_cells _ _ _ _ _ _ _ H p Hp)
    as (rot & b & row & col & Hrot & _ & _ & _ & ->).
  apply RoundTrip.shiftTo_NoDup.
  exact (proj2 (RoundTrip.library_ok_rotation _ _ _ _ Hlib El Hrot)).
Qed.

(** A placement [generatePlacementsForShape] lists for one of the shapes
    [ids]. *)
Definition offered (lib : ShapeLibrary) (gridRows gridCols : Z) (blockedCells : list Cell)
    (ids : list string) (p : Placement) : Prop :=
  In (shapeId p) ids /\
  exists ps, generatePlacementsForShape lib (shapeId p) gridRows gridCols
               (new_Set blockedCells) = Some ps /\ In p ps.

Lemma generateAllPlacements_offered (lib : ShapeLibrary) (R C : Z) (bl : list Cell)
    (ids : list string) (all : list Placement) (p : Placement) :
  generateAllPlacements lib R C bl ids = Some all ->
  In p all -> offered lib R C bl ids p.
Proof.
  unfold generateAllPlacements. intros H Hp.
  apply (placementsOfShapes_In _ _ _ _ _ _ H) in Hp. destruct Hp as (id & ps & Hi & Hg & Hp).
  pose proof (generated_shapeId _ _ _ _ _ _ _ Hg Hp) as Hid. subst id.
  split; [exact Hi|]. exists ps. split; assumption.
Qed.

(** The two halves of a solution: green off the blocked cells, blue off the
    blocked and the green ones. *)
Definition assembled (Pl : Placement -> Prop) (bl : list Cell) (R C : Z) (s : Solution)
  : Prop :=
  made bl Pl R C (greenPlacements s) (green s) /\
  made (bl ++ green s) Pl R C (bluePlacements s) (blue s).

Definition meeting (R C : Z) (rr cr : list Req) (s : Solution) : Prop :=
  0 <= R /\ 0 <= C /\ meets "green" (green s) R C rr cr /\ meets "blue" (blue s) R C rr cr.

Lemma made_weaken (F : list Cell) (Pl Pl' : Placement -> Prop) (R C : Z)
    (pl : list Placement) (cs : list Cell) :
  (forall p, Pl p -> Pl' p) -> made F Pl R C pl cs -> made F Pl' R C pl cs.
Proof.
  intros H (H1 & H2 & H3 & H4 & H5). repeat split; try assumption.
  eapply Forall_impl; [|exact H1]. exact H.
Qed.

Lemma made_nil (F : list Cell) (Pl : Placement -> Prop) (R C : Z) : made F Pl R C [] [].
Proof. repeat split; try constructor. intros rc []. Qed.

Lemma runSolver_sound (lib : ShapeLibrary) (R C : Z) (ids : list string)
    (st st' : Store) (sols : list Solution) :
  RoundTrip.library_ok lib = true ->
  runSolver lib R C ids st = Some (Success sols, st') ->
  exists bl,
    blockedCellsOf R C (gridState st) = Some bl /\
    Forall (fun s => assembled (offered lib R C bl ids) bl R C s /\
                     (forallb counted (rowReqs st ++ colReqs st) = true ->
                      meeting R C (rowReqs st) (colReqs st) s)) sols.
Proof.
  intros Hlib H. unfold runSolver in H. bind_as H bl Ebl. exists bl. split; [reflexivity|].
  set (rr := rowReqs st) in *. set (cr := colReqs st) in *.
  destruct (hasReq "green" rr cr) eqn:Hg; destruct (hasReq "blue" rr cr) eqn:Hb;
    cbn [negb andb] in H; try discriminate H.
  all: bind_as H all Eall; destruct (List.length all =? 0)%nat; [discriminate|].
  1, 2: bind_as H g Eg; destruct g as [gs st1]; cbv beta iota zeta in H; cbn [andb] in H.
  1, 2: destruct (List.length gs =? 0)%nat; [discriminate|].
  all: bind_as H r Er; destruct r as [sols' st2]; cbv beta iota zeta in H.
  all: destruct (List.length sols' =? 0)%nat; [discriminate|]; injection H as <- <-.
  all: assert (Hnd : Forall (fun p => NoDup (cells p)) all)
         by (apply Forall_forall; intros p Hp;
             destruct (generateAllPlacements_offered _ _ _ _ _ _ _ Eall Hp)
               as (_ & ps & Hps & Hin);
             exact (generated_NoDup _ _ _ _ _ _ _ Hlib Hps Hin)).
  all: assert (Hoff : forall p, In p all -> offered lib R C bl ids p)
         by (intros p; apply generateAllPlacements_offered; exact Eall).
  all: set (Ss := fun s : Solution =>
                    assembled (offered lib R C bl ids) bl R C s /\
                    (forallb counted (rr ++ cr) = true -> meeting R C rr cr s)).
  - (* green and blue *)
    pose proof (SolverFacts.solveForColor_capped _ _ _ _ _ _ _ _ Eg) as (_ & Hin1).
    destruct (solveForColor_fine _ _ _ _ _ _ _ _ Hnd Eg) as (HR & HC & Hgs).
    refine (combine_loop_sound
              (fun g => fine "green" bl (fun p => In p all) R C rr cr
                             (sol_placements g) (sol_cells g))
              Ss true all R C bl st _ _ gs Hgs [] st1 sols' st2 Hin1 (Forall_nil _) Er).
    + intros _ g stb bs stb' (Hm & Hmeet) (_ & Hrr & Hcr) Ebs.
      destruct (solveForColor_fine _ _ _ _ _ _ _ _ Hnd Ebs) as (_ & _ & Hbs).
      rewrite Hrr, Hcr in Hbs. eapply Forall_impl; [|exact Hbs].
      intros b (Hmb & Hmeetb). split.
      * split; [eapply made_weaken; [|exact Hm]|eapply made_weaken; [|exact Hmb]];
          exact Hoff.
      * intros _. split; [exact HR|]. split; [exact HC|]. split; [exact Hmeet|exact Hmeetb].
    + discriminate.
  - (* green only *)
    pose proof (SolverFacts.solveForColor_capped _ _ _ _ _ _ _ _ Eg) as (_ & Hin1).
    destruct (solveForColor_fine _ _ _ _ _ _ _ _ Hnd Eg) as (HR & HC & Hgs).
    refine (combine_loop_sound
              (fun g => fine "green" bl (fun p => In p all) R C rr cr
                             (sol_placements g) (sol_cells g))
              Ss false all R C bl st _ _ gs Hgs [] st1 sols' st2 Hin1 (Forall_nil _) Er).
    + discriminate.
    + intros _ g (Hm & Hmeet). split.
      * split; [eapply made_weaken; [exact Hoff|exact Hm]|apply made_nil].
      * intros Hcnt. split; [exact HR|]. split; [exact HC|]. split; [exact Hmeet|].
        cbn [blue]. eapply meets_none; [|exact Hb|exact Hmeet].
        apply counted_blue. exact Hcnt.
  - (* blue only *)
    refine (combine_loop_sound
              (fun g => g = mkColorSolution [] [] None)
              Ss true all R C bl st _ _ _ _ [] st sols' st2
              (SolverFacts.same_inputs_refl _) (Forall_nil _) Er).
    + intros _ g stb bs stb' -> (_ & Hrr & Hcr) Ebs.
      destruct (solveForColor_fine _ _ _ _ _ _ _ _ Hnd Ebs) as (HR & HC & Hbs).
      rewrite Hrr, Hcr in Hbs. eapply Forall_impl; [|exact Hbs].
      intros b (Hmb & Hmeetb). split.
      * split; [apply made_nil|eapply made_weaken; [exact Hoff|exact Hmb]].
      * intros Hcnt. split; [exact HR|]. split; [exact HC|]. split; [|exact Hmeetb].
        cbn [green ExactFacts.combined sol_cells]. eapply meets_none; [|exact Hg|exact Hmeetb].
        apply counted_green. exact Hcnt.
    + discriminate.
    + constructor; [reflexivity|constructor].
Qed.

(** *** The search with exact counts *)

(** The placements [new] go to instances of the list, taken in order from
    index [i]; [U] lists the indices of the instances in use. *)
Inductive picks : Z -> list string -> list Placement -> list Z -> Prop :=
| picks_done (i : Z) : picks i [] [] []
| picks_skip (i : Z) (id : string) (l : list string) (new : list Placement) (U : list Z) :
    picks (i + 1) l new U -> picks i (id :: l) new U
| picks_take (i : Z) (p : Placement) (l : list string) (new : list Placement) (U : list Z) :
    picks (i + 1) l new U -> picks i (shapeId p :: l) (p :: new) (i :: U).

Lemma picks_none (l : list string) : forall i, picks i l [] [].
Proof. induction l as [|id l IH]; intros i; constructor. apply IH. Qed.

Lemma picks_from (i : Z) (l : list string) (new : list Placement) (U : list Z) :
  picks i l new U -> Forall (fun j => i <= j) U.
Proof.
  induction 1 as [i|i id l new U _ IH|i p l new U _ IH]; [constructor| |].
  - eapply Forall_impl; [|exact IH]. intros j Hj. cbn in Hj. lia.
  - constructor; [lia|]. eapply Forall_impl; [|exact IH]. intros j Hj. cbn in Hj. lia.
Qed.

(** The instances left over are those of the list that were not taken. *)
Lemma picks_count (i : Z) (l : list string) (new : list Placement) (U : list Z) :
  picks i l new U ->
  forall before id,
    Forall (fun j => j < i) before ->
    (count_occ string_dec (remainingFrom i l (before ++ U)) id
     + count_occ string_dec (map shapeId new) id
     = count_occ string_dec l id)%nat.
Proof.
  induction 1 as [i|i x l new U Hp IH|i p l new U Hp IH]; intros before id Hb.
  - reflexivity.
  - assert (Hno : idx_has (before ++ U) i = false).
    { destruct (idx_has (before ++ U) i) eqn:E; [|reflexivity].
      apply ExactFacts.idx_has_In in E. apply in_app_iff in E. destruct E as [E|E].
      - rewrite Forall_forall in Hb. specialize (Hb _ E). lia.
      - pose proof (picks_from _ _ _ _ Hp) as Hf. rewrite Forall_forall in Hf.
        specialize (Hf _ E). cbn in Hf. lia. }
    cbn [remainingFrom]. rewrite Hno.
    assert (Hb' : Forall (fun j => j < i + 1) before).
    { eapply Forall_impl; [|exact Hb]. intros j Hj. cbn in Hj. lia. }
    specialize (IH before id Hb'). cbn [count_occ].
    destruct (string_dec x id); lia.
  - assert (Hyes : idx_has (before ++ i :: U) i = true).
    { apply ExactFacts.idx_has_In. apply in_app_iff. right. left. reflexivity. }
    cbn [remainingFrom]. rewrite Hyes.
    assert (Hb' : Forall (fun j => j < i + 1) (before ++ [i])).
    { apply Forall_app. split; [|constructor; [lia|constructor]].
      eapply Forall_impl; [|exact Hb]. intros j Hj. cbn in Hj. lia. }
    specialize (IH (before ++ [i]) id Hb'). rewrite <- app_assoc in IH. cbn [app] in IH.
    cbn [map count_occ]. destruct (string_dec (shapeId p) id); lia.
Qed.

Lemma picks_le (l : list string) (new : list Placement) (U : list Z) (id : string) :
  picks 0 l new U ->
  (count_occ string_dec (map shapeId new) id <= count_occ string_dec l id)%nat.
Proof.
  intros H. pose proof (picks_count _ _ _ _ H [] id (Forall_nil _)) as E. lia.
Qed.

Lemma idx_add_fresh (s : list Z) (i : Z) : Forall (fun j => j < i) s -> idx_add s i = s ++ [i].
Proof.
  intros H. unfold idx_add. destruct (idx_has s i) eqn:E; [|reflexivity].
  apply ExactFacts.idx_has_In in E. rewrite Forall_forall in H. specialize (H _ E). lia.
Qed.

Section Exact.

Variables (track : bool) (color : string) (pbs : list (string * list Placement))
          (F : list Cell) (P : Placement -> Prop).

Hypothesis Hpbs :
  forall id ps, lookup id pbs = Some ps ->
    Forall (fun p => shapeId p = id /\ NoDup (cells p) /\ P p) ps.

(** A solution found from the node [st], at instance [i]. *)
Definition node (i : Z) (instances : list string) (st : Store) (s : ColorSolution) : Prop :=
  exists new U,
    grown color F P st new s /\ picks i instances new U /\
    (track = true -> usedShapeIndices s = Some (usedIndices st ++ U)).

Definition sound_from (i : Z) (instances : list string)
    (k : Store -> option (bool * Store)) : Prop :=
  forall st stop st',
    Forall (fun j => j < i) (usedIndices st) -> k st = Some (stop, st') ->
    exists found,
      solutions st' = solutions st ++ found /\
      (stop = false -> st' = with_solutions (solutions st') st) /\
      Forall (node i instances st) found.

Lemma counts_head_sound (i : Z) (instances : list string)
    (rest : Store -> option (bool * Store)) :
  sound_from i instances rest -> sound_from i instances (counts_head track color rest).
Proof.
  intros Hrest st stop st' Hidx H. unfold counts_head in H.
  bind_as H m Em. destruct m; cbn [andb] in H.
  - assert (Hsnap : node i instances st (snapshot_instances track st)).
    { exists [], []. split; [exact (grown_here color F P track st Em)|].
      split; [apply picks_none|]. intros ->. cbn. rewrite app_nil_r. reflexivity. }
    set (st1 := with_solutions (solutions st ++ [snapshot_instances track st]) st) in *.
    assert (Hdone : forall b, Some (b, st1) = Some (stop, st') ->
              exists found, solutions st' = solutions st ++ found /\
                (stop = false -> st' = with_solutions (solutions st') st) /\
                Forall (node i instances st) found).
    { intros b [= <- <-]. exists [snapshot_instances track st].
      split; [reflexivity|]. split; [reflexivity|]. constructor; [exact Hsnap|constructor]. }
    destruct (100 <=? _); [exact (Hdone _ H)|].
    bind_as H e Ee. destruct e; [exact (Hdone _ H)|].
    destruct (Hrest st1 stop st' Hidx H) as (found & Hs & Hfr & Hf).
    exists (snapshot_instances track st :: found). split; [|split].
    + rewrite Hs. subst st1. cbn. rewrite <- app_assoc. reflexivity.
    + intros Hstop. rewrite (Hfr Hstop) at 1. reflexivity.
    + constructor; [exact Hsnap|exact Hf].
  - assert (Hdone : forall b, b = false -> Some (b, st) = Some (stop, st') ->
              exists found, solutions st' = solutions st ++ found /\
                (stop = false -> st' = with_solutions (solutions st') st) /\
                Forall (node i instances st) found).
    { intros b _ [= <- <-]. exists []. split; [rewrite app_nil_r; reflexivity|].
      split; [|constructor]. intros _. symmetry. apply ExactFacts.with_solutions_same. }
    bind_as H e Ee. destruct e; [exact (Hdone _ eq_refl H)|].
    exact (Hrest st stop st' Hidx H).
Qed.

Lemma node_placed (i : Z) (p : Placement) (instances : list string) (st st1 : Store)
    (s : ColorSolution) :
  Forall (fun j => j < i) (usedIndices st) ->
  place_instance track i p st = Some st1 ->
  NoDup (cells p) -> P p ->
  (forall rc, In rc (cells p) -> ~ In rc (usedCells st) /\ ~ In rc F) ->
  node (i + 1) instances st1 s -> node i (shapeId p :: instances) st s.
Proof.
  intros Hidx Hpl Hnd HP Hfresh (new & U & Hg & Hpk & Htr).
  exists (p :: new), (i :: U).
  split; [eapply grown_placed; eassumption|]. split; [constructor; exact Hpk|].
  intros Et. rewrite (Htr Et).
  destruct (ExactFacts.place_instance_spec _ _ _ _ _ Hpl) as (_ & _ & _ & _ & Hi & _).
  rewrite Hi, Et, (idx_add_fresh _ _ Hidx), <- app_assoc. reflexivity.
Qed.

Lemma counts_ploop_sound (i : Z) (id : string) (instances : list string)
    (k : Store -> option (bool * Store)) (ps : list Placement) :
  sound_from (i + 1) instances k ->
  Forall (fun p => shapeId p = id /\ NoDup (cells p) /\ P p) ps ->
  sound_from i (id :: instances) (ExactFacts.counts_ploop track (new_Set F) i k ps).
Proof.
  intros Hk. induction 1 as [|p ps (Hid & Hnd & HP) _ IH]; intros st stop st' Hidx H.
  - cbn in H. injection H as <- <-. exists []. split; [rewrite app_nil_r; reflexivity|].
    split; [|constructor]. intros _. symmetry. apply ExactFacts.with_solutions_same.
  - cbn [ExactFacts.counts_ploop] in H. fold (ExactFacts.counts_ploop track (new_Set F) i k) in H.
    destruct (overlaps2 (usedCells st) (new_Set F) p) eqn:Eo; [exact (IH st stop st' Hidx H)|].
    assert (Hfresh : forall rc, In rc (cells p) -> ~ In rc (usedCells st) /\ ~ In rc F).
    { intros rc Hrc. destruct (ExactFacts.overlaps2_false _ _ _ Eo rc Hrc) as [H1 H2].
      split; [exact H1|]. intros HF. apply H2. apply new_Set_In. exact HF. }
    bind_as H st1 E1. bind_as H r Er. destruct r as [stop1 st2].
    destruct (ExactFacts.place_instance_spec _ _ _ _ _ E1)
      as (_ & _ & _ & _ & Hi1 & _ & _ & _ & Hs1 & _).
    assert (Hidx1 : Forall (fun j => j < i + 1) (usedIndices st1)).
    { rewrite Hi1. destruct track.
      - rewrite (idx_add_fresh _ _ Hidx). apply Forall_app.
        split; [|constructor; [lia|constructor]].
        eapply Forall_impl; [|exact Hidx]. intros j Hj. cbn in Hj. lia.
      - eapply Forall_impl; [|exact Hidx]. intros j Hj. cbn in Hj. lia. }
    destruct (Hk st1 stop1 st2 Hidx1 Er) as (found1 & Hsol1 & Hfr1 & Hf1).
    rewrite Hs1 in Hsol1.
    assert (Hf1' : Forall (node i (id :: instances) st) found1).
    { eapply Forall_impl; [|exact Hf1]. intros s Hs. rewrite <- Hid.
      eapply node_placed; eassumption. }
    destruct stop1.
    + injection H as <- <-. exists found1. split; [exact Hsol1|].
      split; [discriminate|exact Hf1'].
    + bind_as H st3 E3. rewrite (Hfr1 eq_refl) in E3.
      rewrite (ExactFacts.unplace_instance_place track i p _ st st1 E1
                 (fun rc Hrc => proj1 (Hfresh rc Hrc))) in E3.
      2:{ intros Hin. rewrite Forall_forall in Hidx. specialize (Hidx _ Hin). lia. }
      injection E3 as <-.
      destruct (IH (with_solutions (solutions st2) st) stop st' Hidx H)
        as (found2 & Hsol2 & Hfr2 & Hf2).
      cbn [solutions with_solutions] in Hsol2. rewrite Hsol1 in Hsol2.
      exists (found1 ++ found2). split; [rewrite Hsol2, <- app_assoc; reflexivity|].
      split.
      * intros Hstop. rewrite (Hfr2 Hstop) at 1. reflexivity.
      * apply Forall_app. split; [exact Hf1'|exact Hf2].
Qed.

Lemma node_skipped (i : Z) (id : string) (instances : list string) (st : Store)
    (s : ColorSolution) :
  node (i + 1) instances st s -> node i (id :: instances) st s.
Proof.
  intros (new & U & Hg & Hpk & Htr). exists new, U.
  split; [exact Hg|]. split; [constructor; exact Hpk|exact Htr].
Qed.

Lemma counts_loop_sound (instances : list string) :
  forall i, sound_from i instances (counts_loop track color pbs (new_Set F) i instances).
Proof.
  induction instances as [|id instances IH]; intros i st stop st' Hidx H.
  - cbn in H. injection H as <- <-. exists []. split; [rewrite app_nil_r; reflexivity|].
    split; [|constructor]. intros _. symmetry. apply ExactFacts.with_solutions_same.
  - rewrite ExactFacts.counts_loop_cons in H. bind_as H ps El. bind_as H r Er.
    destruct r as [stopped st1].
    destruct (counts_ploop_sound i id instances _ ps
                (counts_head_sound _ _ _ (IH (i + 1))) (Hpbs _ _ El) st stopped st1 Hidx Er)
      as (found1 & Hsol1 & Hfr1 & Hf1).
    destruct stopped.
    + injection H as <- <-. exists found1. split; [exact Hsol1|].
      split; [discriminate|exact Hf1].
    + assert (Hidx1 : Forall (fun j => j < i + 1) (usedIndices st1)).
      { rewrite (Hfr1 eq_refl). cbn.
        eapply Forall_impl; [|exact Hidx]. intros j Hj. cbn in Hj. lia. }
      destruct (IH (i + 1) st1 stop st' Hidx1 H) as (found2 & Hsol2 & Hfr2 & Hf2).
      exists (found1 ++ found2). split; [rewrite Hsol2, Hsol1, <- app_assoc; reflexivity|].
      split.
      * intros Hstop. rewrite (Hfr2 Hstop) at 1. rewrite (Hfr1 eq_refl). reflexivity.
      * apply Forall_app. split; [exact Hf1|].
        eapply Forall_impl; [|exact Hf2]. intros s Hs. apply node_skipped.
        rewrite (Hfr1 eq_refl) in Hs. exact Hs.
Qed.

(** Every solution of a search with exact counts is made of placements of
    its instances, taken in the order of the instances, each instance used
    at most once. *)
Lemma solveWithInstances_fine (shapeInstances : list string) (gridRows gridCols : Z)
    (st st' : Store) (sols : list ColorSolution) :
  solveWithInstances track color shapeInstances pbs gridRows gridCols F st
    = Some (sols, st') ->
  0 <= gridRows /\ 0 <= gridCols /\
  Forall (fun s =>
            fine color F P gridRows gridCols (rowReqs st) (colReqs st)
                 (sol_placements s) (sol_cells s) /\
            exists U, picks 0 shapeInstances (sol_placements s) U /\
                      (track = true -> usedShapeIndices s = Some U)) sols.
Proof.
  intros H. unfold solveWithInstances in H. bind_as H st0 E0. bind_as H r Er.
  destruct r as [stop st1]. cbn [snd] in H. injection H as <- <-.
  destruct (fresh_locals_start _ _ _ _ E0) as (HR & HC & ->).
  destruct (counts_head_sound 0 shapeInstances _ (counts_loop_sound shapeInstances 0)
              (ExactFacts.start gridRows gridCols st) stop st1 (Forall_nil _) Er)
    as (found & Hsol & _ & Hf).
  split; [exact HR|]. split; [exact HC|]. rewrite Hsol. cbn [ExactFacts.start solutions app].
  eapply Forall_impl; [|exact Hf]. intros s (new & U & Hg & Hpk & Htr).
  destruct (grown_start _ _ _ _ _ _ _ _ HR HC Hg) as [Hnew Hfine].
  split; [exact Hfine|]. exists U. rewrite Hnew. split; [exact Hpk|exact Htr].
Qed.

End Exact.

(** *** [runSolverWithShapeCounts] *)

Lemma solveWithInstances_inputs (track : bool) (color : string)
    (shapeInstances : list string) (pbs : list (string * list Placement))
    (gridRows gridCols : Z) (F : list Cell) (st st' : Store) (sols : list ColorSolution) :
  solveWithInstances track color shapeInstances pbs gridRows gridCols F st
    = Some (sols, st') ->
  SolverFacts.same_inputs st st'.
Proof.
  intros H. unfold solveWithInstances in H. bind_as H st0 E0. bind_as H r Er.
  destruct r as [stop st1]. cbn [snd] in H. injection H as _ <-.
  eapply SolverFacts.same_inputs_trans.
  - exact (proj1 (SolverFacts.fresh_locals_spec _ _ _ _ E0)).
  - exact (ExactFacts.counts_head_inputs _ _ _
             (ExactFacts.counts_loop_inputs _ _ _ _ _ 0) _ _ _ Er).
Qed.

Section CombiningCounts.

Variables (Sg : ColorSolution -> Prop) (Ss : Solution -> Prop).
Variables (hasBlueReq : bool) (shapeInstances : list string)
          (pbs : list (string * list Placement)) (gridRows gridCols : Z)
          (blockedCells : list Cell) (st0 : Store).

Hypothesis Hblue :
  hasBlueReq = true ->
  forall g used st bs st',
    Sg g -> usedShapeIndices g = Some used -> SolverFacts.same_inputs st0 st ->
    solveForColorWithCountsSimple "blue" (remainingFrom 0 shapeInstances used) pbs
      gridRows gridCols (blockedCells ++ sol_cells g) st = Some (bs, st') ->
    Forall (fun b => Ss (ExactFacts.combined g b)) bs.

Hypothesis Hnone :
  hasBlueReq = false ->
  forall g, Sg g -> Ss (mkSolution (sol_cells g) [] (sol_placements g) []).

Lemma combine_counts_loop_sound (greenSolutions : list ColorSolution) :
  Forall Sg greenSolutions ->
  forall sols0 st sols st',
    SolverFacts.same_inputs st0 st -> Forall Ss sols0 ->
    combine_counts_loop hasBlueReq shapeInstances pbs gridRows gridCols blockedCells
      greenSolutions sols0 st = Some (sols, st') ->
    Forall Ss sols.
Proof.
  induction 1 as [|g gs Hg _ IH]; intros sols0 st sols st' Hst Hs H; simpl in H.
  - injection H as <- _. exact Hs.
  - bind_as H used Eu. bind_as H r Er. destruct r as [[sols1 st1] continued].
    assert (Hr : Forall Ss sols1 /\ SolverFacts.same_inputs st0 st1).
    { destruct hasBlueReq eqn:Eb.
      - destruct (List.length (remainingFrom 0 shapeInstances used) =? 0)%nat.
        + injection Er as <- <- _. split; assumption.
        + bind_as Er bs Ebs. destruct bs as [bs stb]. cbn [fst snd] in Er.
          injection Er as <- <- _. split.
          * apply pushCombined_Forall; [|exact Hs].
            exact (Hblue eq_refl _ _ _ _ _ Hg Eu Hst Ebs).
          * eapply SolverFacts.same_inputs_trans; [exact Hst|].
            exact (solveWithInstances_inputs _ _ _ _ _ _ _ _ _ _ Ebs).
      - injection Er as <- <- _. split; [|exact Hst].
        apply Forall_app. split; [exact Hs|]. constructor; [|constructor].
        apply Hnone; [reflexivity|exact Hg]. }
    destruct Hr as [Hs1 Hst1].
    destruct (negb continued && (50 <=? _)).
    + injection H as <- _. exact Hs1.
    + exact (IH _ _ _ _ Hst1 Hs1 H).
Qed.

End CombiningCounts.

(** No shape is placed more often than the list of instances has it. *)
Definition within (shapeInstances : list string) (s : Solution) : Prop :=
  forall id,
    (count_occ string_dec (map shapeId (greenPlacements s)) id
     + count_occ string_dec (map shapeId (bluePlacements s)) id
     <= count_occ string_dec shapeInstances id)%nat.

Lemma placementsByShapeOf_offered (lib : ShapeLibrary) (R C : Z) (bl : list Cell)
    (keys : list string) (pbs : list (string * list Placement)) :
  RoundTrip.library_ok lib = true ->
  placementsByShapeOf lib R C (new_Set bl) keys [] = Some pbs ->
  forall id ps, lookup id pbs = Some ps ->
    Forall (fun p => shapeId p = id /\ NoDup (cells p) /\ offered lib R C bl keys p) ps.
Proof.
  intros Hlib H id ps Hl.
  destruct (RoundTrip.placementsByShapeOf_lookup _ _ _ _ _ _ _ H id) as [Hin Hout].
  destruct (in_dec string_dec id keys) as [Hk|Hk].
  - rewrite (Hin Hk) in Hl. apply Forall_forall. intros p Hp.
    pose proof (generated_shapeId _ _ _ _ _ _ _ Hl Hp) as Hid.
    split; [exact Hid|]. split; [exact (generated_NoDup _ _ _ _ _ _ _ Hlib Hl Hp)|].
    subst id. split; [exact Hk|]. exists ps. split; assumption.
  - rewrite (Hout Hk) in Hl. discriminate Hl.
Qed.

Lemma runSolverWithShapeCounts_sound (lib : ShapeLibrary) (R C : Z)
    (shapeCounts : list (string * Z)) (st st' : Store) (sols : list Solution) :
  RoundTrip.library_ok lib = true ->
  runSolverWithShapeCounts lib R C shapeCounts st = Some (Success sols, st') ->
  exists bl,
    blockedCellsOf R C (gridState st) = Some bl /\
    Forall (fun s => assembled (offered lib R C bl (map fst shapeCounts)) bl R C s /\
                     within (shapeInstancesOf shapeCounts) s /\
                     (forallb counted (rowReqs st ++ colReqs st) = true ->
                      meeting R C (rowReqs st) (colReqs st) s)) sols.
Proof.
  intros Hlib H. unfold runSolverWithShapeCounts in H. bind_as H bl Ebl.
  exists bl. split; [reflexivity|].
  set (rr := rowReqs st) in *. set (cr := colReqs st) in *.
  set (instances := shapeInstancesOf shapeCounts) in *.
  set (Pl := offered lib R C bl (map fst shapeCounts)).
  destruct (hasReq "green" rr cr) eqn:Hg; destruct (hasReq "blue" rr cr) eqn:Hb;
    cbn [negb andb] in H; try discriminate H.
  all: cbv zeta in H; bind_as H pbs Epbs.
  all: pose proof (placementsByShapeOf_offered _ _ _ _ _ _ Hlib Epbs) as Hpbs.
  1, 2: bind_as H g Eg; destruct g as [gs st1]; cbv beta iota zeta in H; cbn [andb] in H.
  1, 2: destruct (List.length gs =? 0)%nat; [discriminate|].
  all: bind_as H r Er; destruct r as [sols' st2]; cbv beta iota zeta in H.
  all: destruct (List.length sols' =? 0)%nat; [discriminate|]; injection H as <- <-.
  all: set (Ss := fun s : Solution =>
                    assembled Pl bl R C s /\ within instances s /\
                    (forallb counted (rr ++ cr) = true -> meeting R C rr cr s)).
  all: set (Sg := fun g : ColorSolution =>
                    fine "green" bl Pl R C rr cr (sol_placements g) (sol_cells g) /\
                    exists U, picks 0 instances (sol_placements g) U /\
                              (true = true -> usedShapeIndices g = Some U)).
  - (* green and blue *)
    pose proof (solveWithInstances_inputs _ _ _ _ _ _ _ _ _ _ Eg) as Hin1.
    destruct (solveWithInstances_fine true "green" pbs bl Pl Hpbs _ _ _ _ _ _ Eg)
      as (HR & HC & Hgs).
    refine (combine_counts_loop_sound Sg Ss true instances pbs R C bl st _ _ gs Hgs
              [] st1 sols' st2 Hin1 (Forall_nil _) Er).
    + intros _ g used stb bs stb' ((Hm & Hmeet) & U & Hpk & HU) Eu (_ & Hrr & Hcr) Ebs.
      rewrite (HU eq_refl) in Eu. injection Eu as <-.
      destruct (solveWithInstances_fine false "blue" pbs (bl ++ sol_cells g) Pl Hpbs
                  _ _ _ _ _ _ Ebs) as (_ & _ & Hbs).
      rewrite Hrr, Hcr in Hbs. eapply Forall_impl; [|exact Hbs].
      intros b ((Hmb & Hmeetb) & Ub & Hpkb & _). split; [split; assumption|]. split.
      * intros id. cbn [ExactFacts.combined greenPlacements bluePlacements].
        pose proof (picks_count _ _ _ _ Hpk [] id (Forall_nil _)) as E1. cbn [app] in E1.
        pose proof (picks_le _ _ _ id Hpkb) as E2. lia.
      * intros _. split; [exact HR|]. split; [exact HC|]. split; [exact Hmeet|exact Hmeetb].
    + discriminate.
  - (* green only *)
    pose proof (solveWithInstances_inputs _ _ _ _ _ _ _ _ _ _ Eg) as Hin1.
    destruct (solveWithInstances_fine true "green" pbs bl Pl Hpbs _ _ _ _ _ _ Eg)
      as (HR & HC & Hgs).
    refine (combine_counts_loop_sound Sg Ss false instances pbs R C bl st _ _ gs Hgs
              [] st1 sols' st2 Hin1 (Forall_nil _) Er).
    + discriminate.
    + intros _ g ((Hm & Hmeet) & U & Hpk & HU). split; [split; [exact Hm|apply made_nil]|].
      split.
      * intros id. cbn [greenPlacements bluePlacements map count_occ].
        pose proof (picks_le _ _ _ id Hpk). lia.
      * intros Hcnt. split; [exact HR|]. split; [exact HC|]. split; [exact Hmeet|].
        cbn [blue]. eapply meets_none; [|exact Hb|exact Hmeet].
        apply counted_blue. exact Hcnt.
  - (* blue only *)
    refine (combine_counts_loop_sound (fun g => g = mkColorSolution [] [] (Some []))
              Ss true instances pbs R C bl st _ _ _ _ [] st sols' st2
              (SolverFacts.same_inputs_refl _) (Forall_nil _) Er).
    + intros _ g used stb bs stb' -> Eu (_ & Hrr & Hcr) Ebs.
      cbn in Eu. injection Eu as <-.
      destruct (solveWithInstances_fine false "blue" pbs _ Pl Hpbs _ _ _ _ _ _ Ebs)
        as (HR & HC & Hbs).
      rewrite Hrr, Hcr in Hbs. eapply Forall_impl; [|exact Hbs].
      intros b ((Hmb & Hmeetb) & Ub & Hpkb & _).
      split; [split; [apply made_nil|exact Hmb]|]. split.
      * intros id. cbn [ExactFacts.combined greenPlacements bluePlacements sol_placements
                          map count_occ].
        pose proof (picks_le _ _ _ id Hpkb) as E2.
        rewrite (ExactFacts.remainingFrom_all _ [] 0 (Forall_nil _)) in E2. lia.
      * intros Hcnt. split; [exact HR|]. split; [exact HC|]. split; [|exact Hmeetb].
        cbn [green ExactFacts.combined sol_cells]. eapply meets_none; [|exact Hg|exact Hmeetb].
        apply counted_green. exact Hcnt.
    + discriminate.
    + constructor; [reflexivity|constructor].
Qed.



Lemma assembled_valid (Pl : Placement -> Prop) (bl : list Cell) (R C : Z)
    (rr cr : list Req) (s : Solution) :
  assembled Pl bl R C s -> meeting R C rr cr s ->
  validateSolution s R C rr cr = Some (true, []).
Proof.
  intros ((_ & _ & _ & Hgi & _) & (_ & _ & _ & Hbi & Hbf)) (HR & HC & Hmg & Hmb).
  apply validateSolution_spec. repeat split; try assumption; try apply Hmg; try apply Hmb.
  intros rc Hg Hb. apply (Hbf rc Hb). apply in_app_iff. right. exact Hg.
Qed.

Lemma assembled_plain (Pl : Placement -> Prop) (bl : list Cell) (R C : Z) (s : Solution) :
  assembled Pl bl R C s ->
  green s = flat_map cells (greenPlacements s) /\
  blue s = flat_map cells (bluePlacements s) /\
  Forall Pl (greenPlacements s) /\ Forall Pl (bluePlacements s) /\
  NoDup (green s ++ blue s) /\
  Forall (in_bounds R C) (green s ++ blue s).
Proof.
  intros ((Hgp & Hgc & Hgn & Hgi & _) & (Hbp & Hbc & Hbn & Hbi & Hbf)).
  repeat split; try assumption.
  - apply NoDup_app; [assumption|assumption|].
    intros rc Hg Hb. apply (Hbf rc Hb). apply in_app_iff. right. exact Hg.
  - apply Forall_app. split; assumption.
Qed.

Lemma count_shapeInstancesOf (shapeCounts : list (string * Z)) (id : string) :
  NoDup (map fst shapeCounts) ->
  Z.of_nat (count_occ string_dec (shapeInstancesOf shapeCounts) id)
  = match lookup id shapeCounts with Some n => Z.max 0 n | None => 0 end.
Proof.
  unfold shapeInstancesOf. induction shapeCounts as [|[k n] l IH]; intros Hnd; [reflexivity|].
  inversion_clear Hnd as [|? ? Hk Hl]. cbn [flat_map lookup]. rewrite count_occ_app.
  assert (Hrow : forall m : list Z,
            count_occ string_dec (map (fun _ => k) m) id
            = if string_dec k id then List.length m else 0%nat).
  { induction m as [|x m IHm]; cbn [map count_occ List.length].
    - destruct (string_dec k id); reflexivity.
    - rewrite IHm. destruct (string_dec k id); reflexivity. }
  rewrite Hrow. unfold range at 1. rewrite length_map, length_seq.
  destruct (String.eqb_spec id k) as [->|Hne].
  - destruct (string_dec k k) as [_|Hc]; [|congruence].
    assert (Hz : lookup k l = None) by (apply RoundTrip.lookup_None; exact Hk).
    specialize (IH Hl). rewrite Hz in IH. lia.
  - destruct (string_dec k id) as [Hc|_]; [congruence|]. rewrite Nat.add_0_l. exact (IH Hl).
Qed.


(** *** What the solvers return *)

(** X12.  Every solution that [runSolver] returns passes [validateSolution] on the
    same grid size and requirements, with no error message, provided the
    rotations of the library are normalized and list no cell twice, and every
    requirement object holds a count of green and a count of blue, none
    negative. *)
Theorem runSolver_solutions_validate :
  forall lib gridRows gridCols enabledShapes st sols st',
    RoundTrip.library_ok lib = true ->
    forallb counted (rowReqs st ++ colReqs st) = true ->
    runSolver lib gridRows gridCols enabledShapes st = Some (Success sols, st') ->
    forall s, In s sols ->
      validateSolution s gridRows gridCols (rowReqs st) (colReqs st) = Some (true, []).
Proof.
  intros lib R C ids st sols st' Hlib Hcnt H s Hs.
  destruct (runSolver_sound _ _ _ _ _ _ _ Hlib H) as (bl & _ & Hall).
  rewrite Forall_forall in Hall. destruct (Hall s Hs) as [Ha Hm].
  exact (assembled_valid _ _ _ _ _ _ _ Ha (Hm Hcnt)).
Qed.

Lemma runSolver_solutions_validate_witness :
  (RoundTrip.library_ok SHAPE_LIBRARY = true /\
   forallb counted (rowReqs Examples.strip_store ++ colReqs Examples.strip_store) = true /\
   runSolver SHAPE_LIBRARY 1 5 ["line-3"] Examples.strip_store
     = Some (Success Examples.strip_solutions, Examples.strip_final)) /\
  forall s, In s Examples.strip_solutions ->
    validateSolution s 1 5 (rowReqs Examples.strip_store) (colReqs Examples.strip_store)
    = Some (true, []).
Proof.
  assert (Hlib : RoundTrip.library_ok SHAPE_LIBRARY = true) by (vm_compute; reflexivity).
  assert (Hcnt : forallb counted (rowReqs Examples.strip_store ++ colReqs Examples.strip_store)
                 = true) by (vm_compute; reflexivity).
  assert (H : runSolver SHAPE_LIBRARY 1 5 ["line-3"] Examples.strip_store
              = Some (Success Examples.strip_solutions, Examples.strip_final))
    by (vm_compute; reflexivity).
  split; [repeat split; assumption|].
  exact (runSolver_solutions_validate SHAPE_LIBRARY 1 5 ["line-3"] Examples.strip_store
           Examples.strip_solutions Examples.strip_final Hlib Hcnt H).
Defined.

(** X13.  Every solution that [runSolver] returns is made of placements that
    [generatePlacementsForShape] lists for enabled shapes: [green] and [blue]
    are the cells of [greenPlacements] and [bluePlacements] in order, no cell
    occurs twice among them (so no two placements overlap, within a colour
    or across the two), and all of them lie in the grid.  The rotations of
    the library are taken to be normalized and to list no cell twice. *)
Theorem runSolver_solutions_of_placements :
  forall lib gridRows gridCols enabledShapes st sols st',
    RoundTrip.library_ok lib = true ->
    runSolver lib gridRows gridCols enabledShapes st = Some (Success sols, st') ->
    exists blockedCells,
      blockedCellsOf gridRows gridCols (gridState st) = Some blockedCells /\
      forall s, In s sols ->
        green s = flat_map cells (greenPlacements s) /\
        blue s = flat_map cells (bluePlacements s) /\
        Forall (offered lib gridRows gridCols blockedCells enabledShapes)
               (greenPlacements s) /\
        Forall (offered lib gridRows gridCols blockedCells enabledShapes)
               (bluePlacements s) /\
        NoDup (green s ++ blue s) /\
        Forall (in_bounds gridRows gridCols) (green s ++ blue s).
Proof.
  intros lib R C ids st sols st' Hlib H.
  destruct (runSolver_sound _ _ _ _ _ _ _ Hlib H) as (bl & Hbl & Hall).
  exists bl. split; [exact Hbl|]. intros s Hs.
  rewrite Forall_forall in Hall. destruct (Hall s Hs) as [Ha _].
  exact (assembled_plain _ _ _ _ _ Ha).
Qed.

Lemma runSolver_solutions_of_placements_witness :
  (RoundTrip.library_ok SHAPE_LIBRARY = true /\
   runSolver SHAPE_LIBRARY 1 5 ["line-3"] Examples.strip_store
     = Some (Success Examples.strip_solutions, Examples.strip_final)) /\
  exists blockedCells,
    blockedCellsOf 1 5 (gridState Examples.strip_store) = Some blockedCells /\
    forall s, In s Examples.strip_solutions ->
      green s = flat_map cells (greenPlacements s) /\
      blue s = flat_map cells (bluePlacements s) /\
      Forall (offered SHAPE_LIBRARY 1 5 blockedCells ["line-3"]) (greenPlacements s) /\
      Forall (offered SHAPE_LIBRARY 1 5 blockedCells ["line-3"]) (bluePlacements s) /\
      NoDup (green s ++ blue s) /\
      Forall (in_bounds 1 5) (green s ++ blue s).
Proof.
  assert (Hlib : RoundTrip.library_ok SHAPE_LIBRARY = true) by (vm_compute; reflexivity).
  assert (H : runSolver SHAPE_LIBRARY 1 5 ["line-3"] Examples.strip_store
              = Some (Success Examples.strip_solutions, Examples.strip_final))
    by (vm_compute; reflexivity).
  split; [split; assumption|].
  exact (runSolver_solutions_of_placements SHAPE_LIBRARY 1 5 ["line-3"]
           Examples.strip_store Examples.strip_solutions Examples.strip_final Hlib H).
Defined.

(** X16.  Every solution that [runSolverWithShapeCounts] returns passes
    [validateSolution] on the same grid size and requirements, with no error
    message, under the same conditions on the library and the requirement
    objects. *)
Theorem runSolverWithShapeCounts_solutions_validate :
  forall lib gridRows gridCols shapeCounts st sols st',
    RoundTrip.library_ok lib = true ->
    forallb counted (rowReqs st ++ colReqs st) = true ->
    runSolverWithShapeCounts lib gridRows gridCols shapeCounts st
      = Some (Success sols, st') ->
    forall s, In s sols ->
      validateSolution s gridRows gridCols (rowReqs st) (colReqs st) = Some (true, []).
Proof.
  intros lib R C counts st sols st' Hlib Hcnt H s Hs.
  destruct (runSolverWithShapeCounts_sound _ _ _ _ _ _ _ Hlib H) as (bl & _ & Hall).
  rewrite Forall_forall in Hall. destruct (Hall s Hs) as (Ha & _ & Hm).
  exact (assembled_valid _ _ _ _ _ _ _ Ha (Hm Hcnt)).
Qed.

Lemma runSolverWithShapeCounts_solutions_validate_witness :
  (RoundTrip.library_ok SHAPE_LIBRARY = true /\
   forallb counted (rowReqs Examples.strip_store ++ colReqs Examples.strip_store) = true /\
   runSolverWithShapeCounts SHAPE_LIBRARY 1 5 [("line-3", 1)] Examples.strip_store
     = Some (Success Examples.strip_exact_solutions, Examples.strip_exact_final)) /\
  forall s, In s Examples.strip_exact_solutions ->
    validateSolution s 1 5 (rowReqs Examples.strip_store) (colReqs Examples.strip_store)
    = Some (true, []).
Proof.
  assert (Hlib : RoundTrip.library_ok SHAPE_LIBRARY = true) by (vm_compute; reflexivity).
  assert (Hcnt : forallb counted (rowReqs Examples.strip_store ++ colReqs Examples.strip_store)
                 = true) by (vm_compute; reflexivity).
  assert (H : runSolverWithShapeCounts SHAPE_LIBRARY 1 5 [("line-3", 1)] Examples.strip_store
              = Some (Success Examples.strip_exact_solutions, Examples.strip_exact_final))
    by (vm_compute; reflexivity).
  split; [repeat split; assumption|].
  exact (runSolverWithShapeCounts_solutions_validate SHAPE_LIBRARY 1 5 [("line-3", 1)]
           Examples.strip_store Examples.strip_exact_solutions Examples.strip_exact_final
           Hlib Hcnt H).
Defined.

(** X17.  Every solution that [runSolverWithShapeCounts] returns is made of
    placements that [generatePlacementsForShape] lists for shapes of
    [shapeCounts], lying in the grid with no cell used twice. *)
Theorem runSolverWithShapeCounts_solutions_of_placements :
  forall lib gridRows gridCols shapeCounts st sols st',
    RoundTrip.library_ok lib = true ->
    runSolverWithShapeCounts lib gridRows gridCols shapeCounts st
      = Some (Success sols, st') ->
    exists blockedCells,
      blockedCellsOf gridRows gridCols (gridState st) = Some blockedCells /\
      forall s, In s sols ->
        green s = flat_map cells (greenPlacements s) /\
        blue s = flat_map cells (bluePlacements s) /\
        Forall (offered lib gridRows gridCols blockedCells (map fst shapeCounts))
               (greenPlacements s) /\
        Forall (offered lib gridRows gridCols blockedCells (map fst shapeCounts))
               (bluePlacements s) /\
        NoDup (green s ++ blue s) /\
        Forall (in_bounds gridRows gridCols) (green s ++ blue s).
Proof.
  intros lib R C counts st sols st' Hlib H.
  destruct (runSolverWithShapeCounts_sound _ _ _ _ _ _ _ Hlib H) as (bl & Hbl & Hall).
  exists bl. split; [exact Hbl|]. intros s Hs.
  rewrite Forall_forall in Hall. destruct (Hall s Hs) as [Ha _].
  exact (assembled_plain _ _ _ _ _ Ha).
Qed.

Lemma runSolverWithShapeCounts_solutions_of_placements_witness :
  (RoundTrip.library_ok SHAPE_LIBRARY = true /\
   runSolverWithShapeCounts SHAPE_LIBRARY 1 5 [("line-3", 1)] Examples.strip_store
     = Some (Success Examples.strip_exact_solutions, Examples.strip_exact_final)) /\
  exists blockedCells,
    blockedCellsOf 1 5 (gridState Examples.strip_store) = Some blockedCells /\
    forall s, In s Examples.strip_exact_solutions ->
      green s = flat_map cells (greenPlacements s) /\
      blue s = flat_map cells (bluePlacements s) /\
      Forall (offered SHAPE_LIBRARY 1 5 blockedCells (map fst [("line-3", 1)]))
             (greenPlacements s) /\
      Forall (offered SHAPE_LIBRARY 1 5 blockedCells (map fst [("line-3", 1)]))
             (bluePlacements s) /\
      NoDup (green s ++ blue s) /\
      Forall (in_bounds 1 5) (green s ++ blue s).
Proof.
  assert (Hlib : RoundTrip.library_ok SHAPE_LIBRARY = true) by (vm_compute; reflexivity).
  assert (H : runSolverWithShapeCounts SHAPE_LIBRARY 1 5 [("line-3", 1)] Examples.strip_store
              = Some (Success Examples.strip_exact_solutions, Examples.strip_exact_final))
    by (vm_compute; reflexivity).
  split; [split; assumption|].
  exact (runSolverWithShapeCounts_solutions_of_placements SHAPE_LIBRARY 1 5 [("line-3", 1)]
           Examples.strip_store Examples.strip_exact_solutions Examples.strip_exact_final
           Hlib H).
Defined.

(** X18.  No solution of [runSolverWithShapeCounts] places a shape more often than
    [shapeCounts] allows, green and blue placements counted together: a shape
    with count [n] is placed at most [n] times (never when [n] is negative),
    and a shape absent from [shapeCounts] is not placed. *)
Theorem runSolverWithShapeCounts_counts_respected :
  forall lib gridRows gridCols shapeCounts st sols st',
    RoundTrip.library_ok lib = true ->
    NoDup (map fst shapeCounts) ->
    runSolverWithShapeCounts lib gridRows gridCols shapeCounts st
      = Some (Success sols, st') ->
    forall s id, In s sols ->
      Z.of_nat (count_occ string_dec
                  (map shapeId (greenPlacements s ++ bluePlacements s)) id)
      <= match lookup id shapeCounts with Some n => Z.max 0 n | None => 0 end.
Proof.
  intros lib R C counts st sols st' Hlib Hnd H s id Hs.
  destruct (runSolverWithShapeCounts_sound _ _ _ _ _ _ _ Hlib H) as (bl & _ & Hall).
  rewrite Forall_forall in Hall. destruct (Hall s Hs) as (_ & Hw & _).
  rewrite <- (count_shapeInstancesOf counts id Hnd), map_app, count_occ_app.
  specialize (Hw id). lia.
Qed.

Lemma runSolverWithShapeCounts_counts_respected_witness :
  (RoundTrip.library_ok SHAPE_LIBRARY = true /\
   NoDup (map fst [("line-3", 1)]) /\
   runSolverWithShapeCounts SHAPE_LIBRARY 1 5 [("line-3", 1)] Examples.strip_store
     = Some (Success Examples.strip_exact_solutions, Examples.strip_exact_final)) /\
  forall s id, In s Examples.strip_exact_solutions ->
    Z.of_nat (count_occ string_dec
                (map shapeId (greenPlacements s ++ bluePlacements s)) id)
    <= match lookup id [("line-3", 1)] with Some n => Z.max 0 n | None => 0 end.
Proof.
  assert (Hlib : RoundTrip.library_ok SHAPE_LIBRARY = true) by (vm_compute; reflexivity).
  assert (Hnd : NoDup (map fst [("line-3", 1)])).
  { simpl. constructor; [intros []|constructor]. }
  assert (H : runSolverWithShapeCounts SHAPE_LIBRARY 1 5 [("line-3", 1)] Examples.strip_store
              = Some (Success Examples.strip_exact_solutions, Examples.strip_exact_final))
    by (vm_compute; reflexivity).
  split; [repeat split; assumption|].
  exact (runSolverWithShapeCounts_counts_respected SHAPE_LIBRARY 1 5 [("line-3", 1)]
           Examples.strip_store Examples.strip_exact_solutions Examples.strip_exact_final
           Hlib Hnd H).
Defined.



End SoundFacts.

(** ** Placements, unknown shapes and "fit all pieces" *)

Module PlacementFacts.
Import Shapes Solver.

Lemma get_cons_succ {A : Type} (x : A) (l : list A) (j : Z) :
  0 <= j -> get (x :: l) (j + 1) = get l j.
Proof.
  intros Hj. unfold get. destruct (Z.ltb_spec (j + 1) 0); [lia|].
  destruct (Z.ltb_spec j 0); [lia|].
  replace (Z.to_nat (j + 1)) with (S (Z.to_nat j)) by lia. reflexivity.
Qed.

Lemma get_nonneg {A : Type} (l : list A) (j : Z) (x : A) : get l j = Some x -> 0 <= j.
Proof. unfold get. destruct (Z.ltb_spec j 0); [discriminate|lia]. Qed.

Lemma placementsOfRotations_from (id : string) (R C : Z) (B : list Cell)
    (rots : list (list Cell)) :
  forall i ps,
    placementsOfRotations id i rots R C B = Some ps ->
    forall p, In p ps ->
      exists j rot b row col,
        get rots j = Some rot /\ getShapeBounds rot = Some b /\
        In row (range (R - height b + 1)) /\ In col (range (C - width b + 1)) /\
        existsb (has B) (RoundTrip.shiftTo row col rot) = false /\
        p = mkPlacement id (i + j) (RoundTrip.shiftTo row col rot)
                        (new_Set (RoundTrip.shiftTo row col rot)).
Proof.
  induction rots as [|rot0 rots IH]; intros i ps H p Hp; simpl in H.
  - injection H as <-. destruct Hp.
  - bind_as H b0 Eb. bind_as H more Em. injection H as <-.
    apply in_app_iff in Hp. destruct Hp as [Hp|Hp].
    + apply RoundTrip.placementsOfRotation_In in Hp.
      destruct Hp as (row & col & Hrow & Hcol & Hfree & ->).
      exists 0, rot0, b0, row, col. rewrite Z.add_0_r. repeat split; assumption.
    + destruct (IH _ _ Em p Hp) as (j & rot & b & row & col & Hj & Hb & Hrow & Hcol & Hf & ->).
      exists (j + 1), rot, b, row, col.
      rewrite (get_cons_succ _ _ _ (get_nonneg _ _ _ Hj)).
      replace (i + (j + 1)) with (i + 1 + j) by lia. repeat split; assumption.
Qed.

Lemma getShapeBounds_None (cells : list Cell) : getShapeBounds cells = None <-> cells = [].
Proof.
  destruct cells as [|x cells]; [split; reflexivity|]. split; discriminate.
Qed.

Lemma placementsOfRotations_None (id : string) (R C : Z) (B : list Cell)
    (rots : list (list Cell)) :
  forall i, placementsOfRotations id i rots R C B = None <-> In [] rots.
Proof.
  induction rots as [|rot rots IH]; intros i; simpl; [split; [discriminate|intros []]|].
  destruct (getShapeBounds rot) as [b|] eqn:Eb.
  - assert (Hne : rot <> []).
    { intros ->. discriminate Eb. }
    specialize (IH (i + 1)).
    destruct (placementsOfRotations id (i + 1) rots R C B) as [more|].
    + split; [discriminate|]. intros [E|Hin]; [congruence|]. apply IH in Hin. discriminate.
    + split; [intros _; right; apply IH; reflexivity|reflexivity].
  - apply getShapeBounds_None in Eb. split; [intros _; left; exact Eb|reflexivity].
Qed.

Lemma placementsOfShapes_None (lib : ShapeLibrary) (R C : Z) (B : list Cell)
    (ids : list string) (id : string) :
  In id ids -> generatePlacementsForShape lib id R C B = None ->
  placementsOfShapes lib R C B ids = None.
Proof.
  induction ids as [|k ids IH]; intros Hin Hg; [destruct Hin|]. simpl.
  destruct Hin as [->|Hin]; [rewrite Hg; reflexivity|].
  destruct (generatePlacementsForShape lib k R C B); [|reflexivity].
  rewrite (IH Hin Hg). reflexivity.
Qed.

Lemma placementsByShapeOf_None (lib : ShapeLibrary) (R C : Z) (B : list Cell)
    (keys : list string) (id : string) :
  In id keys -> generatePlacementsForShape lib id R C B = None ->
  forall acc, placementsByShapeOf lib R C B keys acc = None.
Proof.
  induction keys as [|k keys IH]; intros Hin Hg acc; [destruct Hin|]. simpl.
  destruct Hin as [->|Hin]; [rewrite Hg; reflexivity|].
  destruct (generatePlacementsForShape lib k R C B); [|reflexivity].
  apply IH; assumption.
Qed.

(** *** The assignments of "fit all pieces" *)

(** [chosen] gives every instance, in order, one of the placements [cand]
    lists for its shape, on cells that neither [used] nor an earlier
    placement of [chosen] holds. *)
Fixpoint fitting (cand : string -> option (list Placement)) (used : list Cell)
    (instances : list string) (chosen : list Placement) : Prop :=
  match instances, chosen with
  | [], [] => True
  | shapeId :: instances', p :: chosen' =>
      (exists ps, cand shapeId = Some ps /\ In p ps) /\
      (forall rc, In rc (cells p) -> ~ In rc used) /\
      fitting cand (used ++ cells p) instances' chosen'
  | _, _ => False
  end.

Lemma fitting_ext (cand cand' : string -> option (list Placement))
    (instances : list string) :
  (forall id, In id instances -> cand id = cand' id) ->
  forall chosen used used',
    (forall rc, In rc used <-> In rc used') ->
    fitting cand used instances chosen -> fitting cand' used' instances chosen.
Proof.
  induction instances as [|id l IH]; intros Hc chosen used used' Hu H;
    destruct chosen as [|p ch]; try exact H.
  cbn [fitting] in *. destruct H as ((ps & Hps & Hp) & Hfree & Hrest).
  split; [exists ps; rewrite <- (Hc id (or_introl eq_refl)); auto|].
  split; [intros rc Hrc Hin; apply (Hfree rc Hrc); apply Hu; exact Hin|].
  apply (IH (fun x Hx => Hc x (or_intror Hx)) ch (used ++ cells p)); [|exact Hrest].
  intros rc. rewrite !in_app_iff, (Hu rc). tauto.
Qed.

Lemma allFits_fitting (pbs : list (string * list Placement)) (instances : list string) :
  forall used current s,
    In s (FitAllFacts.allFits pbs instances used current) <->
    exists chosen,
      fitting (fun id => lookup id pbs) used instances chosen /\
      s = mkSolution (flat_map cells (current ++ chosen)) [] (current ++ chosen) [].
Proof.
  induction instances as [|id l IH]; intros used current s; cbn [FitAllFacts.allFits].
  - split.
    + intros [<-|[]]. exists []. rewrite app_nil_r. split; [exact I|reflexivity].
    + intros ([|p ch] & Hf & ->); [|destruct Hf]. rewrite app_nil_r. left. reflexivity.
  - destruct (lookup id pbs) as [ps|] eqn:El.
    + rewrite in_flat_map. split.
      * intros (p & Hp & Hs). destruct (overlaps used p) eqn:Eo; [destruct Hs|].
        apply IH in Hs. destruct Hs as (ch & Hf & ->). exists (p :: ch).
        rewrite <- app_assoc. split; [|reflexivity]. cbn [fitting].
        split; [exists ps; rewrite El; auto|].
        split; [exact (proj1 (SolverFacts.overlaps_false _ _) Eo)|].
        eapply fitting_ext; [reflexivity| |exact Hf].
        intros rc. rewrite fold_set_add_In, in_app_iff. tauto.
      * intros ([|p ch] & Hf & ->); [destruct Hf|]. cbn [fitting] in Hf.
        destruct Hf as ((ps' & Hps & Hp) & Hfree & Hrest).
        rewrite El in Hps. injection Hps as <-.
        exists p. split; [exact Hp|].
        rewrite (proj2 (SolverFacts.overlaps_false _ _) Hfree).
        apply IH. exists ch. rewrite <- app_assoc. split; [|reflexivity].
        eapply fitting_ext; [reflexivity| |exact Hrest].
        intros rc. rewrite fold_set_add_In, in_app_iff. tauto.
    + split; [intros []|]. intros ([|p ch] & Hf & _); [destruct Hf|].
      cbn [fitting] in Hf. destruct Hf as ((ps' & Hps & _) & _).
      rewrite El in Hps. discriminate Hps.
Qed.

Lemma fitting_generated (lib : ShapeLibrary) (R C : Z) (bl : list Cell)
    (shapeCounts : list (string * Z)) (pbs : list (string * list Placement))
    (chosen : list Placement) :
  placementsByShapeOf lib R C (new_Set bl) (map fst shapeCounts) [] = Some pbs ->
  fitting (fun id => lookup id pbs) [] (shapeInstancesOf shapeCounts) chosen <->
  fitting (fun id => generatePlacementsForShape lib id R C (new_Set bl)) []
          (shapeInstancesOf shapeCounts) chosen.
Proof.
  intros Hpbs.
  assert (Hc : forall id, In id (shapeInstancesOf shapeCounts) ->
                 lookup id pbs = generatePlacementsForShape lib id R C (new_Set bl)).
  { intros id Hid. apply RoundTrip.shapeInstancesOf_In in Hid.
    exact (proj1 (RoundTrip.placementsByShapeOf_lookup _ _ _ _ _ _ _ Hpbs id) Hid). }
  split; apply fitting_ext; try tauto.
  intros id Hid. symmetry. exact (Hc id Hid).
Qed.

Lemma runFitAllPiecesSolver_failure (lib : ShapeLibrary) (R C : Z) (bl : list Cell)
    (shapeCounts : list (string * Z)) :
  runFitAllPiecesSolver lib R C bl shapeCounts
    = Some (Failure "Could not fit all pieces on the grid") ->
  exists pbs,
    placementsByShapeOf lib R C (new_Set bl) (map fst shapeCounts) [] = Some pbs /\
    FitAllFacts.allFits pbs (shapeInstancesOf shapeCounts) [] [] = [].
Proof.
  unfold runFitAllPiecesSolver. intros H.
  destruct (List.length (shapeInstancesOf shapeCounts) =? 0)%nat; [discriminate|].
  bind_as H pbs E. bind_as H missing E0. destruct missing as [message|].
  { exfalso. revert E0 H. generalize pbs. clear.
    induction pbs as [|[k ps] l IH]; simpl; intros E0 H; [discriminate|].
    destruct (List.length ps =? 0)%nat; [|exact (IH E0 H)].
    destruct (lookup k lib); [|discriminate]. injection E0 as <-. discriminate H. }
  bind_as H r E1. destruct r as [stop st']. cbn [snd] in H.
  destruct (List.length (fit_solutions st')) eqn:El; cbn [Nat.eqb] in H; [|discriminate].
  exists pbs. split; [reflexivity|].
  destruct (FitAllFacts.fit_backtrack_runs pbs _ (mkFit [] [] []) stop st' eq_refl E1)
    as (Hs & _).
  cbn [fit_solutions fit_usedCells fit_currentPlacements app] in Hs.
  rewrite Hs in El. unfold FitAllFacts.cap in El.
  destruct (FitAllFacts.allFits pbs (shapeInstancesOf shapeCounts) [] []); [reflexivity|].
  discriminate El.
Qed.

(** X8.  What [generatePlacementsForShape] lists: for every rotation [j] of the
    shape and every position that keeps the bounding box of the rotation in
    the grid, the rotation moved there, unless one of its cells is blocked;
    and nothing else.  The call does not return when the library has no such
    shape, or when one of the rotations has no cell. *)
Theorem generatePlacementsForShape_lists :
  forall lib shapeId gridRows gridCols blockedSet,
    match generatePlacementsForShape lib shapeId gridRows gridCols blockedSet with
    | Some placements =>
        forall p, In p placements <->
          exists shape j rotation b row col,
            lookup shapeId lib = Some shape /\
            get (rotations shape) j = Some rotation /\
            getShapeBounds rotation = Some b /\
            0 <= row <= gridRows - height b /\ 0 <= col <= gridCols - width b /\
            (forall rc, In rc (RoundTrip.shiftTo row col rotation) -> ~ In rc blockedSet) /\
            p = mkPlacement shapeId j (RoundTrip.shiftTo row col rotation)
                            (new_Set (RoundTrip.shiftTo row col rotation))
    | None =>
        lookup shapeId lib = None \/
        exists shape, lookup shapeId lib = Some shape /\ In [] (rotations shape)
    end.
Proof.
  intros lib id R C B.
  destruct (generatePlacementsForShape lib id R C B) as [ps|] eqn:E;
    unfold generatePlacementsForShape in E.
  - bind_as E e El. intros p. split.
    + intros Hp.
      destruct (placementsOfRotations_from _ _ _ _ _ _ _ E p Hp)
        as (j & rot & b & row & col & Hj & Hb & Hrow & Hcol & Hfree & ->).
      apply range_In in Hrow, Hcol.
      exists e, j, rot, b, row, col. split; [reflexivity|]. split; [exact Hj|].
      split; [exact Hb|]. split; [lia|]. split; [lia|]. split; [|reflexivity].
      exact (proj1 (SolverFacts.overlaps_false B
                      (mkPlacement id j (RoundTrip.shiftTo row col rot) [])) Hfree).
    + intros (e' & j & rot & b & row & col & He & Hj & Hb & Hrow & Hcol & Hfree & ->).
      injection He as <-.
      replace j with (0 + j) by lia.
      apply (RoundTrip.placementsOfRotations_In _ _ _ _ _ _ _ E j rot b row col Hj Hb).
      * apply range_In. lia.
      * apply range_In. lia.
      * exact (proj2 (SolverFacts.overlaps_false B
                        (mkPlacement id j (RoundTrip.shiftTo row col rot) [])) Hfree).
  - destruct (lookup id lib) as [e|]; [|left; reflexivity].
    right. exists e. split; [reflexivity|].
    exact (proj1 (placementsOfRotations_None _ _ _ _ _ _) E).
Qed.

(** X9.  A shape id that the library does not hold stops every solver: with it
    among the enabled shapes, or among the keys of [shapeCounts] (even with
    count 0), none of the three returns, as soon as it gets past its first
    check (some requirement is positive; some piece is to be placed). *)
Theorem unknown_shape_not_returned :
  forall lib shapeId gridRows gridCols,
    lookup shapeId lib = None ->
    (forall enabledShapes st,
        In shapeId enabledShapes ->
        hasReq "green" (rowReqs st) (colReqs st) || hasReq "blue" (rowReqs st) (colReqs st)
          = true ->
        runSolver lib gridRows gridCols enabledShapes st = None) /\
    (forall shapeCounts st,
        In shapeId (map fst shapeCounts) ->
        hasReq "green" (rowReqs st) (colReqs st) || hasReq "blue" (rowReqs st) (colReqs st)
          = true ->
        runSolverWithShapeCounts lib gridRows gridCols shapeCounts st = None) /\
    (forall shapeCounts blockedCells,
        In shapeId (map fst shapeCounts) ->
        shapeInstancesOf shapeCounts <> [] ->
        runFitAllPiecesSolver lib gridRows gridCols blockedCells shapeCounts = None).
Proof.
  intros lib id R C Hl.
  assert (Hg : forall B, generatePlacementsForShape lib id R C B = None).
  { intros B. unfold generatePlacementsForShape. rewrite Hl. reflexivity. }
  split; [|split].
  - intros ids st Hin Hreq. unfold runSolver.
    destruct (blockedCellsOf R C (gridState st)) as [bl|]; [|reflexivity].
    destruct (hasReq "green" _ _), (hasReq "blue" _ _); try discriminate Hreq;
      cbn [negb andb]; unfold generateAllPlacements;
      rewrite (placementsOfShapes_None _ _ _ _ _ _ Hin (Hg _)); reflexivity.
  - intros counts st Hin Hreq. unfold runSolverWithShapeCounts.
    destruct (blockedCellsOf R C (gridState st)) as [bl|]; [|reflexivity].
    destruct (hasReq "green" _ _), (hasReq "blue" _ _); try discriminate Hreq;
      cbn [negb andb]; cbv zeta;
      rewrite (placementsByShapeOf_None _ _ _ _ _ _ Hin (Hg _)); reflexivity.
  - intros counts bl Hin Hne. unfold runFitAllPiecesSolver.
    destruct (shapeInstancesOf counts) as [|x l] eqn:Ei; [congruence|].
    cbn [List.length Nat.eqb]. cbv zeta.
    rewrite (placementsByShapeOf_None _ _ _ _ _ _ Hin (Hg _)). reflexivity.
Qed.

Lemma unknown_shape_not_returned_witness :
  lookup "no-such-shape" SHAPE_LIBRARY = None /\
  (forall enabledShapes st,
      In "no-such-shape" enabledShapes ->
      hasReq "green" (rowReqs st) (colReqs st) || hasReq "blue" (rowReqs st) (colReqs st)
        = true ->
      runSolver SHAPE_LIBRARY 1 5 enabledShapes st = None) /\
  (forall shapeCounts st,
      In "no-such-shape" (map fst shapeCounts) ->
      hasReq "green" (rowReqs st) (colReqs st) || hasReq "blue" (rowReqs st) (colReqs st)
        = true ->
      runSolverWithShapeCounts SHAPE_LIBRARY 1 5 shapeCounts st = None) /\
  (forall shapeCounts blockedCells,
      In "no-such-shape" (map fst shapeCounts) ->
      shapeInstancesOf shapeCounts <> [] ->
      runFitAllPiecesSolver SHAPE_LIBRARY 1 5 blockedCells shapeCounts = None).
Proof.
  assert (H : lookup "no-such-shape" SHAPE_LIBRARY = None) by (vm_compute; reflexivity).
  split; [exact H|].
  exact (unknown_shape_not_returned SHAPE_LIBRARY "no-such-shape" 1 5 H).
Defined.

(** X14.  Every solution of [runFitAllPiecesSolver] gives each shape instance, in
    the order of the instances, one of the placements
    [generatePlacementsForShape] lists for its shape, and no placement
    touches a cell of an earlier one. *)
Theorem runFitAllPiecesSolver_fits :
  forall lib gridRows gridCols blockedCells shapeCounts sols,
    runFitAllPiecesSolver lib gridRows gridCols blockedCells shapeCounts
      = Some (Success sols) ->
    forall s, In s sols ->
      fitting (fun id => generatePlacementsForShape lib id gridRows gridCols
                           (new_Set blockedCells))
              [] (shapeInstancesOf shapeCounts) (greenPlacements s).
Proof.
  intros lib R C bl counts sols H s Hs.
  destruct (FitAllFacts.runFitAllPiecesSolver_spec _ _ _ _ _ _ H) as (pbs & Hpbs & ->).
  apply FitAllFacts.In_cap in Hs. apply allFits_fitting in Hs.
  destruct Hs as (chosen & Hf & ->). cbn [greenPlacements app].
  apply (fitting_generated _ _ _ _ _ _ _ Hpbs). exact Hf.
Qed.

Lemma runFitAllPiecesSolver_fits_witness :
  runFitAllPiecesSolver SHAPE_LIBRARY 1 4 [] [("line-3", 1)]
    = Some (Success Examples.line_fits) /\
  forall s, In s Examples.line_fits ->
    fitting (fun id => generatePlacementsForShape SHAPE_LIBRARY id 1 4 (new_Set []))
            [] (shapeInstancesOf [("line-3", 1)]) (greenPlacements s).
Proof.
  assert (E : runFitAllPiecesSolver SHAPE_LIBRARY 1 4 [] [("line-3", 1)]
              = Some (Success Examples.line_fits)) by (vm_compute; reflexivity).
  split; [exact E|].
  exact (runFitAllPiecesSolver_fits SHAPE_LIBRARY 1 4 [] [("line-3", 1)]
           Examples.line_fits E).
Defined.

(** X15.  When [runFitAllPiecesSolver] answers that the pieces could not be fitted,
    there is no way to give every instance a placement of its shape without
    two placements sharing a cell. *)
Theorem runFitAllPiecesSolver_failure_is_final :
  forall lib gridRows gridCols blockedCells shapeCounts,
    runFitAllPiecesSolver lib gridRows gridCols blockedCells shapeCounts
      = Some (Failure "Could not fit all pieces on the grid") ->
    forall chosen,
      ~ fitting (fun id => generatePlacementsForShape lib id gridRows gridCols
                             (new_Set blockedCells))
                [] (shapeInstancesOf shapeCounts) chosen.
Proof.
  intros lib R C bl counts H chosen Hf.
  destruct (runFitAllPiecesSolver_failure _ _ _ _ _ H) as (pbs & Hpbs & Hnone).
  apply (fitting_generated _ _ _ _ _ _ _ Hpbs) in Hf.
  assert (Hin : In (mkSolution (flat_map cells ([] ++ chosen)) [] ([] ++ chosen) [])
                   (FitAllFacts.allFits pbs (shapeInstancesOf counts) [] [])).
  { apply allFits_fitting. exists chosen. split; [exact Hf|reflexivity]. }
  rewrite Hnone in Hin. destruct Hin.
Qed.

Lemma runFitAllPiecesSolver_failure_is_final_witness :
  runFitAllPiecesSolver SHAPE_LIBRARY 1 4 [] [("line-3", 2)]
    = Some (Failure "Could not fit all pieces on the grid") /\
  forall chosen,
    ~ fitting (fun id => generatePlacementsForShape SHAPE_LIBRARY id 1 4 (new_Set []))
              [] (shapeInstancesOf [("line-3", 2)]) chosen.
Proof.
  assert (E : runFitAllPiecesSolver SHAPE_LIBRARY 1 4 [] [("line-3", 2)]
              = Some (Failure "Could not fit all pieces on the grid"))
    by (vm_compute; reflexivity).
  split; [exact E|].
  exact (runFitAllPiecesSolver_failure_is_final SHAPE_LIBRARY 1 4 [] [("line-3", 2)] E).
Defined.

End PlacementFacts.

(** ** Turning shapes, comparing them, and the library *)

Module TurnFacts.
Import Shapes.

Lemma fold_max_bounds (xs : list Z) :
  forall x,
    (fold_left Z.max xs x = x \/ In (fold_left Z.max xs x) xs) /\
    x <= fold_left Z.max xs x /\
    Forall (fun y => y <= fold_left Z.max xs x) xs.
Proof.
  induction xs as [|a xs IH]; intros x; simpl.
  - repeat split; auto; lia.
  - destruct (IH (Z.max x a)) as [Hin [Hle Hall]].
    split; [|split].
    + destruct Hin as [E|Hin]; [|auto].
      rewrite E. destruct (Z.max_spec x a) as [[_ E']|[_ E']]; rewrite E'; auto.
    + lia.
    + constructor; [lia|assumption].
Qed.

Lemma Math_max_spec (xs : list Z) (m : Z) :
  Math_max xs = Some m <-> In m xs /\ Forall (fun y => y <= m) xs.
Proof.
  destruct xs as [|x xs]; simpl.
  - split; [discriminate|intros [[] _]].
  - destruct (fold_max_bounds xs x) as [Hin [Hle Hall]]. split.
    + intros E; injection E as <-.
      split; [destruct Hin as [E|Hin]; [left; symmetry; exact E|right; exact Hin]
             |constructor; assumption].
    + intros [Hm Hall']. f_equal.
      set (k := fold_left Z.max xs x) in *.
      assert (m <= k).
      { destruct Hm as [<-|Hm]; [assumption|].
        rewrite Forall_forall in Hall; auto. }
      assert (k <= m).
      { inversion_clear Hall' as [|? ? Hx Hxs].
        destruct Hin as [->|Hin]; [assumption|].
        rewrite Forall_forall in Hxs; auto. }
      lia.
Qed.

Lemma Math_min_sub (l : list Z) (m k : Z) :
  Math_min l = Some m -> Math_min (map (fun x => x - k) l) = Some (m - k).
Proof.
  rewrite !ShapesFacts.Math_min_least. intros [Hin Hall]. split.
  - apply in_map_iff. exists m. split; [reflexivity|assumption].
  - apply Forall_map. eapply Forall_impl; [|exact Hall]. simpl; intros; lia.
Qed.

Lemma Math_max_sub (l : list Z) (m k : Z) :
  Math_max l = Some m -> Math_max (map (fun x => x - k) l) = Some (m - k).
Proof.
  rewrite !Math_max_spec. intros [Hin Hall]. split.
  - apply in_map_iff. exists m. split; [reflexivity|assumption].
  - apply Forall_map. eapply Forall_impl; [|exact Hall]. simpl; intros; lia.
Qed.

Lemma Math_min_neg (l : list Z) (m k : Z) :
  Math_max l = Some m -> Math_min (map (fun x => k - x) l) = Some (k - m).
Proof.
  rewrite Math_max_spec, ShapesFacts.Math_min_least. intros [Hin Hall]. split.
  - apply in_map_iff. exists m. split; [reflexivity|assumption].
  - apply Forall_map. eapply Forall_impl; [|exact Hall]. simpl; intros; lia.
Qed.

Lemma Math_max_neg (l : list Z) (m k : Z) :
  Math_min l = Some m -> Math_max (map (fun x => k - x) l) = Some (k - m).
Proof.
  rewrite Math_max_spec, ShapesFacts.Math_min_least. intros [Hin Hall]. split.
  - apply in_map_iff. exists m. split; [reflexivity|assumption].
  - apply Forall_map. eapply Forall_impl; [|exact Hall]. simpl; intros; lia.
Qed.

(** The least and greatest row and column of a cell list. *)
Definition spans (L : list Cell) (a A b B : Z) : Prop :=
  Math_min (map fst L) = Some a /\ Math_max (map fst L) = Some A /\
  Math_min (map snd L) = Some b /\ Math_max (map snd L) = Some B.

Lemma spans_exists (L : list Cell) : L <> [] -> exists a A b B, spans L a A b B.
Proof.
  destruct L as [|x L]; [congruence|]. intros _. unfold spans. simpl. eauto 10.
Qed.

(** One quarter turn, written with the bounds of the shape. *)
Lemma rotateShape90_turn (L : list Cell) (a A b B : Z) :
  spans L a A b B ->
  rotateShape90 L = map (fun '(r, c) => (c - b, A - r)) L /\
  spans (rotateShape90 L) 0 (B - b) 0 (A - a).
Proof.
  intros (Ha & HA & Hb & HB).
  assert (E : rotateShape90 L = map (fun '(r, c) => (c - b, A - r)) L).
  { unfold rotateShape90.
    assert (H1 : map fst (map (fun '(r, c) => (c, - r)) L) = map snd L).
    { rewrite map_map. apply map_ext. intros [r c]. reflexivity. }
    assert (H2 : map snd (map (fun '(r, c) => (c, - r)) L)
                 = map (fun x => 0 - x) (map fst L)).
    { rewrite !map_map. apply map_ext. intros [r c]. reflexivity. }
    rewrite H1, H2, Hb, (Math_min_neg _ _ 0 HA), map_map.
    apply map_ext. intros [r c]. f_equal; lia. }
  split; [exact E|]. rewrite E. unfold spans.
  assert (F1 : map fst (map (fun '(r, c) => (c - b, A - r)) L)
               = map (fun x => x - b) (map snd L)).
  { rewrite !map_map. apply map_ext. intros [r c]. reflexivity. }
  assert (F2 : map snd (map (fun '(r, c) => (c - b, A - r)) L)
               = map (fun x => A - x) (map fst L)).
  { rewrite !map_map. apply map_ext. intros [r c]. reflexivity. }
  rewrite F1, F2.
  rewrite (Math_min_sub _ _ b Hb), (Math_max_sub _ _ b HB),
          (Math_min_neg _ _ A HA), (Math_max_neg _ _ A Ha).
  repeat split; f_equal; lia.
Qed.

(** The shape moved so that its least row and least column are 0. *)
Definition toOrigin (cells : list Cell) : list Cell :=
  match Math_min (map fst cells), Math_min (map snd cells) with
  | Some a, Some b => map (fun '(r, c) => (r - a, c - b)) cells
  | _, _ => []
  end.

Lemma four_turns (cells : list Cell) :
  rotateShape90 (rotateShape90 (rotateShape90 (rotateShape90 cells))) = toOrigin cells.
Proof.
  destruct cells as [|x cells]; [reflexivity|].
  destruct (spans_exists (x :: cells)) as (a & A & b & B & Hs); [discriminate|].
  set (L := x :: cells) in *.
  destruct (rotateShape90_turn _ _ _ _ _ Hs) as [E1 S1].
  destruct (rotateShape90_turn _ _ _ _ _ S1) as [E2 S2].
  destruct (rotateShape90_turn _ _ _ _ _ S2) as [E3 S3].
  destruct (rotateShape90_turn _ _ _ _ _ S3) as [E4 _].
  rewrite E4, E3, E2, E1, !map_map. unfold toOrigin.
  destruct Hs as (Ha & _ & Hb & _). rewrite Ha, Hb.
  apply map_ext. intros [r c]. f_equal; lia.
Qed.

Lemma rotateShape90_NoDup_iff (cells : list Cell) :
  NoDup (rotateShape90 cells) <-> NoDup cells.
Proof.
  destruct cells as [|x cells]; [split; intros _; constructor|].
  destruct (spans_exists (x :: cells)) as (a & A & b & B & Hs); [discriminate|].
  destruct (rotateShape90_turn _ _ _ _ _ Hs) as [E _]. rewrite E. split.
  - apply NoDup_map_inv.
  - apply Finite.Injective_map_NoDup. intros [r c] [r' c'] [= H1 H2]. f_equal; lia.
Qed.

(** *** [shapesEqual] *)

Lemma set_add_NoDup (s : list Cell) (x : Cell) : NoDup s -> NoDup (set_add s x).
Proof.
  intros H. unfold set_add. destruct (has s x) eqn:E; [exact H|].
  apply NoDup_app; [exact H|constructor; [intros []|constructor]|].
  intros y Hy [<-|[]]. apply has_false in E. contradiction.
Qed.

Lemma new_Set_NoDup (l : list Cell) : NoDup (new_Set l).
Proof.
  unfold new_Set. assert (H : NoDup (@nil Cell)) by constructor. revert H.
  generalize (@nil Cell). induction l as [|x l IH]; intros s Hs; simpl; [exact Hs|].
  apply IH. apply set_add_NoDup. exact Hs.
Qed.

Lemma shapesEqual_spec (shape1 shape2 : list Cell) :
  shapesEqual shape1 shape2 = true <->
  List.length shape1 = List.length shape2 /\
  (forall rc, In rc shape1 <-> In rc shape2).
Proof.
  unfold shapesEqual. split.
  - destruct (Nat.eqb_spec (List.length shape1) (List.length shape2)) as [El|];
      [|discriminate]. cbn [negb].
    destruct (Nat.eqb_spec (List.length (new_Set shape1)) (List.length (new_Set shape2)))
      as [Es|]; [|discriminate]. cbn [negb].
    intros H. rewrite forallb_forall in H. split; [exact El|].
    assert (H12 : incl (new_Set shape1) (new_Set shape2)).
    { intros rc Hrc. apply has_In. exact (H rc Hrc). }
    assert (H21 : incl (new_Set shape2) (new_Set shape1)).
    { apply NoDup_length_incl; [apply new_Set_NoDup|lia|exact H12]. }
    intros rc. rewrite <- (new_Set_In shape1), <- (new_Set_In shape2). split; auto.
  - intros [El Hm]. rewrite El, Nat.eqb_refl. cbn [negb].
    assert (H12 : incl (new_Set shape1) (new_Set shape2)).
    { intros rc. rewrite !new_Set_In. apply Hm. }
    assert (H21 : incl (new_Set shape2) (new_Set shape1)).
    { intros rc. rewrite !new_Set_In. apply Hm. }
    pose proof (NoDup_incl_length (new_Set_NoDup shape1) H12).
    pose proof (NoDup_incl_length (new_Set_NoDup shape2) H21).
    replace (List.length (new_Set shape1)) with (List.length (new_Set shape2)) by lia.
    rewrite Nat.eqb_refl. cbn [negb].
    apply forallb_forall. intros rc Hrc. apply has_In. exact (H12 rc Hrc).
Qed.

Lemma shapesEqual_refl (shape : list Cell) : shapesEqual shape shape = true.
Proof. apply shapesEqual_spec. split; [reflexivity|tauto]. Qed.

(** *** [getAllRotations] *)

Lemma ordered_pairs_snoc {A : Type} (R : A -> A -> Prop) (l : list A) (x : A) :
  ForallOrdPairs R l -> Forall (fun a => R a x) l -> ForallOrdPairs R (l ++ [x]).
Proof.
  induction 1 as [|a l Ha Hl IH]; intros Hx; simpl.
  - constructor; [constructor|constructor].
  - inversion_clear Hx as [|? ? Hax Hlx]. constructor.
    + apply Forall_app. split; [exact Ha|constructor; [exact Hax|constructor]].
    + exact (IH Hlx).
Qed.

(** What the loop of [getAllRotations] keeps, after [n] turns. *)
Definition turned (cells : list Cell) (n : nat) (acc : list (list Cell) * list Cell) : Prop :=
  snd acc = Nat.iter n rotateShape90 cells /\
  (1 <= List.length (fst acc) <= S n)%nat /\
  ForallOrdPairs (fun a b => shapesEqual a b = false) (fst acc) /\
  (forall j, (j <= n)%nat ->
     exists a, In a (fst acc) /\ shapesEqual a (Nat.iter j rotateShape90 cells) = true) /\
  (forall a, In a (fst acc) -> exists j, (j <= n)%nat /\ a = Nat.iter j rotateShape90 cells).

Lemma turned_start (cells : list Cell) : turned cells 0 ([cells], cells).
Proof.
  unfold turned. cbn [fst snd Nat.iter List.length]. split; [reflexivity|].
  split; [lia|]. split; [constructor; [constructor|constructor]|]. split.
  - intros j Hj. replace j with 0%nat by lia. exists cells.
    split; [left; reflexivity|apply shapesEqual_refl].
  - intros a [<-|[]]. exists 0%nat. split; [lia|reflexivity].
Qed.

Lemma turned_step (cells : list Cell) (n : nat) (acc : list (list Cell) * list Cell) :
  turned cells n acc -> turned cells (S n) (rotation_step acc).
Proof.
  destruct acc as [rots cur]. intros (Hc & Hlen & Hord & Hall & Hfrom).
  cbn [fst snd] in *. unfold rotation_step.
  set (cur' := rotateShape90 cur).
  assert (Ecur : cur' = Nat.iter (S n) rotateShape90 cells).
  { subst cur' cur. reflexivity. }
  destruct (existsb (fun existing => shapesEqual existing cur') rots) eqn:Ex;
    cbn [negb fst snd]; unfold turned; cbn [fst snd].
  - split; [exact Ecur|]. split; [lia|]. split; [exact Hord|]. split.
    + intros j Hj. destruct (Nat.eq_dec j (S n)) as [->|Hne].
      * apply existsb_exists in Ex. destruct Ex as (a & Ha & Heq).
        exists a. rewrite <- Ecur. auto.
      * apply Hall. lia.
    + intros a Ha. destruct (Hfrom a Ha) as (j & Hj & E). exists j. split; [lia|exact E].
  - assert (Hnone : Forall (fun a => shapesEqual a cur' = false) rots).
    { apply Forall_forall. intros a Ha.
      destruct (shapesEqual a cur') eqn:E; [|reflexivity].
      assert (existsb (fun existing => shapesEqual existing cur') rots = true)
        by (apply existsb_exists; eauto).
      congruence. }
    split; [exact Ecur|]. split; [rewrite length_app; simpl; lia|].
    split; [apply ordered_pairs_snoc; assumption|]. split.
    + intros j Hj. destruct (Nat.eq_dec j (S n)) as [->|Hne].
      * exists cur'. split; [apply in_app_iff; right; left; reflexivity|].
        rewrite <- Ecur. apply shapesEqual_refl.
      * destruct (Hall j) as (a & Ha & E); [lia|]. exists a.
        split; [apply in_app_iff; left; exact Ha|exact E].
    + intros a Ha. apply in_app_iff in Ha. destruct Ha as [Ha|[<-|[]]].
      * destruct (Hfrom a Ha) as (j & Hj & E). exists j. split; [lia|exact E].
      * exists (S n). split; [lia|exact Ecur].
Qed.

(** *** The library *)

Lemma lookup_fold_assign {A B : Type} (f : B -> A) (defs : list (string * B)) :
  NoDup (map fst defs) ->
  forall (o : list (string * A)) (id : string),
    lookup id (fold_left (fun lib '(k, d) => assign k (f d) lib) defs o)
    = match lookup id defs with Some d => Some (f d) | None => lookup id o end.
Proof.
  induction defs as [|[k d] defs IH]; intros Hnd o id; [reflexivity|].
  inversion_clear Hnd as [|? ? Hk Hrest]. cbn [fold_left lookup].
  rewrite (IH Hrest), ShapesFacts.lookup_assign.
  destruct (String.eqb_spec id k) as [->|Hne]; [|reflexivity].
  rewrite (proj2 (RoundTrip.lookup_None k defs) Hk). reflexivity.
Qed.

Lemma builtin_keys_NoDup : NoDup (map fst SHAPE_DEFINITIONS).
Proof.
  unfold SHAPE_DEFINITIONS. cbn [map fst].
  repeat (constructor;
          [cbn [In]; intros H;
           repeat (destruct H as [H|H]; [discriminate H|]); exact H|]).
  constructor.
Qed.

Lemma delete_all_keys {A : Type} (keys : list string) :
  forall o : list (string * A),
    (forall kv, In kv o -> In (fst kv) keys) ->
    fold_left (fun lib key => delete_key key lib) keys o = [].
Proof.
  induction keys as [|k keys IH]; intros o Ho; cbn [fold_left].
  - destruct o as [|kv o]; [reflexivity|]. destruct (Ho kv (or_introl eq_refl)).
  - apply IH. intros kv Hkv. unfold delete_key in Hkv. apply filter_In in Hkv.
    destruct Hkv as [Hin Hne]. apply negb_true_iff in Hne.
    destruct (Ho kv Hin) as [E|Hk]; [|exact Hk].
    rewrite E, String.eqb_refl in Hne. discriminate Hne.
Qed.

(** *** What the shape functions guarantee *)

(** X1.  Four quarter turns bring every shape back to itself, moved so that its
    least row and least column are 0 (and unchanged when they already
    are). *)
Theorem rotateShape90_four_turns :
  forall cells,
    rotateShape90 (rotateShape90 (rotateShape90 (rotateShape90 cells))) = toOrigin cells /\
    (normalized cells -> toOrigin cells = cells).
Proof.
  intros cells. split; [apply four_turns|].
  intros [Hr Hc]. unfold toOrigin. rewrite Hr, Hc.
  rewrite <- (map_id cells) at 2. apply map_ext. intros [r c]. f_equal; lia.
Qed.

(** X2.  A quarter turn sends the cell (r, c) to (c - minCol, maxRow - r), with
    the bounds [getShapeBounds] gives; it keeps the cells in their order, and
    cells that differ stay different. *)
Theorem rotateShape90_by_bounds :
  forall cells,
    match getShapeBounds cells with
    | Some b => rotateShape90 cells = map (fun '(r, c) => (c - minCol b, maxRow b - r)) cells
    | None => cells = [] /\ rotateShape90 cells = []
    end /\
    (NoDup (rotateShape90 cells) <-> NoDup cells).
Proof.
  intros cells. split; [|apply rotateShape90_NoDup_iff].
  destruct cells as [|x cells]; [split; reflexivity|].
  destruct (spans_exists (x :: cells)) as (a & A & b & B & Hs); [discriminate|].
  destruct (rotateShape90_turn _ _ _ _ _ Hs) as [E _].
  destruct Hs as (Ha & HA & Hb & HB). unfold getShapeBounds.
  rewrite Ha, HA, Hb, HB. cbn [minCol maxRow]. exact E.
Qed.

(** X3.  [shapesEqual] holds exactly when the two lists are equally long and
    hold the same cells, in whatever order. *)
Theorem shapesEqual_same_cells :
  forall shape1 shape2,
    shapesEqual shape1 shape2 = true <->
    List.length shape1 = List.length shape2 /\
    (forall rc, In rc shape1 <-> In rc shape2).
Proof. exact shapesEqual_spec. Qed.

(** X4.  [getAllRotations] returns between one and four lists, each of them the
    shape after 0, 1, 2 or 3 quarter turns; no two of them are equal for
    [shapesEqual], and each of the four turns of the shape is equal, for
    [shapesEqual], to one of them. *)
Theorem getAllRotations_turns :
  forall cells,
    (1 <= List.length (getAllRotations cells) <= 4)%nat /\
    ForallOrdPairs (fun a b => shapesEqual a b = false) (getAllRotations cells) /\
    (forall j, (j <= 3)%nat ->
       exists a, In a (getAllRotations cells) /\
                 shapesEqual a (Nat.iter j rotateShape90 cells) = true) /\
    (forall a, In a (getAllRotations cells) ->
       exists j, (j <= 3)%nat /\ a = Nat.iter j rotateShape90 cells).
Proof.
  intros cells. unfold getAllRotations.
  pose proof (turned_step _ _ _ (turned_step _ _ _ (turned_step _ _ _ (turned_start cells))))
    as (_ & Hlen & Hord & Hall & Hfrom).
  repeat split; try assumption; lia.
Qed.

(** X5.  The bounds of [getShapeBounds] enclose every cell and are reached on
    each side; the height and the width count the rows and the columns
    between them.  The empty list is the only one without bounds. *)
Theorem getShapeBounds_tight :
  forall cells,
    match getShapeBounds cells with
    | Some b =>
        (forall rc, In rc cells ->
           minRow b <= fst rc <= maxRow b /\ minCol b <= snd rc <= maxCol b) /\
        (exists rc, In rc cells /\ fst rc = minRow b) /\
        (exists rc, In rc cells /\ fst rc = maxRow b) /\
        (exists rc, In rc cells /\ snd rc = minCol b) /\
        (exists rc, In rc cells /\ snd rc = maxCol b) /\
        height b = maxRow b - minRow b + 1 /\ width b = maxCol b - minCol b + 1 /\
        1 <= height b /\ 1 <= width b
    | None => cells = []
    end.
Proof.
  intros cells. destruct cells as [|x cells]; [reflexivity|].
  destruct (spans_exists (x :: cells)) as (a & A & b & B & Hs); [discriminate|].
  set (L := x :: cells) in *.
  destruct Hs as (Ha & HA & Hb & HB). unfold getShapeBounds.
  rewrite Ha, HA, Hb, HB. cbn [minRow maxRow minCol maxCol height width].
  apply ShapesFacts.Math_min_least in Ha, Hb. apply Math_max_spec in HA, HB.
  destruct Ha as [Ia Fa], HA as [IA FA], Hb as [Ib Fb], HB as [IB FB].
  rewrite Forall_forall in Fa, FA, Fb, FB.
  assert (Hin : forall (f : Cell -> Z) v, In v (map f L) -> exists rc, In rc L /\ f rc = v).
  { intros f v Hv. apply in_map_iff in Hv. destruct Hv as (rc & E & Hrc). eauto. }
  split.
  { intros rc Hrc.
    pose proof (Fa _ (in_map fst _ _ Hrc)). pose proof (FA _ (in_map fst _ _ Hrc)).
    pose proof (Fb _ (in_map snd _ _ Hrc)). pose proof (FB _ (in_map snd _ _ Hrc)). lia. }
  split; [exact (Hin fst a Ia)|]. split; [exact (Hin fst A IA)|].
  split; [exact (Hin snd b Ib)|]. split; [exact (Hin snd B IB)|].
  split; [reflexivity|]. split; [reflexivity|].
  pose proof (FA _ Ia). pose proof (FB _ Ib). lia.
Qed.

(** X6.  What [buildShapeLibrary] stores under an id: the custom definition of
    that id when there is one, marked custom; otherwise the built-in
    definition, if any.  An entry holds the cells of its definition as the
    base shape, their number, and their rotations. *)
Theorem buildShapeLibrary_lookup :
  forall customShapes id,
    NoDup (map fst customShapes) ->
    lookup id (buildShapeLibrary customShapes)
    = match lookup id customShapes with
      | Some d => Some (mkEntry (def_name d) (def_cells d) (getAllRotations (def_cells d))
                                (Z.of_nat (List.length (def_cells d))) true)
      | None =>
          match lookup id SHAPE_DEFINITIONS with
          | Some d => Some (mkEntry (def_name d) (def_cells d)
                                    (getAllRotations (def_cells d))
                                    (Z.of_nat (List.length (def_cells d))) false)
          | None => None
          end
      end.
Proof.
  intros custom id Hnd. unfold buildShapeLibrary, loadCustomShapesIntoLibrary.
  rewrite (lookup_fold_assign (makeEntry true) custom Hnd).
  rewrite (lookup_fold_assign (makeEntry false) SHAPE_DEFINITIONS builtin_keys_NoDup).
  reflexivity.
Qed.

Lemma buildShapeLibrary_lookup_witness :
  NoDup (map fst [("square-4", mkDef "Bar" [(0, 1); (0, 2)])]) /\
  lookup "square-4" (buildShapeLibrary [("square-4", mkDef "Bar" [(0, 1); (0, 2)])])
  = match lookup "square-4" [("square-4", mkDef "Bar" [(0, 1); (0, 2)])] with
    | Some d => Some (mkEntry (def_name d) (def_cells d) (getAllRotations (def_cells d))
                              (Z.of_nat (List.length (def_cells d))) true)
    | None =>
        match lookup "square-4" SHAPE_DEFINITIONS with
        | Some d => Some (mkEntry (def_name d) (def_cells d)
                                  (getAllRotations (def_cells d))
                                  (Z.of_nat (List.length (def_cells d))) false)
        | None => None
        end
    end.
Proof.
  assert (Hnd : NoDup (map fst [("square-4", mkDef "Bar" [(0, 1); (0, 2)])])).
  { simpl. constructor; [intros []|constructor]. }
  split; [exact Hnd|].
  exact (buildShapeLibrary_lookup [("square-4", mkDef "Bar" [(0, 1); (0, 2)])]
           "square-4" Hnd).
Defined.

(** X7.  [refreshShapeLibrary] leaves the library as [buildShapeLibrary] would
    build it from the same custom shapes, whatever it held before: nothing
    of the former content stays. *)
Theorem refreshShapeLibrary_rebuilds :
  forall customShapes library,
    refreshShapeLibrary customShapes library = buildShapeLibrary customShapes.
Proof.
  intros custom library. unfold refreshShapeLibrary, buildShapeLibrary.
  rewrite (delete_all_keys (map fst library) library); [reflexivity|].
  intros kv Hkv. apply in_map. exact Hkv.
Qed.

End TurnFacts.

(** ** The solver with exact counts finds what [validateSolution] accepts *)

Module CompleteFacts.
Import Shapes Solver Validate ValidateFacts SoundFacts.

(** Every key of [shapeCounts] names a shape of the library. *)
Definition known (lib : ShapeLibrary) (shapeCounts : list (string * Z)) : bool :=
  forallb (fun id => match lookup id lib with Some _ => true | None => false end)
          (map fst shapeCounts).

Lemma meets_due (color : string) (R C : Z) (st : Store) (T : list Placement) :
  meets color (flat_map cells T) R C (rowReqs st) (colReqs st) ->
  ExactFacts.due color (ExactFacts.start R C st) T.
Proof.
  intros [Hr Hc]. unfold ExactFacts.due, ExactFacts.start.
  cbn [rowCounts colCounts rowReqs colReqs].
  exists (map (ExactFacts.tally (map fst (flat_map cells T))) (range (Z.of_nat (Z.to_nat R)))),
         (map (ExactFacts.tally (map snd (flat_map cells T))) (range (Z.of_nat (Z.to_nat C)))).
  split; [apply RoundTrip.shifted_zeros|]. split; [apply RoundTrip.shifted_zeros|]. split.
  - apply RoundTrip.exact_of_get. intros n x Hn. rewrite nth_error_map in Hn.
    destruct (nth_error (range (Z.of_nat (Z.to_nat R))) n) as [r|] eqn:E; [|discriminate].
    injection Hn as <-. apply RoundTrip.nth_error_range in E. destruct E as [-> Hlt].
    destruct (Hr (Z.of_nat n)) as (q & Hq & Hl); [lia|].
    rewrite ExactFacts.get_nth_error in Hq. eauto.
  - apply RoundTrip.exact_of_get. intros n x Hn. rewrite nth_error_map in Hn.
    destruct (nth_error (range (Z.of_nat (Z.to_nat C))) n) as [c|] eqn:E; [|discriminate].
    injection Hn as <-. apply RoundTrip.nth_error_range in E. destruct E as [-> Hlt].
    destruct (Hc (Z.of_nat n)) as (q & Hq & Hl); [lia|].
    rewrite ExactFacts.get_nth_error in Hq. eauto.
Qed.

Lemma offered_free (lib : ShapeLibrary) (R C : Z) (bl : list Cell) (ids : list string)
    (p : Placement) :
  offered lib R C bl ids p -> forall rc, In rc (cells p) -> ~ In rc bl.
Proof.
  intros (_ & ps & Hps & Hp) rc Hrc Hin. unfold generatePlacementsForShape in Hps.
  bind_as Hps e El.
  destruct (PlacementFacts.placementsOfRotations_from _ _ _ _ _ _ _ Hps p Hp)
    as (j & rot & b & row & col & _ & _ & _ & _ & Hfree & Ep).
  rewrite Ep in Hrc. cbn [cells] in Hrc. apply (proj2 (new_Set_In bl rc)) in Hin.
  exact (proj1 (SolverFacts.overlaps_false (new_Set bl)
                  (mkPlacement (shapeId p) 0 (RoundTrip.shiftTo row col rot) []))
           Hfree rc Hrc Hin).
Qed.

Section Candidate.

Variables (lib : ShapeLibrary) (gridRows gridCols : Z) (shapeCounts : list (string * Z))
          (st : Store) (blockedCells : list Cell) (s : Solution).

Hypotheses
  (Hlib : RoundTrip.library_ok lib = true)
  (Hknown : known lib shapeCounts = true)
  (Hrr : List.length (rowReqs st) = Z.to_nat gridRows)
  (Hcr : List.length (colReqs st) = Z.to_nat gridCols)
  (Hbl : blockedCellsOf gridRows gridCols (gridState st) = Some blockedCells)
  (Hg : green s = flat_map cells (greenPlacements s))
  (Hb : blue s = flat_map cells (bluePlacements s))
  (Hoff : Forall (offered lib gridRows gridCols blockedCells (map fst shapeCounts))
                 (greenPlacements s ++ bluePlacements s))
  (Hwithin : within (shapeInstancesOf shapeCounts) s)
  (Hnd : NoDup (green s ++ blue s))
  (Hsome : green s ++ blue s <> [])
  (Hvalid : validateSolution s gridRows gridCols (rowReqs st) (colReqs st)
            = Some (true, [])).

Lemma candidate_found :
  exists res st' greenSolutions,
    runSolverWithShapeCounts lib gridRows gridCols shapeCounts st = Some (res, st') /\
    greenSolutionsWithShapeCounts lib gridRows gridCols shapeCounts st
    = Some greenSolutions /\
    ((List.length greenSolutions < 100)%nat ->
     exists sols,
       res = Success sols /\ sols <> [] /\
       ((List.length sols < 50)%nat ->
        exists s', In s' sols /\
                   ExactFacts.same_cells (green s') (green s) /\
                   ExactFacts.same_cells (blue s') (blue s))).
Proof.
  destruct (proj1 (validateSolution_spec _ _ _ _ _) Hvalid)
    as (HR & HC & Hgin & Hbin & Mg & Mb & Hdisj).
  assert (Hids : forall id, In id (map fst shapeCounts) -> exists e, lookup id lib = Some e).
  { intros id Hid. unfold known in Hknown. rewrite forallb_forall in Hknown.
    specialize (Hknown id Hid). destruct (lookup id lib) as [e|]; [eauto|discriminate]. }
  destruct (RoundTrip.placementsByShapeOf_total lib gridRows gridCols (new_Set blockedCells)
              (map fst shapeCounts)) with (acc := @nil (string * list Placement))
    as [pbs Hpbs].
  { intros id Hid. destruct (Hids _ Hid) as [e He].
    eapply RoundTrip.generatePlacementsForShape_total; eassumption. }
  pose proof (RoundTrip.placementsByShapeOf_lookup _ _ _ _ _ _ _ Hpbs) as Hlook.
  assert (Hgrid : forall l p, Forall (in_bounds gridRows gridCols) (flat_map cells l) ->
                    In p l -> ExactFacts.in_grid (Z.to_nat gridRows) (Z.to_nat gridCols) p).
  { intros l p Hall Hp. unfold ExactFacts.in_grid. rewrite Forall_forall in Hall |- *.
    intros rc Hrc. rewrite !Z2Nat.id by lia. apply Hall. apply in_flat_map. eauto. }
  rewrite Hg in Hgin, Mg. rewrite Hb in Hbin, Mb.
  destruct (ExactFacts.runSolverWithShapeCounts_certified lib gridRows gridCols
              shapeCounts st blockedCells pbs (greenPlacements s) (bluePlacements s))
    as (res & st' & gs & Hrun & Hgs & Hres).
  - exact HR.
  - exact HC.
  - exact Hrr.
  - exact Hcr.
  - exact Hbl.
  - exact Hpbs.
  - unfold ExactFacts.instances_ok. apply Forall_forall. intros id Hid.
    apply RoundTrip.shapeInstancesOf_In in Hid.
    destruct (Hids _ Hid) as [e He].
    destruct (RoundTrip.generatePlacementsForShape_total lib id e gridRows gridCols
                (new_Set blockedCells) Hlib He) as [ps Hps].
    exists ps. split; [rewrite (proj1 (Hlook id) Hid); exact Hps|].
    eapply RoundTrip.generatePlacementsForShape_in_grid; [exact Hlib|lia|lia|exact Hps].
  - intros id. rewrite map_app, count_occ_app. exact (Hwithin id).
  - intros p Hp. rewrite Forall_forall in Hoff.
    destruct (Hoff p Hp) as (Hid & ps & Hps & Hin).
    exists ps. split; [rewrite (proj1 (Hlook _) Hid); exact Hps|exact Hin].
  - rewrite flat_map_app, <- Hg, <- Hb. exact Hnd.
  - intros rc Hrc. apply in_flat_map in Hrc. destruct Hrc as (p & Hp & Hrc).
    rewrite Forall_forall in Hoff. exact (offered_free _ _ _ _ _ _ (Hoff p Hp) rc Hrc).
  - intros _. apply meets_due. exact Mg.
  - apply (ExactFacts.no_requirement_no_cell "green" gridRows gridCols st _
             (meets_due _ _ _ _ _ Mg)).
    intros p Hp. exact (Hgrid _ p Hgin Hp).
  - intros _. apply meets_due. exact Mb.
  - apply (ExactFacts.no_requirement_no_cell "blue" gridRows gridCols st _
             (meets_due _ _ _ _ _ Mb)).
    intros p Hp. exact (Hgrid _ p Hbin Hp).
  - rewrite flat_map_app, <- Hg, <- Hb. exact Hsome.
  - exists res, st', gs. split; [exact Hrun|]. split; [exact Hgs|].
    rewrite <- Hg, <- Hb in Hres. exact Hres.
Qed.

End Candidate.

(** X20.  Whatever [validateSolution] accepts, [runSolverWithShapeCounts] finds,
    below its caps.  Take a candidate made of placements that
    [generatePlacementsForShape] lists for shapes of [shapeCounts], no shape
    more often than [shapeCounts] has it, no cell twice, with some cell, on a
    grid with one requirement per row and column, all shapes of
    [shapeCounts] being in a library of normalized rotations without
    repeated cell.  If [validateSolution] accepts the candidate, the solver
    returns; when its green search has found fewer than 100 solutions it
    answers with solutions, and when these are fewer than 50, one of them has
    the green cells and the blue cells of the candidate. *)
Theorem runSolverWithShapeCounts_finds_valid :
  forall lib gridRows gridCols shapeCounts st blockedCells s,
    RoundTrip.library_ok lib = true ->
    known lib shapeCounts = true ->
    List.length (rowReqs st) = Z.to_nat gridRows ->
    List.length (colReqs st) = Z.to_nat gridCols ->
    blockedCellsOf gridRows gridCols (gridState st) = Some blockedCells ->
    green s = flat_map cells (greenPlacements s) ->
    blue s = flat_map cells (bluePlacements s) ->
    Forall (offered lib gridRows gridCols blockedCells (map fst shapeCounts))
           (greenPlacements s ++ bluePlacements s) ->
    within (shapeInstancesOf shapeCounts) s ->
    NoDup (green s ++ blue s) ->
    green s ++ blue s <> [] ->
    validateSolution s gridRows gridCols (rowReqs st) (colReqs st) = Some (true, []) ->
    exists res st' greenSolutions,
      runSolverWithShapeCounts lib gridRows gridCols shapeCounts st = Some (res, st') /\
      greenSolutionsWithShapeCounts lib gridRows gridCols shapeCounts st
      = Some greenSolutions /\
      ((List.length greenSolutions < 100)%nat ->
       exists sols,
         res = Success sols /\ sols <> [] /\
         ((List.length sols < 50)%nat ->
          exists s', In s' sols /\
                     ExactFacts.same_cells (green s') (green s) /\
                     ExactFacts.same_cells (blue s') (blue s))).
Proof.
  intros lib gridRows gridCols shapeCounts st blockedCells s.
  exact (candidate_found lib gridRows gridCols shapeCounts st blockedCells s).
Qed.

Lemma runSolverWithShapeCounts_finds_valid_witness :
  (RoundTrip.library_ok SHAPE_LIBRARY = true /\
   known SHAPE_LIBRARY [("line-3", 1)] = true /\
   List.length (rowReqs Examples.strip_store) = Z.to_nat 1 /\
   List.length (colReqs Examples.strip_store) = Z.to_nat 5 /\
   blockedCellsOf 1 5 (gridState Examples.strip_store) = Some [(0, 4)] /\
   green Examples.strip_candidate
   = flat_map cells (greenPlacements Examples.strip_candidate) /\
   blue Examples.strip_candidate
   = flat_map cells (bluePlacements Examples.strip_candidate) /\
   Forall (offered SHAPE_LIBRARY 1 5 [(0, 4)] (map fst [("line-3", 1)]))
          (greenPlacements Examples.strip_candidate
           ++ bluePlacements Examples.strip_candidate) /\
   within (shapeInstancesOf [("line-3", 1)]) Examples.strip_candidate /\
   NoDup (green Examples.strip_candidate ++ blue Examples.strip_candidate) /\
   green Examples.strip_candidate ++ blue Examples.strip_candidate <> [] /\
   validateSolution Examples.strip_candidate 1 5 (rowReqs Examples.strip_store)
     (colReqs Examples.strip_store) = Some (true, [])) /\
  exists res st' greenSolutions,
    runSolverWithShapeCounts SHAPE_LIBRARY 1 5 [("line-3", 1)] Examples.strip_store
    = Some (res, st') /\
    greenSolutionsWithShapeCounts SHAPE_LIBRARY 1 5 [("line-3", 1)] Examples.strip_store
    = Some greenSolutions /\
    ((List.length greenSolutions < 100)%nat ->
     exists sols,
       res = Success sols /\ sols <> [] /\
       ((List.length sols < 50)%nat ->
        exists s', In s' sols /\
                   ExactFacts.same_cells (green s') (green Examples.strip_candidate) /\
                   ExactFacts.same_cells (blue s') (blue Examples.strip_candidate))).
Proof.
  assert (H1 : RoundTrip.library_ok SHAPE_LIBRARY = true) by (vm_compute; reflexivity).
  assert (H2 : known SHAPE_LIBRARY [("line-3", 1)] = true) by (vm_compute; reflexivity).
  assert (H3 : List.length (rowReqs Examples.strip_store) = Z.to_nat 1) by reflexivity.
  assert (H4 : List.length (colReqs Examples.strip_store) = Z.to_nat 5) by reflexivity.
  assert (H5 : blockedCellsOf 1 5 (gridState Examples.strip_store) = Some [(0, 4)])
    by (vm_compute; reflexivity).
  assert (H6 : green Examples.strip_candidate
               = flat_map cells (greenPlacements Examples.strip_candidate)) by reflexivity.
  assert (H7 : blue Examples.strip_candidate
               = flat_map cells (bluePlacements Examples.strip_candidate)) by reflexivity.
  assert (H8 : Forall (offered SHAPE_LIBRARY 1 5 [(0, 4)] (map fst [("line-3", 1)]))
                      (greenPlacements Examples.strip_candidate
                       ++ bluePlacements Examples.strip_candidate)).
  { constructor; [|constructor]. split; [left; reflexivity|].
    eexists. split; [vm_compute; reflexivity|]. left. reflexivity. }
  assert (H9 : within (shapeInstancesOf [("line-3", 1)]) Examples.strip_candidate).
  { intros id. change (shapeInstancesOf [("line-3", 1)]) with ["line-3"].
    unfold Examples.strip_candidate.
    cbn [greenPlacements bluePlacements map shapeId count_occ].
    destruct (string_dec "line-3" id); lia. }
  assert (H10 : NoDup (green Examples.strip_candidate ++ blue Examples.strip_candidate))
    by (apply RoundTrip.nodupb_spec; vm_compute; reflexivity).
  assert (H11 : green Examples.strip_candidate ++ blue Examples.strip_candidate <> [])
    by discriminate.
  assert (H12 : validateSolution Examples.strip_candidate 1 5
                  (rowReqs Examples.strip_store) (colReqs Examples.strip_store)
                = Some (true, [])) by (vm_compute; reflexivity).
  split; [repeat split; assumption|].
  exact (runSolverWithShapeCounts_finds_valid SHAPE_LIBRARY 1 5 [("line-3", 1)]
           Examples.strip_store [(0, 4)] Examples.strip_candidate
           H1 H2 H3 H4 H5 H6 H7 H8 H9 H10 H11 H12).
Defined.

End CompleteFacts.

(** ** What a generated puzzle looks like *)

Module PuzzleFacts.
Import Shapes Solver Generator Validate.

Lemma generate_attempt (lib : ShapeLibrary) (config : RawConfig) (attempts : nat)
    (rnd : list Z) (puzzle : Puzzle) :
  generate lib config attempts rnd = Some (Some puzzle) ->
  exists rnd1 rnd2,
    _attemptGeneration lib (configOf lib config) rnd1 = Some (Generated puzzle, rnd2).
Proof. unfold generate. apply GeneratorFacts.generateLoop_attempt. Qed.

(** The candidate that [validateSolution] is given for a puzzle: its own
    solution, in green and in blue. *)
Definition ownSolution (puzzle : Puzzle) : Solution :=
  mkSolution (RoundTrip.cellsFor "green" puzzle) (RoundTrip.cellsFor "blue" puzzle)
             (map RoundTrip.toPlacement (RoundTrip.placementsFor "green" puzzle))
             (map RoundTrip.toPlacement (RoundTrip.placementsFor "blue" puzzle)).

Section Generated.

Variables (lib : ShapeLibrary) (cfg : Config) (puzzle : Puzzle) (rnd rnd' : list Z).

Hypotheses
  (Hlib : RoundTrip.library_ok lib = true)
  (Hgen : _attemptGeneration lib cfg rnd = Some (Generated puzzle, rnd')).

Let R := Z.to_nat (gridRows cfg).
Let C := Z.to_nat (gridCols cfg).

Lemma attempt_layout :
  RoundTrip.shaped R C (grid puzzle) /\
  (forall k, In k (map fst (shapes puzzle)) <-> In k (colors cfg)) /\
  (forall k gps, lookup k (shapes puzzle) = Some gps ->
     gps <> [] /\
     Forall (RoundTrip.genuine lib (Z.of_nat R) (Z.of_nat C)) gps /\
     NoDup (flat_map gp_cells gps) /\
     lookup k (solution puzzle) = Some (flat_map gp_cells gps)) /\
  (forall rc k, SolverFacts.stateAt (grid puzzle) rc = Some (FilledWith k) <->
                exists cells, lookup k (solution puzzle) = Some cells /\ In rc cells).
Proof.
  destruct (RoundTrip._attemptGeneration_layout _ _ _ _ _ Hlib Hgen)
    as ((Hg & Hgps & Hfill & Hsol) & Hkeys).
  split; [exact Hg|]. split; [exact Hkeys|]. split.
  - intros k gps Hl. destruct (Hgps k gps Hl) as (H1 & H2 & H3).
    repeat split; try assumption. rewrite Hsol, Hl. reflexivity.
  - intros rc k. unfold RoundTrip.filled in Hfill. rewrite Hfill. split.
    + intros (gps & Hl & Hin). exists (flat_map gp_cells gps).
      split; [rewrite Hsol, Hl; reflexivity|exact Hin].
    + intros (cells & Hl & Hin). rewrite Hsol in Hl.
      destruct (lookup k (shapes puzzle)) as [gps|]; [|discriminate].
      injection Hl as <-. eauto.
Qed.

Hypotheses
  (Hpal : NoDup (colors cfg))
  (Hgreen : In "green" (colors cfg)) (Hblue : In "blue" (colors cfg))
  (Hfree : RoundTrip.lock_free (grid puzzle) = true).

Lemma attempt_validates (rows cols : Z) :
  dims (grid puzzle) = Some (rows, cols) ->
  validateSolution (ownSolution puzzle) rows cols
    (req_rows (requirements puzzle)) (req_cols (requirements puzzle)) = Some (true, []).
Proof.
  intros Hd.
  destruct (RoundTrip._attemptGeneration_layout _ _ _ _ _ Hlib Hgen) as (Hlay & Hkeys).
  pose proof (GeneratorFacts._attemptGeneration_requirements _ _ _ _ _ Hgen) as Hreq.
  destruct (RoundTrip.dims_shaped _ _ _ _ _ (proj1 Hlay) Hd) as (-> & -> & HposR).
  assert (Hcol : forall k, In k (colors cfg) ->
            Forall (ValidateFacts.in_bounds (Z.of_nat R) (Z.of_nat C))
                   (RoundTrip.cellsFor k puzzle) /\
            ValidateFacts.meets k (RoundTrip.cellsFor k puzzle) (Z.of_nat R) (Z.of_nat C)
              (req_rows (requirements puzzle)) (req_cols (requirements puzzle)) /\
            forall rc, In rc (RoundTrip.cellsFor k puzzle) ->
                       RoundTrip.filled (grid puzzle) k rc).
  { intros k Hk.
    destruct (RoundTrip.layout_colour lib R C puzzle k Hlib Hlay)
      as (_ & _ & Hin & Hsol & _).
    rewrite Hsol. split; [|split].
    - apply Forall_forall. intros rc Hrc. apply Hin in Hrc.
      exact (RoundTrip.stateAt_inside _ _ _ _ _ (proj1 Hlay) Hrc).
    - pose proof (RoundTrip.generated_due lib cfg puzzle Hlib Hpal Hlay Hreq Hfree k Hk)
        as Hdue.
      apply (SoundFacts.due_start k (Z.of_nat R) (Z.of_nat C) (RoundTrip.storeOf puzzle))
        in Hdue; [|lia|lia].
      rewrite RoundTrip.cells_toPlacement in Hdue. exact Hdue.
    - intros rc Hrc. apply Hin. exact Hrc. }
  destruct (Hcol "green" Hgreen) as (Gin & Gm & Gf).
  destruct (Hcol "blue" Hblue) as (Bin & Bm & Bf).
  apply ValidateFacts.validateSolution_spec. cbn [ownSolution green blue].
  split; [lia|]. split; [lia|]. split; [exact Gin|]. split; [exact Bin|].
  split; [exact Gm|]. split; [exact Bm|].
  intros rc Hg Hb. apply Gf in Hg. apply Bf in Hb. unfold RoundTrip.filled in Hg, Hb.
  rewrite Hg in Hb. discriminate Hb.
Qed.

End Generated.

(** *** The budget *)

(** The cells of the shapes selected for one colour, and for all. *)
Definition cellsOf (shapes : list SelectedShape) : Z :=
  fold_right Z.add 0 (map sel_cellCount shapes).

Definition planned (colorShapes : list (string * list SelectedShape)) : Z :=
  fold_right Z.add 0 (map (fun e => cellsOf (snd e)) colorShapes).

Lemma cellsOf_app (a b : list SelectedShape) : cellsOf (a ++ b) = cellsOf a + cellsOf b.
Proof.
  unfold cellsOf. induction a as [|x a IH]; cbn [app map fold_right]; [lia|].
  rewrite IH. lia.
Qed.

Lemma planned_app (a b : list (string * list SelectedShape)) :
  planned (a ++ b) = planned a + planned b.
Proof.
  unfold planned. induction a as [|x a IH]; cbn [app map fold_right]; [lia|].
  rewrite IH. lia.
Qed.

Lemma assign_fresh {A : Type} (k : string) (v : A) (o : list (string * A)) :
  ~ In k (map fst o) -> assign k v o = o ++ [(k, v)].
Proof.
  induction o as [|[k' w] o IH]; intros Hk; [reflexivity|]. cbn [assign app].
  destruct (String.eqb_spec k k') as [->|Hne].
  - exfalso. apply Hk. left. reflexivity.
  - rewrite IH; [reflexivity|]. intros Hin. apply Hk. right. exact Hin.
Qed.

Lemma selectLoop_sum (lib : ShapeLibrary) (pool : list string) (rnd : list Z) :
  forall remaining shapes shapes' remaining' rnd',
    selectLoop lib pool remaining shapes rnd = Some (shapes', remaining', rnd') ->
    cellsOf shapes' + remaining' = cellsOf shapes + remaining /\
    ((shapes' = shapes /\ remaining' = remaining) \/ 0 <= remaining').
Proof.
  induction rnd as [|x|x y rnd IH] using RoundTrip.list_ind2;
    intros remaining shapes shapes' remaining' rnd' H; simpl in H.
  - destruct (remaining <=? 0); [injection H as <- <- _; auto|].
    destruct (_ =? _)%nat; [injection H as <- <- _; auto|discriminate].
  - destruct (remaining <=? 0); [injection H as <- <- _; auto|].
    destruct (_ =? _)%nat; [injection H as <- <- _; auto|discriminate].
  - destruct (remaining <=? 0); [injection H as <- <- _; auto|].
    destruct (_ =? _)%nat; [injection H as <- <- _; auto|].
    bind_as H shapeId Ei. bind_as H shape El.
    assert (Hle : cellCount shape <= remaining).
    { unfold get in Ei. destruct (_ <? 0); [discriminate|]. apply nth_error_In in Ei.
      apply filter_In in Ei. destruct Ei as [_ Ei]. rewrite El in Ei.
      apply Z.leb_le. exact Ei. }
    destruct (IH _ _ _ _ _ H) as [Hsum Hrem].
    rewrite cellsOf_app in Hsum. unfold cellsOf at 3 in Hsum.
    cbn [map fold_right sel_cellCount] in Hsum. split; [lia|].
    right. destruct Hrem as [[_ ->]|Hpos]; lia.
Qed.

Lemma selectColors_sum (lib : ShapeLibrary) (pool : list string)
    (budgets : list (string * Z)) (b : Z) (cs : list string) :
  forall sel rnd sel' rnd',
    selectColors lib pool budgets cs sel rnd = Some (sel', rnd') ->
    sel_success sel' = true ->
    NoDup cs ->
    (forall k, In k cs -> ~ In k (map fst (colorShapes sel))) ->
    (forall k, In k cs -> lookup k budgets = Some b) ->
    planned (colorShapes sel') + sel_totalRemainder sel'
    = planned (colorShapes sel) + sel_totalRemainder sel + Z.of_nat (List.length cs) * b /\
    sel_totalRemainder sel <= sel_totalRemainder sel'.
Proof.
  induction cs as [|color cs IH]; intros sel rnd sel' rnd' H Hok Hnd Hfresh Hb; simpl in H.
  - injection H as <- _. cbn [List.length]. lia.
  - inversion_clear Hnd as [|? ? Hc Hcs].
    rewrite (Hb color (or_introl eq_refl)) in H.
    bind_as H r Er. destruct r as [[shapes remaining1] rnd1].
    destruct (List.length shapes =? 0)%nat eqn:El.
    + injection H as <- _. discriminate Hok.
    + destruct (selectLoop_sum _ _ _ _ _ _ _ _ Er) as [Hsum Hrem].
      assert (Hpos : 0 <= remaining1).
      { destruct Hrem as [[-> _]|Hpos]; [discriminate El|exact Hpos]. }
      destruct (IH _ _ _ _ H Hok Hcs) as [Hs Hle].
      * intros k Hk. cbn [colorShapes]. rewrite RoundTrip.assign_keys.
        intros [->|Hin]; [contradiction|].
        exact (Hfresh k (or_intror Hk) Hin).
      * intros k Hk. apply Hb. right. exact Hk.
      * cbn [colorShapes sel_totalRemainder] in Hs, Hle.
        rewrite (assign_fresh _ _ _ (Hfresh color (or_introl eq_refl))), planned_app in Hs.
        unfold planned at 3 in Hs. cbn [map fold_right snd] in Hs.
        unfold cellsOf at 2 in Hsum. cbn [map fold_right] in Hsum.
        cbn [List.length]. split; lia.
Qed.

Lemma lookup_fold_const (cs : list string) (v : Z) (k : string) :
  forall d, In k cs ->
    lookup k (fold_left (fun acc color => assign color v acc) cs d) = Some v.
Proof.
  induction cs as [|c cs IH]; intros d Hk; [destruct Hk|]. cbn [fold_left].
  destruct (in_dec string_dec k cs) as [Hin|Hout]; [exact (IH _ Hin)|].
  destruct Hk as [->|Hk]; [|contradiction].
  clear IH. revert d. induction cs as [|c cs IH]; intros d; cbn [fold_left].
  - rewrite ShapesFacts.lookup_assign, String.eqb_refl. reflexivity.
  - assert (Hne : k <> c) by (intros ->; apply Hout; left; reflexivity).
    assert (Hout' : ~ In k cs) by (intros H; apply Hout; right; exact H).
    specialize (IH Hout').
    assert (Hgen : forall d', lookup k d' = Some v ->
              lookup k (fold_left (fun acc color => assign color v acc) cs d') = Some v).
    { clear - Hout'. induction cs as [|c' cs IH']; intros d' Hd'; [exact Hd'|].
      cbn [fold_left]. apply IH'; [intros H; apply Hout'; right; exact H|].
      rewrite ShapesFacts.lookup_assign. destruct (String.eqb k c'); [reflexivity|exact Hd']. }
    apply Hgen. rewrite ShapesFacts.lookup_assign.
    destruct (String.eqb_spec k c) as [E|_]; [contradiction|].
    rewrite ShapesFacts.lookup_assign, String.eqb_refl. reflexivity.
Qed.

(** *** The locks of each colour *)

Definition total (d : list (string * Z)) : Z := fold_right Z.add 0 (map snd d).

Lemma total_app (a b : list (string * Z)) : total (a ++ b) = total a + total b.
Proof.
  unfold total. induction a as [|x a IH]; cbn [app map fold_right]; [lia|].
  rewrite IH. lia.
Qed.





(** *** The empty cells *)

Lemma isEmptyAt_spec (g : Grid) (r c : Z) (e : bool) :
  isEmptyAt g r c = Some e ->
  (e = true <-> SolverFacts.stateAt g (r, c) = Some Empty).
Proof.
  unfold isEmptyAt, SolverFacts.stateAt. cbn [fst snd].
  destruct (get g r) as [row|]; [|discriminate]. intros [= <-].
  destruct (get row c) as [[| | |]|]; split; intros H; try discriminate; reflexivity.
Qed.

Lemma empty_row_scan (g : Grid) (r : Z) (l : list Z) :
  forall acc res,
    foldM (fun acc c =>
             e <- isEmptyAt g r c ;;
             Some (if e then acc ++ [(r, c)] else acc)) l acc = Some res ->
    exists extra, res = acc ++ extra /\
      (forall rc, In rc extra <->
                  fst rc = r /\ In (snd rc) l /\ SolverFacts.stateAt g rc = Some Empty) /\
      (NoDup l -> NoDup extra).
Proof.
  induction l as [|c l IH]; intros acc res H; cbn [foldM] in H.
  - injection H as <-. exists []. rewrite app_nil_r. split; [reflexivity|].
    split; [|constructor]. intros rc. split; [intros []|intros (_ & [] & _)].
  - bind_as H acc' E. bind_as E e Ee. injection E as <-.
    destruct (IH _ _ H) as (extra & -> & Hex & Hnd). clear IH H.
    pose proof (isEmptyAt_spec _ _ _ _ Ee) as He.
    destruct e.
    + exists ((r, c) :: extra). rewrite <- app_assoc. split; [reflexivity|]. split.
      * intros rc. cbn [In]. rewrite Hex. split.
        -- intros [<-|(Hr & Hc & Hs)]; cbn [fst snd].
           ++ split; [reflexivity|]. split; [left; reflexivity|]. apply He. reflexivity.
           ++ auto.
        -- intros (Hr & [Hc|Hc] & Hs); [left|right; auto].
           destruct rc as [a b]. cbn [fst snd] in *. congruence.
      * intros Hl. inversion_clear Hl as [|? ? Hc Hl']. constructor; [|exact (Hnd Hl')].
        intros Hin. apply Hex in Hin. cbn [snd] in Hin. tauto.
    + exists extra. split; [reflexivity|]. split.
      * intros rc. rewrite Hex. split.
        -- intros (Hr & Hc & Hs). cbn [In]. auto.
        -- intros (Hr & [Hc|Hc] & Hs); [|auto].
           destruct rc as [a b]. cbn [fst snd] in *. subst a b.
           apply He in Hs. discriminate Hs.
      * intros Hl. inversion_clear Hl as [|? ? _ Hl']. exact (Hnd Hl').
Qed.

Lemma empty_rows_scan (g : Grid) (cols : list Z) (l : list Z) :
  forall acc res,
    foldM (fun acc r =>
             foldM (fun acc c =>
                      e <- isEmptyAt g r c ;;
                      Some (if e then acc ++ [(r, c)] else acc)) cols acc) l acc
      = Some res ->
    exists extra, res = acc ++ extra /\
      (forall rc, In rc extra <->
                  In (fst rc) l /\ In (snd rc) cols /\
                  SolverFacts.stateAt g rc = Some Empty) /\
      (NoDup l -> NoDup cols -> NoDup extra).
Proof.
  induction l as [|r l IH]; intros acc res H; cbn [foldM] in H.
  - injection H as <-. exists []. rewrite app_nil_r. split; [reflexivity|].
    split; [|constructor]. intros rc. split; [intros []|intros ([] & _)].
  - bind_as H acc1 E.
    destruct (empty_row_scan _ _ _ _ _ E) as (e1 & -> & H1 & N1).
    destruct (IH _ _ H) as (e2 & -> & H2 & N2). clear IH H E.
    exists (e1 ++ e2). rewrite <- app_assoc. split; [reflexivity|]. split.
    + intros rc. rewrite in_app_iff, H1, H2. cbn [In]. split.
      * intros [(Hr & Hc & Hs)|(Hr & Hc & Hs)]; auto.
      * intros ([Hr|Hr] & Hc & Hs); [left|right]; auto.
    + intros Hl Hc. inversion_clear Hl as [|? ? Hr Hl']. apply NoDup_app.
      * exact (N1 Hc).
      * exact (N2 Hl' Hc).
      * intros rc Hin1 Hin2. apply H1 in Hin1. apply H2 in Hin2.
        destruct Hin1 as (E1 & _). destruct Hin2 as (E2 & _). congruence.
Qed.

Lemma emptyCellsOf_spec (R C : nat) (g : Grid) (cells : list Cell) :
  RoundTrip.shaped R C g -> emptyCellsOf g = Some cells ->
  NoDup cells /\
  forall rc, In rc cells <-> SolverFacts.stateAt g rc = Some Empty.
Proof.
  intros Hg H. unfold emptyCellsOf in H. destruct g as [|row0 g'].
  - injection H as <-. split; [constructor|]. intros rc. split; [intros []|].
    unfold SolverFacts.stateAt, get. destruct (_ <? 0); [discriminate|].
    destruct (Z.to_nat (fst rc)); discriminate.
  - set (g := row0 :: g') in *.
    destruct (empty_rows_scan _ _ _ _ _ H) as (extra & -> & Hex & Hnd).
    cbn [app]. split; [apply Hnd; apply RoundTrip.range_NoDup|].
    intros rc. rewrite Hex, !range_In. split; [tauto|]. intros Hs.
    destruct (RoundTrip.stateAt_inside _ _ _ _ _ Hg Hs) as [Hr Hc].
    destruct Hg as [HR HC]. inversion_clear HC as [|? ? Hrow0 _].
    rewrite Hrow0. fold g. rewrite HR. tauto.
Qed.

Lemma replace_nth_length {A : Type} (l : list A) (n : nat) (v : A) (l' : list A) :
  replace_nth l n v = Some l' -> List.length l' = List.length l.
Proof. intros H. exact (proj1 (RoundTrip.replace_nth_spec _ _ _ _ H)). Qed.

Lemma swap_keeps (l : list Cell) (i j : Z) (l' : list Cell) :
  swap l i j = Some l' ->
  List.length l' = List.length l /\ incl l l'.
Proof.
  unfold swap. intros H. bind_as H a Ea. bind_as H b Eb. bind_as H l1 E1.
  destruct (RoundTrip.replace_nth_spec _ _ _ _ E1) as (L1 & N1 & O1).
  destruct (RoundTrip.replace_nth_spec _ _ _ _ H) as (L2 & N2 & O2).
  split; [congruence|]. intros x Hx.
  apply In_nth_error in Hx. destruct Hx as [m Hm].
  unfold get in Ea, Eb. destruct (i <? 0); [discriminate|]. destruct (j <? 0); [discriminate|].
  destruct (Nat.eq_dec m (Z.to_nat j)) as [Ej|Nj].
  - (* x = b: it is now at i, or still at j when i = j *)
    subst m. rewrite Hm in Eb. injection Eb as <-.
    destruct (Nat.eq_dec (Z.to_nat i) (Z.to_nat j)) as [Eij|Nij].
    + rewrite Eij in Ea. rewrite Hm in Ea. injection Ea as <-.
      eapply nth_error_In. exact N2.
    + eapply nth_error_In. rewrite (O2 _ Nij). exact N1.
  - destruct (Nat.eq_dec m (Z.to_nat i)) as [Ei|Ni].
    + subst m. rewrite Hm in Ea. injection Ea as <-. eapply nth_error_In. exact N2.
    + eapply nth_error_In. rewrite (O2 _ Nj), (O1 _ Ni). exact Hm.
Qed.

Lemma shuffle_keeps (n : nat) :
  forall l rnd l' rnd',
    shuffle n l rnd = Some (l', rnd') ->
    List.length l' = List.length l /\ incl l l'.
Proof.
  induction n as [|n IH]; intros l rnd l' rnd' H; simpl in H.
  - injection H as <- _. split; [reflexivity|apply incl_refl].
  - destruct rnd as [|y rnd1]; [discriminate|]. bind_as H l1 E.
    destruct (swap_keeps _ _ _ _ E) as [L1 I1]. destruct (IH _ _ _ _ H) as [L2 I2].
    split; [congruence|]. eapply incl_tran; eassumption.
Qed.

(** *** What the generator guarantees *)

(** X21.  The layout of every puzzle [generate] returns, for a library of
    normalized rotations without repeated cell: the grid has the rows and
    columns of the configuration; [shapes] has the colours of the palette as
    keys; under every colour there is at least one placement, each a rotation
    of a library shape moved to a position inside the grid, no cell belongs
    to two placements of the colour, and [solution] holds their cells in
    order; a cell of the grid holds a colour exactly when it is in the
    solution of that colour. *)
Theorem generate_layout :
  forall lib config attempts rnd puzzle,
    RoundTrip.library_ok lib = true ->
    generate lib config attempts rnd = Some (Some puzzle) ->
    RoundTrip.shaped (Z.to_nat (gridRows (configOf lib config)))
                     (Z.to_nat (gridCols (configOf lib config))) (grid puzzle) /\
    (forall k, In k (map fst (shapes puzzle)) <-> In k (colors (configOf lib config))) /\
    (forall k gps, lookup k (shapes puzzle) = Some gps ->
       gps <> [] /\
       Forall (RoundTrip.genuine lib
                 (Z.of_nat (Z.to_nat (gridRows (configOf lib config))))
                 (Z.of_nat (Z.to_nat (gridCols (configOf lib config))))) gps /\
       NoDup (flat_map gp_cells gps) /\
       lookup k (solution puzzle) = Some (flat_map gp_cells gps)) /\
    (forall rc k, SolverFacts.stateAt (grid puzzle) rc = Some (FilledWith k) <->
                  exists cells, lookup k (solution puzzle) = Some cells /\ In rc cells).
Proof.
  intros lib config attempts rnd puzzle Hlib H.
  destruct (generate_attempt _ _ _ _ _ H) as (rnd1 & rnd2 & Hgen).
  exact (attempt_layout lib _ puzzle rnd1 rnd2 Hlib Hgen).
Qed.

Lemma generate_layout_witness :
  (RoundTrip.library_ok SHAPE_LIBRARY = true /\
   generate SHAPE_LIBRARY Examples.default_config 1 Examples.default_draws
     = Some (Some Examples.default_puzzle)) /\
  (RoundTrip.shaped
     (Z.to_nat (gridRows (configOf SHAPE_LIBRARY Examples.default_config)))
     (Z.to_nat (gridCols (configOf SHAPE_LIBRARY Examples.default_config)))
     (grid Examples.default_puzzle) /\
   (forall k, In k (map fst (shapes Examples.default_puzzle)) <->
              In k (colors (configOf SHAPE_LIBRARY Examples.default_config))) /\
   (forall k gps, lookup k (shapes Examples.default_puzzle) = Some gps ->
      gps <> [] /\
      Forall (RoundTrip.genuine SHAPE_LIBRARY
                (Z.of_nat (Z.to_nat (gridRows (configOf SHAPE_LIBRARY
                                                 Examples.default_config))))
                (Z.of_nat (Z.to_nat (gridCols (configOf SHAPE_LIBRARY
                                                 Examples.default_config))))) gps /\
      NoDup (flat_map gp_cells gps) /\
      lookup k (solution Examples.default_puzzle) = Some (flat_map gp_cells gps)) /\
   (forall rc k,
      SolverFacts.stateAt (grid Examples.default_puzzle) rc = Some (FilledWith k) <->
      exists cells, lookup k (solution Examples.default_puzzle) = Some cells /\
                    In rc cells)).
Proof.
  assert (Hlib : RoundTrip.library_ok SHAPE_LIBRARY = true) by (vm_compute; reflexivity).
  assert (Hg : generate SHAPE_LIBRARY Examples.default_config 1 Examples.default_draws
               = Some (Some Examples.default_puzzle)) by (vm_compute; reflexivity).
  split; [split; assumption|].
  exact (generate_layout SHAPE_LIBRARY Examples.default_config 1 Examples.default_draws
           Examples.default_puzzle Hlib Hg).
Defined.

(** X22.  A generated puzzle whose grid holds no locked cell passes
    [validateSolution] with its own solution: given the green and the blue
    cells of [solution], the size of the grid and the requirements of the
    puzzle, the answer is valid, with no error.  The palette is taken without
    repeated colour and with green and blue in it. *)
Theorem generate_solution_validates :
  forall lib config attempts rnd puzzle rows cols,
    RoundTrip.library_ok lib = true ->
    generate lib config attempts rnd = Some (Some puzzle) ->
    NoDup (colors (configOf lib config)) ->
    In "green" (colors (configOf lib config)) ->
    In "blue" (colors (configOf lib config)) ->
    RoundTrip.lock_free (grid puzzle) = true ->
    dims (grid puzzle) = Some (rows, cols) ->
    validateSolution (ownSolution puzzle) rows cols
      (req_rows (requirements puzzle)) (req_cols (requirements puzzle)) = Some (true, []).
Proof.
  intros lib config attempts rnd puzzle rows cols Hlib H Hpal Hgreen Hblue Hfree Hd.
  destruct (generate_attempt _ _ _ _ _ H) as (rnd1 & rnd2 & Hgen).
  exact (attempt_validates lib _ puzzle rnd1 rnd2 Hlib Hgen Hpal Hgreen Hblue Hfree
           rows cols Hd).
Qed.

Lemma generate_solution_validates_witness :
  (RoundTrip.library_ok SHAPE_LIBRARY = true /\
   generate SHAPE_LIBRARY Examples.default_config 1 Examples.default_draws
     = Some (Some Examples.default_puzzle) /\
   NoDup (colors (configOf SHAPE_LIBRARY Examples.default_config)) /\
   In "green" (colors (configOf SHAPE_LIBRARY Examples.default_config)) /\
   In "blue" (colors (configOf SHAPE_LIBRARY Examples.default_config)) /\
   RoundTrip.lock_free (grid Examples.default_puzzle) = true /\
   dims (grid Examples.default_puzzle) = Some (5, 5)) /\
  validateSolution (ownSolution Examples.default_puzzle) 5 5
    (req_rows (requirements Examples.default_puzzle))
    (req_cols (requirements Examples.default_puzzle)) = Some (true, []).
Proof.
  assert (Hlib : RoundTrip.library_ok SHAPE_LIBRARY = true) by (vm_compute; reflexivity).
  assert (Hg : generate SHAPE_LIBRARY Examples.default_config 1 Examples.default_draws
               = Some (Some Examples.default_puzzle)) by (vm_compute; reflexivity).
  assert (Hnd : NoDup (colors (configOf SHAPE_LIBRARY Examples.default_config))).
  { simpl. constructor; [simpl; intros [E|[]]; discriminate E|].
    constructor; [intros []|constructor]. }
  assert (Hgreen : In "green" (colors (configOf SHAPE_LIBRARY Examples.default_config)))
    by (left; reflexivity).
  assert (Hblue : In "blue" (colors (configOf SHAPE_LIBRARY Examples.default_config)))
    by (right; left; reflexivity).
  assert (Hfree : RoundTrip.lock_free (grid Examples.default_puzzle) = true)
    by (vm_compute; reflexivity).
  assert (Hd : dims (grid Examples.default_puzzle) = Some (5, 5))
    by (vm_compute; reflexivity).
  split; [repeat split; assumption|].
  exact (generate_solution_validates SHAPE_LIBRARY Examples.default_config 1
           Examples.default_draws Examples.default_puzzle 5 5
           Hlib Hg Hnd Hgreen Hblue Hfree Hd).
Defined.

(** X23.  The accounts of the generator balance.  After a successful
    [_selectShapes] over a palette without repeated colour, the cells of the
    selected shapes and the remainders add up to the budgets of the colours,
    no remainder is negative, and the cells of the shapes together with the
    budgets of blockers and locks never exceed the cells of the grid. *)
Theorem selection_within_budget :
  forall lib cfg rnd sel rnd',
    NoDup (colors cfg) ->
    colors cfg <> [] ->
    _selectShapes lib cfg (_allocateBudget cfg) rnd = Some (sel, rnd') ->
    sel_success sel = true ->
    planned (colorShapes sel) + sel_totalRemainder sel
    = colorCount (_allocateBudget cfg) * budgetPerColor (_allocateBudget cfg) /\
    0 <= sel_totalRemainder sel /\
    planned (colorShapes sel)
    + blockerBudget (_calculateBlockerLockBudget cfg (_allocateBudget cfg) sel)
    + lockBudget (_calculateBlockerLockBudget cfg (_allocateBudget cfg) sel)
    <= gridRows cfg * gridCols cfg.
Proof.
  intros lib cfg rnd sel rnd' Hnd Hne H Hok. unfold _selectShapes in H.
  set (n := Z.of_nat (List.length (colors cfg))).
  set (reserve := reserveNeeded (_allocateBudget cfg)).
  set (avail := gridRows cfg * gridCols cfg - reserve).
  assert (Hn : 0 < n).
  { subst n. destruct (colors cfg); [congruence|]. cbn [List.length]. lia. }
  destruct (selectColors_sum lib (shapePool cfg) (colorBudgets (_allocateBudget cfg))
              (avail / n) (colors cfg) _ _ _ _ H Hok Hnd) as [Hsum Hpos].
  { intros k _ []. }
  { intros k Hk. cbn [_allocateBudget colorBudgets]. apply lookup_fold_const. exact Hk. }
  cbn [colorShapes sel_totalRemainder] in Hsum, Hpos.
  unfold planned at 2 in Hsum. cbn [map fold_right] in Hsum.
  cbn [_allocateBudget colorCount budgetPerColor]. fold n.
  change (gridRows cfg * gridCols cfg
          - (if blockers cfg || locks cfg then 2 * (gridRows cfg + gridCols cfg) / 3 else 0))
    with avail.
  split; [lia|]. split; [lia|].
  pose proof (Z.mul_div_le avail n Hn) as Hdiv.
  assert (Hres : reserve
                 = if blockers cfg || locks cfg
                   then 2 * (gridRows cfg + gridCols cfg) / 3 else 0) by reflexivity.
  unfold _calculateBlockerLockBudget.
  change (reserveNeeded (_allocateBudget cfg)) with reserve.
  destruct (blockers cfg), (locks cfg);
    cbn [andb orb blockerBudget lockBudget] in *; lia.
Qed.

Lemma selection_within_budget_witness :
  (NoDup (colors (configOf SHAPE_LIBRARY Examples.default_config)) /\
   colors (configOf SHAPE_LIBRARY Examples.default_config) <> [] /\
   _selectShapes SHAPE_LIBRARY (configOf SHAPE_LIBRARY Examples.default_config)
     (_allocateBudget (configOf SHAPE_LIBRARY Examples.default_config))
     Examples.default_draws
   = Some (Examples.default_selection, Examples.default_draws_left) /\
   sel_success Examples.default_selection = true) /\
  (planned (colorShapes Examples.default_selection)
   + sel_totalRemainder Examples.default_selection
   = colorCount (_allocateBudget (configOf SHAPE_LIBRARY Examples.default_config))
     * budgetPerColor (_allocateBudget (configOf SHAPE_LIBRARY Examples.default_config)) /\
   0 <= sel_totalRemainder Examples.default_selection /\
   planned (colorShapes Examples.default_selection)
   + blockerBudget (_calculateBlockerLockBudget
                      (configOf SHAPE_LIBRARY Examples.default_config)
                      (_allocateBudget (configOf SHAPE_LIBRARY Examples.default_config))
                      Examples.default_selection)
   + lockBudget (_calculateBlockerLockBudget
                   (configOf SHAPE_LIBRARY Examples.default_config)
                   (_allocateBudget (configOf SHAPE_LIBRARY Examples.default_config))
                   Examples.default_selection)
   <= gridRows (configOf SHAPE_LIBRARY Examples.default_config)
      * gridCols (configOf SHAPE_LIBRARY Examples.default_config)).
Proof.
  assert (Hnd : NoDup (colors (configOf SHAPE_LIBRARY Examples.default_config))).
  { simpl. constructor; [simpl; intros [E|[]]; discriminate E|].
    constructor; [intros []|constructor]. }
  assert (Hne : colors (configOf SHAPE_LIBRARY Examples.default_config) <> [])
    by discriminate.
  assert (H : _selectShapes SHAPE_LIBRARY (configOf SHAPE_LIBRARY Examples.default_config)
                (_allocateBudget (configOf SHAPE_LIBRARY Examples.default_config))
                Examples.default_draws
              = Some (Examples.default_selection, Examples.default_draws_left))
    by (vm_compute; reflexivity).
  assert (Hok : sel_success Examples.default_selection = true) by reflexivity.
  split; [repeat split; assumption|].
  exact (selection_within_budget SHAPE_LIBRARY
           (configOf SHAPE_LIBRARY Examples.default_config) Examples.default_draws
           Examples.default_selection Examples.default_draws_left Hnd Hne H Hok).
Defined.



(** X25.  [_findEmptyCells] lists the empty cells of a rectangular grid, each
    once, in an order that depends on the draws. *)
Theorem _findEmptyCells_lists_empty_cells :
  forall R C grid rnd cells rnd',
    RoundTrip.shaped R C grid ->
    _findEmptyCells grid rnd = Some (cells, rnd') ->
    NoDup cells /\
    forall rc, In rc cells <-> SolverFacts.stateAt grid rc = Some Empty.
Proof.
  intros R C g rnd cells rnd' Hg H. unfold _findEmptyCells in H. bind_as H empty E.
  destruct (emptyCellsOf_spec _ _ _ _ Hg E) as [Hnd Hin].
  destruct (shuffle_keeps _ _ _ _ _ H) as [Hlen Hincl]. split.
  - apply (NoDup_incl_NoDup Hnd); [lia|exact Hincl].
  - intros rc. rewrite <- Hin. split.
    + intros Hrc. eapply RoundTrip.shuffle_In; eassumption.
    + apply Hincl.
Qed.

Lemma _findEmptyCells_lists_empty_cells_witness :
  (RoundTrip.shaped 2 2 Examples.corner_grid /\
   _findEmptyCells Examples.corner_grid [0; 9] = Some ([(1, 1); (0, 0)], [9])) /\
  (NoDup [(1, 1); (0, 0)] /\
   forall rc, In rc [(1, 1); (0, 0)] <->
              SolverFacts.stateAt Examples.corner_grid rc = Some Empty).
Proof.
  assert (Hg : RoundTrip.shaped 2 2 Examples.corner_grid).
  { split; [reflexivity|]. repeat constructor. }
  assert (H : _findEmptyCells Examples.corner_grid [0; 9] = Some ([(1, 1); (0, 0)], [9]))
    by (vm_compute; reflexivity).
  split; [split; assumption|].
  exact (_findEmptyCells_lists_empty_cells 2 2 Examples.corner_grid [0; 9]
           [(1, 1); (0, 0)] [9] Hg H).
Defined.

End PuzzleFacts.

(** ** Blockers and locks of a generated puzzle *)

Module MarkFacts.
Import Shapes Solver Generator.

(** [g'] is [g] with the mark [v] written on the cells [L], which are
    distinct and were empty. *)
Definition marks (v : CellState) (g g' : Grid) (L : list Cell) : Prop :=
  NoDup L /\
  (forall rc, In rc L ->
     SolverFacts.stateAt g rc = Some Empty /\ SolverFacts.stateAt g' rc = Some v) /\
  (forall rc, ~ In rc L -> SolverFacts.stateAt g' rc = SolverFacts.stateAt g rc).

Lemma marks_nil (v : CellState) (g : Grid) : marks v g g [].
Proof. split; [constructor|]. split; [intros rc []|reflexivity]. Qed.

Lemma marks_app (v : CellState) (g g1 g2 : Grid) (L1 L2 : list Cell) :
  v <> Empty -> marks v g g1 L1 -> marks v g1 g2 L2 -> marks v g g2 (L1 ++ L2).
Proof.
  intros Hv (N1 & I1 & O1) (N2 & I2 & O2).
  assert (Hdisj : forall rc, In rc L1 -> ~ In rc L2).
  { intros rc H1 H2. destruct (I1 _ H1) as [_ E1]. destruct (I2 _ H2) as [E2 _].
    rewrite E1 in E2. injection E2 as E2. exact (Hv E2). }
  split; [apply NoDup_app; assumption|]. split.
  - intros rc Hrc. apply in_app_iff in Hrc. destruct Hrc as [Hrc|Hrc].
    + destruct (I1 _ Hrc) as [E0 E1]. split; [exact E0|].
      rewrite (O2 _ (Hdisj _ Hrc)). exact E1.
    + destruct (I2 _ Hrc) as [E1 E2]. split; [|exact E2].
      rewrite <- E1. symmetry. apply O1. intros H1. exact (Hdisj _ H1 Hrc).
  - intros rc Hrc. rewrite in_app_iff in Hrc. rewrite O2 by tauto. apply O1. tauto.
Qed.

Lemma marks_one (v : CellState) (g g' : Grid) (r c : Z) :
  isEmptyAt g r c = Some true -> setAt g r c v = Some g' -> marks v g g' [(r, c)].
Proof.
  intros He Hs. destruct (RoundTrip.setAt_spec _ _ _ _ _ Hs) as (_ & V & O).
  split; [constructor; [intros []|constructor]|]. split.
  - intros rc [<-|[]]. split; [apply RoundTrip.isEmptyAt_true; exact He|exact V].
  - intros rc Hrc. apply O. intros ->. apply Hrc. left. reflexivity.
Qed.

Lemma marks_markAll (v : CellState) (cells : list Cell) :
  v <> Empty ->
  forall g g',
    markAll v cells g = Some g' -> NoDup cells ->
    (forall rc, In rc cells -> SolverFacts.stateAt g rc = Some Empty) ->
    marks v g g' cells.
Proof.
  intros Hv g g' H Hnd He. destruct (RoundTrip.markAll_spec _ _ _ _ H) as (_ & V & O).
  split; [exact Hnd|]. split; [|exact O]. intros rc Hrc. split; [exact (He _ Hrc)|exact (V _ Hrc)].
Qed.

(** *** [_placeBlockers] and [_placeLocks] *)

Lemma blockEach_marks (count : Z) (positions : list Cell) :
  forall g bs placed g' bs' placed',
    blockEach count positions g bs placed = Some (g', bs', placed') ->
    exists L, bs' = bs ++ L /\ marks Blocked g g' L /\
              placed' = placed + Z.of_nat (List.length L) /\ placed' <= Z.max count placed.
Proof.
  induction positions as [|[pr pc] more IH]; intros g bs placed g' bs' placed' H;
    simpl in H.
  - injection H as <- <- <-. exists []. rewrite app_nil_r. cbn [List.length].
    split; [reflexivity|]. split; [apply marks_nil|lia].
  - destruct (Z.leb_spec count placed) as [Hle|Hlt].
    { injection H as <- <- <-. exists []. rewrite app_nil_r. cbn [List.length].
      split; [reflexivity|]. split; [apply marks_nil|lia]. }
    bind_as H e E. destruct e.
    + bind_as H g1 E1. destruct (IH _ _ _ _ _ _ H) as (L & -> & HL & Hp & Hb).
      exists ((pr, pc) :: L). rewrite <- app_assoc. split; [reflexivity|].
      split; [|cbn [List.length]; lia].
      apply (marks_app Blocked g g1 g' [(pr, pc)] L); [discriminate| |exact HL].
      apply marks_one; assumption.
    + exact (IH _ _ _ _ _ _ H).
Qed.

(** The symmetrical blockers: when the loop ends, [count] blockers are
    placed. *)
Lemma blockersSymmetrical_marks (rows cols count : Z) (rnd : list Z) :
  forall g bs placed g' bs' rnd',
    blockersSymmetrical rows cols count g bs placed rnd = Some (g', bs', rnd') ->
    exists L, bs' = bs ++ L /\ marks Blocked g g' L /\
              Z.of_nat (List.length L) = Z.max 0 (count - placed).
Proof.
  induction rnd as [|x|x y rnd IH] using RoundTrip.list_ind2;
    intros g bs placed g' bs' rnd' H; simpl in H.
  1, 2: destruct (Z.leb_spec count placed); [|discriminate]; injection H as <- <- _;
    exists []; rewrite app_nil_r; cbn [List.length];
    split; [reflexivity|]; split; [apply marks_nil|lia].
  destruct (Z.leb_spec count placed) as [Hle|Hlt].
  { injection H as <- <- _. exists []. rewrite app_nil_r. cbn [List.length].
    split; [reflexivity|]. split; [apply marks_nil|lia]. }
  bind_as H positions Ep. bind_as H res Er. destruct res as [[g1 bs1] placed1].
  destruct (blockEach_marks _ _ _ _ _ _ _ _ Er) as (L1 & -> & H1 & Hp1 & Hb1).
  destruct (IH _ _ _ _ _ _ H) as (L2 & -> & H2 & Hlen).
  exists (L1 ++ L2). rewrite app_assoc. split; [reflexivity|].
  split; [eapply marks_app; [discriminate|exact H1|exact H2]|].
  rewrite length_app. lia.
Qed.

(** The loop that scatters marks: it places at most [count] of them, and
    exactly [count] when nothing limits its attempts. *)
Lemma scatter_marks (mark : CellState) (limit : option Z) (rows cols count : Z)
    (rnd : list Z) :
  mark <> Empty ->
  forall g cs placed attempts g' cs' rnd',
    scatter mark limit rows cols count g cs placed attempts rnd = Some (g', cs', rnd') ->
    exists L, cs' = cs ++ L /\ marks mark g g' L /\
              Z.of_nat (List.length L) <= Z.max 0 (count - placed) /\
              (limit = None -> Z.of_nat (List.length L) = Z.max 0 (count - placed)).
Proof.
  intros Hm.
  assert (Hstop : forall placed attempts,
             (placed <? count)
             && match limit with Some l => attempts <? l | None => true end = false ->
             0 <= Z.max 0 (count - placed) /\
             (limit = None -> 0 = Z.max 0 (count - placed))).
  { intros placed attempts Hc. split; [lia|]. intros ->. rewrite andb_true_r in Hc.
    apply Z.ltb_ge in Hc. lia. }
  induction rnd as [|x|x y rnd IH] using RoundTrip.list_ind2;
    intros g cs placed attempts g' cs' rnd' H; simpl in H.
  1, 2: destruct (_ && _) eqn:Ec; [discriminate|]; injection H as <- <- _;
    exists []; rewrite app_nil_r; cbn [List.length];
    split; [reflexivity|]; split; [apply marks_nil|exact (Hstop _ _ Ec)].
  destruct (_ && _) eqn:Ec.
  2:{ injection H as <- <- _. exists []. rewrite app_nil_r. cbn [List.length].
      split; [reflexivity|]. split; [apply marks_nil|exact (Hstop _ _ Ec)]. }
  apply andb_true_iff in Ec. destruct Ec as [Hlt _]. apply Z.ltb_lt in Hlt.
  bind_as H e E. destruct e.
  - bind_as H g1 E1. destruct (IH _ _ _ _ _ _ _ H) as (L & -> & HL & Hle & Heq).
    exists ((pick x rows, pick y cols) :: L). rewrite <- app_assoc. split; [reflexivity|].
    split; [|cbn [List.length]; split; [lia|intros Hn; specialize (Heq Hn); lia]].
    apply (marks_app mark g g1 g' [(pick x rows, pick y cols)] L); [exact Hm| |exact HL].
    apply marks_one; assumption.
  - exact (IH _ _ _ _ _ _ _ H).
Qed.

Lemma _placeBlockers_marks (g : Grid) (count : Z) (strategy : Strategy) (rnd : list Z)
    (g' : Grid) (bs : list Cell) (rnd' : list Z) :
  _placeBlockers g count strategy rnd = Some (g', bs, rnd') -> marks Blocked g g' bs.
Proof.
  unfold _placeBlockers. intros H. bind_as H d Ed. destruct d as [rows cols].
  destruct strategy.
  - destruct (blockersSymmetrical_marks _ _ _ _ _ _ _ _ _ _ H) as (L & -> & HL & _).
    exact HL.
  - destruct (scatter_marks Blocked _ _ _ _ _ ltac:(discriminate) _ _ _ _ _ _ _ H)
      as (L & -> & HL & _). exact HL.
Qed.

(** [g] is [g0] with the locks of [locks] written on it: every colour on
    cells of its own, which were empty. *)
Definition locked (g0 g : Grid) (locks : list (string * list Cell)) : Prop :=
  NoDup (map fst locks) /\
  (forall k cells, In (k, cells) locks ->
     NoDup cells /\
     forall rc, In rc cells ->
       SolverFacts.stateAt g0 rc = Some Empty /\
       SolverFacts.stateAt g rc = Some (LockedFor k)) /\
  (forall rc, (exists k cells, In (k, cells) locks /\ In rc cells) \/
              SolverFacts.stateAt g rc = SolverFacts.stateAt g0 rc).

Lemma locked_nil (g : Grid) : locked g g [].
Proof.
  split; [constructor|]. split; [intros k cells []|]. intros rc. right. reflexivity.
Qed.

Lemma locked_snoc (g0 g g1 : Grid) (locks : list (string * list Cell)) (color : string)
    (L : list Cell) :
  locked g0 g locks -> ~ In color (map fst locks) ->
  marks (LockedFor color) g g1 L ->
  locked g0 g1 (locks ++ [(color, L)]).
Proof.
  intros (Hk & HA & HB) Hfresh (Hnd & Hin & Hout).
  assert (Hold : forall k cells rc, In (k, cells) locks -> In rc cells -> ~ In rc L).
  { intros k cells rc H1 H2 H3. destruct (HA _ _ H1) as [_ H4].
    destruct (H4 _ H2) as [_ E]. destruct (Hin _ H3) as [E' _]. congruence. }
  split; [|split].
  - rewrite map_app. cbn [map fst]. apply NoDup_app; [exact Hk| |].
    + constructor; [intros []|constructor].
    + intros k H1 [<-|[]]. exact (Hfresh H1).
  - intros k cells Hkc. apply in_app_iff in Hkc. destruct Hkc as [Hkc|[[= <- <-]|[]]].
    + destruct (HA _ _ Hkc) as [N H4]. split; [exact N|]. intros rc Hrc.
      destruct (H4 _ Hrc) as [E0 E]. split; [exact E0|].
      rewrite (Hout _ (Hold _ _ _ Hkc Hrc)). exact E.
    + split; [exact Hnd|]. intros rc Hrc. destruct (Hin _ Hrc) as [E E1].
      split; [|exact E1]. destruct (HB rc) as [(k & cells & H1 & H2)|Heq].
      * exfalso. exact (Hold _ _ _ H1 H2 Hrc).
      * rewrite <- Heq. exact E.
  - intros rc. destruct (in_dec cell_eq_dec rc L) as [HL|HL].
    + left. exists color, L. split; [apply in_app_iff; right; left; reflexivity|exact HL].
    + destruct (HB rc) as [(k & cells & H1 & H2)|Heq].
      * left. exists k, cells. split; [apply in_app_iff; left; exact H1|exact H2].
      * right. rewrite (Hout _ HL). exact Heq.
Qed.

Lemma placeLocksLoop_locked (strategy : Strategy) (rows cols : Z) (g0 : Grid)
    (distribution : list (string * Z)) :
  forall g locks rnd g' locks' rnd',
    placeLocksLoop strategy rows cols distribution g locks rnd = Some (g', locks', rnd') ->
    NoDup (map fst distribution) ->
    (forall k, In k (map fst distribution) -> ~ In k (map fst locks)) ->
    locked g0 g locks -> locked g0 g' locks'.
Proof.
  induction distribution as [|[color count] more IH]; intros g locks rnd g' locks' rnd' H
    Hnd Hfresh Hl; simpl in H.
  - injection H as <- <- _. exact Hl.
  - bind_as H res E. destruct res as [[g1 cells] rnd1].
    cbn [map fst] in Hnd, Hfresh. inversion_clear Hnd as [|? ? Hc Hmore].
    destruct (scatter_marks (LockedFor color) _ _ _ _ _ ltac:(discriminate)
                _ _ _ _ _ _ _ E) as (L & EL & HL & _).
    cbn [app] in EL. subst cells.
    assert (Hnew : ~ In color (map fst locks)) by (apply Hfresh; left; reflexivity).
    rewrite (PuzzleFacts.assign_fresh _ _ _ Hnew) in H.
    apply (IH _ _ _ _ _ _ H Hmore).
    + intros k Hk. rewrite map_app, in_app_iff. cbn [map fst].
      intros [H1|[<-|[]]]; [|exact (Hc Hk)]. apply (Hfresh k); [right; exact Hk|exact H1].
    + eapply locked_snoc; eassumption.
Qed.

Lemma _placeLocks_locked (g : Grid) (distribution : list (string * Z))
    (strategy : Strategy) (rnd : list Z) (g' : Grid) (locks : list (string * list Cell))
    (rnd' : list Z) :
  _placeLocks g distribution strategy rnd = Some (g', locks, rnd') ->
  NoDup (map fst distribution) -> locked g g' locks.
Proof.
  unfold _placeLocks. intros H Hnd. bind_as H d Ed. destruct d as [rows cols].
  eapply placeLocksLoop_locked; [exact H|exact Hnd| |apply locked_nil].
  intros k _ [].
Qed.

(** The number of marks against the count asked for. *)
Definition within_count (strategy : Strategy) (count : Z) (cells : list Cell) : Prop :=
  Z.of_nat (List.length cells) <= Z.max 0 count /\
  (strategy = symmetrical -> Z.of_nat (List.length cells) = Z.max 0 count).

Lemma placeLocksLoop_counts (strategy : Strategy) (rows cols : Z)
    (distribution : list (string * Z)) :
  forall g locks rnd g' locks' rnd',
    placeLocksLoop strategy rows cols distribution g locks rnd = Some (g', locks', rnd') ->
    NoDup (map fst distribution) ->
    (forall k, In k (map fst distribution) -> ~ In k (map fst locks)) ->
    exists segs,
      locks' = locks ++ segs /\
      Forall2 (fun l d => fst l = fst d /\ within_count strategy (snd d) (snd l))
              segs distribution.
Proof.
  induction distribution as [|[color count] more IH]; intros g locks rnd g' locks' rnd' H
    Hnd Hfresh; simpl in H.
  - injection H as _ <- _. exists []. rewrite app_nil_r. split; [reflexivity|constructor].
  - bind_as H res E. destruct res as [[g1 cells] rnd1].
    cbn [map fst] in Hnd, Hfresh. inversion_clear Hnd as [|? ? Hc Hmore].
    destruct (scatter_marks (LockedFor color) _ _ _ _ _ ltac:(discriminate)
                _ _ _ _ _ _ _ E) as (L & EL & _ & Hle & Heq).
    cbn [app] in EL. subst cells. rewrite Z.sub_0_r in Hle, Heq.
    assert (Hnew : ~ In color (map fst locks)) by (apply Hfresh; left; reflexivity).
    rewrite (PuzzleFacts.assign_fresh _ _ _ Hnew) in H.
    destruct (IH _ _ _ _ _ _ H Hmore) as (segs & -> & Hall).
    + intros k Hk. rewrite map_app, in_app_iff. cbn [map fst].
      intros [H1|[<-|[]]]; [|exact (Hc Hk)]. apply (Hfresh k); [right; exact Hk|exact H1].
    + exists ((color, L) :: segs). rewrite <- app_assoc. split; [reflexivity|].
      constructor; [|exact Hall]. cbn [fst snd]. split; [reflexivity|]. split; [exact Hle|].
      intros ->. apply Heq. reflexivity.
Qed.

(** X27.  What [_placeBlockers] and then [_placeLocks] do to a grid, as
    [_placeAndValidate] calls them.  The blockers are distinct cells that
    were empty and are now blocked; the locks of each colour are distinct
    cells that were empty after that and are now locked for the colour;
    every other cell is as it was.  Neither places more marks than asked
    for, and with the symmetrical strategy both place exactly as many (a
    negative count counts as none). *)
Theorem blockers_then_locks_within_count :
  forall grid count distribution strategy rnd grid1 blockers rnd1 grid2 locks rnd2,
    NoDup (map fst distribution) ->
    _placeBlockers grid count strategy rnd = Some (grid1, blockers, rnd1) ->
    _placeLocks grid1 distribution strategy rnd1 = Some (grid2, locks, rnd2) ->
    (NoDup blockers /\
     (forall rc, In rc blockers ->
        SolverFacts.stateAt grid rc = Some Empty /\
        SolverFacts.stateAt grid1 rc = Some Blocked) /\
     (forall rc, ~ In rc blockers ->
        SolverFacts.stateAt grid1 rc = SolverFacts.stateAt grid rc) /\
     Z.of_nat (List.length blockers) <= Z.max 0 count /\
     (strategy = symmetrical -> Z.of_nat (List.length blockers) = Z.max 0 count)) /\
    (Forall2 (fun l d =>
                fst l = fst d /\
                Z.of_nat (List.length (snd l)) <= Z.max 0 (snd d) /\
                (strategy = symmetrical ->
                 Z.of_nat (List.length (snd l)) = Z.max 0 (snd d)))
             locks distribution /\
     (forall k cells, In (k, cells) locks ->
        NoDup cells /\
        forall rc, In rc cells ->
          SolverFacts.stateAt grid1 rc = Some Empty /\
          SolverFacts.stateAt grid2 rc = Some (LockedFor k)) /\
     (forall rc, (exists k cells, In (k, cells) locks /\ In rc cells) \/
                 SolverFacts.stateAt grid2 rc = SolverFacts.stateAt grid1 rc)).
Proof.
  intros grid count distribution strategy rnd grid1 blockers rnd1 grid2 locks rnd2
    Hnd Hb Hl.
  split.
  - destruct (_placeBlockers_marks _ _ _ _ _ _ _ Hb) as (N & I & O).
    split; [exact N|]. split; [exact I|]. split; [exact O|].
    unfold _placeBlockers in Hb. bind_as Hb d Ed. destruct d as [rows cols].
    destruct strategy.
    + destruct (blockersSymmetrical_marks _ _ _ _ _ _ _ _ _ _ Hb) as (L & E & _ & Hlen).
      cbn [app] in E. subst L. rewrite Z.sub_0_r in Hlen. split; [lia|intros _; exact Hlen].
    + destruct (scatter_marks Blocked _ _ _ _ _ ltac:(discriminate) _ _ _ _ _ _ _ Hb)
        as (L & E & _ & Hle & _).
      cbn [app] in E. subst L. rewrite Z.sub_0_r in Hle. split; [exact Hle|discriminate].
  - destruct (_placeLocks_locked _ _ _ _ _ _ _ Hl Hnd) as (_ & HA & HB).
    split; [|split; [exact HA|exact HB]].
    unfold _placeLocks in Hl. bind_as Hl d Ed. destruct d as [rows cols].
    destruct (placeLocksLoop_counts _ _ _ _ _ _ _ _ _ _ Hl Hnd) as (segs & E & Hall).
    { intros k _ []. }
    cbn [app] in E. subst segs. exact Hall.
Qed.

Lemma blockers_then_locks_within_count_witness :
  (NoDup (map fst [("green", 1); ("blue", 2)]) /\
   _placeBlockers Examples.open_grid 3 symmetrical Examples.open_draws
   = Some (Examples.blocked_grid, [(0, 0); (0, 2); (2, 0)],
           [1; 1; 5; 7; 4; 2; 2; 1; 0; 1; 9]) /\
   _placeLocks Examples.blocked_grid [("green", 1); ("blue", 2)] symmetrical
     [1; 1; 5; 7; 4; 2; 2; 1; 0; 1; 9]
   = Some (Examples.locked_grid, [("green", [(2, 1)]); ("blue", [(1, 2); (0, 1)])], [9])) /\
  (NoDup [(0, 0); (0, 2); (2, 0)] /\
   (forall rc, In rc [(0, 0); (0, 2); (2, 0)] ->
      SolverFacts.stateAt Examples.open_grid rc = Some Empty /\
      SolverFacts.stateAt Examples.blocked_grid rc = Some Blocked) /\
   (forall rc, ~ In rc [(0, 0); (0, 2); (2, 0)] ->
      SolverFacts.stateAt Examples.blocked_grid rc
      = SolverFacts.stateAt Examples.open_grid rc) /\
   Z.of_nat (List.length [(0, 0); (0, 2); (2, 0)]) <= Z.max 0 3 /\
   (symmetrical = symmetrical ->
    Z.of_nat (List.length [(0, 0); (0, 2); (2, 0)]) = Z.max 0 3)) /\
  (Forall2 (fun l d =>
              fst l = fst d /\
              Z.of_nat (List.length (snd l)) <= Z.max 0 (snd d) /\
              (symmetrical = symmetrical ->
               Z.of_nat (List.length (snd l)) = Z.max 0 (snd d)))
           [("green", [(2, 1)]); ("blue", [(1, 2); (0, 1)])]
           [("green", 1); ("blue", 2)] /\
   (forall k cells, In (k, cells) [("green", [(2, 1)]); ("blue", [(1, 2); (0, 1)])] ->
      NoDup cells /\
      forall rc, In rc cells ->
        SolverFacts.stateAt Examples.blocked_grid rc = Some Empty /\
        SolverFacts.stateAt Examples.locked_grid rc = Some (LockedFor k)) /\
   (forall rc,
      (exists k cells,
          In (k, cells) [("green", [(2, 1)]); ("blue", [(1, 2); (0, 1)])] /\ In rc cells) \/
      SolverFacts.stateAt Examples.locked_grid rc
      = SolverFacts.stateAt Examples.blocked_grid rc)).
Proof.
  assert (H1 : NoDup (map fst [("green", 1); ("blue", 2)])).
  { cbn. repeat constructor; cbn; intuition discriminate. }
  assert (H2 : _placeBlockers Examples.open_grid 3 symmetrical Examples.open_draws
               = Some (Examples.blocked_grid, [(0, 0); (0, 2); (2, 0)],
                       [1; 1; 5; 7; 4; 2; 2; 1; 0; 1; 9]))
    by (vm_compute; reflexivity).
  assert (H3 : _placeLocks Examples.blocked_grid [("green", 1); ("blue", 2)] symmetrical
                 [1; 1; 5; 7; 4; 2; 2; 1; 0; 1; 9]
               = Some (Examples.locked_grid,
                       [("green", [(2, 1)]); ("blue", [(1, 2); (0, 1)])], [9]))
    by (vm_compute; reflexivity).
  split; [repeat split; assumption|].
  exact (blockers_then_locks_within_count Examples.open_grid 3 [("green", 1); ("blue", 2)]
           symmetrical Examples.open_draws Examples.blocked_grid [(0, 0); (0, 2); (2, 0)]
           [1; 1; 5; 7; 4; 2; 2; 1; 0; 1; 9] Examples.locked_grid
           [("green", [(2, 1)]); ("blue", [(1, 2); (0, 1)])] [9] H1 H2 H3).
Defined.

(** *** The shapes go on empty cells *)

(** [g'] is [g] but for cells that were empty and now hold a colour. *)
Definition fills (g g' : Grid) : Prop :=
  (forall R C, RoundTrip.shaped R C g -> RoundTrip.shaped R C g') /\
  forall rc,
    SolverFacts.stateAt g' rc = SolverFacts.stateAt g rc \/
    (SolverFacts.stateAt g rc = Some Empty /\
     exists k, SolverFacts.stateAt g' rc = Some (FilledWith k)).

Lemma fills_refl (g : Grid) : fills g g.
Proof. split; [auto|]. intros rc. left. reflexivity. Qed.

Lemma fills_trans (a b c : Grid) : fills a b -> fills b c -> fills a c.
Proof.
  intros [S1 H1] [S2 H2]. split; [auto|]. intros rc.
  destruct (H2 rc) as [E2|[E2 [k Hk]]]; destruct (H1 rc) as [E1|[E1 [k' Hk']]].
  - left. congruence.
  - right. split; [exact E1|]. exists k'. congruence.
  - right. split; [congruence|]. exists k. exact Hk.
  - rewrite Hk' in E2. discriminate E2.
Qed.

Lemma _findShapePlacement_empty (g : Grid) (shape : SelectedShape) (color : string)
    (rnd rnd' : list Z) (gp : GenPlacement) :
  _findShapePlacement g shape color rnd = Some (Some gp, rnd') ->
  forall rc, In rc (gp_cells gp) -> SolverFacts.stateAt g rc = Some Empty.
Proof.
  unfold _findShapePlacement. intros H.
  bind_as H d Ed. destruct d as [rows cols].
  bind_as H shapeCells Ec. bind_as H b Eb. bind_as H vps Ev.
  destruct (List.length vps =? 0)%nat; [discriminate|].
  destruct rnd as [|x rnd1]; [discriminate|].
  bind_as H chosen Eg. destruct chosen as [[row col] cells]. injection H as <- _.
  assert (Hin : In (row, col, cells) vps).
  { unfold get in Eg. destruct (_ <? 0); [discriminate|]. eapply nth_error_In. exact Eg. }
  destruct (RoundTrip.validPositionsOf_In _ _ _ _ _ _ Ev _ _ _ Hin) as (_ & _ & _ & Hempty).
  cbn [gp_cells]. apply RoundTrip.everyEmpty_spec. exact Hempty.
Qed.

Lemma placeShapes_fills (color : string) (shapes : list SelectedShape) :
  forall g pl rnd g' pl' rnd',
    placeShapes color shapes g pl rnd = Some (Some (g', pl'), rnd') -> fills g g'.
Proof.
  induction shapes as [|shape more IH]; intros g pl rnd g' pl' rnd' H; simpl in H.
  - injection H as <- _ _. apply fills_refl.
  - bind_as H r E. destruct r as [[gp|] rnd1]; [|discriminate].
    bind_as H g1 Em. eapply fills_trans; [|exact (IH _ _ _ _ _ _ H)].
    destruct (RoundTrip.markAll_spec _ _ _ _ Em) as (S & V & O).
    split; [exact S|].
    intros rc. destruct (in_dec cell_eq_dec rc (gp_cells gp)) as [Hin|Hout].
    + right. split; [exact (_findShapePlacement_empty _ _ _ _ _ _ E _ Hin)|].
      exists color. exact (V _ Hin).
    + left. exact (O _ Hout).
Qed.

Lemma placeColors_fills (colorShapes : list (string * list SelectedShape)) :
  forall acc rnd acc' rnd',
    placeColors colorShapes acc rnd = Some (Some acc', rnd') ->
    fills (pr_grid acc) (pr_grid acc').
Proof.
  induction colorShapes as [|[color shapes] more IH]; intros acc rnd acc' rnd' H;
    simpl in H.
  - injection H as <- _. apply fills_refl.
  - bind_as H r E. destruct r as [[[g pl]|] rnd1]; [|discriminate].
    eapply fills_trans; [exact (placeShapes_fills _ _ _ _ _ _ _ _ E)|].
    exact (IH _ _ _ _ H).
Qed.

Lemma _findValidPlacement_fills (g : Grid) (colorShapes : list (string * list SelectedShape))
    (rnd rnd' : list Z) (res : PlacementResult) :
  _findValidPlacement g colorShapes rnd = Some (Some res, rnd') -> fills g (pr_grid res).
Proof.
  unfold _findValidPlacement. intros H. bind_as H d Ed.
  exact (placeColors_fills _ _ _ _ _ H).
Qed.

(** *** The grid and the two lists agree *)

(** A grid without blockers and locks. *)
Definition bare (g : Grid) : Prop :=
  forall rc, SolverFacts.stateAt g rc <> Some Blocked /\
             forall k, SolverFacts.stateAt g rc <> Some (LockedFor k).

Definition agrees (g : Grid) (blockers : list Cell) (locks : list (string * list Cell))
  : Prop :=
  NoDup blockers /\
  NoDup (map fst locks) /\
  (forall k cells, lookup k locks = Some cells -> NoDup cells) /\
  (forall rc, SolverFacts.stateAt g rc = Some Blocked <-> In rc blockers) /\
  (forall rc k, SolverFacts.stateAt g rc = Some (LockedFor k) <->
                exists cells, lookup k locks = Some cells /\ In rc cells).

Lemma in_lookup {A : Type} (k : string) (v : A) (o : list (string * A)) :
  NoDup (map fst o) -> In (k, v) o -> lookup k o = Some v.
Proof.
  induction o as [|[k' w] o IH]; intros Hnd Hin; [destruct Hin|].
  cbn [map fst] in Hnd. inversion_clear Hnd as [|? ? Hk Ho]. cbn [lookup].
  destruct Hin as [[= -> ->]|Hin].
  - rewrite String.eqb_refl. reflexivity.
  - destruct (String.eqb_spec k k') as [->|_]; [|exact (IH Ho Hin)].
    exfalso. apply Hk. apply in_map_iff. exists (k', v). split; [reflexivity|exact Hin].
Qed.

Lemma agrees_of (g0 g1 g : Grid) (blockers : list Cell) (locks : list (string * list Cell)) :
  bare g0 -> marks Blocked g0 g1 blockers -> locked g1 g locks ->
  agrees g blockers locks.
Proof.
  intros Hbare (Nb & Ib & Ob) (Nk & HA & HB).
  split; [exact Nb|]. split; [exact Nk|]. split; [|split].
  - intros k cells Hl. exact (proj1 (HA _ _ (RoundTrip.lookup_In _ _ _ Hl))).
  - intros rc. split.
    + intros Hs. destruct (HB rc) as [(k & cells & H1 & H2)|Heq].
      * destruct (HA _ _ H1) as [_ H3]. destruct (H3 _ H2) as [_ E]. congruence.
      * destruct (in_dec cell_eq_dec rc blockers) as [Hin|Hout]; [exact Hin|].
        exfalso. rewrite Heq, (Ob _ Hout) in Hs. exact (proj1 (Hbare rc) Hs).
    + intros Hin. destruct (Ib _ Hin) as [_ E1].
      destruct (HB rc) as [(k & cells & H1 & H2)|Heq]; [|congruence].
      destruct (HA _ _ H1) as [_ H3]. destruct (H3 _ H2) as [E0 _]. congruence.
  - intros rc k. split.
    + intros Hs. destruct (HB rc) as [(k' & cells & H1 & H2)|Heq].
      * destruct (HA _ _ H1) as [_ H3]. destruct (H3 _ H2) as [_ E].
        rewrite E in Hs. injection Hs as ->. exists cells.
        split; [exact (in_lookup _ _ _ Nk H1)|exact H2].
      * exfalso. rewrite Heq in Hs.
        destruct (in_dec cell_eq_dec rc blockers) as [Hin|Hout].
        -- destruct (Ib _ Hin) as [_ E1]. congruence.
        -- rewrite (Ob _ Hout) in Hs. exact (proj2 (Hbare rc) k Hs).
    + intros (cells & Hl & Hin).
      destruct (HA _ _ (RoundTrip.lookup_In _ _ _ Hl)) as [_ H3].
      exact (proj2 (H3 _ Hin)).
Qed.

Lemma agrees_fills (g g' : Grid) (blockers : list Cell) (locks : list (string * list Cell)) :
  agrees g blockers locks -> fills g g' -> agrees g' blockers locks.
Proof.
  intros (Nb & Nk & Nl & Hb & Hl) [_ Hf].
  split; [exact Nb|]. split; [exact Nk|]. split; [exact Nl|]. split.
  - intros rc. rewrite <- Hb. destruct (Hf rc) as [E|[E [k Hk]]].
    + rewrite E. reflexivity.
    + rewrite E, Hk. split; discriminate.
  - intros rc k. rewrite <- Hl. destruct (Hf rc) as [E|[E [k' Hk]]].
    + rewrite E. reflexivity.
    + rewrite E, Hk. split; discriminate.
Qed.

Lemma bare_fills (g g' : Grid) : bare g -> fills g g' -> bare g'.
Proof.
  intros Hb [_ Hf] rc. destruct (Hb rc) as [H1 H2]. destruct (Hf rc) as [E|[E [k Hk]]].
  - rewrite E. split; assumption.
  - rewrite Hk. split; [discriminate|]. intros k'. discriminate.
Qed.

Lemma emptyGrid_bare (gridRows gridCols : Z) (g : Grid) :
  emptyGrid gridRows gridCols = Some g -> bare g.
Proof.
  unfold emptyGrid. intros H.
  assert (E : g = repeat (repeat Empty (Z.to_nat gridCols)) (Z.to_nat gridRows)).
  { destruct (gridRows <? 0); [discriminate|].
    destruct ((0 <? gridRows) && (gridCols <? 0)); [discriminate|].
    injection H as <-. reflexivity. }
  assert (Hall : forall rc s, SolverFacts.stateAt g rc = Some s -> s = Empty).
  { intros rc s. unfold SolverFacts.stateAt, get. rewrite E.
    destruct (fst rc <? 0); [discriminate|].
    destruct (nth_error _ _) as [row|] eqn:Er; [|discriminate].
    apply nth_error_In, repeat_spec in Er. subst row.
    destruct (snd rc <? 0); [discriminate|]. intros Hs.
    apply nth_error_In, repeat_spec in Hs. exact Hs. }
  intros rc. split; [|intros k]; intros Hs; apply Hall in Hs; discriminate.
Qed.

(** *** The keys of the lock distribution *)

Lemma fold_assign_keys_NoDup {A : Type} (v : A) (cs : list string) :
  forall d : list (string * A),
    NoDup (map fst d) -> NoDup (map fst (fold_left (fun d c => assign c v d) cs d)).
Proof.
  induction cs as [|c cs IH]; intros d Hd; [exact Hd|]. cbn [fold_left].
  apply IH. apply RoundTrip.assign_keys_NoDup. exact Hd.
Qed.

Lemma distributeRemainder_keys (cs : list string) (rnd : list Z) :
  forall remainder d d' rnd',
    distributeRemainder cs remainder d rnd = Some (d', rnd') ->
    NoDup (map fst d) -> NoDup (map fst d').
Proof.
  induction rnd as [|x rnd IH]; intros remainder d d' rnd' H Hd; simpl in H.
  - destruct (remainder <=? 0); [|discriminate]. injection H as <- _. exact Hd.
  - destruct (remainder <=? 0); [injection H as <- _; exact Hd|].
    bind_as H color Ec. apply (IH _ _ _ _ H). unfold increment.
    destruct (lookup color d); [apply RoundTrip.assign_keys_NoDup|]; exact Hd.
Qed.

Lemma _distributeLocks_keys (cfg : Config) (blb : BlockerLockBudget) (rnd rnd' : list Z)
    (distribution : list (string * Z)) :
  _distributeLocks cfg blb rnd = Some (distribution, rnd') ->
  NoDup (map fst distribution).
Proof.
  unfold _distributeLocks. intros H. destruct (lockBudget blb =? 0).
  { injection H as <- _. apply fold_assign_keys_NoDup. constructor. }
  destruct (_ =? 0).
  { injection H as <- _. constructor. }
  apply (distributeRemainder_keys _ _ _ _ _ _ H). apply fold_assign_keys_NoDup. constructor.
Qed.

(** *** The fallback: blockers and locks on the cells left empty *)

(** What [_placeLocksinEmptyCells] adds: each colour takes the next cells. *)
Fixpoint segments (emptyCells : list Cell) (distribution : list (string * Z))
  : list (string * list Cell) :=
  match distribution with
  | [] => []
  | (color, count) :: more =>
      (color, firstn (Z.to_nat count) emptyCells)
      :: segments (skipn (Z.to_nat count) emptyCells) more
  end.

Lemma _placeLocksinEmptyCells_segments (distribution : list (string * Z)) :
  forall emptyCells locks,
    NoDup (map fst distribution) ->
    (forall k, In k (map fst distribution) -> ~ In k (map fst locks)) ->
    _placeLocksinEmptyCells emptyCells distribution locks
    = locks ++ segments emptyCells distribution.
Proof.
  induction distribution as [|[color count] more IH]; intros emptyCells locks Hnd Hfresh;
    cbn [_placeLocksinEmptyCells segments].
  - rewrite app_nil_r. reflexivity.
  - cbn [map fst] in Hnd, Hfresh. inversion_clear Hnd as [|? ? Hc Hmore].
    rewrite (PuzzleFacts.assign_fresh color _ locks) by (apply Hfresh; left; reflexivity).
    rewrite IH; [rewrite <- app_assoc; reflexivity|exact Hmore|].
    intros k Hk. rewrite map_app, in_app_iff. cbn [map fst].
    intros [H1|[<-|[]]]; [|exact (Hc Hk)]. apply (Hfresh k); [right; exact Hk|exact H1].
Qed.

Lemma writeLocks_segments (g0 : Grid) (distribution : list (string * Z)) :
  forall emptyCells locks g g',
    writeLocks (segments emptyCells distribution) g = Some g' ->
    NoDup (map fst distribution) ->
    (forall k, In k (map fst distribution) -> ~ In k (map fst locks)) ->
    NoDup emptyCells ->
    (forall rc, In rc emptyCells -> SolverFacts.stateAt g rc = Some Empty) ->
    locked g0 g locks ->
    locked g0 g' (locks ++ segments emptyCells distribution).
Proof.
  induction distribution as [|[color count] more IH];
    intros emptyCells locks g g' H Hnd Hfresh Hcells Hempty Hl;
    cbn [segments writeLocks] in *.
  - injection H as <-. rewrite app_nil_r. exact Hl.
  - cbn [map fst] in Hnd, Hfresh. inversion_clear Hnd as [|? ? Hc Hmore].
    bind_as H g1 Em.
    set (seg := firstn (Z.to_nat count) emptyCells) in *.
    set (rest := skipn (Z.to_nat count) emptyCells) in *.
    assert (Hsplit : NoDup (seg ++ rest)).
    { unfold seg, rest. rewrite firstn_skipn. exact Hcells. }
    assert (Hseg : forall rc, In rc seg -> In rc emptyCells).
    { intros rc. apply RoundTrip.firstn_In'. }
    assert (Hrest : forall rc, In rc rest -> In rc emptyCells).
    { intros rc. apply RoundTrip.skipn_In'. }
    assert (Hm : marks (LockedFor color) g g1 seg).
    { apply marks_markAll; [discriminate|exact Em|exact (NoDup_app_remove_r _ _ Hsplit)|].
      intros rc Hrc. exact (Hempty _ (Hseg _ Hrc)). }
    change (locks ++ (color, seg) :: segments rest more)
      with (locks ++ [(color, seg)] ++ segments rest more).
    rewrite app_assoc. apply (IH rest (locks ++ [(color, seg)]) g1 g' H Hmore).
    + intros k Hk. rewrite map_app, in_app_iff. cbn [map fst].
      intros [H1|[<-|[]]]; [|exact (Hc Hk)]. apply (Hfresh k); [right; exact Hk|exact H1].
    + exact (NoDup_app_remove_l _ _ Hsplit).
    + intros rc Hrc. destruct Hm as (_ & _ & Hout). rewrite Hout.
      * exact (Hempty _ (Hrest _ Hrc)).
      * intros Hin. exact (NoDup_app_disjoint _ _ _ Hsplit Hin Hrc).
    + eapply locked_snoc; [exact Hl|apply Hfresh; left; reflexivity|exact Hm].
Qed.

Lemma slices_NoDup (l : list Cell) (n : Z) :
  NoDup l ->
  NoDup (slice_to l n) /\ NoDup (slice_from l n) /\
  (forall rc, In rc (slice_to l n) -> ~ In rc (slice_from l n)).
Proof.
  intros Hl. unfold slice_to, slice_from.
  assert (H : forall k, NoDup (firstn k l) /\ NoDup (skipn k l) /\
                        (forall rc, In rc (firstn k l) -> ~ In rc (skipn k l))).
  { intros k. rewrite <- (firstn_skipn k l) in Hl.
    split; [exact (NoDup_app_remove_r _ _ Hl)|].
    split; [exact (NoDup_app_remove_l _ _ Hl)|].
    intros rc H1 H2. exact (NoDup_app_disjoint _ _ _ Hl H1 H2). }
  destruct (n <? 0); apply H.
Qed.

(** *** [_placeAndValidate], [_attemptGeneration] and [generate] *)

Lemma tryWithBlockers_agrees (cfg : Config) (shapeSelection : Selection)
    (blb : BlockerLockBudget) (lockDistribution : list (string * Z)) (strategy : Strategy)
    (n : nat) :
  NoDup (map fst lockDistribution) ->
  forall rnd rnd' placed,
    tryWithBlockers n cfg shapeSelection blb lockDistribution strategy rnd
      = Some (Some placed, rnd') ->
    agrees (pl_grid placed) (pl_blockers placed) (pl_locks placed).
Proof.
  intros Hnd. induction n as [|n IH]; intros rnd rnd' placed H; simpl in H; [discriminate|].
  bind_as H g Eg. bind_as H b Eb. destruct b as [[g1 bs] rnd1].
  bind_as H l El. destruct l as [[g2 locks] rnd2].
  bind_as H p Ep. destruct p as [[res|] rnd3]; [|exact (IH _ _ _ H)].
  injection H as <- _. cbn [pl_grid pl_blockers pl_locks].
  eapply agrees_fills; [|exact (_findValidPlacement_fills _ _ _ _ _ Ep)].
  eapply agrees_of.
  - exact (emptyGrid_bare _ _ _ Eg).
  - exact (_placeBlockers_marks _ _ _ _ _ _ _ Eb).
  - exact (_placeLocks_locked _ _ _ _ _ _ _ El Hnd).
Qed.

Lemma _findEmptyCells_NoDup (R C : nat) (g : Grid) (rnd rnd' : list Z)
    (cells : list Cell) :
  RoundTrip.shaped R C g -> _findEmptyCells g rnd = Some (cells, rnd') -> NoDup cells.
Proof.
  intros Hg H. unfold _findEmptyCells in H. bind_as H empty E.
  destruct (PuzzleFacts.emptyCellsOf_spec _ _ _ _ Hg E) as [Hnd _].
  destruct (PuzzleFacts.shuffle_keeps _ _ _ _ _ H) as [Hlen Hincl].
  apply (NoDup_incl_NoDup Hnd); [lia|exact Hincl].
Qed.

Lemma fallback_agrees (cfg : Config) (shapeSelection : Selection)
    (blb : BlockerLockBudget) (lockDistribution : list (string * Z))
    (rnd rnd' : list Z) (placed : Placed) :
  NoDup (map fst lockDistribution) ->
  fallback cfg shapeSelection blb lockDistribution rnd = Some (Some placed, rnd') ->
  agrees (pl_grid placed) (pl_blockers placed) (pl_locks placed).
Proof.
  intros Hnd H. unfold fallback in H.
  bind_as H g Eg. bind_as H p Ep. destruct p as [[res|] rnd1]; [|discriminate].
  bind_as H e Ee. destruct e as [emptyCells rnd2].
  cbv zeta in H. bind_as H g1 E1. bind_as H g2 E2. injection H as <- _.
  cbn [pl_grid pl_blockers pl_locks].
  pose proof (_findValidPlacement_fills _ _ _ _ _ Ep) as Hf.
  pose proof (bare_fills _ _ (emptyGrid_bare _ _ _ Eg) Hf) as Hbare.
  destruct (RoundTrip.emptyGrid_spec _ _ _ Eg) as (Hg & _).
  pose proof (_findEmptyCells_NoDup _ _ _ _ _ _ (proj1 Hf _ _ Hg) Ee) as Hcells.
  pose proof (RoundTrip._findEmptyCells_In _ _ _ _ Ee) as Hempty.
  destruct (slices_NoDup _ (blockerBudget blb) Hcells) as (Nb & Nr & Hdisj).
  assert (Hm : marks Blocked (pr_grid res) g1
                 (_placeInEmptyCells emptyCells (blockerBudget blb))).
  { apply marks_markAll; [discriminate|exact E1|exact Nb|].
    intros rc Hrc. apply Hempty. exact (RoundTrip.slice_to_In _ _ _ Hrc). }
  pose proof (_placeLocksinEmptyCells_segments lockDistribution
                (slice_from emptyCells (blockerBudget blb)) [] Hnd
                (fun k _ (H : In k []) => H)) as Eseg.
  cbn [app] in Eseg. rewrite Eseg in E2 |- *.
  eapply agrees_of; [exact Hbare|exact Hm|].
  apply (writeLocks_segments g1 _ _ [] g1 g2 E2 Hnd); [intros k _ []|exact Nr| |apply locked_nil].
  intros rc Hrc. destruct Hm as (_ & _ & Hout). rewrite Hout.
  - apply Hempty. exact (RoundTrip.slice_from_In _ _ _ Hrc).
  - intros Hin. exact (Hdisj _ Hin Hrc).
Qed.

Lemma _placeAndValidate_agrees (cfg : Config) (shapeSelection : Selection)
    (blb : BlockerLockBudget) (lockDistribution : list (string * Z)) (strategy : Strategy)
    (rnd rnd' : list Z) (placed : Placed) :
  NoDup (map fst lockDistribution) ->
  _placeAndValidate cfg shapeSelection blb lockDistribution strategy rnd
    = Some (Some placed, rnd') ->
  agrees (pl_grid placed) (pl_blockers placed) (pl_locks placed).
Proof.
  unfold _placeAndValidate. intros Hnd H. bind_as H r E.
  destruct r as [[p|] rnd1].
  - injection H as <- _. eapply tryWithBlockers_agrees; eassumption.
  - eapply fallback_agrees; eassumption.
Qed.

Lemma _attemptGeneration_agrees (lib : ShapeLibrary) (cfg : Config) (rnd rnd' : list Z)
    (puzzle : Puzzle) :
  _attemptGeneration lib cfg rnd = Some (Generated puzzle, rnd') ->
  agrees (grid puzzle) (puzzle_blockers puzzle) (puzzle_locks puzzle).
Proof.
  unfold _attemptGeneration. intros H.
  bind_as H s Es. destruct s as [sel rnd1].
  destruct (negb (sel_success sel)); [discriminate|].
  bind_as H l El. destruct l as [dist rnd2].
  destruct rnd2 as [|x rnd3]; [discriminate|].
  bind_as H p Ep. destruct p as [[placed|] rnd4]; [|discriminate].
  bind_as H reqs Er. injection H as <- _.
  cbn [grid puzzle_blockers puzzle_locks].
  eapply _placeAndValidate_agrees; [|exact Ep].
  exact (_distributeLocks_keys _ _ _ _ _ El).
Qed.

(** X26.  In every generated puzzle the grid, [blockers] and [locks] tell the
    same: the blocked cells of the grid are the cells of [blockers], the
    cells locked for a colour are those of [locks] under that colour, and
    neither list holds a cell twice. *)
Theorem generate_blockers_and_locks :
  forall lib config attempts rnd puzzle,
    generate lib config attempts rnd = Some (Some puzzle) ->
    NoDup (puzzle_blockers puzzle) /\
    (forall k cells, lookup k (puzzle_locks puzzle) = Some cells -> NoDup cells) /\
    (forall rc, SolverFacts.stateAt (grid puzzle) rc = Some Blocked <->
                In rc (puzzle_blockers puzzle)) /\
    (forall rc k, SolverFacts.stateAt (grid puzzle) rc = Some (LockedFor k) <->
                  exists cells, lookup k (puzzle_locks puzzle) = Some cells /\ In rc cells).
Proof.
  intros lib config attempts rnd puzzle H.
  destruct (PuzzleFacts.generate_attempt _ _ _ _ _ H) as (rnd1 & rnd2 & Ha).
  destruct (_attemptGeneration_agrees _ _ _ _ _ Ha) as (Nb & _ & Nl & Hb & Hl).
  split; [exact Nb|]. split; [exact Nl|]. split; [exact Hb|exact Hl].
Qed.

Lemma generate_blockers_and_locks_witness :
  generate SHAPE_LIBRARY Examples.mixed_config 1 Examples.mixed_draws
    = Some (Some Examples.mixed_puzzle) /\
  (NoDup (puzzle_blockers Examples.mixed_puzzle) /\
   (forall k cells, lookup k (puzzle_locks Examples.mixed_puzzle) = Some cells ->
                    NoDup cells) /\
   (forall rc, SolverFacts.stateAt (grid Examples.mixed_puzzle) rc = Some Blocked <->
               In rc (puzzle_blockers Examples.mixed_puzzle)) /\
   (forall rc k,
      SolverFacts.stateAt (grid Examples.mixed_puzzle) rc = Some (LockedFor k) <->
      exists cells, lookup k (puzzle_locks Examples.mixed_puzzle) = Some cells /\
                    In rc cells)).
Proof.
  assert (Hg : generate SHAPE_LIBRARY Examples.mixed_config 1 Examples.mixed_draws
               = Some (Some Examples.mixed_puzzle)) by (vm_compute; reflexivity).
  split; [exact Hg|].
  exact (generate_blockers_and_locks SHAPE_LIBRARY Examples.mixed_config 1
           Examples.mixed_draws Examples.mixed_puzzle Hg).
Defined.

End MarkFacts.

(** ** The free search finds what [validateSolution] accepts *)

Module FreeFacts.
Import Shapes Solver Validate ValidateFacts SoundFacts.

(** *** The search as an enumeration *)

(** The solutions met by the loop of [backtrack] over the placements [ps],
    were there no cap. *)
Fixpoint freeLoop (color : string) (ps : list Placement) (st : Store)
  : list ColorSolution :=
  match ps with
  | [] => []
  | p :: ps' =>
      (if overlaps (usedCells st) p then []
       else match place p st with
            | Some st1 => ExactFacts.enumHead false color (freeLoop color ps') st1
            | None => []
            end)
      ++ freeLoop color ps' st
  end.

(** The stores on which the search runs without leaving the model. *)
Definition ready (R C : nat) (st : Store) : Prop :=
  List.length (rowCounts st) = R /\ List.length (colCounts st) = C /\
  (R <= List.length (rowReqs st))%nat /\ (C <= List.length (colReqs st))%nat /\
  usedIndices st = [].

(** What a part of the search does from a store below the cap: it returns
    with the solutions [found] appended, up to the cap, and everything else
    as it was. *)
Definition returns (R C : nat) (k : Store -> option Store)
    (found : Store -> list ColorSolution) : Prop :=
  forall st, ready R C st -> ExactFacts.full (solutions st) = false ->
    k st = Some (with_solutions
                   (ExactFacts.cap (solutions st ++ found (ExactFacts.erase st))) st).

Lemma ready_wf (R C : nat) (st : Store) : ready R C st -> ExactFacts.wf R C 0 st.
Proof.
  intros (Hr & Hc & Hrr & Hcr & Hi). unfold ExactFacts.wf. rewrite Hi.
  repeat split; try assumption. constructor.
Qed.

Lemma full_cap (l : list ColorSolution) :
  ExactFacts.full (ExactFacts.cap l) = ExactFacts.full l.
Proof.
  unfold ExactFacts.full, ExactFacts.cap.
  destruct (Nat.le_gt_cases (List.length l) 100) as [Hle|Hgt].
  - rewrite firstn_all2 by exact Hle. reflexivity.
  - rewrite firstn_length_le by lia.
    destruct (Z.leb_spec 100 (Z.of_nat 100)); [|lia].
    destruct (Z.leb_spec 100 (Z.of_nat (List.length l))); [reflexivity|lia].
Qed.

Section Search.

Variables (color : string) (R C : nat).

Lemma backtrack_head_returns (k : Store -> option Store)
    (found : Store -> list ColorSolution) :
  returns R C k found ->
  returns R C (backtrack_head color k) (ExactFacts.enumHead false color found).
Proof.
  intros Hk st Hok Hnf. unfold backtrack_head, ExactFacts.enumHead.
  cbn [rowCounts colCounts rowReqs colReqs ExactFacts.erase with_solutions].
  destruct (ExactFacts.countsMatch_total color R C 0 st (ready_wf _ _ _ Hok)) as [m Em].
  destruct (ExactFacts.countsExceed_total color R C 0 st (ready_wf _ _ _ Hok)) as [e Ee].
  rewrite Em.
  change (snapshot_instances false (ExactFacts.erase st)) with (snapshot st).
  set (snap := snapshot st).
  destruct m.
  - cbn [andb solutions with_solutions rowCounts colCounts rowReqs colReqs].
    change (100 <=? Z.of_nat (List.length (solutions st ++ [snap])))
      with (ExactFacts.full (solutions st ++ [snap])).
    destruct (ExactFacts.full (solutions st ++ [snap])) eqn:Ef.
    + f_equal.
      match goal with |- context [[snap] ++ ?x] => generalize x end. intros X.
      rewrite (app_assoc (solutions st) [snap] X).
      rewrite ExactFacts.cap_exact by assumption. reflexivity.
    + rewrite Ee. destruct e.
      * rewrite app_nil_r, ExactFacts.below_cap_all by assumption. reflexivity.
      * set (st1 := with_solutions (solutions st ++ [snap]) st).
        assert (Hok1 : ready R C st1) by exact Hok.
        rewrite (Hk st1 Hok1 Ef).
        change (ExactFacts.erase st1) with (ExactFacts.erase st).
        cbn [solutions with_solutions st1]. rewrite <- app_assoc. reflexivity.
  - cbn [andb app]. rewrite Ee. destruct e.
    + rewrite app_nil_r, ExactFacts.below_cap_all by assumption.
      rewrite ExactFacts.with_solutions_same. reflexivity.
    + exact (Hk st Hok Hnf).
Qed.

Lemma ready_placed (p : Placement) (st st1 : Store) :
  ready R C st -> place p st = Some st1 ->
  ready R C st1 /\ solutions st1 = solutions st.
Proof.
  intros (Hr & Hc & Hrr & Hcr & Hi) H.
  change (place p st) with (place_instance false 0 p st) in H.
  destruct (ExactFacts.place_instance_spec _ _ _ _ _ H)
    as (Sr & Sc & _ & _ & Hi1 & _ & Err & Ecr & Hs & _).
  split; [|exact Hs]. unfold ready.
  rewrite (ExactFacts.shifted_length _ _ _ _ Sr), (ExactFacts.shifted_length _ _ _ _ Sc),
    Err, Ecr, Hi1.
  repeat split; assumption.
Qed.

Lemma place_total (p : Placement) (st : Store) :
  ready R C st -> ExactFacts.in_grid R C p -> exists st1, place p st = Some st1.
Proof.
  intros (Hr & Hc & _) Hp. apply (ExactFacts.place_instance_total false 0).
  unfold ExactFacts.inside. rewrite Hr, Hc. exact Hp.
Qed.

(** The loop of [backtrack] is the enumeration, cut at 100. *)
Lemma backtrack_loop_returns (ps : list Placement) :
  Forall (ExactFacts.in_grid R C) ps ->
  returns R C (backtrack_loop color ps) (freeLoop color ps).
Proof.
  induction ps as [|p ps IH]; intros Hps st Hok Hnf.
  - cbn [backtrack_loop freeLoop]. rewrite app_nil_r, ExactFacts.below_cap_all by assumption.
    rewrite ExactFacts.with_solutions_same. reflexivity.
  - inversion_clear Hps as [|? ? Hp Hps']. specialize (IH Hps').
    cbn [backtrack_loop freeLoop].
    change (usedCells (ExactFacts.erase st)) with (usedCells st).
    destruct (overlaps (usedCells st) p) eqn:Hov.
    + cbn [app]. exact (IH st Hok Hnf).
    + destruct (place_total p st Hok Hp) as [st1 E1]. rewrite E1.
      pose proof (ExactFacts.place_instance_with_solutions false 0 p [] st st1 E1) as E1'.
      change (place_instance false 0 p (with_solutions [] st))
        with (place p (ExactFacts.erase st)) in E1'.
      change (with_solutions [] st1) with (ExactFacts.erase st1) in E1'.
      rewrite E1'.
      destruct (ready_placed _ _ _ Hok E1) as [Hok1 Es1].
      assert (Hnf1 : ExactFacts.full (solutions st1) = false) by (rewrite Es1; exact Hnf).
      rewrite (backtrack_head_returns _ _ IH st1 Hok1 Hnf1). rewrite Es1.
      set (A := ExactFacts.enumHead false color (freeLoop color ps) (ExactFacts.erase st1)).
      assert (Hfresh : forall rc, In rc (cells p) -> ~ In rc (usedCells st))
        by exact (proj1 (SolverFacts.overlaps_false _ _) Hov).
      assert (Hidx : ~ In 0 (usedIndices st)).
      { destruct Hok as (_ & _ & _ & _ & ->). intros []. }
      change (unplace p ?s) with (unplace_instance false 0 p s).
      rewrite (ExactFacts.unplace_instance_place false 0 p _ st st1 E1 Hfresh Hidx).
      cbn [solutions with_solutions].
      change (100 <=? Z.of_nat (List.length (ExactFacts.cap (solutions st ++ A))))
        with (ExactFacts.full (ExactFacts.cap (solutions st ++ A))).
      rewrite full_cap, app_assoc.
      destruct (ExactFacts.full (solutions st ++ A)) eqn:Ef.
      * rewrite (ExactFacts.cap_after_full (solutions st ++ A)) by assumption. reflexivity.
      * rewrite (ExactFacts.below_cap_all _ Ef).
        set (st3 := with_solutions (solutions st ++ A) st).
        assert (Hok3 : ready R C st3) by exact Hok.
        rewrite (IH st3 Hok3 Ef). reflexivity.
Qed.

End Search.

(** The placements a search goes through: those of the list that keep off
    the forbidden cells. *)
Lemma validPlacementsOf_In (placements : list Placement) (forbiddenCells : list Cell)
    (p : Placement) :
  In p (validPlacementsOf placements forbiddenCells) <->
  In p placements /\ forall rc, In rc (cells p) -> ~ In rc forbiddenCells.
Proof.
  unfold validPlacementsOf.
  assert (Hf : In p (filter (fun p => negb (overlaps (new_Set forbiddenCells) p)) placements)
               <-> In p placements /\ forall rc, In rc (cells p) -> ~ In rc forbiddenCells).
  { rewrite filter_In, negb_true_iff, SolverFacts.overlaps_false.
    split; intros [H1 H2]; (split; [exact H1|]); intros rc Hrc Hin; apply (H2 rc Hrc).
    - exact (proj2 (new_Set_In _ _) Hin).
    - exact (proj1 (new_Set_In _ _) Hin). }
  rewrite <- Hf. split; apply Permutation_in.
  - apply SolverFacts.sortByPosition_perm.
  - symmetry. apply SolverFacts.sortByPosition_perm.
Qed.

(** The solutions of a free search, before the cap. *)
Definition freeFound (color : string) (placements : list Placement)
    (gridRows gridCols : Z) (forbiddenCells : list Cell) (st : Store)
  : list ColorSolution :=
  ExactFacts.enumHead false color
    (freeLoop color (validPlacementsOf placements forbiddenCells))
    (ExactFacts.start gridRows gridCols st).

(** A free search returns the first 100 of its solutions, and hands the
    caller's objects back. *)
Lemma solveForColor_spec (color : string) (placements : list Placement)
    (gridRows gridCols : Z) (forbiddenCells : list Cell) (st : Store) :
  0 <= gridRows -> 0 <= gridCols ->
  (Z.to_nat gridRows <= List.length (rowReqs st))%nat ->
  (Z.to_nat gridCols <= List.length (colReqs st))%nat ->
  Forall (ExactFacts.in_grid (Z.to_nat gridRows) (Z.to_nat gridCols)) placements ->
  exists st',
    solveForColor color placements gridRows gridCols forbiddenCells st
    = Some (ExactFacts.cap (freeFound color placements gridRows gridCols forbiddenCells st),
            st') /\
    SolverFacts.same_inputs st st'.
Proof.
  intros HR HC Hrr Hcr Hps. unfold solveForColor, fresh_locals, Array_fill0.
  destruct (Z.ltb_spec gridRows 0); [lia|]. destruct (Z.ltb_spec gridCols 0); [lia|].
  change (mkStore (gridState st) (rowReqs st) (colReqs st) []
            (repeat 0 (Z.to_nat gridRows)) (repeat 0 (Z.to_nat gridCols)) [] [] [])
    with (ExactFacts.start gridRows gridCols st).
  set (st0 := ExactFacts.start gridRows gridCols st).
  assert (Hok : ready (Z.to_nat gridRows) (Z.to_nat gridCols) st0).
  { unfold ready, st0, ExactFacts.start. cbn. rewrite !repeat_length. repeat split; auto. }
  assert (Hvalid : Forall (ExactFacts.in_grid (Z.to_nat gridRows) (Z.to_nat gridCols))
                          (validPlacementsOf placements forbiddenCells)).
  { rewrite Forall_forall in Hps |- *. intros p Hp. apply Hps.
    exact (proj1 (proj1 (validPlacementsOf_In _ _ _) Hp)). }
  unfold backtrack.
  rewrite (backtrack_head_returns color _ _ _ _
             (backtrack_loop_returns color _ _ _ Hvalid) st0 Hok eq_refl).
  eexists. split; [reflexivity|]. repeat split.
Qed.

(** *** From a set of placements to a solution of the search *)

(** [T] is made of elements of [V], in the order of [V]. *)
Inductive subseq {A : Type} : list A -> list A -> Prop :=
| subseq_nil : subseq [] []
| subseq_skip (x : A) (T V : list A) : subseq T V -> subseq T (x :: V)
| subseq_take (x : A) (T V : list A) : subseq T V -> subseq (x :: T) (x :: V).

Lemma enumHead_mono (color : string) (rest rest' : Store -> list ColorSolution)
    (st : Store) (x : ColorSolution) :
  (In x (rest st) -> In x (rest' st)) ->
  In x (ExactFacts.enumHead false color rest st) ->
  In x (ExactFacts.enumHead false color rest' st).
Proof.
  unfold ExactFacts.enumHead. intros Hsub.
  destruct (countsMatch _ _ _ _ _) as [m|]; [|intros []].
  rewrite !in_app_iff. intros [H|H]; [left; exact H|right].
  destruct (countsExceed _ _ _ _ _) as [[|]|]; auto.
Qed.

Section Path.

Variables (color : string) (R C : nat).

(** Placements taken in the order of the list, on cells of their own, with
    which the counts are as required, are met by the search. *)
Lemma free_reach (V T : list Placement) :
  subseq T V ->
  forall st,
    ready R C st ->
    Forall (ExactFacts.in_grid R C) T ->
    NoDup (flat_map cells T) ->
    (forall rc, In rc (flat_map cells T) -> ~ In rc (usedCells st)) ->
    ExactFacts.due color st T ->
    exists final,
      In (snapshot final) (ExactFacts.enumHead false color (freeLoop color V) st) /\
      (forall rc, In rc (usedCells final) <->
                  In rc (usedCells st) \/ In rc (flat_map cells T)).
Proof.
  induction 1 as [|x T V Hsub IH|x T V Hsub IH]; intros st Hok Hgrid Hnd Hfree Hdue.
  - exists st. split.
    + apply (ExactFacts.enumHead_here false color). apply ExactFacts.due_match. exact Hdue.
    + intros rc. cbn. tauto.
  - destruct (IH st Hok Hgrid Hnd Hfree Hdue) as (final & Hin & Hcells).
    exists final. split; [|exact Hcells].
    eapply enumHead_mono; [|exact Hin]. cbn [freeLoop]. intros H.
    apply in_app_iff. right. exact H.
  - inversion_clear Hgrid as [|? ? Hx HT]. cbn [flat_map] in Hnd, Hfree.
    assert (Hov : overlaps (usedCells st) x = false).
    { apply SolverFacts.overlaps_false. intros rc Hrc. apply Hfree.
      apply in_app_iff. left. exact Hrc. }
    destruct (place_total R C x st Hok Hx) as [st1 E1].
    destruct (ready_placed R C _ _ _ Hok E1) as [Hok1 _].
    pose proof E1 as E1'. change (place x st) with (place_instance false 0 x st) in E1'.
    destruct (ExactFacts.place_instance_spec _ _ _ _ _ E1')
      as (_ & _ & Hu1 & _ & _ & _ & _ & _ & _ & _).
    destruct (IH st1 Hok1 HT) as (final & Hin & Hcells).
    + exact (NoDup_app_remove_l _ _ Hnd).
    + intros rc Hrc. rewrite Hu1, fold_set_add_In. intros [H|H].
      * revert H. apply Hfree. apply in_app_iff. right. exact Hrc.
      * exact (NoDup_app_disjoint _ _ _ Hnd H Hrc).
    + exact (ExactFacts.due_placed false color 0 st st1 [] T x Hdue E1').
    + exists final. split.
      * destruct (ExactFacts.countsMatch_total color R C 0 st (ready_wf _ _ _ Hok))
          as [m Em].
        apply (ExactFacts.enumHead_below false color _ st m); [exact Em| |].
        -- exact (ExactFacts.due_exceed color st _ Hdue).
        -- cbn [freeLoop]. rewrite Hov, E1. apply in_app_iff. left. exact Hin.
      * intros rc. cbn [flat_map]. rewrite Hcells, Hu1, fold_set_add_In, in_app_iff. tauto.
Qed.

End Path.

Definition placement_eq_dec (a b : Placement) : {a = b} + {a <> b}.
Proof.
  decide equality;
    try apply (list_eq_dec cell_eq_dec); try apply Z.eq_dec; apply string_dec.
Defined.

(** Distinct elements of a list can be taken in the order of the list. *)
Lemma pick_in_order (V : list Placement) :
  forall G, NoDup G -> incl G V -> exists T, subseq T V /\ Permutation T G.
Proof.
  induction V as [|v V IH]; intros G Hnd Hincl.
  - destruct G as [|g G]; [exists []; split; constructor|].
    destruct (Hincl g (or_introl eq_refl)).
  - destruct (in_dec placement_eq_dec v G) as [Hin|Hout].
    + destruct (in_split _ _ Hin) as (G1 & G2 & ->).
      destruct (NoDup_remove _ _ _ Hnd) as [Hnd' Hv].
      destruct (IH (G1 ++ G2) Hnd') as (T & Hsub & Hperm).
      { intros x Hx. assert (Hx' : In x (G1 ++ v :: G2)).
        { apply in_app_iff in Hx. apply in_app_iff. destruct Hx; [left|right; right]; assumption. }
        destruct (Hincl x Hx') as [<-|H]; [contradiction|exact H]. }
      exists (v :: T). split; [constructor; exact Hsub|].
      apply Permutation_cons_app. exact Hperm.
    + destruct (IH G Hnd) as (T & Hsub & Hperm).
      { intros x Hx. destruct (Hincl x Hx) as [<-|H]; [contradiction|exact H]. }
      exists T. split; [constructor; exact Hsub|exact Hperm].
Qed.

Lemma NoDup_flat_map_nonempty {A B : Type} (f : A -> list B) (l : list A) :
  NoDup (flat_map f l) -> (forall x, In x l -> f x <> []) -> NoDup l.
Proof.
  induction l as [|x l IH]; intros Hnd Hne; [constructor|]. cbn [flat_map] in Hnd.
  constructor.
  2:{ apply IH; [exact (NoDup_app_remove_l _ _ Hnd)|].
      intros y Hy. apply Hne. right. exact Hy. }
  intros Hx. destruct (f x) as [|b bs] eqn:E; [exact (Hne x (or_introl eq_refl) E)|].
  apply (NoDup_app_disjoint _ _ b Hnd); [left; reflexivity|].
  apply in_flat_map. exists x. split; [exact Hx|]. rewrite E. left. reflexivity.
Qed.

Lemma tally_perm (ks ks' : list Z) (j : Z) :
  Permutation ks ks' -> ExactFacts.tally ks j = ExactFacts.tally ks' j.
Proof.
  intros H. unfold ExactFacts.tally. f_equal.
  exact (proj1 (Permutation_count_occ Z.eq_dec ks ks') H j).
Qed.

Lemma due_perm (color : string) (st : Store) (T G : list Placement) :
  Permutation T G -> ExactFacts.due color st G -> ExactFacts.due color st T.
Proof.
  intros Hp (gr & gc & Hr & Hc & Er & Ec). exists gr, gc.
  assert (Hcells : Permutation (flat_map cells T) (flat_map cells G))
    by (apply Permutation_flat_map; exact Hp).
  split; [|split; [|split; assumption]]; intros j.
  - rewrite (Hr j). rewrite (tally_perm _ _ j (Permutation_map fst Hcells)). reflexivity.
  - rewrite (Hc j). rewrite (tally_perm _ _ j (Permutation_map snd Hcells)). reflexivity.
Qed.

(** What the search for one colour finds, from the store of the caller. *)
Lemma solveForColor_finds (color : string) (all : list Placement)
    (gridRows gridCols : Z) (forbiddenCells : list Cell) (st : Store) (G : list Placement) :
  0 <= gridRows -> 0 <= gridCols ->
  (Z.to_nat gridRows <= List.length (rowReqs st))%nat ->
  (Z.to_nat gridCols <= List.length (colReqs st))%nat ->
  Forall (ExactFacts.in_grid (Z.to_nat gridRows) (Z.to_nat gridCols)) all ->
  (forall p, In p G -> In p all /\ cells p <> []) ->
  NoDup (flat_map cells G) ->
  (forall rc, In rc (flat_map cells G) -> ~ In rc forbiddenCells) ->
  ExactFacts.due color (ExactFacts.start gridRows gridCols st) G ->
  exists g,
    In g (freeFound color all gridRows gridCols forbiddenCells st) /\
    ExactFacts.same_cells (sol_cells g) (flat_map cells G).
Proof.
  intros HR HC Hrr Hcr Hgrid HG Hnd Hfree Hdue.
  destruct (pick_in_order (validPlacementsOf all forbiddenCells) G) as (T & Hsub & Hperm).
  - apply (NoDup_flat_map_nonempty cells); [exact Hnd|]. intros p Hp. exact (proj2 (HG p Hp)).
  - intros p Hp. apply validPlacementsOf_In. split; [exact (proj1 (HG p Hp))|].
    intros rc Hrc. apply Hfree. apply in_flat_map. exists p. split; assumption.
  - assert (Hcells : Permutation (flat_map cells T) (flat_map cells G))
      by (apply Permutation_flat_map; exact Hperm).
    destruct (free_reach color (Z.to_nat gridRows) (Z.to_nat gridCols) _ _ Hsub
                (ExactFacts.start gridRows gridCols st))
      as (final & Hin & Hused).
    + unfold ready, ExactFacts.start. cbn. rewrite !repeat_length. repeat split; auto.
    + rewrite Forall_forall in Hgrid |- *. intros p Hp. apply Hgrid.
      apply (proj1 (HG p (Permutation_in _ Hperm Hp))).
    + exact (Permutation_NoDup (Permutation_sym Hcells) Hnd).
    + intros rc _ [].
    + exact (due_perm _ _ _ _ Hperm Hdue).
    + exists (snapshot final). split; [exact Hin|].
      intros rc. cbn [snapshot sol_cells]. rewrite Hused. cbn [ExactFacts.start usedCells].
      split.
      * intros [[]|H]. exact (Permutation_in _ Hcells H).
      * intros H. right. exact (Permutation_in _ (Permutation_sym Hcells) H).
Qed.

(** *** Putting the two colours together *)

Section Combining.

Variables (hasBlueReq : bool) (all : list Placement) (gridRows gridCols : Z)
          (blockedCells : list Cell) (st0 : Store).

Hypotheses (HR : 0 <= gridRows) (HC : 0 <= gridCols)
           (Hrr : (Z.to_nat gridRows <= List.length (rowReqs st0))%nat)
           (Hcr : (Z.to_nat gridCols <= List.length (colReqs st0))%nat)
           (Hgrid : Forall (ExactFacts.in_grid (Z.to_nat gridRows) (Z.to_nat gridCols)) all).

(** The blue solutions looked for after the green solution [g]. *)
Definition blueAfter (g : ColorSolution) : list ColorSolution :=
  ExactFacts.cap
    (freeFound "blue" all gridRows gridCols (blockedCells ++ sol_cells g) st0).

(** What the green solution [g] adds to the combined solutions. *)
Definition combinations (g : ColorSolution) : list Solution :=
  if hasBlueReq then map (ExactFacts.combined g) (blueAfter g)
  else [mkSolution (sol_cells g) [] (sol_placements g) []].

(** The loop over the green solutions returns, and what it returns holds
    every combination when it is shorter than the cap. *)
Lemma combine_loop_spec (greenSolutions : list ColorSolution) :
  forall sols st,
    SolverFacts.same_inputs st0 st ->
    exists sols' st',
      combine_loop hasBlueReq all gridRows gridCols blockedCells greenSolutions sols st
      = Some (sols', st') /\
      SolverFacts.same_inputs st0 st' /\
      (List.length sols <= List.length sols')%nat /\
      ((List.length sols' < 50)%nat ->
       sols' = sols ++ flat_map combinations greenSolutions).
Proof.
  induction greenSolutions as [|g more IH]; intros sols st Hst.
  - exists sols, st. cbn. rewrite app_nil_r. auto.
  - cbn [combine_loop flat_map]. unfold combinations at 1.
    cbv beta iota zeta. destruct hasBlueReq.
    + destruct (solveForColor_spec "blue" all gridRows gridCols
                  (blockedCells ++ sol_cells g) st HR HC)
        as (st1 & E & Hin).
      { destruct Hst as (_ & -> & _). exact Hrr. }
      { destruct Hst as (_ & _ & ->). exact Hcr. }
      { exact Hgrid. }
      rewrite E. cbn [fst snd].
      unfold freeFound in *. rewrite (ExactFacts.start_same _ _ _ _ Hst).
      fold (freeFound "blue" all gridRows gridCols (blockedCells ++ sol_cells g) st0).
      fold (blueAfter g).
      pose proof (ExactFacts.pushCombined_grows g (blueAfter g) sols) as Hgrow.
      assert (Hst1 : SolverFacts.same_inputs st0 st1)
        by (eapply SolverFacts.same_inputs_trans; eassumption).
      destruct (50 <=? _) eqn:E50.
      * eexists _, st1. split; [reflexivity|]. split; [exact Hst1|].
        split; [exact Hgrow|]. apply Z.leb_le in E50. intros H. lia.
      * destruct (IH (pushCombined g (blueAfter g) sols) st1 Hst1)
          as (sols' & st' & Erun & Hin' & Hlen & Hsmall).
        exists sols', st'. split; [exact Erun|]. split; [exact Hin'|].
        split; [lia|]. intros H. rewrite (Hsmall H), app_assoc. f_equal.
        apply ExactFacts.pushCombined_all. lia.
    + cbn [fst snd].
      destruct (50 <=? _) eqn:E50.
      * eexists _, st. split; [reflexivity|]. split; [exact Hst|].
        split; [rewrite length_app; simpl; lia|]. apply Z.leb_le in E50. intros H. lia.
      * destruct (IH (sols ++ [mkSolution (sol_cells g) [] (sol_placements g) []]) st Hst)
          as (sols' & st' & Erun & Hin' & Hlen & Hsmall).
        exists sols', st'. split; [exact Erun|]. split; [exact Hin'|].
        rewrite length_app in Hlen. simpl in Hlen.
        split; [lia|]. intros H. rewrite (Hsmall H), <- app_assoc. reflexivity.
Qed.

End Combining.

(** The list [greenSolutions] of [runSolver], before the combinations are
    made. *)
Definition greenFound (all : list Placement) (gridRows gridCols : Z) (bl : list Cell)
    (st : Store) : list ColorSolution :=
  if hasReq "green" (rowReqs st) (colReqs st)
  then ExactFacts.cap (freeFound "green" all gridRows gridCols bl st)
  else [mkColorSolution [] [] None].

Section Certificate.

Variables (lib : ShapeLibrary) (gridRows gridCols : Z) (enabledShapes : list string)
          (st : Store) (bl : list Cell) (all : list Placement)
          (Tg Tb : list Placement).

Hypotheses
  (HR : 0 <= gridRows) (HC : 0 <= gridCols)
  (Hrr : List.length (rowReqs st) = Z.to_nat gridRows)
  (Hcr : List.length (colReqs st) = Z.to_nat gridCols)
  (Hbl : blockedCellsOf gridRows gridCols (gridState st) = Some bl)
  (Hall : generateAllPlacements lib gridRows gridCols bl enabledShapes = Some all)
  (Hgrid : Forall (ExactFacts.in_grid (Z.to_nat gridRows) (Z.to_nat gridCols)) all)
  (Hin : forall p, In p (Tg ++ Tb) -> In p all /\ cells p <> [])
  (Hnd : NoDup (flat_map cells (Tg ++ Tb)))
  (Hfree : forall rc, In rc (flat_map cells (Tg ++ Tb)) -> ~ In rc bl)
  (Hgreen : hasReq "green" (rowReqs st) (colReqs st) = true ->
            ExactFacts.due "green" (ExactFacts.start gridRows gridCols st) Tg)
  (Hnogreen : hasReq "green" (rowReqs st) (colReqs st) = false -> flat_map cells Tg = [])
  (Hblue : hasReq "blue" (rowReqs st) (colReqs st) = true ->
           ExactFacts.due "blue" (ExactFacts.start gridRows gridCols st) Tb)
  (Hnoblue : hasReq "blue" (rowReqs st) (colReqs st) = false -> flat_map cells Tb = [])
  (Hsome : flat_map cells (Tg ++ Tb) <> []).

(** The green search, when it ends below its cap, has found [Tg]. *)
Lemma green_reached :
  (List.length (greenFound all gridRows gridCols bl st) < 100)%nat ->
  exists g,
    In g (greenFound all gridRows gridCols bl st) /\
    ExactFacts.same_cells (sol_cells g) (flat_map cells Tg).
Proof.
  unfold greenFound. destruct (hasReq "green" (rowReqs st) (colReqs st)) eqn:Eg.
  - intros Hshort. rewrite (ExactFacts.cap_short _ Hshort).
    rewrite flat_map_app in Hnd.
    apply (solveForColor_finds "green" all gridRows gridCols bl st Tg HR HC
             (Nat.eq_le_incl _ _ (eq_sym Hrr)) (Nat.eq_le_incl _ _ (eq_sym Hcr)) Hgrid).
    + intros p Hp. apply Hin. apply in_app_iff. left. exact Hp.
    + exact (NoDup_app_remove_r _ _ Hnd).
    + intros rc Hrc. apply Hfree. rewrite flat_map_app. apply in_app_iff. left. exact Hrc.
    + exact (Hgreen eq_refl).
  - intros _. exists (mkColorSolution [] [] None). split; [left; reflexivity|].
    rewrite (Hnogreen eq_refl). intros rc. cbn. tauto.
Qed.

(** The blue search after such a green solution, when it ends below its
    cap, has found [Tb]. *)
Lemma blue_reached (g : ColorSolution) :
  hasReq "blue" (rowReqs st) (colReqs st) = true ->
  ExactFacts.same_cells (sol_cells g) (flat_map cells Tg) ->
  (List.length (blueAfter all gridRows gridCols bl st g) < 100)%nat ->
  exists b,
    In b (blueAfter all gridRows gridCols bl st g) /\
    ExactFacts.same_cells (sol_cells b) (flat_map cells Tb).
Proof.
  intros Eb Hg Hshort. unfold blueAfter in *. rewrite (ExactFacts.cap_short _ Hshort).
  rewrite flat_map_app in Hnd.
  apply (solveForColor_finds "blue" all gridRows gridCols (bl ++ sol_cells g) st Tb HR HC
           (Nat.eq_le_incl _ _ (eq_sym Hrr)) (Nat.eq_le_incl _ _ (eq_sym Hcr)) Hgrid).
  - intros p Hp. apply Hin. apply in_app_iff. right. exact Hp.
  - exact (NoDup_app_remove_l _ _ Hnd).
  - intros rc Hrc. rewrite in_app_iff. intros [H|H].
    + revert H. apply Hfree. rewrite flat_map_app. apply in_app_iff. right. exact Hrc.
    + apply Hg in H. exact (NoDup_app_disjoint _ _ _ Hnd H Hrc).
  - exact (Hblue Eb).
Qed.

(** The combinations made from the green solutions. *)
Lemma combine_reached (greenSolutions : list ColorSolution) (st1 : Store) :
  greenSolutions = greenFound all gridRows gridCols bl st ->
  SolverFacts.same_inputs st st1 ->
  exists res st',
    (r <- combine_loop (hasReq "blue" (rowReqs st) (colReqs st)) all gridRows gridCols bl
            greenSolutions [] st1 ;;
     let '(sols, st2) := r in
     if (List.length sols =? 0)%nat
     then Some (Failure "No valid solution found", st2)
     else Some (Success sols, st2)) = Some (res, st') /\
    ((List.length greenSolutions < 100)%nat ->
     exists sols,
       res = Success sols /\ sols <> [] /\
       ((List.length sols < 50)%nat ->
        exists s, In s sols /\
                  ExactFacts.same_cells (green s) (flat_map cells Tg) /\
                  ExactFacts.same_cells (blue s) (flat_map cells Tb))).
Proof.
  intros -> Hst1.
  set (gsols := greenFound all gridRows gridCols bl st).
  destruct (combine_loop_spec (hasReq "blue" (rowReqs st) (colReqs st)) all gridRows gridCols
              bl st HR HC (Nat.eq_le_incl _ _ (eq_sym Hrr)) (Nat.eq_le_incl _ _ (eq_sym Hcr))
              Hgrid gsols [] st1 Hst1)
    as (sols' & st' & E & _ & _ & Hsmall).
  rewrite E. cbn [app] in Hsmall.
  assert (Hkey : (List.length gsols < 100)%nat -> (List.length sols' < 50)%nat ->
                 exists s, In s sols' /\
                           ExactFacts.same_cells (green s) (flat_map cells Tg) /\
                           ExactFacts.same_cells (blue s) (flat_map cells Tb)).
  { intros Hg H50. specialize (Hsmall H50).
    destruct (green_reached Hg) as (g & Hing & Hcells).
    fold gsols in Hing.
    pose proof (ExactFacts.flat_map_length_In
                  (combinations (hasReq "blue" (rowReqs st) (colReqs st)) all gridRows
                     gridCols bl st)
                  _ _ Hing) as Hlen.
    rewrite <- Hsmall in Hlen.
    assert (Hcombo : exists s,
               In s (combinations (hasReq "blue" (rowReqs st) (colReqs st)) all gridRows
                       gridCols bl st g) /\
               ExactFacts.same_cells (green s) (flat_map cells Tg) /\
               ExactFacts.same_cells (blue s) (flat_map cells Tb)).
    { pose proof (blue_reached g) as Hbf.
      unfold combinations in Hlen |- *. revert Hlen.
      destruct (hasReq "blue" (rowReqs st) (colReqs st)) eqn:Eb; intros Hlen.
      - rewrite length_map in Hlen.
        destruct (Hbf eq_refl Hcells) as (b & Hb & Hbc); [lia|].
        exists (ExactFacts.combined g b). split; [|split; assumption].
        apply in_map. exact Hb.
      - exists (mkSolution (sol_cells g) [] (sol_placements g) []).
        split; [left; reflexivity|]. split; [exact Hcells|].
        rewrite (Hnoblue eq_refl). intros rc. cbn. tauto. }
    destruct Hcombo as (s & Hs & Hsg & Hsb). exists s. split; [|split; assumption].
    rewrite Hsmall. apply in_flat_map. exists g. split; assumption. }
  destruct (List.length sols' =? 0)%nat eqn:E0.
  - eexists _, st'. split; [reflexivity|]. intros Hg. exfalso.
    apply Nat.eqb_eq in E0. destruct (Hkey Hg) as (s & Hs & _); [lia|].
    apply length_zero_iff_nil in E0. rewrite E0 in Hs. destruct Hs.
  - exists (Success sols'), st'. split; [reflexivity|]. intros Hg.
    exists sols'. split; [reflexivity|]. split; [intros ->; discriminate E0|].
    intros H50. exact (Hkey Hg H50).
Qed.

Lemma some_placement : (List.length all =? 0)%nat = false.
Proof.
  destruct (Tg ++ Tb) as [|p T] eqn:E; [exfalso; apply Hsome; reflexivity|].
  destruct (Hin p (or_introl eq_refl)) as [Hp _].
  destruct all as [|q l]; [destruct Hp|reflexivity].
Qed.

(** [runSolver] returns; when the green search ends below its cap the
    result is a success, and when the solutions are fewer than 50 as well,
    one of them has the cells of [Tg] and [Tb]. *)
Lemma runSolver_complete :
  exists res st',
    runSolver lib gridRows gridCols enabledShapes st = Some (res, st') /\
    ((List.length (greenFound all gridRows gridCols bl st) < 100)%nat ->
     exists sols,
       res = Success sols /\ sols <> [] /\
       ((List.length sols < 50)%nat ->
        exists s, In s sols /\
                  ExactFacts.same_cells (green s) (flat_map cells Tg) /\
                  ExactFacts.same_cells (blue s) (flat_map cells Tb))).
Proof.
  pose proof green_reached as Hgf. pose proof combine_reached as Hcc.
  pose proof some_placement as Hsp.
  unfold runSolver. rewrite Hbl. cbv beta zeta.
  destruct (hasReq "green" (rowReqs st) (colReqs st)) eqn:Eg.
  - cbn [negb andb]. rewrite Hall, Hsp.
    destruct (solveForColor_spec "green" all gridRows gridCols bl st HR HC
                (Nat.eq_le_incl _ _ (eq_sym Hrr)) (Nat.eq_le_incl _ _ (eq_sym Hcr)) Hgrid)
      as (st1 & E & Hst1).
    rewrite E.
    assert (Egs : ExactFacts.cap (freeFound "green" all gridRows gridCols bl st)
                  = greenFound all gridRows gridCols bl st)
      by (unfold greenFound; rewrite Eg; reflexivity).
    rewrite Egs. clear Hsp.
    destruct (List.length (greenFound all gridRows gridCols bl st) =? 0)%nat eqn:E0.
    + eexists _, st1. split; [reflexivity|]. intros Hg. exfalso.
      destruct (Hgf Hg) as (g & Hing & _).
      apply Nat.eqb_eq, length_zero_iff_nil in E0. rewrite E0 in Hing. destruct Hing.
    + apply Hcc; [reflexivity|exact Hst1].
  - assert (Eb : hasReq "blue" (rowReqs st) (colReqs st) = true).
    { destruct (hasReq "blue" (rowReqs st) (colReqs st)) eqn:Eb; [reflexivity|].
      exfalso. apply Hsome. rewrite flat_map_app.
      rewrite (Hnogreen eq_refl), (Hnoblue eq_refl). reflexivity. }
    replace (negb false && negb (hasReq "blue" (rowReqs st) (colReqs st))) with false
      by (rewrite Eb; reflexivity).
    cbn [negb andb]. rewrite Hall, Hsp.
    assert (Egs : [mkColorSolution [] [] None] = greenFound all gridRows gridCols bl st)
      by (unfold greenFound; rewrite Eg; reflexivity).
    rewrite Egs.
    apply Hcc; [reflexivity|apply SolverFacts.same_inputs_refl].
Qed.

Lemma runSolver_greenSolutions_spec :
  runSolver_greenSolutions lib gridRows gridCols enabledShapes st
  = Some (greenFound all gridRows gridCols bl st).
Proof.
  clear Hin Hnd Hfree Hgreen Hnogreen Hblue Hnoblue Hsome.
  unfold runSolver_greenSolutions, greenFound. rewrite Hbl, Hall.
  destruct (hasReq "green" (rowReqs st) (colReqs st)); [|reflexivity].
  destruct (solveForColor_spec "green" all gridRows gridCols bl st HR HC
              (Nat.eq_le_incl _ _ (eq_sym Hrr)) (Nat.eq_le_incl _ _ (eq_sym Hcr)) Hgrid)
    as (st1 & E & _).
  rewrite E. reflexivity.
Qed.

End Certificate.

(** *** The candidate that [validateSolution] accepts *)

(** Every enabled shape is in the library. *)
Definition enabled_known (lib : ShapeLibrary) (enabledShapes : list string) : bool :=
  forallb (fun id => match lookup id lib with Some _ => true | None => false end)
          enabledShapes.

Lemma placementsOfShapes_total (lib : ShapeLibrary) (R C : Z) (B : list Cell)
    (ids : list string) :
  RoundTrip.library_ok lib = true -> enabled_known lib ids = true ->
  exists all, placementsOfShapes lib R C B ids = Some all.
Proof.
  intros Hlib. induction ids as [|id ids IH]; intros Hk; cbn [placementsOfShapes]; [eauto|].
  cbn [enabled_known forallb] in Hk. apply andb_true_iff in Hk. destruct Hk as [Hid Hk].
  destruct (lookup id lib) as [e|] eqn:El; [|discriminate].
  destruct (RoundTrip.generatePlacementsForShape_total lib id e R C B Hlib El) as [ps Hps].
  destruct (IH Hk) as [more Hmore]. rewrite Hps, Hmore. eauto.
Qed.

Lemma offered_cells (lib : ShapeLibrary) (R C : Z) (bl : list Cell) (ids : list string)
    (p : Placement) :
  RoundTrip.library_ok lib = true -> offered lib R C bl ids p -> cells p <> [].
Proof.
  intros Hlib (_ & ps & Hps & Hp). unfold generatePlacementsForShape in Hps.
  bind_as Hps e El.
  destruct (RoundTrip.placementsOfRotations_cells _ _ _ _ _ _ _ Hps p Hp)
    as (rot & b & row & col & Hrot & _ & _ & _ & ->).
  destruct (RoundTrip.library_ok_rotation _ _ _ _ Hlib El Hrot) as [Hn _].
  unfold RoundTrip.shiftTo. destruct rot as [|rc rot]; [|discriminate].
  exfalso. revert Hn. unfold normalized. cbn. intros [H _]. discriminate H.
Qed.

Section Candidate.

Variables (lib : ShapeLibrary) (gridRows gridCols : Z) (enabledShapes : list string)
          (st : Store) (blockedCells : list Cell) (s : Solution).

Hypotheses
  (Hlib : RoundTrip.library_ok lib = true)
  (Hknown : enabled_known lib enabledShapes = true)
  (Hrr : List.length (rowReqs st) = Z.to_nat gridRows)
  (Hcr : List.length (colReqs st) = Z.to_nat gridCols)
  (Hbl : blockedCellsOf gridRows gridCols (gridState st) = Some blockedCells)
  (Hg : green s = flat_map cells (greenPlacements s))
  (Hb : blue s = flat_map cells (bluePlacements s))
  (Hoff : Forall (offered lib gridRows gridCols blockedCells enabledShapes)
                 (greenPlacements s ++ bluePlacements s))
  (Hnd : NoDup (green s ++ blue s))
  (Hsome : green s ++ blue s <> [])
  (Hvalid : validateSolution s gridRows gridCols (rowReqs st) (colReqs st)
            = Some (true, [])).

Lemma free_candidate_found :
  exists res st' greenSolutions,
    runSolver lib gridRows gridCols enabledShapes st = Some (res, st') /\
    runSolver_greenSolutions lib gridRows gridCols enabledShapes st = Some greenSolutions /\
    ((List.length greenSolutions < 100)%nat ->
     exists sols,
       res = Success sols /\ sols <> [] /\
       ((List.length sols < 50)%nat ->
        exists s', In s' sols /\
                   ExactFacts.same_cells (green s') (green s) /\
                   ExactFacts.same_cells (blue s') (blue s))).
Proof.
  destruct (proj1 (validateSolution_spec _ _ _ _ _) Hvalid)
    as (HR & HC & Hgin & Hbin & Mg & Mb & Hdisj).
  destruct (placementsOfShapes_total lib gridRows gridCols (new_Set blockedCells)
              enabledShapes Hlib Hknown) as [all Hall].
  change (placementsOfShapes lib gridRows gridCols (new_Set blockedCells) enabledShapes)
    with (generateAllPlacements lib gridRows gridCols blockedCells enabledShapes) in Hall.
  assert (Hgrid : Forall (ExactFacts.in_grid (Z.to_nat gridRows) (Z.to_nat gridCols)) all).
  { apply Forall_forall. intros p Hp.
    destruct (generateAllPlacements_offered _ _ _ _ _ _ _ Hall Hp) as (_ & ps & Hps & Hin).
    pose proof (RoundTrip.generatePlacementsForShape_in_grid _ _ _ _ _ _ Hlib HR HC Hps)
      as Hall'.
    rewrite Forall_forall in Hall'. exact (Hall' p Hin). }
  assert (Hcand : forall l p, Forall (in_bounds gridRows gridCols) (flat_map cells l) ->
                    In p l -> ExactFacts.in_grid (Z.to_nat gridRows) (Z.to_nat gridCols) p).
  { intros l p Hl Hp. unfold ExactFacts.in_grid. rewrite Forall_forall in Hl |- *.
    intros rc Hrc. rewrite !Z2Nat.id by lia. apply Hl. apply in_flat_map. eauto. }
  rewrite Hg in Hgin, Mg. rewrite Hb in Hbin, Mb.
  assert (Hpre : forall p, In p (greenPlacements s ++ bluePlacements s) ->
                           In p all /\ cells p <> []).
  { intros p Hp. rewrite Forall_forall in Hoff. pose proof (Hoff p Hp) as Hp'.
    split; [|exact (offered_cells _ _ _ _ _ _ Hlib Hp')].
    destruct Hp' as (Hid & ps & Hps & Hin).
    apply (proj2 (placementsOfShapes_In _ _ _ _ _ _ Hall p)). eauto. }
  pose proof (runSolver_complete lib gridRows gridCols enabledShapes st blockedCells all
                (greenPlacements s) (bluePlacements s) HR HC Hrr Hcr Hbl Hall Hgrid Hpre)
    as Hrun.
  pose proof (runSolver_greenSolutions_spec lib gridRows gridCols enabledShapes st
                blockedCells all HR HC Hrr Hcr Hbl Hall Hgrid) as Hgs.
  destruct Hrun as (res & st' & Hrun & Hres).
  - rewrite flat_map_app, <- Hg, <- Hb. exact Hnd.
  - intros rc Hrc. apply in_flat_map in Hrc. destruct Hrc as (p & Hp & Hrc).
    rewrite Forall_forall in Hoff.
    exact (CompleteFacts.offered_free _ _ _ _ _ _ (Hoff p Hp) rc Hrc).
  - intros _. apply CompleteFacts.meets_due. exact Mg.
  - apply (ExactFacts.no_requirement_no_cell "green" gridRows gridCols st _
             (CompleteFacts.meets_due _ _ _ _ _ Mg)).
    intros p Hp. exact (Hcand _ p Hgin Hp).
  - intros _. apply CompleteFacts.meets_due. exact Mb.
  - apply (ExactFacts.no_requirement_no_cell "blue" gridRows gridCols st _
             (CompleteFacts.meets_due _ _ _ _ _ Mb)).
    intros p Hp. exact (Hcand _ p Hbin Hp).
  - rewrite flat_map_app, <- Hg, <- Hb. exact Hsome.
  - exists res, st', (greenFound all gridRows gridCols blockedCells st).
    split; [exact Hrun|]. split; [exact Hgs|].
    rewrite <- Hg, <- Hb in Hres. exact Hres.
Qed.

End Candidate.

(** X28.  Whatever [validateSolution] accepts, [runSolver] finds, below its caps.
    Take a candidate made of placements that [generatePlacementsForShape]
    lists for enabled shapes, no cell twice, with some cell, on a grid with
    one requirement per row and column, all enabled shapes being in a library
    of normalized rotations without repeated cell.  If [validateSolution]
    accepts the candidate, the solver returns; when its green search has
    found fewer than 100 solutions it answers with solutions, and when these
    are fewer than 50, one of them has the green cells and the blue cells of
    the candidate. *)
Theorem runSolver_finds_valid :
  forall lib gridRows gridCols enabledShapes st blockedCells s,
    RoundTrip.library_ok lib = true ->
    enabled_known lib enabledShapes = true ->
    List.length (rowReqs st) = Z.to_nat gridRows ->
    List.length (colReqs st) = Z.to_nat gridCols ->
    blockedCellsOf gridRows gridCols (gridState st) = Some blockedCells ->
    green s = flat_map cells (greenPlacements s) ->
    blue s = flat_map cells (bluePlacements s) ->
    Forall (offered lib gridRows gridCols blockedCells enabledShapes)
           (greenPlacements s ++ bluePlacements s) ->
    NoDup (green s ++ blue s) ->
    green s ++ blue s <> [] ->
    validateSolution s gridRows gridCols (rowReqs st) (colReqs st) = Some (true, []) ->
    exists res st' greenSolutions,
      runSolver lib gridRows gridCols enabledShapes st = Some (res, st') /\
      runSolver_greenSolutions lib gridRows gridCols enabledShapes st
      = Some greenSolutions /\
      ((List.length greenSolutions < 100)%nat ->
       exists sols,
         res = Success sols /\ sols <> [] /\
         ((List.length sols < 50)%nat ->
          exists s', In s' sols /\
                     ExactFacts.same_cells (green s') (green s) /\
                     ExactFacts.same_cells (blue s') (blue s))).
Proof.
  intros lib gridRows gridCols enabledShapes st blockedCells s.
  exact (free_candidate_found lib gridRows gridCols enabledShapes st blockedCells s).
Qed.

Lemma runSolver_finds_valid_witness :
  (RoundTrip.library_ok SHAPE_LIBRARY = true /\
   enabled_known SHAPE_LIBRARY ["line-3"; "square-4"] = true /\
   List.length (rowReqs Examples.strip_store) = Z.to_nat 1 /\
   List.length (colReqs Examples.strip_store) = Z.to_nat 5 /\
   blockedCellsOf 1 5 (gridState Examples.strip_store) = Some [(0, 4)] /\
   green Examples.strip_candidate
   = flat_map cells (greenPlacements Examples.strip_candidate) /\
   blue Examples.strip_candidate
   = flat_map cells (bluePlacements Examples.strip_candidate) /\
   Forall (offered SHAPE_LIBRARY 1 5 [(0, 4)] ["line-3"; "square-4"])
          (greenPlacements Examples.strip_candidate
           ++ bluePlacements Examples.strip_candidate) /\
   NoDup (green Examples.strip_candidate ++ blue Examples.strip_candidate) /\
   green Examples.strip_candidate ++ blue Examples.strip_candidate <> [] /\
   validateSolution Examples.strip_candidate 1 5 (rowReqs Examples.strip_store)
     (colReqs Examples.strip_store) = Some (true, [])) /\
  exists res st' greenSolutions,
    runSolver SHAPE_LIBRARY 1 5 ["line-3"; "square-4"] Examples.strip_store
    = Some (res, st') /\
    runSolver_greenSolutions SHAPE_LIBRARY 1 5 ["line-3"; "square-4"] Examples.strip_store
    = Some greenSolutions /\
    ((List.length greenSolutions < 100)%nat ->
     exists sols,
       res = Success sols /\ sols <> [] /\
       ((List.length sols < 50)%nat ->
        exists s', In s' sols /\
                   ExactFacts.same_cells (green s') (green Examples.strip_candidate) /\
                   ExactFacts.same_cells (blue s') (blue Examples.strip_candidate))).
Proof.
  assert (H1 : RoundTrip.library_ok SHAPE_LIBRARY = true) by (vm_compute; reflexivity).
  assert (H2 : enabled_known SHAPE_LIBRARY ["line-3"; "square-4"] = true)
    by (vm_compute; reflexivity).
  assert (H3 : List.length (rowReqs Examples.strip_store) = Z.to_nat 1) by reflexivity.
  assert (H4 : List.length (colReqs Examples.strip_store) = Z.to_nat 5) by reflexivity.
  assert (H5 : blockedCellsOf 1 5 (gridState Examples.strip_store) = Some [(0, 4)])
    by (vm_compute; reflexivity).
  assert (H6 : green Examples.strip_candidate
               = flat_map cells (greenPlacements Examples.strip_candidate)) by reflexivity.
  assert (H7 : blue Examples.strip_candidate
               = flat_map cells (bluePlacements Examples.strip_candidate)) by reflexivity.
  assert (H8 : Forall (offered SHAPE_LIBRARY 1 5 [(0, 4)] ["line-3"; "square-4"])
                      (greenPlacements Examples.strip_candidate
                       ++ bluePlacements Examples.strip_candidate)).
  { constructor; [|constructor]. split; [left; reflexivity|].
    eexists. split; [vm_compute; reflexivity|]. left. reflexivity. }
  assert (H9 : NoDup (green Examples.strip_candidate ++ blue Examples.strip_candidate))
    by (apply RoundTrip.nodupb_spec; vm_compute; reflexivity).
  assert (H10 : green Examples.strip_candidate ++ blue Examples.strip_candidate <> [])
    by discriminate.
  assert (H11 : validateSolution Examples.strip_candidate 1 5
                  (rowReqs Examples.strip_store) (colReqs Examples.strip_store)
                = Some (true, [])) by (vm_compute; reflexivity).
  split; [repeat split; assumption|].
  exact (runSolver_finds_valid SHAPE_LIBRARY 1 5 ["line-3"; "square-4"]
           Examples.strip_store [(0, 4)] Examples.strip_candidate
           H1 H2 H3 H4 H5 H6 H7 H8 H9 H10 H11).
Defined.

End FreeFacts.

(** ** When "fit all pieces" succeeds *)

Module FitOutcome.
Import Shapes Solver.

(** The search returns as soon as every instance has its list of
    placements. *)
Lemma fit_loop_total (k : FitState -> option (bool * FitState)) (ps : list Placement) :
  (forall st, exists r, k st = Some r) ->
  forall st, exists r, FitAllFacts.fit_loop k ps st = Some r.
Proof.
  intros Hk. induction ps as [|p ps IH]; intros st; cbn [FitAllFacts.fit_loop]; [eauto|].
  destruct (overlaps (fit_usedCells st) p); [apply IH|].
  destruct (Hk (fit_place p st)) as [[stop st2] ->].
  destruct stop; [eauto|apply IH].
Qed.

Lemma fit_backtrack_total (pbs : list (string * list Placement)) (instances : list string) :
  (forall id, In id instances -> exists ps, lookup id pbs = Some ps) ->
  forall st, exists r, fit_backtrack pbs instances st = Some r.
Proof.
  induction instances as [|id instances IH]; intros Hl st.
  - cbn [fit_backtrack]. eauto.
  - rewrite FitAllFacts.fit_backtrack_cons.
    destruct (Hl id (or_introl eq_refl)) as [ps ->].
    apply fit_loop_total. apply IH. intros x Hx. apply Hl. right. exact Hx.
Qed.

(** The check of the placement lists answers, and lets the search begin
    exactly when no list is empty. *)
Lemma firstWithoutPlacement_spec (lib : ShapeLibrary)
    (entries : list (string * list Placement)) :
  (forall k, In k (map fst entries) -> exists e, lookup k lib = Some e) ->
  exists missing,
    firstWithoutPlacement lib entries = Some missing /\
    (missing = None <-> forall k ps, In (k, ps) entries -> ps <> []).
Proof.
  induction entries as [|[k ps] entries IH]; intros Hk; cbn [firstWithoutPlacement].
  - exists None. split; [reflexivity|]. split; [intros _ k ps []|reflexivity].
  - destruct ps as [|p ps]; cbn [List.length Nat.eqb].
    + destruct (Hk k (or_introl eq_refl)) as [e ->]. eexists. split; [reflexivity|].
      split; [discriminate|]. intros H. destruct (H k [] (or_introl eq_refl) eq_refl).
    + destruct IH as (missing & E & Hm).
      { intros x Hx. apply Hk. right. exact Hx. }
      exists missing. split; [exact E|]. rewrite Hm. split.
      * intros H k' ps' [[= <- <-]|Hin]; [discriminate|exact (H _ _ Hin)].
      * intros H k' ps' Hin. apply (H k' ps'). right. exact Hin.
Qed.

Lemma placementsByShapeOf_keys (lib : ShapeLibrary) (R C : Z) (B : list Cell)
    (keys : list string) :
  forall acc pbs,
    placementsByShapeOf lib R C B keys acc = Some pbs ->
    NoDup (map fst acc) ->
    NoDup (map fst pbs) /\
    forall k, In k (map fst pbs) <-> In k keys \/ In k (map fst acc).
Proof.
  induction keys as [|id keys IH]; intros acc pbs H Hnd; simpl in H.
  - injection H as <-. split; [exact Hnd|]. intros k. cbn. tauto.
  - bind_as H ps E.
    destruct (IH _ _ H (RoundTrip.assign_keys_NoDup _ _ _ Hnd)) as [Hnd' Hk].
    split; [exact Hnd'|]. intros k. rewrite Hk, RoundTrip.assign_keys. cbn [In].
    split; [intros [H1|[H1|H1]]|intros [[H1|H1]|H1]]; auto.
Qed.

Section Outcome.

Variables (lib : ShapeLibrary) (gridRows gridCols : Z) (blockedCells : list Cell)
          (shapeCounts : list (string * Z)).

Hypotheses (Hlib : RoundTrip.library_ok lib = true)
           (Hknown : CompleteFacts.known lib shapeCounts = true).

Let cand (id : string) : option (list Placement) :=
  generatePlacementsForShape lib id gridRows gridCols (new_Set blockedCells).

Lemma key_known (id : string) :
  In id (map fst shapeCounts) -> exists e, lookup id lib = Some e.
Proof.
  intros Hid. unfold CompleteFacts.known in Hknown. rewrite forallb_forall in Hknown.
  specialize (Hknown id Hid). destruct (lookup id lib) as [e|]; [eauto|discriminate].
Qed.

Lemma fit_outcome :
  exists res,
    runFitAllPiecesSolver lib gridRows gridCols blockedCells shapeCounts = Some res /\
    ((exists sols, res = Success sols) <->
     shapeInstancesOf shapeCounts <> [] /\
     (forall id, In id (map fst shapeCounts) -> cand id <> Some []) /\
     exists chosen,
       PlacementFacts.fitting cand [] (shapeInstancesOf shapeCounts) chosen).
Proof.
  unfold runFitAllPiecesSolver. cbv zeta.
  destruct (shapeInstancesOf shapeCounts) as [|i0 rest] eqn:Ei.
  { cbn [List.length Nat.eqb]. eexists. split; [reflexivity|]. split.
    - intros (sols & H). discriminate H.
    - intros (H & _). destruct (H eq_refl). }
  cbn [List.length Nat.eqb]. rewrite <- Ei.
  destruct (RoundTrip.placementsByShapeOf_total lib gridRows gridCols
              (new_Set blockedCells) (map fst shapeCounts))
    with (acc := @nil (string * list Placement)) as [pbs Hpbs].
  { intros id Hid. destruct (key_known id Hid) as [e He].
    eapply RoundTrip.generatePlacementsForShape_total; eassumption. }
  rewrite Hpbs.
  pose proof (RoundTrip.placementsByShapeOf_lookup _ _ _ _ _ _ _ Hpbs) as Hlook.
  destruct (placementsByShapeOf_keys _ _ _ _ _ _ _ Hpbs (NoDup_nil _)) as [Hnd Hkeys].
  assert (Hkeys' : forall k, In k (map fst pbs) <-> In k (map fst shapeCounts)).
  { intros k. rewrite Hkeys. cbn. tauto. }
  destruct (firstWithoutPlacement_spec lib pbs) as (missing & Em & Hm).
  { intros k Hk. apply key_known. apply Hkeys'. exact Hk. }
  rewrite Em.
  assert (Hall : (forall k ps, In (k, ps) pbs -> ps <> []) <->
                 (forall id, In id (map fst shapeCounts) -> cand id <> Some [])).
  { split.
    - intros H id Hid Hc. unfold cand in Hc. rewrite <- (proj1 (Hlook id) Hid) in Hc.
      exact (H id [] (RoundTrip.lookup_In _ _ _ Hc) eq_refl).
    - intros H k ps Hin ->.
      assert (Hk : In k (map fst shapeCounts)).
      { apply Hkeys'. apply in_map_iff. exists (k, []). split; [reflexivity|exact Hin]. }
      apply (H k Hk). unfold cand. rewrite <- (proj1 (Hlook k) Hk).
      exact (MarkFacts.in_lookup _ _ _ Hnd Hin). }
  assert (Hfit : (exists s, In s (FitAllFacts.allFits pbs (shapeInstancesOf shapeCounts)
                                    [] [])) <->
                 exists chosen,
                   PlacementFacts.fitting cand [] (shapeInstancesOf shapeCounts) chosen).
  { split.
    - intros (s & Hs). apply PlacementFacts.allFits_fitting in Hs.
      destruct Hs as (chosen & Hf & _). exists chosen.
      exact (proj1 (PlacementFacts.fitting_generated _ _ _ _ _ _ _ Hpbs) Hf).
    - intros (chosen & Hf). eexists. apply PlacementFacts.allFits_fitting.
      exists chosen. split; [|reflexivity].
      exact (proj2 (PlacementFacts.fitting_generated _ _ _ _ _ _ _ Hpbs) Hf). }
  destruct missing as [message|].
  - eexists. split; [reflexivity|]. split.
    + intros (sols & H). discriminate H.
    + intros (_ & H & _). discriminate (proj2 Hm (proj2 Hall H)).
  - destruct (fit_backtrack_total pbs (shapeInstancesOf shapeCounts)) with
      (st := mkFit [] [] []) as [[stop st'] Er].
    { intros id Hid. apply RoundTrip.shapeInstancesOf_In in Hid.
      rewrite (proj1 (Hlook id) Hid). destruct (key_known id Hid) as [e He].
      eapply RoundTrip.generatePlacementsForShape_total; eassumption. }
    rewrite Er. cbn [snd].
    destruct (FitAllFacts.fit_backtrack_runs pbs _ (mkFit [] [] []) stop st' eq_refl Er)
      as (Hs & _).
    cbn [fit_solutions fit_usedCells fit_currentPlacements app] in Hs.
    pose proof (proj1 Hm eq_refl) as Hnone.
    destruct (List.length (fit_solutions st') =? 0)%nat eqn:E0.
    + eexists. split; [reflexivity|]. split.
      * intros (sols & H). discriminate H.
      * intros (_ & _ & Hc). exfalso. destruct (proj2 Hfit Hc) as (s & Hin).
        apply Nat.eqb_eq, length_zero_iff_nil in E0. rewrite Hs in E0.
        unfold FitAllFacts.cap in E0.
        destruct (FitAllFacts.allFits pbs (shapeInstancesOf shapeCounts) [] []);
          [destruct Hin|discriminate E0].
    + eexists. split; [reflexivity|]. split.
      * intros _. split; [rewrite Ei; discriminate|]. split; [exact (proj1 Hall Hnone)|].
        apply (proj1 Hfit). rewrite Hs in E0. unfold FitAllFacts.cap in E0.
        destruct (FitAllFacts.allFits pbs (shapeInstancesOf shapeCounts) [] []) as [|s l];
          [discriminate E0|].
        exists s. left. reflexivity.
      * intros _. eauto.
Qed.

End Outcome.

(** X29.  For shapes that the library holds, [runFitAllPiecesSolver] always
    returns, and it answers with solutions exactly when some piece is to be
    placed, every key of [shapeCounts] has at least one placement on the
    grid, whether it counts pieces or not, and the pieces can be placed
    together, each on one of its placements, no two on a common cell. *)
Theorem runFitAllPiecesSolver_succeeds_iff :
  forall lib gridRows gridCols blockedCells shapeCounts,
    RoundTrip.library_ok lib = true ->
    CompleteFacts.known lib shapeCounts = true ->
    exists res,
      runFitAllPiecesSolver lib gridRows gridCols blockedCells shapeCounts = Some res /\
      ((exists sols, res = Success sols) <->
       shapeInstancesOf shapeCounts <> [] /\
       (forall id, In id (map fst shapeCounts) ->
          generatePlacementsForShape lib id gridRows gridCols (new_Set blockedCells)
          <> Some []) /\
       exists chosen,
         PlacementFacts.fitting
           (fun id => generatePlacementsForShape lib id gridRows gridCols
                        (new_Set blockedCells))
           [] (shapeInstancesOf shapeCounts) chosen).
Proof.
  intros lib gridRows gridCols blockedCells shapeCounts Hlib Hknown.
  exact (fit_outcome lib gridRows gridCols blockedCells shapeCounts Hlib Hknown).
Qed.

Lemma runFitAllPiecesSolver_succeeds_iff_witness :
  (RoundTrip.library_ok SHAPE_LIBRARY = true /\
   CompleteFacts.known SHAPE_LIBRARY [("line-3", 1); ("square-4", 0)] = true) /\
  exists res,
    runFitAllPiecesSolver SHAPE_LIBRARY 1 4 [] [("line-3", 1); ("square-4", 0)]
      = Some res /\
    ((exists sols, res = Success sols) <->
     shapeInstancesOf [("line-3", 1); ("square-4", 0)] <> [] /\
     (forall id, In id (map fst [("line-3", 1); ("square-4", 0)]) ->
        generatePlacementsForShape SHAPE_LIBRARY id 1 4 (new_Set []) <> Some []) /\
     exists chosen,
       PlacementFacts.fitting
         (fun id => generatePlacementsForShape SHAPE_LIBRARY id 1 4 (new_Set []))
         [] (shapeInstancesOf [("line-3", 1); ("square-4", 0)]) chosen).
Proof.
  assert (H1 : RoundTrip.library_ok SHAPE_LIBRARY = true) by (vm_compute; reflexivity).
  assert (H2 : CompleteFacts.known SHAPE_LIBRARY [("line-3", 1); ("square-4", 0)] = true)
    by (vm_compute; reflexivity).
  split; [split; assumption|].
  exact (runFitAllPiecesSolver_succeeds_iff SHAPE_LIBRARY 1 4 []
           [("line-3", 1); ("square-4", 0)] H1 H2).
Defined.

End FitOutcome.

(** ** The two checks on the counts *)

Module CountFacts.
Import Shapes Solver.

Lemma exact_iff (color : string) (counts : list Z) (reqs : list Req) :
  ExactFacts.exact color counts reqs <->
  forall i x, nth_error counts i = Some x ->
    exists q, nth_error reqs i = Some q /\ lookup color q = Some x.
Proof.
  split; [apply ExactFacts.exact_get|apply RoundTrip.exact_of_get].
Qed.

Lemma countsMatch_true (rowCounts colCounts : list Z) (rowReqs colReqs : list Req)
    (color : string) :
  countsMatch rowCounts colCounts rowReqs colReqs color = Some true <->
  ExactFacts.exact color rowCounts rowReqs /\ ExactFacts.exact color colCounts colReqs.
Proof.
  unfold countsMatch, ExactFacts.exact.
  destruct (some_index strict_neq rowCounts rowReqs color) as [[|]|].
  - split; [discriminate|]. intros [H _]. discriminate H.
  - destruct (some_index strict_neq colCounts colReqs color) as [[|]|].
    + split; [discriminate|]. intros [_ H]. discriminate H.
    + split; auto.
    + split; [discriminate|]. intros [_ H]. discriminate H.
  - split; [discriminate|]. intros [H _]. discriminate H.
Qed.

(** X30.  The two checks agree.  [countsMatch] answers true exactly when every
    row count and every column count equals the requirement of the colour in
    its line; and whenever counts that are nowhere smaller match, the counts
    at hand do not exceed: the search, which stops where [countsExceed]
    answers true, gives up no node from which more cells could lead to a
    match. *)
Theorem countsExceed_prunes_safely :
  forall rowCounts colCounts rowCounts' colCounts' rowReqs colReqs color,
    (countsMatch rowCounts' colCounts' rowReqs colReqs color = Some true <->
     (forall i x, nth_error rowCounts' i = Some x ->
        exists q, nth_error rowReqs i = Some q /\ lookup color q = Some x) /\
     (forall i x, nth_error colCounts' i = Some x ->
        exists q, nth_error colReqs i = Some q /\ lookup color q = Some x)) /\
    (Forall2 Z.le rowCounts rowCounts' ->
     Forall2 Z.le colCounts colCounts' ->
     countsMatch rowCounts' colCounts' rowReqs colReqs color = Some true ->
     countsExceed rowCounts colCounts rowReqs colReqs color = Some false).
Proof.
  intros rowCounts colCounts rowCounts' colCounts' rowReqs colReqs color. split.
  - rewrite countsMatch_true, !exact_iff. reflexivity.
  - intros Hr Hc Hm. apply countsMatch_true in Hm. destruct Hm as [Er Ec].
    unfold countsExceed.
    rewrite (ExactFacts.not_exceed color _ _ _ Hr Er),
            (ExactFacts.not_exceed color _ _ _ Hc Ec).
    reflexivity.
Qed.

Lemma countsExceed_prunes_safely_witness :
  (Forall2 Z.le [1; 0] [1; 2] /\ Forall2 Z.le [0; 1; 0] [1; 1; 1] /\
   countsMatch [1; 2] [1; 1; 1]
     [[("green", 1); ("blue", 0)]; [("green", 2); ("blue", 0)]]
     [[("green", 1)]; [("green", 1)]; [("green", 1)]] "green" = Some true) /\
  countsExceed [1; 0] [0; 1; 0]
    [[("green", 1); ("blue", 0)]; [("green", 2); ("blue", 0)]]
    [[("green", 1)]; [("green", 1)]; [("green", 1)]] "green" = Some false.
Proof.
  assert (H1 : Forall2 Z.le [1; 0] [1; 2]) by (repeat constructor; lia).
  assert (H2 : Forall2 Z.le [0; 1; 0] [1; 1; 1]) by (repeat constructor; lia).
  assert (H3 : countsMatch [1; 2] [1; 1; 1]
                 [[("green", 1); ("blue", 0)]; [("green", 2); ("blue", 0)]]
                 [[("green", 1)]; [("green", 1)]; [("green", 1)]] "green" = Some true)
    by reflexivity.
  split; [repeat split; assumption|].
  exact (proj2 (countsExceed_prunes_safely [1; 0] [0; 1; 0] [1; 2] [1; 1; 1]
                  [[("green", 1); ("blue", 0)]; [("green", 2); ("blue", 0)]]
                  [[("green", 1)]; [("green", 1)]; [("green", 1)]] "green") H1 H2 H3).
Defined.

End CountFacts.
